(** * lattigostats: statistical operators over CKKS ciphertexts

    A shallow embedding of the Go packages [he], [numeric], [categorical],
    [ordinal], [jobs] and [storage], followed by theorems about them.

    Conventions.
    - Go's [int] and [int64] are 64-bit two's complement: values are [Z],
      and every arithmetic operation of the source is written with its
      wrap-around ([GoInt.wrap]).
    - Go's [float64] is [spec_float] at precision 53 and [emax] 1024.
    - A function returning [(T, error)] returns [result T]; the methods of
      [he.Evaluator], which also bump the shared operation counters, live in
      the state-and-error monad [HE].
    - The Lattigo library is not part of the repository: its evaluator,
      bootstrapper and codec are parameters ([Backend], [Bootstrapper],
      [Codec]).  Elapsed-time fields of [Stats] are left out. *)

From Stdlib Require Import ZArith List String Bool Lia Lqa QArith Qfield Qpower.
From Stdlib Require Import Floats.SpecFloat.
From Stdlib Require Strings.Byte.
Import ListNotations.

Local Open Scope string_scope.
Local Open Scope Z_scope.

(* ===================================================================== *)
(** * Go machine integers *)
(* ===================================================================== *)

Module GoInt.

Definition min_int : Z := - 2 ^ 63.
Definition max_int : Z := 2 ^ 63 - 1.

Definition in_range (z : Z) : Prop := min_int <= z <= max_int.

(** Reduction of a mathematical integer to the [int] that holds it. *)
Definition wrap (z : Z) : Z := (z + 2 ^ 63) mod 2 ^ 64 - 2 ^ 63.

Definition add (a b : Z) : Z := wrap (a + b).
Definition sub (a b : Z) : Z := wrap (a - b).
Definition mul (a b : Z) : Z := wrap (a * b).

(** [a << n] for a signed shift count: a negative count panics ([None]),
    a count of 64 or more shifts every bit out. *)
Definition shl (a n : Z) : option Z :=
  if n <? 0 then None
  else if 64 <=? n then Some 0
  else Some (wrap (Z.shiftl a n)).

(** [uint64(n)] of a non-negative [int]. *)
Definition to_uint64 (z : Z) : Z := z mod 2 ^ 64.

End GoInt.

(* ===================================================================== *)
(** * Go float64 *)
(* ===================================================================== *)

Module Float64.

Definition prec : Z := 53.
Definition emax : Z := 1024.

Definition float64 : Type := spec_float.

Definition zero : float64 := S754_zero false.

(** [float64(n)] for an [int] n, round to nearest even. *)
Definition of_int (n : Z) : float64 := binary_normalize prec emax n 0 false.

Definition one : float64 := of_int 1.

(** [x < y], false as soon as one side is NaN. *)
Definition ltb (x y : float64) : bool := SFltb x y.

(** [x <= y], false as soon as one side is NaN. *)
Definition leb (x y : float64) : bool := SFleb x y.

(** [math.Ldexp(frac, exp)] = frac * 2^exp, rounded, with overflow to an
    infinity and underflow to zero. *)
Definition Ldexp (frac : float64) (exp : Z) : float64 :=
  SFldexp prec emax frac exp.

(** [x / y] on float64, round to nearest even. *)
Definition div (x y : float64) : float64 := SFdiv prec emax x y.

Definition is_nan (x : float64) : bool :=
  match x with S754_nan => true | _ => false end.

Definition is_finite (x : float64) : bool :=
  match x with S754_zero _ | S754_finite _ _ _ => true | _ => false end.

(** The rational a finite float stands for (0 for NaN and infinities). *)
Definition to_Q (x : float64) : Q :=
  match x with
  | S754_finite s m e =>
      (if s then - inject_Z (Z.pos m) else inject_Z (Z.pos m)) * (2 ^ e)
  | _ => 0
  end%Q.

Definition valid (x : float64) : bool := valid_binary prec emax x.

End Float64.

Import Float64.

(* ===================================================================== *)
(** * Errors *)
(* ===================================================================== *)

Inductive fmt_arg : Type :=
| ArgInt (z : Z)
| ArgStr (s : string).

(** [External] is an error value made outside the repository (Lattigo, io);
    [Errorf] is [fmt.Errorf] without a [%w] verb and [Wrapf] is [fmt.Errorf]
    with one, [cause] being the wrapped error; [Panic] is a run-time panic;
    [OutOfFuel] is the model's own outcome for a loop cut short, never
    produced by the Go code. *)
Inductive error : Type :=
| External (msg : string)
| Errorf (format : string) (args : list fmt_arg)
| Wrapf (format : string) (args : list fmt_arg) (cause : error)
| Panic (msg : string)
| OutOfFuel.

Inductive result (A : Type) : Type :=
| Ok (a : A)
| Err (e : error).

Arguments Ok {A} a.
Arguments Err {A} e.

Definition is_err {A : Type} (r : result A) : bool :=
  match r with Ok _ => false | Err _ => true end.

(** What [fmt.Errorf("...: %w", ..., err)] makes of [err] on a failure path.
    A panic is not an error value and passes through untouched. *)
Definition wrapf (format : string) (args : list fmt_arg) (e : error) : error :=
  match e with
  | Panic _ | OutOfFuel => e
  | _ => Wrapf format args e
  end.

(* ===================================================================== *)
(** * package categorical: LBc configuration (draft with DeltaOffset) *)
(* ===================================================================== *)

Module LBc.

Record LBcConfig : Type := {
  Delta : Z;        (* Δ: bit spacing in PBMV between categories *)
  DeltaOffset : Z;  (* δ: initial bit offset *)
  LambdaBig : Z     (* Λ: scale factor for BBMV (2^Λ) *)
}.

Definition DefaultLBcConfig : LBcConfig :=
  {| Delta := 10; DeltaOffset := 10; LambdaBig := 30 |}.

(** [ValidateLBcConfig]: [Ok tt] is the nil error. *)
Definition ValidateLBcConfig (config : LBcConfig) (categories : Z) : result unit :=
  let maxExp :=
    GoInt.add (DeltaOffset config)
              (GoInt.mul (Delta config) (GoInt.sub categories 1)) in
  if 52 <? maxExp then
    Err (Errorf "PBMV exponent overflow: δ + Δ*(S-1) = %d > 52 bits"
                [ArgInt maxExp])
  else if 52 <? LambdaBig config then
    Err (Errorf "BBMV Λ = %d > 52 bits" [ArgInt (LambdaBig config)])
  else Ok tt.

Record PBMVEncoder : Type := {
  config : LBcConfig;
  categories : Z;
  slots : Z
}.

Definition NewPBMVEncoder (categories slots : Z) (config : LBcConfig) : PBMVEncoder :=
  {| config := config; categories := categories; slots := slots |}.

(** The [for i, v := range values] loop of [EncodePBMV], started at index
    [i] on [result]; writing [result[i]] goes through [set_nth]. *)
Fixpoint set_nth {A : Type} (n : nat) (x : A) (l : list A) : list A :=
  match l, n with
  | [], _ => []
  | _ :: t, O => x :: t
  | h :: t, S n' => h :: set_nth n' x t
  end.

Fixpoint encode_loop (p : PBMVEncoder) (i : Z) (values : list Z)
         (result : list float64) : list float64 :=
  match values with
  | [] => result
  | v :: rest =>
      if slots p <=? i then result                       (* break *)
      else if (v <? 1) || (categories p <? v) then
        encode_loop p (i + 1) rest result                (* continue *)
      else
        let exp :=
          GoInt.add (DeltaOffset (config p))
                    (GoInt.mul (Delta (config p)) (GoInt.sub v 1)) in
        encode_loop p (i + 1) rest
                    (set_nth (Z.to_nat i) (Ldexp one exp) result)
  end.

(** [make([]float64, p.slots)] panics on a negative length. *)
Definition EncodePBMV (p : PBMVEncoder) (values : list Z) : result (list float64) :=
  if slots p <? 0 then Err (Panic "makeslice: len out of range")
  else Ok (encode_loop p 0 values (repeat zero (Z.to_nat (slots p)))).

End LBc.

(* ===================================================================== *)
(** * package categorical: the PBMV encoder of binop.go *)
(* ===================================================================== *)

Module LBcBinop.

Record LBcConfig : Type := {
  Delta : Z;      (* Δ: bit spacing in PBMV *)
  LambdaBig : Z   (* Λ: scale factor for BBMV (2^Λ) *)
}.

Definition DefaultLBcConfig : LBcConfig :=
  {| Delta := 8; LambdaBig := 10 |}.

Record PBMVEncoder : Type := {
  config : LBcConfig;
  categories : Z;
  slots : Z
}.

Definition NewPBMVEncoder (categories slots : Z) (config : LBcConfig) : PBMVEncoder :=
  {| config := config; categories := categories; slots := slots |}.

Fixpoint encode_loop (p : PBMVEncoder) (spacing : Z) (i : Z) (values : list Z)
         (result : list float64) : list float64 :=
  match values with
  | [] => result
  | v :: rest =>
      if slots p <=? i then result                       (* break *)
      else if (1 <=? v) && (v <=? categories p) then
        let pos := GoInt.mul (GoInt.sub v 1) spacing in
        if pos <? slots p then
          encode_loop p spacing (i + 1) rest
                      (LBc.set_nth (Z.to_nat i) (of_int v) result)
        else encode_loop p spacing (i + 1) rest result
      else encode_loop p spacing (i + 1) rest result
  end.

Definition EncodePBMV (p : PBMVEncoder) (values : list Z) : result (list float64) :=
  if slots p <? 0 then Err (Panic "makeslice: len out of range")
  else
    match GoInt.shl 1 (Delta (config p)) with
    | None => Err (Panic "negative shift amount")
    | Some spacing =>
        Ok (encode_loop p spacing 0 values (repeat zero (Z.to_nat (slots p))))
    end.

End LBcBinop.

(* ===================================================================== *)
(** * package jobs *)
(* ===================================================================== *)

Module Jobs.

(** [type Operation string] *)
Definition Operation : Type := string.

Definition OpMean : Operation := "mean".
Definition OpVariance : Operation := "var".
Definition OpStdev : Operation := "stdev".
Definition OpCorr : Operation := "corr".
Definition OpBc : Operation := "bc".
Definition OpBa : Operation := "ba".
Definition OpBv : Operation := "bv".
Definition OpLBc : Operation := "lbc".
Definition OpPercentile : Operation := "percentile".
Definition OpLookup : Operation := "lookup".

Record Condition : Type := {
  Column : string;
  Value : Z
}.

Record JobSpec : Type := {
  ID : string;
  Op : Operation;               (* field [Operation] *)
  Table : string;
  InputColumns : list string;
  TargetColumn : string;
  Conditions : list Condition;
  K : float64;
  LookupValue : Z;
  PrivacyPolicy : string;
  OutputFormat : string
}.

Definition len {A : Type} (l : list A) : Z := Z.of_nat (List.length l).

(** [JobSpec.Validate]; [Ok tt] is the nil error. *)
Definition Validate (j : JobSpec) : result unit :=
  if String.eqb (ID j) "" then Err (Errorf "job ID is required" [])
  else if String.eqb (Table j) "" then Err (Errorf "table name is required" [])
  else if String.eqb (Op j) OpMean || String.eqb (Op j) OpVariance
          || String.eqb (Op j) OpStdev then
    if negb (len (InputColumns j) =? 1) then
      Err (Errorf "operation %s requires exactly one input column" [ArgStr (Op j)])
    else Ok tt
  else if String.eqb (Op j) OpCorr then
    if negb (len (InputColumns j) =? 2) then
      Err (Errorf "operation %s requires exactly two input columns" [ArgStr (Op j)])
    else Ok tt
  else if String.eqb (Op j) OpBc then
    if len (Conditions j) =? 0 then
      Err (Errorf "operation bc requires at least one condition" [])
    else Ok tt
  else if String.eqb (Op j) OpBa || String.eqb (Op j) OpBv then
    if len (Conditions j) =? 0 then
      Err (Errorf "operation %s requires at least one condition" [ArgStr (Op j)])
    else if String.eqb (TargetColumn j) "" then
      Err (Errorf "operation %s requires a target column" [ArgStr (Op j)])
    else Ok tt
  else if String.eqb (Op j) OpLBc then
    if len (InputColumns j) <? 2 then
      Err (Errorf "operation lbc requires at least two input columns" [])
    else Ok tt
  else if String.eqb (Op j) OpPercentile then
    if negb (len (InputColumns j) =? 1) then
      Err (Errorf "operation percentile requires exactly one ordinal column" [])
    else if ltb (K j) zero || ltb (of_int 100) (K j) then
      Err (Errorf "k must be between 0 and 100" [])
    else Ok tt
  else if String.eqb (Op j) OpLookup then
    if negb (len (InputColumns j) =? 1) then
      Err (Errorf "operation lookup requires exactly one categorical column" [])
    else if String.eqb (TargetColumn j) "" then
      Err (Errorf "operation lookup requires a target column" [])
    else Ok tt
  else Err (Errorf "unknown operation: %s" [ArgStr (Op j)]).

End Jobs.

(* ===================================================================== *)
(** * cmd/da_run: the job runner *)
(* ===================================================================== *)

Module DaRun.

(** The checks [runPercentile] opens with, on the job alone, before it
    looks up the column and loads any block; [Ok tt] lets the computation
    go on. *)
Definition runPercentileChecks (job : Jobs.JobSpec) : result unit :=
  if Jobs.len (Jobs.InputColumns job) <? 1 then
    Err (Errorf "percentile requires an input column" [])
  else if leb (Jobs.K job) zero || ltb (of_int 100) (Jobs.K job) then
    Err (Errorf "k must be between 0 and 100" [])
  else Ok tt.

End DaRun.


(* ===================================================================== *)
(** * The evaluator's effects: operation counters and errors *)
(* ===================================================================== *)

(** [he.Stats], counters only. *)
Record Stats : Type := {
  MulCount : Z;
  AddCount : Z;
  RotateCount : Z;
  RescaleCount : Z;
  BootstrapCount : Z
}.

Definition zeroStats : Stats :=
  {| MulCount := 0; AddCount := 0; RotateCount := 0; RescaleCount := 0;
     BootstrapCount := 0 |}.

Definition incMul (s : Stats) : Stats :=
  {| MulCount := GoInt.add (MulCount s) 1; AddCount := AddCount s;
     RotateCount := RotateCount s; RescaleCount := RescaleCount s;
     BootstrapCount := BootstrapCount s |}.

Definition incAdd (s : Stats) : Stats :=
  {| MulCount := MulCount s; AddCount := GoInt.add (AddCount s) 1;
     RotateCount := RotateCount s; RescaleCount := RescaleCount s;
     BootstrapCount := BootstrapCount s |}.

Definition incRotate (s : Stats) : Stats :=
  {| MulCount := MulCount s; AddCount := AddCount s;
     RotateCount := GoInt.add (RotateCount s) 1; RescaleCount := RescaleCount s;
     BootstrapCount := BootstrapCount s |}.

Definition incRescale (s : Stats) : Stats :=
  {| MulCount := MulCount s; AddCount := AddCount s;
     RotateCount := RotateCount s; RescaleCount := GoInt.add (RescaleCount s) 1;
     BootstrapCount := BootstrapCount s |}.

Definition incBootstrap (s : Stats) : Stats :=
  {| MulCount := MulCount s; AddCount := AddCount s;
     RotateCount := RotateCount s; RescaleCount := RescaleCount s;
     BootstrapCount := GoInt.add (BootstrapCount s) 1 |}.

(** A computation over a state [S] that returns a value or an error; the
    state survives an error. *)
Definition StateErr (S A : Type) : Type := S -> result A * S.

(** The methods of [he.Evaluator] read and update the counters. *)
Definition HE (A : Type) : Type := StateErr Stats A.

Definition ret {S A : Type} (a : A) : StateErr S A := fun st => (Ok a, st).

Definition fail {S A : Type} (e : error) : StateErr S A := fun st => (Err e, st).

Definition bind {S A B : Type} (m : StateErr S A) (k : A -> StateErr S B)
  : StateErr S B :=
  fun st =>
    match m st with
    | (Ok a, st') => k a st'
    | (Err e, st') => (Err e, st')
    end.

Definition liftR {S A : Type} (r : result A) : StateErr S A := fun st => (r, st).

Definition tick (f : Stats -> Stats) : HE unit := fun st => (Ok tt, f st).

(** [if err != nil { return nil, fmt.Errorf(format, args..., err) }] *)
Definition onErr {S A : Type} (m : StateErr S A) (format : string)
           (args : list fmt_arg) : StateErr S A :=
  fun st =>
    match m st with
    | (Ok a, st') => (Ok a, st')
    | (Err e, st') => (Err (wrapf format args e), st')
    end.

Declare Scope he_scope.
Delimit Scope he_scope with he.
Notation "x <- m ;; k" := (bind m (fun x => k))
  (at level 61, m at next level, right associativity) : he_scope.
Notation "m ;;; k" := (bind m (fun _ => k))
  (at level 61, right associativity) : he_scope.
Local Open Scope he_scope.

(** [for i, x := range l { acc = body i x acc }], an error ending the loop. *)
Fixpoint for_range_from {A S : Type} (i : Z) (l : list A)
         (body : Z -> A -> S -> HE S) (acc : S) : HE S :=
  match l with
  | [] => ret acc
  | x :: rest => acc' <- body i x acc ;; for_range_from (i + 1) rest body acc'
  end.

Definition for_range {A S : Type} (l : list A) (body : Z -> A -> S -> HE S)
           (acc : S) : HE S :=
  for_range_from 0 l body acc.

(** [for i := 0; i < n; i++ { acc = body i acc }] *)
Definition for_upto {S : Type} (n : Z) (body : Z -> S -> HE S) (acc : S) : HE S :=
  for_range (repeat tt (Z.to_nat n)) (fun i _ s => body i s) acc.

(** [l[i]]: a run-time panic outside the bounds. *)
Definition index {A : Type} (l : list A) (i : Z) : HE A :=
  if i <? 0 then fail (Panic "index out of range")
  else match nth_error l (Z.to_nat i) with
       | Some a => ret a
       | None => fail (Panic "index out of range")
       end.

(** Dereferencing a possibly nil pointer. *)
Definition deref {A : Type} (p : option A) : HE A :=
  match p with
  | Some a => ret a
  | None => fail (Panic "nil pointer dereference")
  end.

(* ===================================================================== *)
(** * The Lattigo interface *)
(* ===================================================================== *)

(** What the repository calls of Lattigo's CKKS evaluator and parameters,
    over a type [Ct] of ciphertexts.  A [complex128] constant is given by
    its real part, a rational: every constant of the source has imaginary
    part 0. *)
Record Backend (Ct : Type) : Type := {
  MaxSlots : Z;                          (* params.MaxSlots() *)
  CtLevel : Ct -> Z;                     (* ct.Level() *)
  AddNew : Ct -> Ct -> result Ct;        (* evaluator.AddNew, evaluator.Add *)
  SubNew : Ct -> Ct -> result Ct;        (* evaluator.SubNew *)
  MulRelinNew : Ct -> Ct -> result Ct;   (* evaluator.MulRelinNew *)
  MulScalar : Ct -> Q -> result Ct;      (* evaluator.Mul(ct, constant, out) *)
  AddScalar : Ct -> Q -> result Ct;      (* evaluator.Add(ct, constant, out) *)
  RescaleTo : Ct -> result Ct;           (* evaluator.Rescale(ct, out) *)
  RotateNew : Ct -> Z -> result Ct;      (* evaluator.RotateNew *)
  NewCiphertextLike : Ct -> Ct           (* rlwe.NewCiphertext at x's level and scale *)
}.

Arguments MaxSlots {Ct} _.
Arguments CtLevel {Ct} _ _.
Arguments AddNew {Ct} _ _ _.
Arguments SubNew {Ct} _ _ _.
Arguments MulRelinNew {Ct} _ _ _.
Arguments MulScalar {Ct} _ _ _.
Arguments AddScalar {Ct} _ _ _.
Arguments RescaleTo {Ct} _ _.
Arguments RotateNew {Ct} _ _ _.
Arguments NewCiphertextLike {Ct} _ _.

(** [bootstrapping.Evaluator] *)
Record Bootstrapper (Ct : Type) : Type := {
  MinimumInputLevel : Z;
  BtpBootstrap : Ct -> result Ct
}.

Arguments MinimumInputLevel {Ct} _.
Arguments BtpBootstrap {Ct} _ _.

(* ===================================================================== *)
(** * package he: the evaluator facade *)
(* ===================================================================== *)

Section Evaluator.

Context {Ct : Type}.
Variable B : Backend Ct.

(** [he.Evaluator]: the parameters, encoder and Lattigo evaluator are [B];
    the counters are the state of [HE]. *)
Record Evaluator : Type := {
  bootstrapper : option (Bootstrapper Ct);
  minLevel : Z
}.

Definition NewEvaluator (btp : option (Bootstrapper Ct)) : result Evaluator :=
  let minLevel :=
    match btp with
    | Some b => MinimumInputLevel b
    | None => 2
    end in
  Ok {| bootstrapper := btp; minLevel := minLevel |}.

(** Ciphertexts are values: a fresh copy is the value itself. *)
Definition CopyNew (ct : Ct) : Ct := ct.

Definition Slots (e : Evaluator) : Z := MaxSlots B.

Definition Level (e : Evaluator) (ct : Ct) : Z := CtLevel B ct.

Definition NeedsBootstrap (e : Evaluator) (ct : Ct) : bool :=
  CtLevel B ct <=? minLevel e.

Definition CanBootstrap (e : Evaluator) : bool :=
  match bootstrapper e with Some _ => true | None => false end.

Definition Bootstrap (e : Evaluator) (ct : Ct) : HE Ct :=
  match bootstrapper e with
  | None => fail (Errorf "bootstrapping not available" [])
  | Some btp =>
      result <- onErr (liftR (BtpBootstrap btp ct)) "bootstrap failed: %w" [] ;;
      tick incBootstrap ;;;
      ret result
  end.

Definition MaybeBootstrap (e : Evaluator) (ct : Ct) : HE Ct :=
  if NeedsBootstrap e ct && CanBootstrap e then Bootstrap e ct
  else ret ct.

Definition Add (e : Evaluator) (op0 op1 : Ct) : HE Ct :=
  result <- onErr (liftR (AddNew B op0 op1)) "add failed: %w" [] ;;
  tick incAdd ;;;
  ret result.

(** [AddInPlace] overwrites [op0]; the new content of [op0] is returned. *)
Definition AddInPlace (e : Evaluator) (op0 op1 : Ct) : HE Ct :=
  op0' <- onErr (liftR (AddNew B op0 op1)) "add in place failed: %w" [] ;;
  tick incAdd ;;;
  ret op0'.

Definition Sub (e : Evaluator) (op0 op1 : Ct) : HE Ct :=
  result <- onErr (liftR (SubNew B op0 op1)) "sub failed: %w" [] ;;
  tick incAdd ;;;
  ret result.

Definition Mul (e : Evaluator) (op0 op1 : Ct) : HE Ct :=
  result <- onErr (liftR (MulRelinNew B op0 op1)) "mul failed: %w" [] ;;
  tick incMul ;;;
  ret result.

Definition MulConst (e : Evaluator) (ct : Ct) (constant : Q) : HE Ct :=
  result <- onErr (liftR (MulScalar B ct constant)) "mul const failed: %w" [] ;;
  tick incMul ;;;
  ret result.

Definition AddConst (e : Evaluator) (ct : Ct) (constant : Q) : HE Ct :=
  result <- onErr (liftR (AddScalar B ct constant)) "add const failed: %w" [] ;;
  tick incAdd ;;;
  ret result.

Definition Rescale (e : Evaluator) (ct : Ct) : HE Ct :=
  result <- onErr (liftR (RescaleTo B ct)) "rescale failed: %w" [] ;;
  tick incRescale ;;;
  ret result.

Definition Rotate (e : Evaluator) (ct : Ct) (k : Z) : HE Ct :=
  result <- onErr (liftR (RotateNew B ct k)) "rotate by %d failed: %w" [ArgInt k] ;;
  tick incRotate ;;;
  ret result.

(** The loop [for rot := 1; rot < slots; rot *= 2] of [SumSlots], entered
    at [rot].  [fuel] bounds the number of iterations still allowed. *)
Fixpoint sumSlotsLoop (fuel : nat) (e : Evaluator) (slots rot : Z) (result : Ct)
  : HE Ct :=
  if rot <? slots then
    match fuel with
    | O => fail OutOfFuel
    | S fuel' =>
        rotated <- onErr (Rotate e result rot) "sum slots rotation failed: %w" [] ;;
        result' <- onErr (AddInPlace e result rotated) "sum slots add failed: %w" [] ;;
        sumSlotsLoop fuel' e slots (GoInt.mul rot 2) result'
    end
  else ret result.

(** An [int] doubled 64 times has wrapped to 0, from where the Go loop
    never ends: 64 iterations are all a terminating run can take. *)
Definition SumSlots (e : Evaluator) (ct : Ct) : HE Ct :=
  let result := CopyNew ct in
  let slots := Slots e in
  sumSlotsLoop 64 e slots 1 result.

(** The loop [for power > 0] of [Power]. *)
Fixpoint powerLoop (fuel : nat) (e : Evaluator) (result base : Ct) (power : Z)
         (first : bool) : HE Ct :=
  if 0 <? power then
    match fuel with
    | O => fail OutOfFuel
    | S fuel' =>
        rf <- (if Z.land power 1 =? 1 then
                 if first then ret (CopyNew base, false)
                 else
                   r <- Mul e result base ;;
                   r' <- Rescale e r ;;
                   ret (r', first)
               else ret (result, first)) ;;
        let power' := Z.shiftr power 1 in
        base' <- (if 0 <? power' then
                    b <- Mul e base base ;;
                    Rescale e b
                  else ret base) ;;
        powerLoop fuel' e (fst rf) base' power' (snd rf)
    end
  else ret result.

(** A positive [int] has at most 63 significant bits. *)
Definition Power (e : Evaluator) (ct : Ct) (n : Z) : HE Ct :=
  if n <? 1 then fail (Errorf "power must be positive" [])
  else if n =? 1 then ret (CopyNew ct)
  else powerLoop 64 e (CopyNew ct) (CopyNew ct) n true.

Definition ZeroCiphertextLike (e : Evaluator) (x : Ct) : Ct :=
  NewCiphertextLike B x.

End Evaluator.

Arguments Evaluator Ct : clear implicits.

(* ===================================================================== *)
(** * package numeric *)
(* ===================================================================== *)

Section Numeric.

Context {Ct : Type}.
Variable B : Backend Ct.

Record NumericOp : Type := { eval : Evaluator Ct }.

Definition NewNumericOp (e : Evaluator Ct) : NumericOp := {| eval := e |}.

Definition len {A : Type} (l : list A) : Z := Z.of_nat (List.length l).

(** [if result == nil { result = c } else { AddInPlace(result, c) }] *)
Definition accumulate (n : NumericOp) (i : Z) (result : option Ct) (c : Ct)
  : HE (option Ct) :=
  match result with
  | None => ret (Some c)
  | Some r =>
      r' <- onErr (AddInPlace B (eval n) r c) "block %d add failed: %w" [ArgInt i] ;;
      ret (Some r')
  end.

Definition MaskedSum (n : NumericOp) (xBlocks vBlocks : list Ct) : HE Ct :=
  if negb (len xBlocks =? len vBlocks) then
    fail (Errorf "block count mismatch: %d vs %d"
                 [ArgInt (len xBlocks); ArgInt (len vBlocks)])
  else if len xBlocks =? 0 then fail (Errorf "no blocks provided" [])
  else
    result <- for_range xBlocks (fun i x_i result =>
        v_i <- index vBlocks i ;;
        masked <- onErr (Mul B (eval n) x_i v_i) "block %d mul failed: %w" [ArgInt i] ;;
        masked' <- onErr (Rescale B (eval n) masked)
                         "block %d rescale failed: %w" [ArgInt i] ;;
        accumulate n i result masked') None ;;
    r <- deref result ;;
    SumSlots B (eval n) r.

Definition Count (n : NumericOp) (vBlocks : list Ct) : HE Ct :=
  if len vBlocks =? 0 then fail (Errorf "no blocks provided" [])
  else
    result <- for_range vBlocks (fun i v result =>
        match result with
        | None => ret (Some (CopyNew v))
        | Some r =>
            r' <- onErr (AddInPlace B (eval n) r v)
                        "block %d add failed: %w" [ArgInt i] ;;
            ret (Some r')
        end) None ;;
    r <- deref result ;;
    SumSlots B (eval n) r.

Definition MaskedSumOfSquares (n : NumericOp) (xBlocks vBlocks : list Ct) : HE Ct :=
  if negb (len xBlocks =? len vBlocks) then fail (Errorf "block count mismatch" [])
  else if len xBlocks =? 0 then fail (Errorf "no blocks provided" [])
  else
    result <- for_range xBlocks (fun i x_i result =>
        xSquared <- onErr (Mul B (eval n) x_i x_i)
                          "block %d square failed: %w" [ArgInt i] ;;
        xSquared' <- onErr (Rescale B (eval n) xSquared)
                           "block %d rescale1 failed: %w" [ArgInt i] ;;
        v_i <- index vBlocks i ;;
        masked <- onErr (Mul B (eval n) xSquared' v_i)
                        "block %d mask failed: %w" [ArgInt i] ;;
        masked' <- onErr (Rescale B (eval n) masked)
                         "block %d rescale2 failed: %w" [ArgInt i] ;;
        accumulate n i result masked') None ;;
    r <- deref result ;;
    SumSlots B (eval n) r.

(** Float constants are the rationals they denote. *)
Record INVNTHSQRTConfig : Type := {
  N : Z;                   (* root power *)
  Iterations : Z;          (* Newton iterations *)
  BootstrapFrequency : Z;  (* bootstrap every so many iterations, 0 = never *)
  InitialGuess : Q         (* initial y0 *)
}.

Definition DefaultINVConfig : INVNTHSQRTConfig :=
  {| N := 1; Iterations := 25; BootstrapFrequency := 5; InitialGuess := 1 # 2 |}.

Definition DefaultINVSQRTConfig : INVNTHSQRTConfig :=
  {| N := 2; Iterations := 21; BootstrapFrequency := 5; InitialGuess := 1 # 2 |}.

(** The constant-minus-ciphertext of the iteration: [(n+1) - xyN], as
    [AddConst(xyN, -(n+1))] followed by [MulConst(., -1)]. *)
Definition constMinus (n : NumericOp) (iter : Z) (nPlusOne : Q) (xyN : Ct) : HE Ct :=
  diff <- onErr (AddConst B (eval n) xyN (- nPlusOne))
                "iteration %d sub failed: %w" [ArgInt iter] ;;
  onErr (MulConst B (eval n) diff (- (1))) "iteration %d negate failed: %w" [ArgInt iter].

(** The body of the Newton loop of [INVNTHSQRT], at iteration [iter]. *)
Definition newtonIteration (n : NumericOp) (config : INVNTHSQRTConfig)
           (nPlusOne invN : Q) (x : Ct) (iter : Z) (yCt : Ct) : HE Ct :=
  yCt1 <- (if (0 <? BootstrapFrequency config) && (0 <? iter)
              && (Z.rem iter (BootstrapFrequency config) =? 0) then
             if NeedsBootstrap B (eval n) yCt then
               onErr (Bootstrap (eval n) yCt)
                     "iteration %d bootstrap failed: %w" [ArgInt iter]
             else ret yCt
           else ret yCt) ;;
  yN <- (if N config =? 1 then ret (CopyNew yCt1)
         else onErr (Power B (eval n) yCt1 (N config))
                    "iteration %d power failed: %w" [ArgInt iter]) ;;
  xyN <- onErr (Mul B (eval n) x yN) "iteration %d mul x*yN failed: %w" [ArgInt iter] ;;
  xyN1 <- onErr (Rescale B (eval n) xyN) "iteration %d rescale failed: %w" [ArgInt iter] ;;
  xyN2 <- onErr (MaybeBootstrap B (eval n) xyN1)
                "iteration %d bootstrap xyN failed: %w" [ArgInt iter] ;;
  diff <- constMinus n iter nPlusOne xyN2 ;;
  yNew <- onErr (Mul B (eval n) yCt1 diff)
                "iteration %d mul y*diff failed: %w" [ArgInt iter] ;;
  yNew1 <- onErr (Rescale B (eval n) yNew)
                 "iteration %d final rescale failed: %w" [ArgInt iter] ;;
  yNew2 <- onErr (MaybeBootstrap B (eval n) yNew1)
                 "iteration %d bootstrap yNew failed: %w" [ArgInt iter] ;;
  onErr (MulConst B (eval n) yNew2 invN) "iteration %d div by n failed: %w" [ArgInt iter].

(** [nPlusOne], [nFloat] and [invN] are the float64 values the source
    computes: the conversions of [config.N + 1] and [config.N], and the
    rounded quotient [1.0 / nFloat]; the scalars handed to the evaluator
    are the rationals these floats stand for (all three are finite and
    [nFloat] is not zero once [config.N >= 1]). *)
Definition INVNTHSQRT (n : NumericOp) (x : Ct) (config : INVNTHSQRTConfig) : HE Ct :=
  if N config <? 1 then fail (Errorf "n must be positive" [])
  else
    x' <- onErr (MaybeBootstrap B (eval n) x) "initial bootstrap failed: %w" [] ;;
    let nPlusOne := of_int (GoInt.add (N config) 1) in
    let nFloat := of_int (N config) in
    let invN := div one nFloat in
    let yCt0 := ZeroCiphertextLike B (eval n) x' in
    yCt <- onErr (AddConst B (eval n) yCt0 (InitialGuess config))
                 "initial y setup failed: %w" [] ;;
    for_upto (Iterations config)
             (fun iter y => newtonIteration n config (to_Q nPlusOne) (to_Q invN) x' iter y)
             yCt.

Definition Mean (n : NumericOp) (xBlocks vBlocks : list Ct) : HE Ct :=
  sumXV <- onErr (MaskedSum n xBlocks vBlocks) "masked sum failed: %w" [] ;;
  count <- onErr (Count n vBlocks) "count failed: %w" [] ;;
  invCount <- onErr (INVNTHSQRT n count DefaultINVConfig) "inverse count failed: %w" [] ;;
  mean <- onErr (Mul B (eval n) sumXV invCount) "mean mul failed: %w" [] ;;
  Rescale B (eval n) mean.

Definition Variance (n : NumericOp) (xBlocks vBlocks : list Ct) : HE Ct :=
  mean <- onErr (Mean n xBlocks vBlocks) "mean failed: %w" [] ;;
  sumX2V <- onErr (MaskedSumOfSquares n xBlocks vBlocks) "sum of squares failed: %w" [] ;;
  count <- onErr (Count n vBlocks) "count failed: %w" [] ;;
  invCount <- onErr (INVNTHSQRT n count DefaultINVConfig) "inverse count failed: %w" [] ;;
  eX2 <- onErr (Mul B (eval n) sumX2V invCount) "E[X^2] mul failed: %w" [] ;;
  eX2' <- onErr (Rescale B (eval n) eX2) "E[X^2] rescale failed: %w" [] ;;
  meanSq <- onErr (Mul B (eval n) mean mean) "mean^2 failed: %w" [] ;;
  meanSq' <- onErr (Rescale B (eval n) meanSq) "mean^2 rescale failed: %w" [] ;;
  onErr (Sub B (eval n) eX2' meanSq') "variance sub failed: %w" [].

Definition Stdev (n : NumericOp) (xBlocks vBlocks : list Ct) : HE Ct :=
  variance <- onErr (Variance n xBlocks vBlocks) "variance failed: %w" [] ;;
  invSqrt <- onErr (INVNTHSQRT n variance DefaultINVSQRTConfig)
                   "inv sqrt variance failed: %w" [] ;;
  stdev <- onErr (Mul B (eval n) variance invSqrt) "stdev mul failed: %w" [] ;;
  Rescale B (eval n) stdev.

Definition MaskedCrossSum (n : NumericOp) (xBlocks yBlocks vBlocks : list Ct) : HE Ct :=
  if negb (len xBlocks =? len yBlocks) || negb (len xBlocks =? len vBlocks) then
    fail (Errorf "block count mismatch" [])
  else if len xBlocks =? 0 then fail (Errorf "no blocks provided" [])
  else
    result <- for_range xBlocks (fun i x_i result =>
        y_i <- index yBlocks i ;;
        xy <- onErr (Mul B (eval n) x_i y_i) "block %d xy mul failed: %w" [ArgInt i] ;;
        xy' <- onErr (Rescale B (eval n) xy) "block %d xy rescale failed: %w" [ArgInt i] ;;
        v_i <- index vBlocks i ;;
        masked <- onErr (Mul B (eval n) xy' v_i) "block %d mask failed: %w" [ArgInt i] ;;
        masked' <- onErr (Rescale B (eval n) masked)
                         "block %d masked rescale failed: %w" [ArgInt i] ;;
        accumulate n i result masked') None ;;
    r <- deref result ;;
    SumSlots B (eval n) r.

Definition Correlation (n : NumericOp) (xBlocks yBlocks vBlocks : list Ct) : HE Ct :=
  meanX <- onErr (Mean n xBlocks vBlocks) "mean x failed: %w" [] ;;
  meanY <- onErr (Mean n yBlocks vBlocks) "mean y failed: %w" [] ;;
  sumXY <- onErr (MaskedCrossSum n xBlocks yBlocks vBlocks) "sum xy failed: %w" [] ;;
  count <- onErr (Count n vBlocks) "count failed: %w" [] ;;
  invCount <- onErr (INVNTHSQRT n count DefaultINVConfig) "inv count failed: %w" [] ;;
  eXY <- onErr (Mul B (eval n) sumXY invCount) "E[XY] mul failed: %w" [] ;;
  eXY' <- onErr (Rescale B (eval n) eXY) "E[XY] rescale failed: %w" [] ;;
  eXeY <- onErr (Mul B (eval n) meanX meanY) "E[X]*E[Y] failed: %w" [] ;;
  eXeY' <- onErr (Rescale B (eval n) eXeY) "E[X]*E[Y] rescale failed: %w" [] ;;
  cov <- onErr (Sub B (eval n) eXY' eXeY') "cov sub failed: %w" [] ;;
  varX <- onErr (Variance n xBlocks vBlocks) "var x failed: %w" [] ;;
  varY <- onErr (Variance n yBlocks vBlocks) "var y failed: %w" [] ;;
  invSqrtVarX <- onErr (INVNTHSQRT n varX DefaultINVSQRTConfig)
                       "inv sqrt var x failed: %w" [] ;;
  invSqrtVarY <- onErr (INVNTHSQRT n varY DefaultINVSQRTConfig)
                       "inv sqrt var y failed: %w" [] ;;
  corr <- onErr (Mul B (eval n) cov invSqrtVarX) "corr mul1 failed: %w" [] ;;
  corr1 <- onErr (Rescale B (eval n) corr) "corr rescale1 failed: %w" [] ;;
  corr2 <- onErr (Mul B (eval n) corr1 invSqrtVarY) "corr mul2 failed: %w" [] ;;
  onErr (Rescale B (eval n) corr2) "corr rescale2 failed: %w" [].

End Numeric.

Arguments NumericOp Ct : clear implicits.

(* ===================================================================== *)
(** * package ordinal *)
(* ===================================================================== *)

Section Ordinal.

Context {Ct : Type}.
Variable B : Backend Ct.

(** [ordinal.OrdinalOp], without the [approx] handle that only
    [Percentile] uses. *)
Record OrdinalOp : Type := {
  oeval : Evaluator Ct;
  numericOp : NumericOp Ct
}.

Definition NewOrdinalOp (e : Evaluator Ct) : OrdinalOp :=
  {| oeval := e; numericOp := NewNumericOp e |}.

Definition applyFlipMapping (o : OrdinalOp) (x : Ct) : HE Ct :=
  x2 <- onErr (Mul B (oeval o) x x) "x^2 failed: %w" [] ;;
  x2' <- onErr (Rescale B (oeval o) x2) "x^2 rescale failed: %w" [] ;;
  term1 <- onErr (MulConst B (oeval o) x2' (- (1 # 2))) "-0.5x^2 failed: %w" [] ;;
  term2 <- onErr (MulConst B (oeval o) x (1 # 2)) "0.5x failed: %w" [] ;;
  result <- onErr (Add B (oeval o) term1 term2) "term1+term2 failed: %w" [] ;;
  onErr (AddConst B (oeval o) result 1) "+1 failed: %w" [].

End Ordinal.

Arguments OrdinalOp Ct : clear implicits.

(* ===================================================================== *)
(** * package categorical: ComputeLBc *)
(* ===================================================================== *)

(** [ComputeLBc] has the same text in binop.go and in the draft that adds
    [DeltaOffset]; it reads the configuration through [Delta] only, so it is
    written once over the configuration type. *)
Section LBcComputer.

Context {Ct : Type}.
Variable B : Backend Ct.
Context {Config : Type}.
Variable Delta : Config -> Z.

Record LBcComputer : Type := {
  leval : Evaluator Ct;
  lconfig : Config
}.

Definition NewLBcComputer (e : Evaluator Ct) (config : Config) : LBcComputer :=
  {| leval := e; lconfig := config |}.

Record PBMVStore : Type := {
  GetPBMV : string -> Z -> result Ct;
  PBMVBlockCount : Z
}.

Record BBMVStore : Type := {
  GetBBMV : string -> Z -> result Ct;
  BBMVBlockCount : Z
}.

Record LBcResult : Type := {
  PackedResults : list (option Ct);
  NumBlocks : Z;
  RowsPerBlock : Z;
  RequiresAggregation : bool
}.

(** One pass of the loop over blocks: the product for block [b]. *)
Definition blockProduct (l : LBcComputer) (f0Column : string) (pbmvStore : PBMVStore)
           (otherColumns : list string) (bbmvStores : string -> option BBMVStore)
           (validityBlocks : list Ct) (b : Z) : HE Ct :=
  pbmv <- onErr (liftR (GetPBMV pbmvStore f0Column b))
                "failed to get PBMV for %s block %d: %w" [ArgStr f0Column; ArgInt b] ;;
  let result := CopyNew pbmv in
  v_b <- index validityBlocks b ;;
  result1 <- onErr (Mul B (leval l) result v_b)
                   "block %d validity mul failed: %w" [ArgInt b] ;;
  result2 <- onErr (Rescale B (leval l) result1)
                   "block %d validity rescale failed: %w" [ArgInt b] ;;
  for_range otherColumns (fun _ col result =>
      match bbmvStores col with
      | None => fail (Errorf "no BBMV store for column %s" [ArgStr col])
      | Some store =>
          bbmv <- onErr (liftR (GetBBMV store col b))
                        "failed to get BBMV for %s block %d: %w" [ArgStr col; ArgInt b] ;;
          r <- onErr (Mul B (leval l) result bbmv)
                     "block %d %s mul failed: %w" [ArgInt b; ArgStr col] ;;
          onErr (Rescale B (leval l) r)
                "block %d %s rescale failed: %w" [ArgInt b; ArgStr col]
      end) result2.

Definition ComputeLBc (l : LBcComputer) (f0Column : string) (pbmvStore : PBMVStore)
           (otherColumns : list string) (bbmvStores : string -> option BBMVStore)
           (validityBlocks : list Ct) : HE LBcResult :=
  let blockCount := PBMVBlockCount pbmvStore in
  if blockCount <? 0 then fail (Panic "makeslice: len out of range")
  else
    results <- for_upto blockCount (fun b results =>
        result <- blockProduct l f0Column pbmvStore otherColumns bbmvStores
                               validityBlocks b ;;
        ret (LBc.set_nth (Z.to_nat b) (Some result) results))
      (repeat None (Z.to_nat blockCount)) ;;
    packed <- for_range results (fun i r packed =>
        r' <- deref r ;;
        match packed with
        | None => ret (Some (CopyNew r'))
        | Some p =>
            p' <- onErr (AddInPlace B (leval l) p r') "block %d sum failed: %w" [ArgInt i] ;;
            ret (Some p')
        end) None ;;
    let slots := Slots B (leval l) in
    let rowsPerBlock := slots in
    match GoInt.shl 1 (Delta (lconfig l)) with
    | None => fail (Panic "negative shift amount")
    | Some spacing =>
        let requiresAgg :=
          GoInt.mul slots spacing <? GoInt.mul blockCount rowsPerBlock in
        ret {| PackedResults := [packed];
               NumBlocks := blockCount;
               RowsPerBlock := rowsPerBlock;
               RequiresAggregation := requiresAgg |}
    end.

End LBcComputer.

(* ===================================================================== *)
(** * package storage: ciphertext serialization *)
(* ===================================================================== *)

Module Storage.

Definition byte : Type := Byte.byte.

Definition len {A : Type} (l : list A) : Z := Z.of_nat (List.length l).

(** [uint64(b)] of a byte. *)
Definition byte_to_Z (b : byte) : Z := Z.of_N (Byte.to_N b).

(** [byte(v)]: the low eight bits. *)
Definition byte_of_Z (v : Z) : byte :=
  match Byte.of_N (Z.to_N (v mod 256)) with
  | Some b => b
  | None => Byte.x00
  end.

(** [binary.LittleEndian.PutUint64] *)
Definition PutUint64 (v : Z) : list byte :=
  [ byte_of_Z v;
    byte_of_Z (Z.shiftr v 8);
    byte_of_Z (Z.shiftr v 16);
    byte_of_Z (Z.shiftr v 24);
    byte_of_Z (Z.shiftr v 32);
    byte_of_Z (Z.shiftr v 40);
    byte_of_Z (Z.shiftr v 48);
    byte_of_Z (Z.shiftr v 56) ].

(** [binary.LittleEndian.Uint64], on the eight bytes read. *)
Definition Uint64 (b : list byte) : Z :=
  match b with
  | [b0; b1; b2; b3; b4; b5; b6; b7] =>
      Z.lor (byte_to_Z b0)
     (Z.lor (Z.shiftl (byte_to_Z b1) 8)
     (Z.lor (Z.shiftl (byte_to_Z b2) 16)
     (Z.lor (Z.shiftl (byte_to_Z b3) 24)
     (Z.lor (Z.shiftl (byte_to_Z b4) 32)
     (Z.lor (Z.shiftl (byte_to_Z b5) 40)
     (Z.lor (Z.shiftl (byte_to_Z b6) 48)
            (Z.shiftl (byte_to_Z b7) 56)))))))
  | _ => 0
  end.

(** An [io.Writer] is the sequence of bytes written to it so far, and
    [Write] appends: the model of an in-memory sink.  An [io.Reader] is
    the sequence of bytes left to read. *)
Definition Writer (A : Type) : Type := StateErr (list byte) A.
Definition Reader (A : Type) : Type := StateErr (list byte) A.

Definition Write (data : list byte) : Writer Z :=
  fun w => (Ok (len data), (w ++ data)%list).

(** [io.ReadFull] into a buffer of [n] bytes. *)
Definition ReadFull (n : Z) : Reader (list byte) :=
  fun r =>
    if n <=? 0 then (Ok [], r)
    else if len r =? 0 then (Err (External "EOF"), r)
    else if len r <? n then (Err (External "unexpected EOF"), [])
    else (Ok (firstn (Z.to_nat n) r), skipn (Z.to_nat n) r).

(** [binary.Write(w, binary.LittleEndian, v)] for a [uint64] *)
Definition binaryWrite (v : Z) : Writer unit :=
  (Write (PutUint64 v) ;;; ret tt)%he.

(** [binary.Read(r, binary.LittleEndian, &v)] for a [uint64] *)
Definition binaryRead : Reader Z :=
  (bs <- ReadFull 8 ;; ret (Uint64 bs))%he.

Section Ciphertexts.

Context {Ct : Type}.

(** Lattigo's binary codec of ciphertexts. *)
Record Codec : Type := {
  MarshalBinary : Ct -> result (list byte);
  UnmarshalBinary : list byte -> result Ct
}.

Variable C : Codec.

Definition WriteCiphertext (ct : Ct) : Writer unit :=
  (data <- onErr (liftR (MarshalBinary C ct)) "failed to marshal ciphertext: %w" [] ;;
   let length := GoInt.to_uint64 (len data) in
   onErr (binaryWrite length) "failed to write length: %w" [] ;;;
   onErr (Write data) "failed to write ciphertext data: %w" [] ;;;
   ret tt)%he.

(** [make([]byte, length)] panics when [length] is no [int]. *)
Definition ReadCiphertext : Reader Ct :=
  (length <- onErr binaryRead "failed to read length: %w" [] ;;
   if GoInt.max_int <? length then fail (Panic "makeslice: len out of range")
   else
     data <- onErr (ReadFull length) "failed to read ciphertext data: %w" [] ;;
     onErr (liftR (UnmarshalBinary C data)) "failed to unmarshal ciphertext: %w" [])%he.

End Ciphertexts.

Arguments Codec Ct : clear implicits.

End Storage.

(* ===================================================================== *)
(** * The slotwise plaintext model *)
(* ===================================================================== *)

Section PlainModel.

Context {Ct : Type}.
Variable B : Backend Ct.

(** A plaintext reading of ciphertexts: [slot ct i] is the value slot [i]
    decrypts to, and every Lattigo operation that succeeds acts on the
    slots as CKKS intends, without noise. *)
Record PlainModel : Type := {
  slot : Ct -> Z -> Q;
  add_slots : forall a b c, AddNew B a b = Ok c ->
    forall i, (slot c i == slot a i + slot b i)%Q;
  sub_slots : forall a b c, SubNew B a b = Ok c ->
    forall i, (slot c i == slot a i - slot b i)%Q;
  mul_slots : forall a b c, MulRelinNew B a b = Ok c ->
    forall i, (slot c i == slot a i * slot b i)%Q;
  mul_scalar_slots : forall a q c, MulScalar B a q = Ok c ->
    forall i, (slot c i == q * slot a i)%Q;
  add_scalar_slots : forall a q c, AddScalar B a q = Ok c ->
    forall i, (slot c i == slot a i + q)%Q;
  rescale_slots : forall a c, RescaleTo B a = Ok c ->
    forall i, (slot c i == slot a i)%Q;
  rotate_slots : forall a k c, RotateNew B a k = Ok c ->
    forall i, 0 <= i < MaxSlots B ->
              (slot c i == slot a ((i + k) mod MaxSlots B))%Q;
  zero_slots : forall x i, (slot (NewCiphertextLike B x) i == 0)%Q
}.

(** Bootstrapping refreshes the level and keeps the slots. *)
Definition BootstrapKeepsSlots (M : PlainModel) (e : Evaluator Ct) : Prop :=
  forall btp a c, bootstrapper e = Some btp -> BtpBootstrap btp a = Ok c ->
  forall i, (slot M c i == slot M a i)%Q.

(** No operation of the backend fails. *)
Record BackendTotal : Prop := {
  add_total : forall a b, exists c, AddNew B a b = Ok c;
  sub_total : forall a b, exists c, SubNew B a b = Ok c;
  mul_total : forall a b, exists c, MulRelinNew B a b = Ok c;
  mul_scalar_total : forall a q, exists c, MulScalar B a q = Ok c;
  add_scalar_total : forall a q, exists c, AddScalar B a q = Ok c;
  rescale_total : forall a, exists c, RescaleTo B a = Ok c;
  rotate_total : forall a k, exists c, RotateNew B a k = Ok c
}.

(** The evaluator has a bootstrapper, which never fails. *)
Definition BootstrapTotal (e : Evaluator Ct) : Prop :=
  exists btp, bootstrapper e = Some btp /\
              forall a, exists c, BtpBootstrap btp a = Ok c.

(** The doubling reduction in the words of the specification: for each
    [r] of [rs] in turn, [ct <- ct + rotate(ct, r)]. *)
Definition doublingStep (e : Evaluator Ct) (ct : Ct) (r : Z) : HE Ct :=
  (rotated <- onErr (Rotate B e ct r) "sum slots rotation failed: %w" [] ;;
   onErr (AddInPlace B e ct rotated) "sum slots add failed: %w" [])%he.

Fixpoint doublingReduction (e : Evaluator Ct) (rs : list Z) (ct : Ct) : HE Ct :=
  match rs with
  | [] => ret ct
  | r :: rs' => (ct' <- doublingStep e ct r ;; doublingReduction e rs' ct')%he
  end.

End PlainModel.

Arguments slot {Ct B} _ _ _.

(** [[2^j; 2^(j+1); ...]], [n] rotation amounts: from [j = 0] and with
    [n = k] these are 1, 2, 4, ..., S/2 for S = 2^k. *)
Fixpoint doublings (j : Z) (n : nat) : list Z :=
  match n with
  | O => []
  | S n' => 2 ^ j :: doublings (j + 1) n'
  end.

(** [f 0 + f 1 + ... + f (n-1)] *)
Fixpoint sumQ (f : nat -> Q) (n : nat) : Q :=
  match n with
  | O => 0
  | S n' => sumQ f n' + f n'
  end%Q.

(** The sum of the first [n] slots of a slot vector. *)
Definition sumSlotsOf (v : Z -> Q) (n : Z) : Q :=
  sumQ (fun t => v (Z.of_nat t)) (Z.to_nat n).

(** One step of the Newton recurrence for x^(-1/n) on a single slot. *)
Definition newtonMap (n : Z) (x y : Q) : Q :=
  ((1 / inject_Z n) * (y * (inject_Z (n + 1) - x * y ^ n)))%Q.

(** The same step with the two constants the code multiplies and subtracts
    with, whatever they are. *)
Definition newtonStep (n : Z) (nPlusOne invN x y : Q) : Q :=
  (invN * (y * (nPlusOne - x * y ^ n)))%Q.

(** The float64 constants of [INVNTHSQRT] for the exponent [n], as
    rationals: [float64(n + 1)] and [1.0 / float64(n)]. *)
Definition floatNPlusOne (n : Z) : Q := to_Q (of_int (GoInt.add n 1)).
Definition floatInvN (n : Z) : Q := to_Q (div one (of_int n)).

(** Whether those two floats are n + 1 and 1/n exactly. *)
Definition exactConstants (n : Z) : bool :=
  Qeq_bool (floatNPlusOne n) (inject_Z (n + 1)) &&
  Qeq_bool (floatInvN n) (1 / inject_Z n).

(** The flip mapping of the percentile engine on a single slot. *)
Definition flip (s : Q) : Q := (- (1 # 2) * (s - (1 # 2)) ^ 2 + (9 # 8))%Q.

(** After the rotations by 1, 2, ..., 2^(j-1), slot [i] holds the sum of
    the [2^j] slots of [ct] from [i] on, cyclically. *)
Definition window {Ct : Type} {B : Backend Ct} (M : PlainModel B) (ct : Ct) (j : Z)
           (r : Ct) : Prop :=
  forall i, 0 <= i < MaxSlots B ->
    (slot M r i ==
     sumQ (fun t => slot M ct ((i + Z.of_nat t) mod MaxSlots B)) (Z.to_nat (2 ^ j)))%Q.

(** [math.Ldexp(1.0, e)] is the power of two 2^e and finite: the check made
    on each exponent a float64 power of two can have. *)
Definition ldexp_exact_at (e : Z) : bool :=
  Qeq_bool (to_Q (Ldexp one e)) (2 ^ e) && is_finite (Ldexp one e).

(** The budget rule in the words of the specification. *)
Definition budgetExceeded (config : LBc.LBcConfig) (categories slots : Z) : Prop :=
  LBc.DeltaOffset config + LBc.Delta config * (categories - 1)
  + LBc.LambdaBig config + Z.log2_up slots > 52.

(** A percentile job that passes every check but the one on [k]. *)
Definition percentileJob (k : float64) : Jobs.JobSpec :=
  {| Jobs.ID := "job-1"; Jobs.Op := Jobs.OpPercentile; Jobs.Table := "survey";
     Jobs.InputColumns := ["grade"]; Jobs.TargetColumn := "";
     Jobs.Conditions := []; Jobs.K := k; Jobs.LookupValue := 0;
     Jobs.PrivacyPolicy := ""; Jobs.OutputFormat := "" |}.

(** The exponent [EncodePBMV] gives to the row value [v]. *)
Definition pbmvExp (p : LBc.PBMVEncoder) (v : Z) : Z :=
  GoInt.add (LBc.DeltaOffset (LBc.config p))
            (GoInt.mul (LBc.Delta (LBc.config p)) (GoInt.sub v 1)).


(** What a computation does when it is run: the postcondition [P] of a
    returned value, or the excuse [F] of an error. *)
Definition wp {S A : Type} (F : Prop) (m : StateErr S A) (st : S)
           (P : A -> S -> Prop) : Prop :=
  match m st with
  | (Ok a, st') => P a st'
  | (Err _, _) => F
  end.

(** An error value a Go function returns: neither a panic nor the model's
    fuel running out. *)
Definition isErrorValue (e : error) : Prop :=
  match e with
  | Panic _ | OutOfFuel => False
  | _ => True
  end.

(** A computation that returns an error, no value, and leaves the state as
    it was. *)
Definition fails {S A : Type} (m : StateErr S A) : Prop :=
  forall st, exists e, m st = (Err e, st) /\ isErrorValue e.

(* ===================================================================== *)
(** * An ideal backend *)
(* ===================================================================== *)

(** A backend that computes on the slot values themselves, in exact
    arithmetic, on [slots] slots: addition and multiplication go to the
    lower of the two levels, a rescale costs a level, a rotation by [k]
    moves slot [i + k] to slot [i], and a bootstrap restores the level. *)
Module Ideal.

Record ct : Type := { lvl : Z; val : Z -> Q }.

Definition backend (slots : Z) : Backend ct :=
  {| MaxSlots := slots;
     CtLevel := lvl;
     AddNew := fun a b =>
       Ok {| lvl := Z.min (lvl a) (lvl b); val := fun i => (val a i + val b i)%Q |};
     SubNew := fun a b =>
       Ok {| lvl := Z.min (lvl a) (lvl b); val := fun i => (val a i - val b i)%Q |};
     MulRelinNew := fun a b =>
       Ok {| lvl := Z.min (lvl a) (lvl b); val := fun i => (val a i * val b i)%Q |};
     MulScalar := fun a q => Ok {| lvl := lvl a; val := fun i => (q * val a i)%Q |};
     AddScalar := fun a q => Ok {| lvl := lvl a; val := fun i => (val a i + q)%Q |};
     RescaleTo := fun a => Ok {| lvl := lvl a - 1; val := val a |};
     RotateNew := fun a k =>
       Ok {| lvl := lvl a; val := fun i => val a ((i + k) mod slots) |};
     NewCiphertextLike := fun x => {| lvl := lvl x; val := fun _ => 0%Q |} |}.

Definition btp (top : Z) : Bootstrapper ct :=
  {| MinimumInputLevel := 1;
     BtpBootstrap := fun a => Ok {| lvl := top; val := val a |} |}.

(** The ciphertext whose slots are the elements of [l], then zeros. *)
Definition of_list (level : Z) (l : list Q) : ct :=
  {| lvl := level;
     val := fun i => if i <? 0 then 0%Q else nth (Z.to_nat i) l 0%Q |}.

(** A codec for ciphertexts kept as opaque blobs. *)
Definition blobCodec : Storage.Codec (list Storage.byte) :=
  {| Storage.MarshalBinary := fun b => Ok b;
     Storage.UnmarshalBinary := fun b => Ok b |}.

(** Stores that serve the same block whatever is asked. *)
Definition constPBMV (blocks : Z) (c : ct) : PBMVStore :=
  {| GetPBMV := fun _ _ => Ok c; PBMVBlockCount := blocks |}.

Definition constBBMV (blocks : Z) (c : ct) : BBMVStore :=
  {| GetBBMV := fun _ _ => Ok c; BBMVBlockCount := blocks |}.

End Ideal.

(** The ideal backend reads as its own plaintext model. *)
Definition idealModel (slots : Z) : PlainModel (Ideal.backend slots).
Proof.
  refine {| slot := Ideal.val |}; cbn.
  - intros a b c E i. injection E as <-. reflexivity.
  - intros a b c E i. injection E as <-. reflexivity.
  - intros a b c E i. injection E as <-. reflexivity.
  - intros a q c E i. injection E as <-. reflexivity.
  - intros a q c E i. injection E as <-. reflexivity.
  - intros a c E i. injection E as <-. reflexivity.
  - intros a k c E i _. injection E as <-. reflexivity.
  - intros x i. reflexivity.
Defined.

(** Sample inputs on the ideal backend: four slots, an evaluator without a
    bootstrapper and one with, and the ciphertext of 1, 2, 3, 4. *)
Definition idealEval : Evaluator Ideal.ct :=
  {| bootstrapper := None; minLevel := 2 |}.

Definition idealEvalBtp : Evaluator Ideal.ct :=
  {| bootstrapper := Some (Ideal.btp 10); minLevel := 1 |}.

Definition sampleCt : Ideal.ct := Ideal.of_list 5 [1; 2; 3; 4]%Q.

(** One iteration towards a reciprocal cube root, from y0 = 1/2. *)
Definition sampleCubeRootConfig : INVNTHSQRTConfig :=
  {| N := 3; Iterations := 1; BootstrapFrequency := 0; InitialGuess := 1 # 2 |}.

Definition sampleOnes : Ideal.ct := Ideal.of_list 5 [1; 1; 1; 1]%Q.

(** Sample inputs for [ComputeLBc]: two blocks, one secondary column. *)
Definition sampleLBc : LBcComputer :=
  NewLBcComputer idealEval LBc.DefaultLBcConfig.

Definition samplePBMV : PBMVStore := Ideal.constPBMV 2 sampleCt.

Definition sampleBBMV : string -> option BBMVStore :=
  fun _ => Some (Ideal.constBBMV 2 sampleCt).

(** The same on the configuration of binop.go, with Δ = 1 and three
    blocks. *)
Definition sampleLBcBinop : LBcComputer :=
  NewLBcComputer idealEval {| LBcBinop.Delta := 1; LBcBinop.LambdaBig := 10 |}.

(** A ciphertext blob of three bytes. *)
Definition sampleBlob : list Storage.byte := [Byte.x01; Byte.xab; Byte.xff].

(* ===================================================================== *)
(** * package he: polynomial evaluation *)
(* ===================================================================== *)

Section EvaluatorPolynomial.

Context {Ct : Type}.
Variable B : Backend Ct.

(** One turn of the Horner loop of [EvaluatePolynomial], at degree [i]:
    [result * ct], rescaled, plus [coeffs[i]]; the three Lattigo calls are
    made on the evaluator directly and counted one by one. *)
Definition hornerStep (e : Evaluator Ct) (ct : Ct) (coeffs : list Q) (i : Z)
           (result : Ct) : HE Ct :=
  tmp <- onErr (liftR (MulRelinNew B result ct))
               "polynomial mul at degree %d failed: %w" [ArgInt i] ;;
  tick incMul ;;;
  tmp1 <- onErr (liftR (RescaleTo B tmp))
                "polynomial rescale at degree %d failed: %w" [ArgInt i] ;;
  tick incRescale ;;;
  c_i <- index coeffs i ;;
  tmp2 <- onErr (liftR (AddScalar B tmp1 c_i))
                "polynomial add at degree %d failed: %w" [ArgInt i] ;;
  tick incAdd ;;;
  ret tmp2.

(** [for i := n - 2; i >= 0; i--], with [todo] turns left: the next one is
    at degree [todo - 1]. *)
Fixpoint hornerLoop (e : Evaluator Ct) (ct : Ct) (coeffs : list Q) (todo : nat)
         (result : Ct) : HE Ct :=
  match todo with
  | O => ret result
  | S i =>
      result' <- hornerStep e ct coeffs (Z.of_nat i) result ;;
      hornerLoop e ct coeffs i result'
  end.

(** [EvaluatePolynomial]; the coefficients are the rationals the floats
    denote.  The constant is set up by [Mul(result, 0, result)] and
    [Add(result, c, result)] on a copy, which no counter sees. *)
Definition EvaluatePolynomial (e : Evaluator Ct) (ct : Ct) (coeffs : list Q) : HE Ct :=
  if len coeffs =? 0 then fail (Errorf "coefficients cannot be empty" [])
  else
    let n := len coeffs in
    if n =? 1 then
      let result := CopyNew ct in
      result1 <- onErr (liftR (MulScalar B result 0)) "zero mul failed: %w" [] ;;
      c0 <- index coeffs 0 ;;
      onErr (liftR (AddScalar B result1 c0)) "constant add failed: %w" []
    else
      let result := CopyNew ct in
      result1 <- onErr (liftR (MulScalar B result 0)) "init zero failed: %w" [] ;;
      c <- index coeffs (GoInt.sub n 1) ;;
      result2 <- onErr (liftR (AddScalar B result1 c)) "init constant failed: %w" [] ;;
      hornerLoop e ct coeffs (Z.to_nat (GoInt.sub n 2 + 1)) result2.

End EvaluatorPolynomial.

(* ===================================================================== *)
(** * package approx *)
(* ===================================================================== *)

Module Approx.

Section Ops.

Context {Ct : Type}.
Variable B : Backend Ct.

Record ApproxOp : Type := { eval : Evaluator Ct }.

Definition NewApproxOp (e : Evaluator Ct) : ApproxOp := {| eval := e |}.

(** [ApplyFilterPolynomial]: p(s) = 4s^3 - 3s^4, as s^3 * (4 - 3s). *)
Definition ApplyFilterPolynomial (a : ApproxOp) (s : Ct) : HE Ct :=
  s2 <- onErr (Mul B (eval a) s s) "s^2 failed: %w" [] ;;
  s2' <- onErr (Rescale B (eval a) s2) "s^2 rescale failed: %w" [] ;;
  s3 <- onErr (Mul B (eval a) s2' s) "s^3 failed: %w" [] ;;
  s3' <- onErr (Rescale B (eval a) s3) "s^3 rescale failed: %w" [] ;;
  neg3s <- onErr (MulConst B (eval a) s (- (3))) "-3s failed: %w" [] ;;
  fourMinus3s <- onErr (AddConst B (eval a) neg3s 4) "4-3s failed: %w" [] ;;
  result <- onErr (Mul B (eval a) s3' fourMinus3s) "final mul failed: %w" [] ;;
  Rescale B (eval a) result.

Record ApproxSignConfig : Type := {
  Degree : Z;      (* polynomial degree for approximation *)
  Iterations : Z   (* refinement iterations *)
}.

Definition DefaultApproxSignConfig : ApproxSignConfig :=
  {| Degree := 15; Iterations := 3 |}.

(** The body of the loop of [APPROXSIGN], at iteration [i]:
    s <- s * (3 - s^2) / 2. *)
Definition signIteration (a : ApproxOp) (i : Z) (result : Ct) : HE Ct :=
  s2 <- onErr (Mul B (eval a) result result) "iter %d s^2 failed: %w" [ArgInt i] ;;
  s2' <- onErr (Rescale B (eval a) s2) "iter %d s^2 rescale failed: %w" [ArgInt i] ;;
  negS2 <- onErr (MulConst B (eval a) s2' (- (1))) "iter %d -s^2 failed: %w" [ArgInt i] ;;
  threeMinusS2 <- onErr (AddConst B (eval a) negS2 3)
                        "iter %d 3-s^2 failed: %w" [ArgInt i] ;;
  r <- onErr (Mul B (eval a) result threeMinusS2) "iter %d mul failed: %w" [ArgInt i] ;;
  r1 <- onErr (Rescale B (eval a) r) "iter %d rescale failed: %w" [ArgInt i] ;;
  r2 <- onErr (MulConst B (eval a) r1 (1 # 2)) "iter %d /2 failed: %w" [ArgInt i] ;;
  onErr (MaybeBootstrap B (eval a) r2) "iter %d bootstrap failed: %w" [ArgInt i].

Definition APPROXSIGN (a : ApproxOp) (x : Ct) (config : ApproxSignConfig) : HE Ct :=
  let result := CopyNew x in
  for_upto (Iterations config) (signIteration a) result.

(** [COMP]: (sign(x1 - x2) + 1) / 2. *)
Definition COMP (a : ApproxOp) (x1 x2 : Ct) (config : ApproxSignConfig) : HE Ct :=
  diff <- onErr (Sub B (eval a) x1 x2) "diff failed: %w" [] ;;
  sign <- onErr (APPROXSIGN a diff config) "approxsign failed: %w" [] ;;
  result <- onErr (AddConst B (eval a) sign 1) "shift failed: %w" [] ;;
  onErr (MulConst B (eval a) result (1 # 2)) "scale failed: %w" [].

End Ops.

Arguments ApproxOp Ct : clear implicits.

End Approx.

(* ===================================================================== *)
(** * package categorical: masks and bin operators *)
(* ===================================================================== *)

Module Categorical.

Section Ops.

Context {Ct : Type}.
Variable B : Backend Ct.

Record CategoricalOp : Type := {
  eval : Evaluator Ct;
  numericOp : NumericOp Ct
}.

Definition NewCategoricalOp (e : Evaluator Ct) : CategoricalOp :=
  {| eval := e; numericOp := NewNumericOp e |}.

Record Condition : Type := {
  ColumnName : string;
  Value : Z
}.

(** [BMVStore]: the BMV block of a column, a value and a block index. *)
Record BMVStore : Type := {
  GetBMV : string -> Z -> Z -> result Ct;
  BlockCount : Z
}.

(** The mask of block [b]: the validity block times the BMV of every
    condition in turn. *)
Definition blockMask (c : CategoricalOp) (conditions : list Condition)
           (bmvStore : BMVStore) (b : Z) (validity : Ct) : HE Ct :=
  for_range conditions (fun _ cond mask =>
      bmv <- onErr (liftR (GetBMV bmvStore (ColumnName cond) (Value cond) b))
                   "failed to get BMV for %s=%d block %d: %w"
                   [ArgStr (ColumnName cond); ArgInt (Value cond); ArgInt b] ;;
      mask1 <- onErr (Mul B (eval c) mask bmv) "block %d mul failed: %w" [ArgInt b] ;;
      onErr (Rescale B (eval c) mask1) "block %d rescale failed: %w" [ArgInt b])
    (CopyNew validity).

(** [BuildMask]: [masks[b] = mask] for b = 0, 1, ... fills the slice from
    the left; the masks are collected in that order. *)
Definition BuildMask (c : CategoricalOp) (validityBlocks : list Ct)
           (conditions : list Condition) (bmvStore : BMVStore) : HE (list Ct) :=
  for_range validityBlocks (fun b validity masks =>
      mask <- blockMask c conditions bmvStore b validity ;;
      ret (masks ++ [mask])%list) [].

Definition Bc (c : CategoricalOp) (validityBlocks : list Ct)
           (conditions : list Condition) (bmvStore : BMVStore) : HE Ct :=
  masks <- onErr (BuildMask c validityBlocks conditions bmvStore)
                 "build mask failed: %w" [] ;;
  Count B (numericOp c) masks.

Definition Ba (c : CategoricalOp) (targetBlocks validityBlocks : list Ct)
           (conditions : list Condition) (bmvStore : BMVStore) : HE Ct :=
  masks <- onErr (BuildMask c validityBlocks conditions bmvStore)
                 "build mask failed: %w" [] ;;
  Mean B (numericOp c) targetBlocks masks.

Definition Bv (c : CategoricalOp) (targetBlocks validityBlocks : list Ct)
           (conditions : list Condition) (bmvStore : BMVStore) : HE Ct :=
  masks <- onErr (BuildMask c validityBlocks conditions bmvStore)
                 "build mask failed: %w" [] ;;
  Variance B (numericOp c) targetBlocks masks.

End Ops.

Arguments CategoricalOp Ct : clear implicits.
Arguments BMVStore Ct : clear implicits.

End Categorical.

(* ===================================================================== *)
(** * The plaintext reading of the operators *)
(* ===================================================================== *)

Fixpoint sumList (l : list Q) : Q :=
  match l with
  | [] => 0
  | q :: rest => q + sumList rest
  end%Q.

(** The slot vector that adds up the slot vectors [fs]. *)
Definition slotSum (fs : list (Z -> Q)) (i : Z) : Q :=
  sumList (map (fun f => f i) fs).

(** The sum over the blocks of the sum of the first [n] slots. *)
Definition blocksTotal (fs : list (Z -> Q)) (n : Z) : Q :=
  sumList (map (fun f => sumSlotsOf f n) fs).

(** The slotwise product of two blocks, and of three. *)
Definition slotProduct {Ct : Type} {B : Backend Ct} (M : PlainModel B)
           (p : Ct * Ct) (i : Z) : Q :=
  (slot M (fst p) i * slot M (snd p) i)%Q.

Definition slotProduct3 {Ct : Type} {B : Backend Ct} (M : PlainModel B)
           (p : Ct * Ct * Ct) (i : Z) : Q :=
  (slot M (fst (fst p)) i * slot M (snd (fst p)) i * slot M (snd p) i)%Q.

(** The slotwise [x * x * v] of a data block and its mask. *)
Definition slotSquareMasked {Ct : Type} {B : Backend Ct} (M : PlainModel B)
           (p : Ct * Ct) (i : Z) : Q :=
  (slot M (fst p) i * slot M (fst p) i * slot M (snd p) i)%Q.

(** The value at [x] of the polynomial with coefficients [coeffs], the
    constant first: coeffs[0] + coeffs[1] x + coeffs[2] x^2 + ... *)
Definition polyQ (coeffs : list Q) (x : Q) : Q :=
  sumQ (fun i => nth i coeffs 0 * x ^ Z.of_nat i)%Q (List.length coeffs).

(** What a successful [EvaluatePolynomial] counts on [n] coefficients. *)
Definition hornerCount (st : Stats) : Stats := incAdd (incRescale (incMul st)).

(** One refinement of the sign approximation on a slot. *)
Definition signStep (s : Q) : Q := (s * (3 - s * s) / 2)%Q.

(** The filter polynomial on a slot. *)
Definition filterPoly (s : Q) : Q := (4 * s ^ 3 - 3 * s ^ 4)%Q.

(** The reciprocal that [Mean] and [Variance] use: the Newton iterate of
    [DefaultINVConfig] at [c]. *)
Definition newtonInverse (c : Q) : Q :=
  Nat.iter (Z.to_nat (Iterations DefaultINVConfig)) (newtonMap 1 c)
           (InitialGuess DefaultINVConfig).

(** The slot vector of a mask: validity times the BMV of each condition. *)
Fixpoint maskSlots (v : Z -> Q) (bmvs : list (Z -> Q)) (i : Z) : Q :=
  match bmvs with
  | [] => v i
  | f :: rest => maskSlots (fun j => v j * f j)%Q rest i
  end.

(** What the accumulator of a loop over blocks holds once the blocks with
    slot vectors [gs] are in: nothing before the first block, their slotwise
    sum afterwards. *)
Definition blocksHeld {Ct : Type} {B : Backend Ct} (M : PlainModel B)
           (gs : list (Z -> Q)) (acc : option Ct) : Prop :=
  match acc with
  | None => gs = []
  | Some r => gs <> [] /\ forall i, (slot M r i == slotSum gs i)%Q
  end.

(** Ciphertexts whose slot vectors are [gs], one by one. *)
Definition slotsAre {Ct : Type} {B : Backend Ct} (M : PlainModel B)
           (cts : list Ct) (gs : list (Z -> Q)) : Prop :=
  Forall2 (fun c g => forall i, (slot M c i == g i)%Q) cts gs.

(** A bootstrapper, where the evaluator has one, never fails. *)
Definition BootstrapNeverFails {Ct : Type} (e : Evaluator Ct) : Prop :=
  forall btp, bootstrapper e = Some btp ->
  forall a, exists c, BtpBootstrap btp a = Ok c.

(** What one Newton step for the inverse square root makes of the error
    e = 1 - x y^2. *)
Definition invSqrtError (err : Q) : Q := (err * err * (3 + err) / 4)%Q.

(** The BMV blocks a store serves hold the slot vectors [content]. *)
Definition bmvContent {Ct : Type} {B : Backend Ct} (M : PlainModel B)
           (bmvStore : Categorical.BMVStore Ct)
           (content : Categorical.Condition -> Z -> Z -> Q)
           (conditions : list Categorical.Condition) : Prop :=
  forall cond b c, In cond conditions ->
    Categorical.GetBMV bmvStore (Categorical.ColumnName cond)
                       (Categorical.Value cond) b = Ok c ->
    forall i, (slot M c i == content cond b i)%Q.

(** The store serves the BMV block of every condition for the blocks
    below [blocks]. *)
Definition bmvServed {Ct : Type} (bmvStore : Categorical.BMVStore Ct)
           (conditions : list Categorical.Condition) (blocks : Z) : Prop :=
  forall cond b, In cond conditions -> 0 <= b < blocks ->
    exists c, Categorical.GetBMV bmvStore (Categorical.ColumnName cond)
                                 (Categorical.Value cond) b = Ok c.

(** The slot vectors of the masks of [BuildMask]: for block b, validity
    times the content of the BMV of each condition at b. *)
Definition maskVectors {Ct : Type} {B : Backend Ct} (M : PlainModel B)
           (content : Categorical.Condition -> Z -> Z -> Q)
           (conditions : list Categorical.Condition) (validityBlocks : list Ct)
  : list (Z -> Q) :=
  map (fun p => maskSlots (slot M (snd p))
                          (map (fun cond => content cond (Z.of_nat (fst p))) conditions))
      (combine (seq 0 (List.length validityBlocks)) validityBlocks).

(** Sample inputs: two blocks of data with their validity. *)
Definition sampleData : list Ideal.ct :=
  [Ideal.of_list 5 [1; 2; 3; 4]%Q; Ideal.of_list 5 [5; 6; 7; 8]%Q].

Definition sampleValidity : list Ideal.ct :=
  [Ideal.of_list 5 [1; 1; 0; 1]%Q; Ideal.of_list 5 [0; 1; 1; 1]%Q].

(** A validity mask with two valid rows. *)
Definition sampleValidityTwo : list Ideal.ct :=
  [Ideal.of_list 5 [1; 0; 0; 0]%Q; Ideal.of_list 5 [0; 1; 0; 0]%Q].

(** A BMV store whose blocks mark the rows 0 and 1 of every block. *)
Definition sampleBMVStore : Categorical.BMVStore Ideal.ct :=
  {| Categorical.GetBMV := fun _ _ _ => Ok (Ideal.of_list 5 [1; 1; 0; 0]%Q);
     Categorical.BlockCount := 2 |}.

Definition sampleConditions : list Categorical.Condition :=
  [{| Categorical.ColumnName := "region"; Categorical.Value := 2 |}].

(* ===================================================================== *)
(** * Pure helpers of the packages below *)
(* ===================================================================== *)

(** [r] then [k], the way [if err != nil { return err }] chains two steps
    of a function without shared state. *)
Definition andThen {A B : Type} (r : result A) (k : A -> result B) : result B :=
  match r with
  | Ok a => k a
  | Err e => Err e
  end.

(** [l[i]] outside a monad: a run-time panic outside the bounds. *)
Definition at_index {A : Type} (l : list A) (i : Z) : result A :=
  if i <? 0 then Err (Panic "index out of range")
  else match nth_error l (Z.to_nat i) with
       | Some a => Ok a
       | None => Err (Panic "index out of range")
       end.

(** A [map[string]bool] used as a set: a missing key reads [false]. *)
Definition StringSet : Type := string -> bool.

Definition emptySet : StringSet := fun _ => false.

(** [s[k] = true] *)
Definition setAdd (k : string) (s : StringSet) : StringSet :=
  fun k' => if String.eqb k' k then true else s k'.

(* ===================================================================== *)
(** * package schema *)
(* ===================================================================== *)

Module Schema.

(** [type ColumnType string] *)
Definition ColumnType : Type := string.

Definition Numerical : ColumnType := "numerical".
Definition Categorical : ColumnType := "categorical".
Definition Ordinal : ColumnType := "ordinal".

Record Column : Type := {
  Name : string;
  ColType : ColumnType;        (* field [Type] *)
  CategoryCount : Z;
  MinValue : float64;
  MaxValue : float64;
  Description : string
}.

(** [Column.Validate]; [Ok tt] is the nil error. *)
Definition Column_Validate (c : Column) : result unit :=
  if String.eqb (Name c) "" then Err (Errorf "column name cannot be empty" [])
  else if String.eqb (ColType c) Numerical then Ok tt
  else if String.eqb (ColType c) Categorical || String.eqb (ColType c) Ordinal then
    if CategoryCount c <=? 0 then
      Err (Errorf "categorical/ordinal column %q must have positive category_count"
                  [ArgStr (Name c)])
    else Ok tt
  else Err (Errorf "unknown column type %q for column %q"
                   [ArgStr (ColType c); ArgStr (Name c)]).

Record TableSchema : Type := {
  TableName : string;          (* field [Name] *)
  TableDescription : string;   (* field [Description] *)
  Columns : list Column
}.

Definition len {A : Type} (l : list A) : Z := Z.of_nat (List.length l).

(** The loop [for _, col := range s.Columns] of [TableSchema.Validate],
    with the set [names] of the column names met so far. *)
Fixpoint validateColumns (cols : list Column) (names : StringSet) : result unit :=
  match cols with
  | [] => Ok tt
  | col :: rest =>
      match Column_Validate col with
      | Err e => Err (wrapf "invalid column: %w" [] e)
      | Ok _ =>
          if names (Name col) then
            Err (Errorf "duplicate column name: %q" [ArgStr (Name col)])
          else validateColumns rest (setAdd (Name col) names)
      end
  end.

Definition TableSchema_Validate (s : TableSchema) : result unit :=
  if String.eqb (TableName s) "" then Err (Errorf "table name cannot be empty" [])
  else if len (Columns s) =? 0 then
    Err (Errorf "table must have at least one column" [])
  else validateColumns (Columns s) emptySet.

(** The loop of [GetColumn]: the first column called [name], [None] being
    the nil pointer. *)
Fixpoint getColumnLoop (cols : list Column) (name : string) : option Column :=
  match cols with
  | [] => None
  | c :: rest => if String.eqb (Name c) name then Some c else getColumnLoop rest name
  end.

Definition GetColumn (s : TableSchema) (name : string) : option Column :=
  getColumnLoop (Columns s) name.

(** The loop of [GetColumnIndex], entered at index [i]. *)
Fixpoint getColumnIndexLoop (i : Z) (cols : list Column) (name : string) : Z :=
  match cols with
  | [] => -1
  | c :: rest =>
      if String.eqb (Name c) name then i else getColumnIndexLoop (i + 1) rest name
  end.

Definition GetColumnIndex (s : TableSchema) (name : string) : Z :=
  getColumnIndexLoop 0 (Columns s) name.

Record TableMetadata : Type := {
  Schema : TableSchema;
  RowCount : Z;
  Slots : Z;
  BlockCount : Z;
  ParamsHash : string;
  LogScale : Z;
  CreatedAt : string;
  DataOwnerID : string;
  Version : string
}.

(** [NewTableMetadata]; the division is reached with [slots > 0] only, and
    [/] on [int]s truncates towards zero. *)
Definition NewTableMetadata (schema : TableSchema) (rowCount slots : Z)
           (paramsHash : string) (logScale : Z) (dataOwnerID : string)
  : result TableMetadata :=
  match TableSchema_Validate schema with
  | Err e => Err (wrapf "invalid schema: %w" [] e)
  | Ok _ =>
      if rowCount <=? 0 then Err (Errorf "row count must be positive" [])
      else if slots <=? 0 then Err (Errorf "slots must be positive" [])
      else
        let blockCount :=
          GoInt.wrap (Z.quot (GoInt.sub (GoInt.add rowCount slots) 1) slots) in
        Ok {| Schema := schema;
              RowCount := rowCount;
              Slots := slots;
              BlockCount := blockCount;
              ParamsHash := paramsHash;
              LogScale := logScale;
              CreatedAt := "";
              DataOwnerID := dataOwnerID;
              Version := "1.0" |}
  end.

Definition TableMetadata_Validate (m : TableMetadata) : result unit :=
  match TableSchema_Validate (Schema m) with
  | Err e => Err (wrapf "invalid schema: %w" [] e)
  | Ok _ =>
      if RowCount m <=? 0 then Err (Errorf "row count must be positive" [])
      else if Slots m <=? 0 then Err (Errorf "slots must be positive" [])
      else
        let expectedBlocks :=
          GoInt.wrap (Z.quot (GoInt.sub (GoInt.add (RowCount m) (Slots m)) 1)
                             (Slots m)) in
        if negb (BlockCount m =? expectedBlocks) then
          Err (Errorf "block count mismatch: expected %d, got %d"
                      [ArgInt expectedBlocks; ArgInt (BlockCount m)])
        else Ok tt
  end.

(** [BlockRange]: [(startRow, endRow)], [endRow] exclusive. *)
Definition BlockRange (m : TableMetadata) (blockIndex : Z) : Z * Z :=
  let start := GoInt.mul blockIndex (Slots m) in
  let end_ := GoInt.add start (Slots m) in
  let end_ := if RowCount m <? end_ then RowCount m else end_ in
  (start, end_).

Definition RowsInBlock (m : TableMetadata) (blockIndex : Z) : Z :=
  let (start, end_) := BlockRange m blockIndex in
  GoInt.sub end_ start.

End Schema.

(* ===================================================================== *)
(** * package params *)
(* ===================================================================== *)

Module Params.

(** [type ProfileType string] *)
Definition ProfileType : Type := string.

Definition ProfileA : ProfileType := "A".
Definition ProfileB : ProfileType := "B".

(** The field [Params] holds Lattigo's own parameter object and is left
    out. *)
Record Profile : Type := {
  ProfType : ProfileType;      (* field [Type] *)
  LogN : Z;
  Slots : Z;
  LogScale : Z;
  LogQP : list Z;
  BootstrapEnabled : bool;
  ParamsHash : string
}.

Definition len {A : Type} (l : list A) : Z := Z.of_nat (List.length l).

(** The loop [for i := 1; i < p.Slots; i *= 2] of [RotationSteps], entered
    at [i].  [fuel] bounds the number of iterations still allowed. *)
Fixpoint rotationStepsLoop (fuel : nat) (slots i : Z) (steps : list Z)
  : result (list Z) :=
  if i <? slots then
    match fuel with
    | O => Err OutOfFuel
    | S fuel' => rotationStepsLoop fuel' slots (GoInt.mul i 2) (steps ++ [i])%list
    end
  else Ok steps.

(** An [int] doubled 64 times has wrapped to 0, from where the Go loop
    never ends: 64 iterations are all a terminating run can take. *)
Definition RotationSteps (p : Profile) : result (list Z) :=
  rotationStepsLoop 64 (Slots p) 1 [].

(** [Profile.Validate]; the shift is evaluated with [LogN] between 10 and
    17 only, where it cannot panic. *)
Definition Validate (p : Profile) : result unit :=
  if (LogN p <? 10) || (17 <? LogN p) then
    Err (Errorf "LogN must be between 10 and 17, got %d" [ArgInt (LogN p)])
  else
    match GoInt.shl 1 (GoInt.sub (LogN p) 1) with
    | None => Err (Panic "negative shift amount")
    | Some expected =>
        if negb (Slots p =? expected) then
          Err (Errorf "Slots mismatch: expected %d, got %d"
                      [ArgInt expected; ArgInt (Slots p)])
        else if len (LogQP p) <? 2 then Err (Errorf "modulus chain too short" [])
        else Ok tt
    end.

End Params.

(* ===================================================================== *)
(** * package jobs: planning *)
(* ===================================================================== *)

Module Planner.

Record PlanStep : Type := {
  Name : string;
  Description : string;
  Inputs : list string;
  Outputs : list string
}.

Record JobPlan : Type := {
  Job : Jobs.JobSpec;
  Steps : list PlanStep
}.

(** [PlanStep{Name: name, Description: description}] *)
Definition step (name description : string) : PlanStep :=
  {| Name := name; Description := description; Inputs := []; Outputs := [] |}.

(** [PlanJob]: the [switch] has no default case, so an operation it does
    not list would leave [Steps] nil. *)
Definition PlanJob (job : Jobs.JobSpec) : result JobPlan :=
  match Jobs.Validate job with
  | Err e => Err e
  | Ok _ =>
      let op := Jobs.Op job in
      let steps :=
        if String.eqb op Jobs.OpMean then
          [ step "load_data" "Load data blocks and validity vectors";
            step "masked_sum" "Compute sum(x * v)";
            step "count" "Compute sum(v)";
            step "inverse" "Compute 1/count via INVNTHSQRT";
            step "divide" "Compute mean = sum * invCount" ]
        else if String.eqb op Jobs.OpVariance then
          [ step "load_data" "Load data blocks and validity vectors";
            step "mean" "Compute mean";
            step "sum_squares" "Compute sum(x^2 * v)";
            step "inverse" "Compute 1/count";
            step "variance" "Compute E[X^2] - E[X]^2" ]
        else if String.eqb op Jobs.OpStdev then
          [ step "load_data" "Load data blocks and validity vectors";
            step "variance" "Compute variance";
            step "sqrt" "Compute sqrt(variance) via INVNTHSQRT" ]
        else if String.eqb op Jobs.OpCorr then
          [ step "load_data" "Load data blocks for both columns";
            step "means" "Compute means of X and Y";
            step "covariance" "Compute covariance";
            step "variances" "Compute variances of X and Y";
            step "normalize" "Compute cov/(stdevX * stdevY)" ]
        else if String.eqb op Jobs.OpBc then
          [ step "load_bmvs" "Load BMV blocks for conditions";
            step "build_mask" "Multiply BMVs to create combined mask";
            step "sum" "Sum mask values to get count" ]
        else if String.eqb op Jobs.OpBa then
          [ step "load_data" "Load target column and BMVs";
            step "build_mask" "Build combined mask from conditions";
            step "mean" "Compute mean with mask as validity" ]
        else if String.eqb op Jobs.OpBv then
          [ step "load_data" "Load target column and BMVs";
            step "build_mask" "Build combined mask from conditions";
            step "variance" "Compute variance with mask as validity" ]
        else if String.eqb op Jobs.OpLBc then
          [ step "load_pbmv" "Load PBMV for primary variable";
            step "load_bbmv" "Load BBMVs for other variables";
            step "multiply" "Compute batched products";
            step "pack" "Pack results for DDIA post-processing" ]
        else if String.eqb op Jobs.OpPercentile then
          [ step "load_bmvs" "Load BMVs for ordinal column";
            step "frequencies" "Compute frequency for each value";
            step "cumulative" "Build cumulative histogram";
            step "compare" "Compare cumulative/R with k/100";
            step "find" "Find first bucket above threshold" ]
        else if String.eqb op Jobs.OpLookup then
          [ step "load_data" "Load categorical and target columns";
            step "equality" "Compute DISCRETEEQUALZERO(cat - value)";
            step "select" "Multiply equality indicator by target" ]
        else [] in
      Ok {| Job := job; Steps := steps |}
  end.

(** The loop [for i, job := range batch.Jobs] of [LoadBatchJob], entered at
    index [i]: the first job [Validate] refuses ends it. *)
Fixpoint validateJobs (i : Z) (jobs : list Jobs.JobSpec) : result unit :=
  match jobs with
  | [] => Ok tt
  | job :: rest =>
      match Jobs.Validate job with
      | Err e => Err (wrapf "job %d invalid: %w" [ArgInt i] e)
      | Ok _ => validateJobs (i + 1) rest
      end
  end.

End Planner.

(* ===================================================================== *)
(** * package storage: the table store on disk *)
(* ===================================================================== *)

Module Store.

(** The part of the file system the store touches: the content of each
    file that exists, and the paths at which [os.Create] fails (a missing
    directory, no permission).  [os.Open] succeeds on the files that
    exist. *)
Record FileSystem : Type := {
  file : string -> option (list Storage.byte);
  denied : string -> bool
}.

(** The file at [path] holds [content]. *)
Definition writeFile (path : string) (content : list Storage.byte) (fs : FileSystem)
  : FileSystem :=
  {| file := fun p => if String.eqb p path then Some content else file fs p;
     denied := denied fs |}.

(** [os.Create]: the file exists and is empty afterwards. *)
Definition osCreate (path : string) : StateErr FileSystem unit :=
  fun fs =>
    if denied fs path then (Err (External "open: cannot create file"), fs)
    else (Ok tt, writeFile path [] fs).

(** [os.Open], giving the bytes to read. *)
Definition osOpen (path : string) : StateErr FileSystem (list Storage.byte) :=
  fun fs =>
    match file fs path with
    | Some content => (Ok content, fs)
    | None => (Err (External "open: no such file or directory"), fs)
    end.

Section Store.

Context {Ct : Type}.
Variable C : Storage.Codec Ct.

(** [filepath.Join] and [fmt.Sprintf], of Go's library. *)
Variable Join : list string -> string.
Variable Sprintf : string -> list fmt_arg -> string.

(** [SaveCiphertext]: what [WriteCiphertext] wrote before it returned is
    in the file, also when it failed. *)
Definition SaveCiphertext (path : string) (ct : Ct) : StateErr FileSystem unit :=
  fun fs =>
    match osCreate path fs with
    | (Err e, fs') => (Err (wrapf "failed to create ciphertext file: %w" [] e), fs')
    | (Ok _, fs') =>
        let (r, written) := Storage.WriteCiphertext C ct [] in
        (r, writeFile path written fs')
    end.

Definition LoadCiphertext (path : string) : StateErr FileSystem Ct :=
  fun fs =>
    match osOpen path fs with
    | (Err e, fs') => (Err (wrapf "failed to open ciphertext file: %w" [] e), fs')
    | (Ok content, fs') => (fst (Storage.ReadCiphertext C content), fs')
    end.

Record TableStore : Type := { BasePath : string }.

Definition blockPath (ts : TableStore) (columnName : string) (blockIndex : Z) : string :=
  Join [BasePath ts; "blocks";
        Sprintf "%s_%d.bin" [ArgStr columnName; ArgInt blockIndex]].

Definition validityPath (ts : TableStore) (columnName : string) (blockIndex : Z)
  : string :=
  Join [BasePath ts; "validity";
        Sprintf "%s_%d.bin" [ArgStr columnName; ArgInt blockIndex]].

Definition bmvPath (ts : TableStore) (columnName : string) (categoryValue blockIndex : Z)
  : string :=
  Join [BasePath ts; "bmvs";
        Sprintf "%s_v%d_%d.bin"
                [ArgStr columnName; ArgInt categoryValue; ArgInt blockIndex]].

Definition SaveBlock (ts : TableStore) (columnName : string) (blockIndex : Z) (ct : Ct)
  : StateErr FileSystem unit :=
  SaveCiphertext (blockPath ts columnName blockIndex) ct.

Definition LoadBlock (ts : TableStore) (columnName : string) (blockIndex : Z)
  : StateErr FileSystem Ct :=
  LoadCiphertext (blockPath ts columnName blockIndex).

Definition SaveValidity (ts : TableStore) (columnName : string) (blockIndex : Z)
           (ct : Ct) : StateErr FileSystem unit :=
  SaveCiphertext (validityPath ts columnName blockIndex) ct.

Definition LoadValidity (ts : TableStore) (columnName : string) (blockIndex : Z)
  : StateErr FileSystem Ct :=
  LoadCiphertext (validityPath ts columnName blockIndex).

Definition SaveBMV (ts : TableStore) (columnName : string) (categoryValue blockIndex : Z)
           (ct : Ct) : StateErr FileSystem unit :=
  SaveCiphertext (bmvPath ts columnName categoryValue blockIndex) ct.

Definition LoadBMV (ts : TableStore) (columnName : string) (categoryValue blockIndex : Z)
  : StateErr FileSystem Ct :=
  LoadCiphertext (bmvPath ts columnName categoryValue blockIndex).

Record BlockIterator : Type := {
  store : TableStore;
  columnName : string;
  blockCount : Z;
  current : Z
}.

Definition NewBlockIterator (ts : TableStore) (columnName : string) (blockCount : Z)
  : BlockIterator :=
  {| store := ts; columnName := columnName; blockCount := blockCount; current := 0 |}.

Definition HasNext (bi : BlockIterator) : bool := current bi <? blockCount bi.

(** [Next] reads the file system and moves the iterator, which is the
    state here; a block that does not load leaves it where it was. *)
Definition Next (fs : FileSystem) : StateErr BlockIterator Ct :=
  fun bi =>
    if negb (HasNext bi) then (Err (Errorf "no more blocks" []), bi)
    else
      match fst (LoadBlock (store bi) (columnName bi) (current bi) fs) with
      | Err e => (Err e, bi)
      | Ok ct =>
          (Ok ct, {| store := store bi; columnName := columnName bi;
                     blockCount := blockCount bi;
                     current := GoInt.add (current bi) 1 |})
      end.

Definition Reset (bi : BlockIterator) : BlockIterator :=
  {| store := store bi; columnName := columnName bi; blockCount := blockCount bi;
     current := 0 |}.

(** [n] calls of [Next], the blocks they return in order; the first error
    ends the run. *)
Fixpoint drain (fs : FileSystem) (n : nat) : StateErr BlockIterator (list Ct) :=
  match n with
  | O => ret []
  | S n' => (ct <- Next fs ;; rest <- drain fs n' ;; ret (ct :: rest))%he
  end.

End Store.

End Store.

(* ===================================================================== *)
(** * package privacy: the inspector *)
(* ===================================================================== *)

Module Privacy.

Record Policy : Type := {
  ID : string;
  Name : string;
  MinCount : Z;
  MaxPrecision : Z;
  SuppressSmallGroups : bool;
  RoundingEnabled : bool;
  AuditEnabled : bool
}.

Definition DefaultPolicy : Policy :=
  {| ID := "default";
     Name := "Default Privacy Policy";
     MinCount := 5;
     MaxPrecision := 4;
     SuppressSmallGroups := true;
     RoundingEnabled := true;
     AuditEnabled := true |}.

Record Inspector : Type := { policy : Policy }.

(** [NewInspector]; [None] is the nil policy. *)
Definition NewInspector (p : option Policy) : Inspector :=
  {| policy := match p with Some p' => p' | None => DefaultPolicy end |}.

(** A [map[string]V] is the list of its entries, in the order [range]
    visits them; the keys are distinct. *)
Definition GoMap (V : Type) : Type := list (string * V).

(** [m[key]] with its [ok] flag. *)
Fixpoint lookup {V : Type} (m : GoMap V) (key : string) : option V :=
  match m with
  | [] => None
  | (k, v) :: rest => if String.eqb k key then Some v else lookup rest key
  end.

Record ContingencyTable : Type := {
  Dimensions : list string;
  Categories : GoMap (list Z);
  Counts : GoMap Z
}.

(** What an [interface{}] of the package holds. *)
Inductive value : Type :=
| Float (f : float64)
| Int (n : Z)
| Table (t : ContingencyTable).

(** The text [fmt.Sprintf] makes of a format and its arguments. *)
Record formatted : Type := Sprintf { format : string; args : list fmt_arg }.

Record Violation : Type := {
  Rule : string;
  Message : formatted
}.

Record AuditRecord : Type := {
  JobID : string;
  Operation : string;
  Timestamp : string;
  InputCols : list string;
  Conditions : GoMap value;
  ResultType : string;
  AuditApproved : bool         (* field [Approved] *)
}.

(** [TransformedValue] and [AuditRecord] are [None] when nil. *)
Record InspectionResult : Type := {
  Approved : bool;
  Violations : list Violation;
  TransformedValue : option value;
  Audit : option AuditRecord   (* field [AuditRecord] *)
}.

(** The check that opens [InspectNumeric], [InspectCount] and
    [InspectPercentile]: whether the result stays approved, and the
    violations appended. *)
Definition checkMinCount (i : Inspector) (count : Z) : bool * list Violation :=
  if SuppressSmallGroups (policy i) && (count <? MinCount (policy i)) then
    (false,
     [{| Rule := "min_count";
         Message := Sprintf "count %d is below minimum %d"
                            [ArgInt count; ArgInt (MinCount (policy i))] |}])
  else (true, []).

Section Numeric.

(** [math.Pow] and [math.Round], of Go's library. *)
Variable Pow : float64 -> float64 -> float64.
Variable Round : float64 -> float64.

Definition InspectNumeric (i : Inspector) (v : float64) (count : Z)
           (jobID operation : string) : InspectionResult :=
  let (approved, violations) := checkMinCount i count in
  let v :=
    if approved && RoundingEnabled (policy i) then
      let multiplier := Pow (of_int 10) (of_int (MaxPrecision (policy i))) in
      SFdiv prec emax (Round (SFmul prec emax v multiplier)) multiplier
    else v in
  {| Approved := approved;
     Violations := violations;
     TransformedValue := if approved then Some (Float v) else None;
     Audit :=
       if AuditEnabled (policy i) then
         Some {| JobID := jobID; Operation := operation; Timestamp := "";
                 InputCols := []; Conditions := []; ResultType := "numeric";
                 AuditApproved := approved |}
       else None |}.

End Numeric.

Definition InspectCount (i : Inspector) (count : Z) (jobID : string)
           (conditions : GoMap Z) : InspectionResult :=
  let (approved, violations) := checkMinCount i count in
  {| Approved := approved;
     Violations := violations;
     TransformedValue := if approved then Some (Int count) else None;
     Audit :=
       if AuditEnabled (policy i) then
         let condMap := map (fun kv => (fst kv, Int (snd kv))) conditions in
         Some {| JobID := jobID; Operation := "bc"; Timestamp := "";
                 InputCols := []; Conditions := condMap; ResultType := "count";
                 AuditApproved := approved |}
       else None |}.

Definition InspectPercentile (i : Inspector) (bucket count : Z) (k : float64)
           (jobID : string) : InspectionResult :=
  let (approved, violations) := checkMinCount i count in
  {| Approved := approved;
     Violations := violations;
     TransformedValue := if approved then Some (Int bucket) else None;
     Audit :=
       if AuditEnabled (policy i) then
         Some {| JobID := jobID; Operation := "percentile"; Timestamp := "";
                 InputCols := []; Conditions := [("k", Float k)];
                 ResultType := "bucket_index"; AuditApproved := approved |}
       else None |}.

(** The first loop of [InspectContingencyTable] over the cells: the set of
    suppressed cells and the violations so far. *)
Fixpoint cellLoop (i : Inspector) (cells : GoMap Z) (suppressedCells : StringSet)
         (violations : list Violation) : StringSet * list Violation :=
  match cells with
  | [] => (suppressedCells, violations)
  | (key, count) :: rest =>
      if count <? MinCount (policy i) then
        if SuppressSmallGroups (policy i) then
          cellLoop i rest (setAdd key suppressedCells) violations
        else
          cellLoop i rest suppressedCells
            (violations ++
             [{| Rule := "min_count";
                 Message := Sprintf "cell %s has count %d below minimum %d"
                                    [ArgStr key; ArgInt count;
                                     ArgInt (MinCount (policy i))] |}])%list
      else cellLoop i rest suppressedCells violations
  end.

(** The second loop: the counts of the released table. *)
Fixpoint transformLoop (cells : GoMap Z) (suppressedCells : StringSet)
         (transformedCounts : GoMap Z) : GoMap Z :=
  match cells with
  | [] => transformedCounts
  | (key, count) :: rest =>
      transformLoop rest suppressedCells
        (transformedCounts ++
         [(key, if negb (suppressedCells key) then count else -1)])%list
  end.

(** [InspectContingencyTable]: [result.Approved] is set once, to true. *)
Definition InspectContingencyTable (i : Inspector) (table : ContingencyTable)
           (jobID : string) : InspectionResult :=
  let approved := true in
  let (suppressedCells, violations) := cellLoop i (Counts table) emptySet [] in
  let transformed :=
    if approved || (Z.of_nat (List.length violations) =? 0) then
      Some (Table {| Dimensions := Dimensions table;
                     Categories := Categories table;
                     Counts := transformLoop (Counts table) suppressedCells [] |})
    else None in
  {| Approved := approved;
     Violations := violations;
     TransformedValue := transformed;
     Audit :=
       if AuditEnabled (policy i) then
         Some {| JobID := jobID; Operation := "lbc"; Timestamp := "";
                 InputCols := []; Conditions := [];
                 ResultType := "contingency_table"; AuditApproved := approved |}
       else None |}.

End Privacy.

(* ===================================================================== *)
(** * cmd/dw_merge: tokens and join masks *)
(* ===================================================================== *)

Module Merge.

(** A string read by [for _, c := range s] is the sequence of runes the
    loop yields, and [current += string(c)] appends one rune. *)
Definition rune : Type := Z.
Definition runes : Type := list rune.

Definition comma : rune := 44.
Definition newline : rune := 10.
Definition carriageReturn : rune := 13.

Definition isEmpty (s : runes) : bool :=
  match s with [] => true | _ => false end.

(** The loop of [splitComma] on what is left of [s]. *)
Fixpoint splitCommaLoop (s : runes) (result : list runes) (current : runes)
  : list runes * runes :=
  match s with
  | [] => (result, current)
  | c :: rest =>
      if c =? comma then
        if negb (isEmpty current) then splitCommaLoop rest (result ++ [current])%list []
        else splitCommaLoop rest result current
      else splitCommaLoop rest result (current ++ [c])%list
  end.

Definition splitComma (s : runes) : list runes :=
  let (result, current) := splitCommaLoop s [] [] in
  if negb (isEmpty current) then (result ++ [current])%list else result.

(** The loop of [splitLines]. *)
Fixpoint splitLinesLoop (s : runes) (result : list runes) (current : runes)
  : list runes * runes :=
  match s with
  | [] => (result, current)
  | c :: rest =>
      if c =? newline then splitLinesLoop rest (result ++ [current])%list []
      else if negb (c =? carriageReturn) then
        splitLinesLoop rest result (current ++ [c])%list
      else splitLinesLoop rest result current
  end.

Definition splitLines (s : runes) : list runes :=
  let (result, current) := splitLinesLoop s [] [] in
  if negb (isEmpty current) then (result ++ [current])%list else result.

(** The loop of [LoadTokens] over the lines of the file read. *)
Fixpoint tokensLoop (lines : list runes) (tokens : list runes) : list runes :=
  match lines with
  | [] => tokens
  | line :: rest =>
      if negb (isEmpty line) then tokensLoop rest (tokens ++ [line])%list
      else tokensLoop rest tokens
  end.

(** [LoadTokens], on what [os.ReadFile] returned. *)
Definition LoadTokens (read : result runes) : result (list runes) :=
  match read with
  | Err e => Err e
  | Ok data => Ok (tokensLoop (splitLines data) [])
  end.

(** [for _, t := range tokens { if intersection[t] { nextSet[t] = true } }] *)
Fixpoint nextSetLoop (intersection : StringSet) (tokens : list string)
         (nextSet : StringSet) : StringSet :=
  match tokens with
  | [] => nextSet
  | t :: rest =>
      nextSetLoop intersection rest (if intersection t then setAdd t nextSet else nextSet)
  end.

(** [for i := 1; i < len(allTokens); i++], on the tables from 1 on. *)
Fixpoint intersectLoop (others : list (list string)) (intersection : StringSet)
  : StringSet :=
  match others with
  | [] => intersection
  | tokens :: rest => intersectLoop rest (nextSetLoop intersection tokens emptySet)
  end.

(** [for j, t := range tokens { if intersection[t] { mask[j] = 1.0 } }] *)
Fixpoint maskLoop (intersection : StringSet) (j : nat) (tokens : list string)
         (mask : list float64) : list float64 :=
  match tokens with
  | [] => mask
  | t :: rest =>
      maskLoop intersection (S j) rest
               (if intersection t then LBc.set_nth j one mask else mask)
  end.

(** [ComputeJoinMasks]; the nil result is the empty list. *)
Definition ComputeJoinMasks (allTokens : list (list string)) : list (list float64) :=
  match allTokens with
  | [] => []
  | first :: others =>
      let intersection := fold_left (fun s t => setAdd t s) first emptySet in
      let intersection := intersectLoop others intersection in
      map (fun tokens =>
             maskLoop intersection 0 tokens (repeat zero (List.length tokens)))
          allTokens
  end.

End Merge.

(* ===================================================================== *)
(** * package categorical: BBMV encoders and plaintext references *)
(* ===================================================================== *)

(** The encoder of the draft with [DeltaOffset]. *)
Module BBMV.

Record BBMVEncoder : Type := {
  config : LBc.LBcConfig;
  slots : Z
}.

Definition NewBBMVEncoder (slots : Z) (config : LBc.LBcConfig) : BBMVEncoder :=
  {| config := config; slots := slots |}.

(** The loop [for i, m := range mask], entered at index [i]. *)
Fixpoint maskLoop (b : BBMVEncoder) (scale : float64) (i : Z) (mask : list bool)
         (result : list float64) : list float64 :=
  match mask with
  | [] => result
  | m :: rest =>
      if slots b <=? i then result                       (* break *)
      else maskLoop b scale (i + 1) rest
                    (if m then LBc.set_nth (Z.to_nat i) scale result else result)
  end.

Definition EncodeBBMV (b : BBMVEncoder) (mask : list bool) : result (list float64) :=
  if slots b <? 0 then Err (Panic "makeslice: len out of range")
  else
    let scale := Ldexp one (LBc.LambdaBig (config b)) in
    Ok (maskLoop b scale 0 mask (repeat zero (Z.to_nat (slots b)))).

(** The loop [for i, v := range values] of [EncodeBBMVForValue]. *)
Fixpoint valueLoop (b : BBMVEncoder) (scale : float64) (want : Z) (i : Z)
         (values : list Z) (result : list float64) : list float64 :=
  match values with
  | [] => result
  | v :: rest =>
      if slots b <=? i then result                       (* break *)
      else valueLoop b scale want (i + 1) rest
                     (if v =? want then LBc.set_nth (Z.to_nat i) scale result
                      else result)
  end.

Definition EncodeBBMVForValue (b : BBMVEncoder) (values : list Z) (want : Z)
  : result (list float64) :=
  if slots b <? 0 then Err (Panic "makeslice: len out of range")
  else
    let scale := Ldexp one (LBc.LambdaBig (config b)) in
    Ok (valueLoop b scale want 0 values (repeat zero (Z.to_nat (slots b)))).

End BBMV.

(** The encoder of binop.go, whose scale is [float64(int(1) << Λ)]. *)
Module BBMVBinop.

Record BBMVEncoder : Type := {
  config : LBcBinop.LBcConfig;
  slots : Z
}.

Definition NewBBMVEncoder (slots : Z) (config : LBcBinop.LBcConfig) : BBMVEncoder :=
  {| config := config; slots := slots |}.

Fixpoint maskLoop (b : BBMVEncoder) (scale : float64) (i : Z) (mask : list bool)
         (result : list float64) : list float64 :=
  match mask with
  | [] => result
  | m :: rest =>
      if slots b <=? i then result                       (* break *)
      else maskLoop b scale (i + 1) rest
                    (if m then LBc.set_nth (Z.to_nat i) scale result else result)
  end.

Definition EncodeBBMV (b : BBMVEncoder) (mask : list bool) : result (list float64) :=
  if slots b <? 0 then Err (Panic "makeslice: len out of range")
  else
    match GoInt.shl 1 (LBcBinop.LambdaBig (config b)) with
    | None => Err (Panic "negative shift amount")
    | Some shifted =>
        let scale := of_int shifted in
        Ok (maskLoop b scale 0 mask (repeat zero (Z.to_nat (slots b))))
    end.

End BBMVBinop.

(** The plaintext references of binop.go, used to validate the encrypted
    operators. *)
Module Plaintext.

(** The loop [for j, cond := range conditions] on row [i], entered at
    index [j]: whether the row matches, [false] at the first column that
    differs. *)
Fixpoint matchLoop (values : list (list Z)) (i : Z) (j : Z) (conditions : list Z)
  : result bool :=
  match conditions with
  | [] => Ok true
  | cond :: rest =>
      andThen (at_index values j) (fun column =>
      andThen (at_index column i) (fun v =>
        if negb (v =? cond) then Ok false               (* break *)
        else matchLoop values i (j + 1) rest))
  end.

(** The loop [for i := range valid], entered at row [i]. *)
Fixpoint bcLoop (values : list (list Z)) (conditions : list Z) (i : Z)
         (valid : list bool) (count : Z) : result Z :=
  match valid with
  | [] => Ok count
  | ok :: rest =>
      if negb ok then bcLoop values conditions (i + 1) rest count   (* continue *)
      else
        andThen (matchLoop values i 0 conditions) (fun matched =>
          bcLoop values conditions (i + 1) rest
                 (if matched then GoInt.add count 1 else count))
  end.

Definition PlaintextBc (values : list (list Z)) (conditions : list Z)
           (valid : list bool) : result Z :=
  bcLoop values conditions 0 valid 0.

(** The loop [for i, v := range values] of [PlaintextCumulativeHistogram],
    entered at row [i]; [valid[i]] is read first. *)
Fixpoint freqLoop (valid : list bool) (categories : Z) (i : Z) (values : list Z)
         (freq : list Z) : result (list Z) :=
  match values with
  | [] => Ok freq
  | v :: rest =>
      andThen (at_index valid i) (fun ok =>
        if ok && (1 <=? v) && (v <=? categories) then
          let k := Z.to_nat (GoInt.sub v 1) in
          freqLoop valid categories (i + 1) rest
                   (LBc.set_nth k (GoInt.add (nth k freq 0) 1) freq)
        else freqLoop valid categories (i + 1) rest freq)
  end.

(** The loop [for i := 1; i < categories; i++], with [todo] iterations
    left from index [i]. *)
Fixpoint cumulLoop (todo : nat) (i : Z) (freq cumul : list Z) : list Z :=
  match todo with
  | O => cumul
  | S todo' =>
      cumulLoop todo' (i + 1) freq
                (LBc.set_nth (Z.to_nat i)
                             (GoInt.add (nth (Z.to_nat (i - 1)) cumul 0)
                                        (nth (Z.to_nat i) freq 0))
                             cumul)
  end.

Definition PlaintextCumulativeHistogram (values : list Z) (valid : list bool)
           (categories : Z) : result (list Z) :=
  if categories <? 0 then Err (Panic "makeslice: len out of range")
  else
    andThen (freqLoop valid categories 0 values (repeat 0 (Z.to_nat categories)))
            (fun freq =>
       let cumul := repeat 0 (Z.to_nat categories) in
       match freq with
       | [] => Err (Panic "index out of range")
       | f0 :: _ =>
           Ok (cumulLoop (Z.to_nat (categories - 1)) 1 freq (LBc.set_nth 0 f0 cumul))
       end).

End Plaintext.

(* ===================================================================== *)
(** * The properties in the words of the data *)
(* ===================================================================== *)

(** A column definition [Column.Validate] has nothing to say against. *)
Definition wellFormedColumn (c : Schema.Column) : Prop :=
  Schema.Name c <> "" /\
  (Schema.ColType c = Schema.Numerical \/
   ((Schema.ColType c = Schema.Categorical \/ Schema.ColType c = Schema.Ordinal) /\
    0 < Schema.CategoryCount c)).

(** The inverse square root [Stdev] and [Correlation] take of a variance:
    the Newton iteration of [DefaultINVSQRTConfig], and the error
    1 - v r^2 it ends with. *)
Definition newtonInvSqrt (v : Q) : Q :=
  Nat.iter (Z.to_nat (Iterations DefaultINVSQRTConfig)) (newtonMap 2 v)
           (InitialGuess DefaultINVSQRTConfig).

Definition invSqrtErrorAfter (v : Q) : Q :=
  Nat.iter (Z.to_nat (Iterations DefaultINVSQRTConfig)) invSqrtError
           (1 - v * InitialGuess DefaultINVSQRTConfig ^ 2)%Q.

(** Slot 0 of [Variance], from the masked sum of squares [s2], the masked
    sum [s] and the count [c]. *)
Definition varianceOf (s2 s c : Q) : Q :=
  (s2 * newtonInverse c - (s * newtonInverse c) ^ 2)%Q.

(** The slotwise product of a block and a slot vector, and of its square
    and a slot vector. *)
Definition slotTimes {Ct : Type} {B : Backend Ct} (M : PlainModel B)
           (p : Ct * (Z -> Q)) (i : Z) : Q :=
  (slot M (fst p) i * snd p i)%Q.

Definition slotSquareTimes {Ct : Type} {B : Backend Ct} (M : PlainModel B)
           (p : Ct * (Z -> Q)) (i : Z) : Q :=
  (slot M (fst p) i * slot M (fst p) i * snd p i)%Q.

(** What an inspector of a scalar result owes: nothing released below
    [MinCount] when suppression is on, [v] released otherwise, and an audit
    record with the same verdict when auditing is on. *)
Definition releases (i : Privacy.Inspector) (count : Z) (v : Privacy.value)
           (r : Privacy.InspectionResult) : Prop :=
  (Privacy.SuppressSmallGroups (Privacy.policy i) = true /\
   count < Privacy.MinCount (Privacy.policy i) ->
   Privacy.Approved r = false /\ Privacy.TransformedValue r = None /\
   List.length (Privacy.Violations r) = 1%nat) /\
  (Privacy.SuppressSmallGroups (Privacy.policy i) = false \/
   Privacy.MinCount (Privacy.policy i) <= count ->
   Privacy.Approved r = true /\ Privacy.Violations r = [] /\
   Privacy.TransformedValue r = Some v) /\
  (Privacy.Audit r = None <-> Privacy.AuditEnabled (Privacy.policy i) = false) /\
  (forall a, Privacy.Audit r = Some a -> Privacy.AuditApproved a = Privacy.Approved r).

(** The operations [JobSpec.Validate] knows. *)
Definition knownOperations : list Jobs.Operation :=
  [Jobs.OpMean; Jobs.OpVariance; Jobs.OpStdev; Jobs.OpCorr; Jobs.OpBc; Jobs.OpBa;
   Jobs.OpBv; Jobs.OpLBc; Jobs.OpPercentile; Jobs.OpLookup].

(** The number of [i < n] with [p i]. *)
Fixpoint countBelow (p : nat -> bool) (n : nat) : Z :=
  match n with
  | O => 0
  | S n' => countBelow p n' + (if p n' then 1 else 0)
  end.

(** Row [i] is valid and column [j] holds the [j]-th condition there, for
    every condition. *)
Definition rowMatches (values : list (list Z)) (conditions : list Z)
           (valid : list bool) (i : nat) : bool :=
  nth i valid false &&
  forallb (fun jc => nth i (nth (fst jc) values []) 0 =? snd jc)
          (combine (seq 0 (List.length conditions)) conditions).

(** Row [i] is valid and holds the category [c]. *)
Definition rowIs (values : list Z) (valid : list bool) (c : Z) (i : nat) : bool :=
  nth i valid false && (nth i values 0 =? c).

(** Row [i] is valid and holds a category between 1 and [c]. *)
Definition rowUpTo (values : list Z) (valid : list bool) (c : Z) (i : nat) : bool :=
  nth i valid false && (1 <=? nth i values 0) && (nth i values 0 <=? c).

(** The frequencies after the loop has read the first [n] rows. *)
Definition freqOf (all : list Z) (valid : list bool) (categories : Z) (n : nat)
           (freq : list Z) : Prop :=
  List.length freq = Z.to_nat categories /\
  forall k, (k < Z.to_nat categories)%nat ->
            nth k freq 0 = countBelow (rowIs all valid (Z.of_nat k + 1)) n.

(** The running sums after the loop has filled the indices below [i]. *)
Definition cumulOf (all : list Z) (valid : list bool) (categories : Z) (i : nat)
           (cumul : list Z) : Prop :=
  List.length cumul = Z.to_nat categories /\
  forall k, (k < i)%nat ->
            nth k cumul 0 = countBelow (rowUpTo all valid (Z.of_nat k + 1))
                                       (List.length all).

(** The token [t] occurs in every token list. *)
Definition inEveryTable (allTokens : list (list string)) (t : string) : bool :=
  forallb (fun tokens => existsb (String.eqb t) tokens) allTokens.

(** [fields] joined by commas. *)
Fixpoint joinComma (fields : list Merge.runes) : Merge.runes :=
  match fields with
  | [] => []
  | [f] => f
  | f :: rest => (f ++ Merge.comma :: joinComma rest)%list
  end.

(** [lines], each ended by a newline. *)
Definition joinLines (lines : list Merge.runes) : Merge.runes :=
  List.concat (map (fun l => (l ++ [Merge.newline])%list) lines).

Definition isField (f : Merge.runes) : Prop := f <> [] /\ ~ In Merge.comma f.

Definition isLine (l : Merge.runes) : Prop :=
  ~ In Merge.newline l /\ ~ In Merge.carriageReturn l.

(** Sample inputs. *)
Definition sampleSchema : Schema.TableSchema :=
  {| Schema.TableName := "patients";
     Schema.TableDescription := "sample";
     Schema.Columns :=
       [ {| Schema.Name := "income"; Schema.ColType := Schema.Numerical;
            Schema.CategoryCount := 0; Schema.MinValue := zero;
            Schema.MaxValue := zero; Schema.Description := "income" |};
         {| Schema.Name := "region"; Schema.ColType := Schema.Categorical;
            Schema.CategoryCount := 3; Schema.MinValue := zero;
            Schema.MaxValue := zero; Schema.Description := "region" |} ] |}.

Definition sampleMetadata : Schema.TableMetadata :=
  {| Schema.Schema := sampleSchema;
     Schema.RowCount := 100;
     Schema.Slots := 30;
     Schema.BlockCount := 4;
     Schema.ParamsHash := "hash";
     Schema.LogScale := 40;
     Schema.CreatedAt := "";
     Schema.DataOwnerID := "owner";
     Schema.Version := "1.0" |}.

Definition sampleProfile : Params.Profile :=
  {| Params.ProfType := Params.ProfileA;
     Params.LogN := 10;
     Params.Slots := 512;
     Params.LogScale := 40;
     Params.LogQP := [60; 40; 40; 61];
     Params.BootstrapEnabled := false;
     Params.ParamsHash := "hash" |}.

Definition sampleStore : Store.TableStore := {| Store.BasePath := "table" |}.

(** A file system with no file in it, where every file can be created. *)
Definition emptyFS : Store.FileSystem :=
  {| Store.file := fun _ => None; Store.denied := fun _ => false |}.

(** Paths joined by a slash, and a [Sprintf] that keeps the column name
    and one digit of the index: enough to tell the sample paths apart. *)
Definition sampleJoin (parts : list string) : string := String.concat "/" parts.

Definition sampleSprintf (format : string) (args : list fmt_arg) : string :=
  String.concat "_"
    (map (fun a => match a with
                   | ArgStr s => s
                   | ArgInt z => String (Ascii.ascii_of_nat (48 + Z.to_nat (z mod 10))) ""
                   end) args).

Definition sampleTable : Privacy.ContingencyTable :=
  {| Privacy.Dimensions := ["region"; "sex"];
     Privacy.Categories := [("region", [1; 2]); ("sex", [1; 2])];
     Privacy.Counts := [("1,1", 12); ("1,2", 3); ("2,1", 0); ("2,2", 40)] |}.

(** The record of [sampleBlob], and a file system that holds it as the
    blocks 0 and 1 of the column "income". *)
Definition sampleRecord : list Storage.byte :=
  (Storage.PutUint64 3 ++ sampleBlob)%list.

Definition sampleFS : Store.FileSystem :=
  Store.writeFile (Store.blockPath sampleJoin sampleSprintf sampleStore "income" 1)
                  sampleRecord
    (Store.writeFile (Store.blockPath sampleJoin sampleSprintf sampleStore "income" 0)
                     sampleRecord emptyFS).

(** [float64(int(1) << e)] is the power of two 2^e: the check made on each
    shift count that keeps the bit inside a positive [int]. *)
Definition shift_exact_at (e : Z) : bool :=
  match GoInt.shl 1 e with
  | Some shifted => Qeq_bool (to_Q (of_int shifted)) (2 ^ e)
  | None => false
  end.

Definition sampleEncoder : BBMV.BBMVEncoder :=
  BBMV.NewBBMVEncoder 4 LBc.DefaultLBcConfig.

Definition sampleEncoderBinop : BBMVBinop.BBMVEncoder :=
  BBMVBinop.NewBBMVEncoder 4 LBcBinop.DefaultLBcConfig.

(** Two categorical columns of four rows, the values asked of them, and
    the validity of the rows. *)
Definition sampleColumns : list (list Z) := [[2; 2; 1; 2]; [1; 1; 1; 3]].
Definition sampleValuesAsked : list Z := [2; 1].
Definition sampleRowsValid : list bool := [true; false; true; true].

(** An ordinal column of five rows and its validity. *)
Definition sampleOrdinal : list Z := [2; 1; 3; 2; 5].
Definition sampleOrdinalValid : list bool := [true; true; false; true; true].

(* ===================================================================== *)
(** * Machine integers and floats: basic facts *)
(* ===================================================================== *)

Lemma wrap_small (z : Z) : GoInt.in_range z -> GoInt.wrap z = z.
Proof.
  unfold GoInt.in_range, GoInt.min_int, GoInt.max_int, GoInt.wrap.
  intros H. rewrite Z.mod_small; lia.
Qed.

Lemma wrap_in_range (z : Z) : GoInt.in_range (GoInt.wrap z).
Proof.
  unfold GoInt.in_range, GoInt.min_int, GoInt.max_int, GoInt.wrap.
  pose proof (Z.mod_pos_bound (z + 2 ^ 63) (2 ^ 64) ltac:(lia)). lia.
Qed.

Lemma digits2_pos_bounds (m : positive) :
  2 ^ (Z.pos (digits2_pos m) - 1) <= Z.pos m < 2 ^ Z.pos (digits2_pos m).
Proof.
  induction m as [p IH | p IH |]; cbn [digits2_pos].
  - rewrite Pos2Z.inj_succ.
    replace (Z.succ (Z.pos (digits2_pos p)) - 1) with (Z.succ (Z.pos (digits2_pos p) - 1)) by lia.
    rewrite !Z.pow_succ_r by lia. lia.
  - rewrite Pos2Z.inj_succ.
    replace (Z.succ (Z.pos (digits2_pos p)) - 1) with (Z.succ (Z.pos (digits2_pos p) - 1)) by lia.
    rewrite !Z.pow_succ_r by lia. lia.
  - cbn. lia.
Qed.

(** A valid finite float64 has a mantissa of at most 53 bits, of exactly 53
    bits above the least exponent. *)
Lemma valid_mantissa (s : bool) (m : positive) (e : Z) :
  valid (S754_finite s m e) = true ->
  Z.pos m < 2 ^ 53 /\ -1074 <= e /\ (-1074 < e -> 2 ^ 52 <= Z.pos m).
Proof.
  unfold valid, valid_binary, bounded, canonical_mantissa, fexp, SpecFloat.emin,
    prec, emax.
  intros H. apply andb_prop in H as [H _]. apply Z.eqb_eq in H.
  pose proof (digits2_pos_bounds m) as [Hlo Hhi].
  set (d := Z.pos (digits2_pos m)) in *.
  assert (Hd : 0 < d) by (unfold d; lia).
  assert (Hd53 : d <= 53) by lia.
  split; [| split].
  - eapply Z.lt_le_trans; [exact Hhi |]. apply Z.pow_le_mono_r; lia.
  - lia.
  - intros He. assert (d = 53) by lia.
    replace 52 with (d - 1) by lia. exact Hlo.
Qed.

Lemma two_pow_pos (e : Z) : (0 < 2 ^ e)%Q.
Proof. apply Qpower_0_lt. reflexivity. Qed.

(** Comparing a valid non-negative float with the constant 100. *)
Lemma hundred_ltb_spec (m : positive) (e : Z) :
  valid (S754_finite false m e) = true ->
  (ltb (of_int 100) (S754_finite false m e) = true <->
   (100 < to_Q (S754_finite false m e))%Q).
Proof.
  intros Hv. destruct (valid_mantissa _ _ _ Hv) as (Hm & He & Hn).
  change (of_int 100) with (S754_finite false 7036874417766400 (-46)).
  unfold ltb, SFltb, SFcompare, to_Q.
  destruct (Z.compare_spec (-46) e) as [Heq | Hlt | Hgt].
  - (* same exponent: the mantissas decide *)
    subst e.
    change (Pos.compare_cont Eq 7036874417766400 m)
      with (Z.compare 7036874417766400 (Z.pos m)).
    assert (H100 : (100 == inject_Z 7036874417766400 * 2 ^ (-46))%Q) by reflexivity.
    split.
    + intros H. destruct (Z.compare_spec 7036874417766400 (Z.pos m)); try discriminate.
      rewrite H100. apply Qmult_lt_compat_r; [apply two_pow_pos |].
      rewrite <- Zlt_Qlt. lia.
    + intros H. rewrite H100 in H.
      apply Qmult_lt_r in H; [| apply two_pow_pos].
      rewrite <- Zlt_Qlt in H.
      destruct (Z.compare_spec 7036874417766400 (Z.pos m)); try reflexivity; lia.
  - (* larger exponent: at least 2^52 * 2^-45 = 128 *)
    split; [intros _ | reflexivity].
    apply Qlt_le_trans with (inject_Z (2 ^ 52) * 2 ^ (-45))%Q; [reflexivity |].
    apply Qmult_le_compat_nonneg.
    + split; [discriminate |]. rewrite <- Zle_Qle. apply Hn. lia.
    + split; [discriminate |]. apply Qpower_le_compat_l; [lia | discriminate].
  - (* smaller exponent: below 2^53 * 2^-47 = 64 *)
    split; [discriminate | intros H; exfalso].
    apply (Qlt_irrefl 100).
    apply Qlt_trans with (1 := H).
    apply Qle_lt_trans with (inject_Z (Z.pos m) * 2 ^ (-47))%Q.
    + apply Qmult_le_compat_nonneg.
      * split; [discriminate | apply Qle_refl].
      * split; [apply Qlt_le_weak, two_pow_pos |].
        apply Qpower_le_compat_l; [lia | discriminate].
    + apply Qlt_trans with (inject_Z (2 ^ 53) * 2 ^ (-47))%Q; [| reflexivity].
      apply Qmult_lt_compat_r; [reflexivity |].
      rewrite <- Zlt_Qlt. exact Hm.
Qed.

Lemma to_Q_negative (m : positive) (e : Z) : (to_Q (S754_finite true m e) < 0)%Q.
Proof.
  unfold to_Q.
  setoid_replace 0%Q with (0 * 2 ^ e)%Q by ring.
  apply Qmult_lt_compat_r; [apply two_pow_pos | reflexivity].
Qed.

Lemma to_Q_positive (m : positive) (e : Z) : (0 < to_Q (S754_finite false m e))%Q.
Proof.
  unfold to_Q.
  setoid_replace 0%Q with (0 * 2 ^ e)%Q by ring.
  apply Qmult_lt_compat_r; [apply two_pow_pos | reflexivity].
Qed.

Lemma to_Q_nonnegative (m : positive) (e : Z) : (0 <= to_Q (S754_finite false m e))%Q.
Proof.
  unfold to_Q. apply Qmult_le_0_compat; [discriminate |].
  apply Qlt_le_weak, two_pow_pos.
Qed.

(** [math.Ldexp(1.0, e)] is exactly 2^e on each of the 2098 exponents from
    -1074 to 1023. *)
Lemma ldexp_exact_all :
  forallb (fun n => ldexp_exact_at (Z.of_nat n - 1074)) (seq 0 2098) = true.
Proof. vm_compute. reflexivity. Qed.

Lemma Ldexp_one_exact (e : Z) :
  -1074 <= e <= 1023 ->
  (to_Q (Ldexp one e) == 2 ^ e)%Q /\ is_finite (Ldexp one e) = true.
Proof.
  intros He.
  pose proof ldexp_exact_all as H. rewrite forallb_forall in H.
  specialize (H (Z.to_nat (e + 1074))).
  replace (Z.of_nat (Z.to_nat (e + 1074)) - 1074) with e in H by lia.
  unfold ldexp_exact_at in H.
  assert (Hin : In (Z.to_nat (e + 1074)) (seq 0 2098)) by (apply in_seq; lia).
  apply H in Hin. apply andb_prop in Hin as [H1 H2].
  split; [apply Qeq_bool_iff; exact H1 | exact H2].
Qed.

(* ===================================================================== *)
(** * C1: validation of the LBc configuration *)
(* ===================================================================== *)

(** C1, as stated, fails: the default configuration with two categories on
    8192 slots needs 10 + 10 + 30 + 13 = 63 bits, and is accepted. *)
Lemma ValidateLBcConfig_accepts_over_budget :
  ~ (is_err (LBc.ValidateLBcConfig LBc.DefaultLBcConfig 2) = true <->
     budgetExceeded LBc.DefaultLBcConfig 2 8192).
Proof.
  intros [_ H].
  assert (Hb : budgetExceeded LBc.DefaultLBcConfig 2 8192)
    by (unfold budgetExceeded; cbn; lia).
  apply H in Hb. discriminate Hb.
Qed.

(** C1 (amended): as long as δ + Δ·(S_f − 1) is computed without overflow,
    [ValidateLBcConfig] returns an error exactly when δ + Δ·(S_f − 1) > 52
    or Λ > 52.  The two are checked apart, and the slot count is no input
    of the validator. *)
Theorem ValidateLBcConfig_rejects_iff (config : LBc.LBcConfig) (categories : Z) :
  GoInt.in_range (categories - 1) ->
  GoInt.in_range (LBc.Delta config * (categories - 1)) ->
  GoInt.in_range (LBc.DeltaOffset config + LBc.Delta config * (categories - 1)) ->
  (is_err (LBc.ValidateLBcConfig config categories) = true <->
   LBc.DeltaOffset config + LBc.Delta config * (categories - 1) > 52
   \/ LBc.LambdaBig config > 52).
Proof.
  intros H1 H2 H3. unfold LBc.ValidateLBcConfig, GoInt.add, GoInt.mul, GoInt.sub.
  rewrite (wrap_small _ H1), (wrap_small _ H2), (wrap_small _ H3).
  destruct (Z.ltb_spec 52 (LBc.DeltaOffset config + LBc.Delta config * (categories - 1)));
    [cbn; split; [lia | reflexivity] |].
  destruct (Z.ltb_spec 52 (LBc.LambdaBig config)); cbn.
  - split; [lia | reflexivity].
  - split; [discriminate | lia].
Qed.

Lemma ValidateLBcConfig_rejects_iff_witness :
  is_err (LBc.ValidateLBcConfig LBc.DefaultLBcConfig 6) = true <->
  10 + 10 * (6 - 1) > 52 \/ 30 > 52.
Proof.
  apply (ValidateLBcConfig_rejects_iff LBc.DefaultLBcConfig 6);
    unfold GoInt.in_range, GoInt.min_int, GoInt.max_int; cbn; lia.
Defined.

(* ===================================================================== *)
(** * C2: validation of a percentile job *)
(* ===================================================================== *)

(** The percentile branch of [Validate] on a job that passes the checks
    before it. *)
Lemma Validate_percentile (j : Jobs.JobSpec) :
  Jobs.Op j = Jobs.OpPercentile ->
  Jobs.ID j <> "" -> Jobs.Table j <> "" ->
  Jobs.len (Jobs.InputColumns j) = 1 ->
  Jobs.Validate j =
  if ltb (Jobs.K j) zero || ltb (of_int 100) (Jobs.K j)
  then Err (Errorf "k must be between 0 and 100" []) else Ok tt.
Proof.
  intros Hop Hid Htab Hcols. unfold Jobs.Validate.
  apply String.eqb_neq in Hid. apply String.eqb_neq in Htab.
  rewrite Hid, Htab, Hop, Hcols. reflexivity.
Qed.

(** What [Validate] does: a percentile job with an identifier, a table and
    exactly one input column, whose k is a number, passes exactly when
    0 <= k <= 100. *)
Lemma Validate_percentile_iff (j : Jobs.JobSpec) :
  Jobs.Op j = Jobs.OpPercentile ->
  Jobs.ID j <> "" -> Jobs.Table j <> "" ->
  Jobs.len (Jobs.InputColumns j) = 1 ->
  valid (Jobs.K j) = true -> is_nan (Jobs.K j) = false ->
  (Jobs.Validate j = Ok tt <->
   is_finite (Jobs.K j) = true /\ (0 <= to_Q (Jobs.K j) <= 100)%Q).
Proof.
  intros Hop Hid Htab Hcols Hv Hnan.
  rewrite (Validate_percentile j Hop Hid Htab Hcols).
  destruct (Jobs.K j) as [s | s | | s m e] eqn:HK.
  - (* zero *)
    destruct s; cbn; (split; [intros _; split; [reflexivity | split; discriminate]
                             | reflexivity]).
  - (* infinity *)
    destruct s; cbn; (split; [discriminate | intros [H _]; discriminate H]).
  - discriminate Hnan.
  - destruct s.
    + (* negative *)
      cbn [ltb SFltb SFcompare zero orb].
      split; [discriminate |].
      intros [_ [H _]]. exfalso.
      apply (Qlt_irrefl 0). eapply Qle_lt_trans; [exact H | apply to_Q_negative].
    + (* positive: compare with 100 *)
      pose proof (hundred_ltb_spec m e Hv) as Hh.
      replace (ltb (S754_finite false m e) zero) with false by reflexivity.
      cbn [orb].
      destruct (ltb (of_int 100) (S754_finite false m e)).
      * split; [discriminate |].
        intros [_ [_ H]]. exfalso.
        apply (Qlt_irrefl 100). eapply Qlt_le_trans; [apply Hh; reflexivity | exact H].
      * split; [| reflexivity].
        intros _. split; [reflexivity |]. split; [apply to_Q_nonnegative |].
        apply Qnot_lt_le. intros H. apply Hh in H. discriminate H.
Qed.

(** What the runner does with the same k: [runPercentile] goes on exactly
    when 0 < k <= 100. *)
Lemma runPercentileChecks_iff (j : Jobs.JobSpec) :
  Jobs.len (Jobs.InputColumns j) = 1 ->
  valid (Jobs.K j) = true -> is_nan (Jobs.K j) = false ->
  (DaRun.runPercentileChecks j = Ok tt <->
   is_finite (Jobs.K j) = true /\ (0 < to_Q (Jobs.K j) <= 100)%Q).
Proof.
  intros Hcols Hv Hnan. unfold DaRun.runPercentileChecks. rewrite Hcols.
  change (1 <? 1) with false. cbv iota.
  destruct (Jobs.K j) as [s | s | | s m e] eqn:HK.
  - (* zero *)
    destruct s; cbn; (split; [discriminate | intros [_ [H _]]; discriminate H]).
  - (* infinity *)
    destruct s; cbn; (split; [discriminate | intros [H _]; discriminate H]).
  - discriminate Hnan.
  - destruct s.
    + (* negative *)
      cbn [leb SFleb SFcompare zero orb].
      split; [discriminate |].
      intros [_ [H _]]. exfalso.
      apply (Qlt_irrefl 0). eapply Qlt_trans; [exact H | apply to_Q_negative].
    + (* positive: compare with 100 *)
      pose proof (hundred_ltb_spec m e Hv) as Hh.
      replace (leb (S754_finite false m e) zero) with false by reflexivity.
      cbn [orb].
      destruct (ltb (of_int 100) (S754_finite false m e)).
      * split; [discriminate |].
        intros [_ [_ H]]. exfalso.
        apply (Qlt_irrefl 100). eapply Qlt_le_trans; [apply Hh; reflexivity | exact H].
      * split; [| reflexivity].
        intros _. split; [reflexivity |]. split; [apply to_Q_positive |].
        apply Qnot_lt_le. intros H. apply Hh in H. discriminate H.
Qed.

(** [Validate] and the runner agree on every k but 0: at k = 50 both let
    the job through. *)
Example percentile_fifty :
  Jobs.Validate (percentileJob (of_int 50)) = Ok tt /\
  DaRun.runPercentileChecks (percentileJob (of_int 50)) = Ok tt.
Proof. split; reflexivity. Qed.

(** C2: a percentile job with one input column is to pass [Validate]
    exactly when k lies in (0, 100], so k = 0 is to be rejected.  On the
    job with k = 0, which is not in (0, 100], [Validate] returns no error;
    the runner's own check of the same field, [job.K <= 0 || job.K > 100],
    rejects that job with the message [Validate] uses. *)
Theorem Validate_accepts_k_zero :
  Jobs.K (percentileJob zero) = zero /\
  Jobs.len (Jobs.InputColumns (percentileJob zero)) = 1 /\
  ~ (0 < to_Q (Jobs.K (percentileJob zero)) <= 100)%Q /\
  Jobs.Validate (percentileJob zero) = Ok tt /\
  DaRun.runPercentileChecks (percentileJob zero)
  = Err (Errorf "k must be between 0 and 100" []).
Proof.
  split; [reflexivity |]. split; [reflexivity |]. split.
  - intros [H _]. revert H. apply Qlt_irrefl.
  - split; reflexivity.
Qed.

(* ===================================================================== *)
(** * C3: the PBMV encoders *)
(* ===================================================================== *)

Lemma set_nth_length {A : Type} (n : nat) (x : A) (l : list A) :
  List.length (LBc.set_nth n x l) = List.length l.
Proof.
  revert n. induction l as [| h t IH]; intros [| n]; cbn; auto.
Qed.

Lemma nth_set_nth_same {A : Type} (n : nat) (x d : A) (l : list A) :
  (n < List.length l)%nat -> nth n (LBc.set_nth n x l) d = x.
Proof.
  revert n. induction l as [| h t IH]; intros [| n] H; cbn in *; try lia; auto.
  apply IH. lia.
Qed.

Lemma nth_set_nth_other {A : Type} (n j : nat) (x d : A) (l : list A) :
  j <> n -> nth j (LBc.set_nth n x l) d = nth j l d.
Proof.
  revert n j. induction l as [| h t IH]; intros [| n] [| j] H; cbn; auto;
    try congruence.
Qed.

Lemma encode_loop_length (p : LBc.PBMVEncoder) (values : list Z) :
  forall i result,
    List.length (LBc.encode_loop p i values result) = List.length result.
Proof.
  induction values as [| v rest IH]; intros i result; cbn [LBc.encode_loop]; auto.
  destruct (LBc.slots p <=? i); auto.
  destruct ((v <? 1) || (LBc.categories p <? v)); rewrite IH; auto.
  apply set_nth_length.
Qed.

(** Slot [j] after the loop has run from row index [i] on [values]. *)
Lemma encode_loop_nth (p : LBc.PBMVEncoder) (values : list Z) :
  forall i result j,
    0 <= i -> List.length result = Z.to_nat (LBc.slots p) ->
    (j < List.length result)%nat ->
    nth j (LBc.encode_loop p i values result) zero =
    if Z.of_nat j <? i then nth j result zero
    else match nth_error values (j - Z.to_nat i) with
         | Some v =>
             if (v <? 1) || (LBc.categories p <? v) then nth j result zero
             else Ldexp one (pbmvExp p v)
         | None => nth j result zero
         end.
Proof.
  induction values as [| v rest IH]; intros i result j Hi Hlen Hj;
    cbn [LBc.encode_loop].
  - destruct (Z.of_nat j <? i); [reflexivity |].
    destruct (j - Z.to_nat i)%nat; reflexivity.
  - destruct (Z.leb_spec (LBc.slots p) i) as [Hbreak | Hgo].
    + destruct (Z.ltb_spec (Z.of_nat j) i); [reflexivity | lia].
    + destruct ((v <? 1) || (LBc.categories p <? v)) eqn:Hbad.
      * rewrite IH by (auto; lia).
        destruct (Z.ltb_spec (Z.of_nat j) (i + 1)), (Z.ltb_spec (Z.of_nat j) i);
          try lia; try reflexivity.
        -- replace (j - Z.to_nat i)%nat with 0%nat by lia. cbn. rewrite Hbad.
           reflexivity.
        -- replace (j - Z.to_nat i)%nat with (S (j - Z.to_nat (i + 1))) by lia.
           reflexivity.
      * fold (pbmvExp p v).
        rewrite IH by (rewrite ?set_nth_length; auto; lia).
        destruct (Z.ltb_spec (Z.of_nat j) (i + 1)), (Z.ltb_spec (Z.of_nat j) i);
          try lia.
        -- rewrite nth_set_nth_other by lia. reflexivity.
        -- replace (j - Z.to_nat i)%nat with 0%nat by lia. cbn. rewrite Hbad.
           replace j with (Z.to_nat i) by lia.
           apply nth_set_nth_same. lia.
        -- replace (j - Z.to_nat i)%nat with (S (j - Z.to_nat (i + 1))) by lia.
           cbn [nth_error].
           destruct (nth_error rest (j - Z.to_nat (i + 1))) as [w |];
             [destruct ((w <? 1) || (LBc.categories p <? w)) |];
             try reflexivity; apply nth_set_nth_other; lia.
Qed.

(** The encoder of the draft with [DeltaOffset]: one slot per row that fits,
    holding exactly 2^(δ + Δ·(v−1)) for a valid value whose power of two is
    a float64, and 0 for an invalid one and past the rows. *)
Lemma EncodePBMV_offset_draft (p : LBc.PBMVEncoder) (values : list Z) :
  0 <= LBc.slots p ->
  exists res,
    LBc.EncodePBMV p values = Ok res /\
    List.length res = Z.to_nat (LBc.slots p) /\
    forall j, (j < Z.to_nat (LBc.slots p))%nat ->
      match nth_error values j with
      | Some v =>
          (1 <= v <= LBc.categories p ->
           let e := LBc.DeltaOffset (LBc.config p) + LBc.Delta (LBc.config p) * (v - 1) in
           GoInt.in_range (v - 1) ->
           GoInt.in_range (LBc.Delta (LBc.config p) * (v - 1)) ->
           GoInt.in_range e -> -1074 <= e <= 1023 ->
           (to_Q (nth j res zero) == 2 ^ e)%Q /\ is_finite (nth j res zero) = true)
          /\ (v < 1 \/ LBc.categories p < v -> nth j res zero = zero)
      | None => nth j res zero = zero
      end.
Proof.
  intros Hs. unfold LBc.EncodePBMV.
  destruct (Z.ltb_spec (LBc.slots p) 0); [lia |].
  eexists; split; [reflexivity |]. split.
  - rewrite encode_loop_length. apply repeat_length.
  - intros j Hj.
    rewrite encode_loop_nth by (rewrite ?repeat_length; auto; lia).
    destruct (Z.ltb_spec (Z.of_nat j) 0); [lia |].
    replace (j - Z.to_nat 0)%nat with j by lia.
    assert (Hz : nth j (repeat zero (Z.to_nat (LBc.slots p))) zero = zero)
      by (apply nth_repeat).
    destruct (nth_error values j) as [v |]; [| exact Hz].
    destruct (Z.ltb_spec v 1), (Z.ltb_spec (LBc.categories p) v); cbn [orb];
      (split; [intros Hv; try lia | intros Hv; try lia; try exact Hz]).
    intros Hr1 Hr2 Hr3 He. unfold pbmvExp, GoInt.add, GoInt.mul, GoInt.sub.
    rewrite (wrap_small _ Hr1), (wrap_small _ Hr2), (wrap_small _ Hr3).
    apply Ldexp_one_exact. exact He.
Qed.

Lemma three_not_power_of_two (e : Z) : ~ (3 == 2 ^ e)%Q.
Proof.
  intros H. destruct (Z_le_gt_dec e 1) as [Hle | Hgt].
  - assert (H2 : (2 ^ e <= 2 ^ 1)%Q)
      by (apply Qpower_le_compat_l; [exact Hle | discriminate]).
    rewrite <- H in H2. apply H2. reflexivity.
  - assert (H2 : (2 ^ 2 <= 2 ^ e)%Q)
      by (apply Qpower_le_compat_l; [lia | discriminate]).
    rewrite <- H in H2. apply H2. reflexivity.
Qed.

(** C3 on the encoder of binop.go, with its default configuration (Δ = 8),
    four categories and 8192 slots: the row carrying the valid value 3 gets
    the slot value 3.0, which is no power of two, whatever δ may be. *)
Theorem EncodePBMV_binop_emits_value :
  exists res,
    LBcBinop.EncodePBMV
      (LBcBinop.NewPBMVEncoder 4 8192 LBcBinop.DefaultLBcConfig) [3] = Ok res /\
    nth 0 res zero = of_int 3 /\
    (to_Q (nth 0 res zero) == 3)%Q /\
    forall e : Z, ~ (to_Q (nth 0 res zero) == 2 ^ e)%Q.
Proof.
  eexists. split; [vm_compute; reflexivity |].
  split; [reflexivity |]. split; [reflexivity |].
  intros e H. apply (three_not_power_of_two e).
  rewrite <- H. reflexivity.
Qed.

(* ===================================================================== *)
(** * C5: MaybeBootstrap *)
(* ===================================================================== *)

(** C5: on the evaluator [NewEvaluator] builds, [NeedsBootstrap ct] is
    [level ct <= min_level], with [min_level] the bootstrapper's minimum
    input level, or 2 without a bootstrapper; [MaybeBootstrap] returns [ct]
    itself, no error, and leaves the counters alone when [NeedsBootstrap ct]
    is false, and also when it is true and there is no bootstrapper. *)
Theorem MaybeBootstrap_returns_unchanged {Ct : Type} (B : Backend Ct)
        (btp : option (Bootstrapper Ct)) (ct : Ct) (st : Stats) :
  exists e : Evaluator Ct,
    NewEvaluator btp = Ok e /\
    minLevel e = match btp with Some b => MinimumInputLevel b | None => 2 end /\
    (NeedsBootstrap B e ct = true <-> CtLevel B ct <= minLevel e) /\
    (NeedsBootstrap B e ct = false -> MaybeBootstrap B e ct st = (Ok ct, st)) /\
    (NeedsBootstrap B e ct = true -> btp = None ->
     MaybeBootstrap B e ct st = (Ok ct, st)).
Proof.
  eexists. split; [reflexivity |]. split; [reflexivity |]. split; [| split].
  - unfold NeedsBootstrap. apply Z.leb_le.
  - intros H. unfold MaybeBootstrap. rewrite H. reflexivity.
  - intros H ->. unfold MaybeBootstrap. rewrite H. reflexivity.
Qed.

(** Any evaluator, however made, behaves so. *)
Lemma MaybeBootstrap_noop {Ct : Type} (B : Backend Ct) (e : Evaluator Ct)
      (ct : Ct) (st : Stats) :
  NeedsBootstrap B e ct = false \/ bootstrapper e = None ->
  MaybeBootstrap B e ct st = (Ok ct, st).
Proof.
  unfold MaybeBootstrap, CanBootstrap. intros [-> | ->]; [reflexivity |].
  rewrite andb_false_r. reflexivity.
Qed.

(* ===================================================================== *)
(** * C10: aggregation over no block *)
(* ===================================================================== *)

Lemma fails_onErr {S A : Type} (m : StateErr S A) (format : string)
      (args : list fmt_arg) :
  fails m -> fails (onErr m format args).
Proof.
  intros H st. destruct (H st) as (e & He & Hv). unfold onErr. rewrite He.
  exists (wrapf format args e). split; [reflexivity |].
  destruct e; cbn in *; auto.
Qed.

Lemma fails_bind {S A B : Type} (m : StateErr S A) (k : A -> StateErr S B) :
  fails m -> fails (bind m k).
Proof.
  intros H st. destruct (H st) as (e & He & Hv). unfold bind. rewrite He.
  exists e. auto.
Qed.

Lemma fails_fail {S A : Type} (e : error) :
  isErrorValue e -> fails (@fail S A e).
Proof. intros H st. exists e. split; [reflexivity | exact H]. Qed.

Section NoBlocks.

Context {Ct : Type}.
Variable B : Backend Ct.
Variable n : NumericOp Ct.

Lemma MaskedSum_no_blocks (vBlocks : list Ct) : fails (MaskedSum B n [] vBlocks).
Proof.
  unfold MaskedSum. destruct vBlocks; cbn; apply fails_fail; exact I.
Qed.

Lemma Count_no_blocks : fails (Count B n []).
Proof. unfold Count. cbn. apply fails_fail; exact I. Qed.

Lemma MaskedSumOfSquares_no_blocks (vBlocks : list Ct) :
  fails (MaskedSumOfSquares B n [] vBlocks).
Proof.
  unfold MaskedSumOfSquares. destruct vBlocks; cbn; apply fails_fail; exact I.
Qed.

Lemma MaskedCrossSum_no_blocks (yBlocks vBlocks : list Ct) :
  fails (MaskedCrossSum B n [] yBlocks vBlocks).
Proof.
  unfold MaskedCrossSum. destruct yBlocks, vBlocks; cbn; apply fails_fail; exact I.
Qed.

Lemma Mean_no_blocks (vBlocks : list Ct) : fails (Mean B n [] vBlocks).
Proof. unfold Mean. apply fails_bind, fails_onErr, MaskedSum_no_blocks. Qed.

Lemma Variance_no_blocks (vBlocks : list Ct) : fails (Variance B n [] vBlocks).
Proof. unfold Variance. apply fails_bind, fails_onErr, Mean_no_blocks. Qed.

Lemma Stdev_no_blocks (vBlocks : list Ct) : fails (Stdev B n [] vBlocks).
Proof. unfold Stdev. apply fails_bind, fails_onErr, Variance_no_blocks. Qed.

Lemma Correlation_no_blocks (yBlocks vBlocks : list Ct) :
  fails (Correlation B n [] yBlocks vBlocks).
Proof. unfold Correlation. apply fails_bind, fails_onErr, Mean_no_blocks. Qed.

End NoBlocks.

(** C10: on the empty list of blocks, [MaskedSum], [Count],
    [MaskedSumOfSquares] and [MaskedCrossSum] return an error and no
    ciphertext, whatever the other arguments, "no blocks provided" when all
    lists are empty; so do [Mean], [Variance], [Stdev] and [Correlation].
    No counter moves. *)
Theorem aggregation_over_no_blocks_fails {Ct : Type} (B : Backend Ct)
        (n : NumericOp Ct) :
  (forall vBlocks, fails (MaskedSum B n [] vBlocks)) /\
  fails (Count B n []) /\
  (forall vBlocks, fails (MaskedSumOfSquares B n [] vBlocks)) /\
  (forall yBlocks vBlocks, fails (MaskedCrossSum B n [] yBlocks vBlocks)) /\
  (forall st, MaskedSum B n [] [] st = (Err (Errorf "no blocks provided" []), st)) /\
  (forall st, Count B n [] st = (Err (Errorf "no blocks provided" []), st)) /\
  (forall st, MaskedSumOfSquares B n [] [] st
              = (Err (Errorf "no blocks provided" []), st)) /\
  (forall st, MaskedCrossSum B n [] [] [] st
              = (Err (Errorf "no blocks provided" []), st)) /\
  (forall vBlocks, fails (Mean B n [] vBlocks)) /\
  (forall vBlocks, fails (Variance B n [] vBlocks)) /\
  (forall vBlocks, fails (Stdev B n [] vBlocks)) /\
  (forall yBlocks vBlocks, fails (Correlation B n [] yBlocks vBlocks)).
Proof.
  repeat split; intros.
  - apply MaskedSum_no_blocks.
  - apply Count_no_blocks.
  - apply MaskedSumOfSquares_no_blocks.
  - apply MaskedCrossSum_no_blocks.
  - apply Mean_no_blocks.
  - apply Variance_no_blocks.
  - apply Stdev_no_blocks.
  - apply Correlation_no_blocks.
Qed.

(* ===================================================================== *)
(** * Reasoning on computations *)
(* ===================================================================== *)

Lemma wp_ret {S A : Type} (F : Prop) (a : A) (st : S) (P : A -> S -> Prop) :
  P a st -> wp F (ret a) st P.
Proof. intros H. exact H. Qed.

Lemma wp_bind {S A B : Type} (F : Prop) (m : StateErr S A) (k : A -> StateErr S B)
      (st : S) (P : B -> S -> Prop) :
  wp F m st (fun a st' => wp F (k a) st' P) -> wp F (bind m k) st P.
Proof. unfold wp, bind. destruct (m st) as [[a | e] st']; auto. Qed.

Lemma wp_onErr {S A : Type} (F : Prop) (m : StateErr S A) (format : string)
      (args : list fmt_arg) (st : S) (P : A -> S -> Prop) :
  wp F m st P -> wp F (onErr m format args) st P.
Proof. unfold wp, onErr. destruct (m st) as [[a | e] st']; auto. Qed.

Lemma wp_mono {S A : Type} (F : Prop) (m : StateErr S A) (st : S)
      (P P' : A -> S -> Prop) :
  (forall a st', P a st' -> P' a st') -> wp F m st P -> wp F m st P'.
Proof. unfold wp. intros H. destruct (m st) as [[a | e] st']; auto. Qed.

(** With the excuse [True], [wp] speaks of the runs that return. *)
Lemma wp_returned {S A : Type} (F : Prop) (m : StateErr S A) (st : S)
      (P : A -> S -> Prop) (a : A) (st' : S) :
  wp F m st P -> m st = (Ok a, st') -> P a st'.
Proof. unfold wp. intros H E. rewrite E in H. exact H. Qed.

(** With the excuse [False], [wp] says that the run returns. *)
Lemma wp_total {S A : Type} (m : StateErr S A) (st : S) (P : A -> S -> Prop) :
  wp False m st P -> exists a st', m st = (Ok a, st') /\ P a st'.
Proof.
  unfold wp. destruct (m st) as [[a | e] st']; [| contradiction].
  intros H. exists a, st'. auto.
Qed.


(** A loop [for i, x := range l] keeps an invariant that counts the
    iterations done. *)
Lemma wp_for_range_from {A Acc : Type} (F : Prop) (Inv : nat -> Acc -> Prop)
      (body : Z -> A -> Acc -> HE Acc) (l : list A) :
  forall (i : Z) (k : nat) (acc : Acc) (st : Stats) (P : Acc -> Stats -> Prop),
    Inv k acc ->
    (forall j x a st0 (Post : Acc -> Stats -> Prop),
        nth_error l j = Some x -> Inv (k + j)%nat a ->
        (forall a' st1, Inv (k + j + 1)%nat a' -> Post a' st1) ->
        wp F (body (i + Z.of_nat j) x a) st0 Post) ->
    (forall a st', Inv (k + List.length l)%nat a -> P a st') ->
    wp F (for_range_from i l body acc) st P.
Proof.
  induction l as [| x rest IH]; intros i k acc st P Hinv Hbody Hpost;
    cbn [for_range_from].
  - apply wp_ret, Hpost. cbn. rewrite Nat.add_0_r. exact Hinv.
  - apply wp_bind.
    replace i with (i + Z.of_nat 0) at 1 by (cbn; lia).
    apply (Hbody 0%nat x acc st); [reflexivity | rewrite Nat.add_0_r; exact Hinv |].
    intros a' st1 Ha'. rewrite Nat.add_0_r in Ha'.
    apply (IH (i + 1) (k + 1)%nat a' st1 P Ha').
    + intros j y a st0 Q Hy Ha HQ.
      replace (i + 1 + Z.of_nat j) with (i + Z.of_nat (S j)) by lia.
      apply (Hbody (S j) y a st0 Q Hy).
      * replace (k + S j)%nat with (k + 1 + j)%nat by lia. exact Ha.
      * intros a'' st2 Ha''. apply HQ.
        replace (k + 1 + j + 1)%nat with (k + S j + 1)%nat by lia. exact Ha''.
    + intros a st' Ha. apply Hpost.
      replace (k + List.length (x :: rest))%nat with (k + 1 + List.length rest)%nat
        by (cbn; lia).
      exact Ha.
Qed.

Lemma wp_for_upto {Acc : Type} (F : Prop) (Inv : nat -> Acc -> Prop)
      (body : Z -> Acc -> HE Acc) (n : Z) (acc : Acc) (st : Stats)
      (P : Acc -> Stats -> Prop) :
  Inv 0%nat acc ->
  (forall j a st0 (Post : Acc -> Stats -> Prop),
      (j < Z.to_nat n)%nat -> Inv j a ->
      (forall a' st1, Inv (j + 1)%nat a' -> Post a' st1) ->
      wp F (body (Z.of_nat j) a) st0 Post) ->
  (forall a st', Inv (Z.to_nat n) a -> P a st') ->
  wp F (for_upto n body acc) st P.
Proof.
  intros H0 Hbody Hpost. unfold for_upto, for_range.
  apply (wp_for_range_from F Inv _ _ 0 0%nat acc st P H0).
  - intros j x a st0 Q Hx Ha HQ. cbn [Nat.add Z.add] in *.
    apply Hbody; auto.
    rewrite <- (repeat_length tt (Z.to_nat n)).
    apply nth_error_Some. rewrite Hx. discriminate.
  - intros a st'. rewrite repeat_length. apply Hpost.
Qed.

(* ===================================================================== *)
(** * Sums of slots *)
(* ===================================================================== *)

Lemma sumQ_ext (f g : nat -> Q) (n : nat) :
  (forall t, (t < n)%nat -> (f t == g t)%Q) -> (sumQ f n == sumQ g n)%Q.
Proof.
  induction n as [| n IH]; intros H; cbn [sumQ]; [reflexivity |].
  rewrite IH by (intros; apply H; lia). rewrite (H n) by lia. reflexivity.
Qed.

Lemma sumQ_app (f : nat -> Q) (n m : nat) :
  (sumQ f (n + m) == sumQ f n + sumQ (fun t => f (n + t)%nat) m)%Q.
Proof.
  induction m as [| m IH].
  - rewrite Nat.add_0_r. cbn [sumQ]. ring.
  - replace (n + S m)%nat with (S (n + m)) by lia. cbn [sumQ]. rewrite IH. ring.
Qed.

(* ===================================================================== *)
(** * Binary exponentiation on a slot *)
(* ===================================================================== *)

Lemma land1_odd (p : Z) : (Z.land p 1 =? 1) = Z.odd p.
Proof.
  change 1 with (Z.ones 1) at 1. rewrite Z.land_ones by lia.
  change (2 ^ 1) with 2. rewrite Zmod_odd. destruct (Z.odd p); reflexivity.
Qed.

Lemma shiftr1_half (p : Z) : Z.shiftr p 1 = p / 2.
Proof. rewrite Z.shiftr_div_pow2 by lia. reflexivity. Qed.

Lemma qpow_split (q : Q) (p : Z) :
  0 < p -> (q ^ p == (if Z.odd p then q else 1) * (q * q) ^ (p / 2))%Q.
Proof.
  intros Hp. pose proof (Z.div2_odd p) as H. rewrite Z.div2_div in H.
  assert (Hh : 0 <= p / 2) by (apply Z.div_pos; lia).
  set (h := p / 2) in *.
  change (q * q)%Q with (q ^ 2)%Q. rewrite <- Qpower_mult.
  destruct (Z.odd p); cbn [Z.b2z] in H.
  - rewrite H at 1. rewrite Qpower_plus' by lia. change (q ^ 1)%Q with q. ring.
  - rewrite H at 1. rewrite Z.add_0_r. ring.
Qed.

(** One turn of the loop of [Power] keeps [acc * base^power]. *)
Lemma power_step_inv (acc b b' fi : Q) (power : Z) :
  0 < power ->
  (0 < power / 2 -> (b' == b * b)%Q) ->
  (power / 2 <= 0 -> (b' == b)%Q) ->
  (acc * b ^ power == fi)%Q ->
  ((acc * (if Z.odd power then b else 1)) * b' ^ (power / 2) == fi)%Q.
Proof.
  intros Hp Hsq Hsame Hinv. rewrite <- Hinv, (qpow_split b power Hp).
  destruct (Z_lt_le_dec 0 (power / 2)) as [Hlt | Hle].
  - rewrite (Hsq Hlt). ring.
  - assert (H0 : power / 2 = 0) by (pose proof (Z.div_pos power 2); lia).
    rewrite H0. change (b' ^ 0)%Q with 1%Q. change ((b * b) ^ 0)%Q with 1%Q. ring.
Qed.

Lemma newtonMap_compat (n : Z) (x x' y y' : Q) :
  (x == x')%Q -> (y == y')%Q -> (newtonMap n x y == newtonMap n x' y')%Q.
Proof. intros Hx Hy. unfold newtonMap. rewrite Hx, Hy. reflexivity. Qed.

Lemma newtonMap_iter_compat (n : Z) (x x' y : Q) (k : nat) :
  (x == x')%Q ->
  (Nat.iter k (newtonMap n x) y == Nat.iter k (newtonMap n x') y)%Q.
Proof.
  intros Hx. induction k as [| k IH]; [reflexivity |].
  rewrite !Nat.iter_succ. apply newtonMap_compat; assumption.
Qed.

(** With exact float constants the step of the code is the Newton step. *)
Lemma exactConstants_spec (n : Z) :
  exactConstants n = true ->
  (floatNPlusOne n == inject_Z (n + 1))%Q /\ (floatInvN n == 1 / inject_Z n)%Q.
Proof.
  unfold exactConstants. intros H. apply andb_prop in H. destruct H as [H1 H2].
  split; apply Qeq_bool_eq; assumption.
Qed.

Lemma newtonStep_exact (n : Z) (x y : Q) :
  exactConstants n = true ->
  (newtonStep n (floatNPlusOne n) (floatInvN n) x y == newtonMap n x y)%Q.
Proof.
  intros H. destruct (exactConstants_spec n H) as [H1 H2].
  unfold newtonStep, newtonMap. rewrite H1, H2. reflexivity.
Qed.

Lemma newtonStep_iter_exact (n : Z) (x y : Q) (k : nat) :
  exactConstants n = true ->
  (Nat.iter k (newtonStep n (floatNPlusOne n) (floatInvN n) x) y
   == Nat.iter k (newtonMap n x) y)%Q.
Proof.
  intros H. induction k as [| k IH]; [reflexivity |].
  rewrite !Nat.iter_succ, newtonStep_exact by exact H.
  apply newtonMap_compat; [reflexivity | exact IH].
Qed.

(** The two forms of the flip mapping, and its values at the signs. *)
Lemma flip_expanded (s : Q) : (flip s == - (1 # 2) * s ^ 2 + (1 # 2) * s + 1)%Q.
Proof. unfold flip. change (s ^ 2)%Q with (s * s)%Q.
       change ((s - (1 # 2)) ^ 2)%Q with ((s - (1 # 2)) * (s - (1 # 2)))%Q. ring. Qed.

Lemma flip_compat (s s' : Q) : (s == s')%Q -> (flip s == flip s')%Q.
Proof. intros H. unfold flip. rewrite H. reflexivity. Qed.

(* ===================================================================== *)
(** * The evaluator under the plaintext model *)
(* ===================================================================== *)

Section EvaluatorLogic.

Context {Ct : Type}.
Variable B : Backend Ct.
Variable M : PlainModel B.
Variable e : Evaluator Ct.

(** The excuse of a failure, and why it is one: a failing backend, or a
    bootstrapper that is missing or fails. *)
Variable F : Prop.
Hypothesis backend_or_excuse : BackendTotal B \/ F.
Hypothesis bootstrap_or_excuse : BootstrapTotal e \/ F.
Hypothesis bootstrap_slots : BootstrapKeepsSlots B M e.

Local Open Scope Q_scope.

Lemma wp_backend_op (r : result Ct) (tk : Stats -> Stats) (format : string)
      (args : list fmt_arg) (st : Stats) (P : Ct -> Stats -> Prop) :
  ((exists c, r = Ok c) \/ F) ->
  (forall c, r = Ok c -> P c (tk st)) ->
  wp F (bind (onErr (liftR r) format args)
             (fun result => bind (tick tk) (fun _ => ret result))) st P.
Proof.
  intros Hr HP. unfold wp, bind, onErr, liftR, tick, ret.
  destruct r as [c | err]; [apply HP; reflexivity |].
  destruct Hr as [[c Hc] | f]; [discriminate | exact f].
Qed.

Ltac backend_total field :=
  destruct backend_or_excuse as [T | f];
  [left; apply (field _ _ T) | right; exact f].

Lemma wp_Add (a b : Ct) (st : Stats) (P : Ct -> Stats -> Prop) :
  (forall c st', (forall i, slot M c i == slot M a i + slot M b i) -> P c st') ->
  wp F (Add B e a b) st P.
Proof.
  intros H. unfold Add. apply wp_backend_op; [backend_total @add_total |].
  intros c E. apply H. intros i. apply (add_slots B M _ _ _ E).
Qed.

Lemma wp_AddInPlace (a b : Ct) (st : Stats) (P : Ct -> Stats -> Prop) :
  (forall c st', (forall i, slot M c i == slot M a i + slot M b i) -> P c st') ->
  wp F (AddInPlace B e a b) st P.
Proof.
  intros H. unfold AddInPlace. apply wp_backend_op; [backend_total @add_total |].
  intros c E. apply H. intros i. apply (add_slots B M _ _ _ E).
Qed.

Lemma wp_Sub (a b : Ct) (st : Stats) (P : Ct -> Stats -> Prop) :
  (forall c st', (forall i, slot M c i == slot M a i - slot M b i) -> P c st') ->
  wp F (Sub B e a b) st P.
Proof.
  intros H. unfold Sub. apply wp_backend_op; [backend_total @sub_total |].
  intros c E. apply H. intros i. apply (sub_slots B M _ _ _ E).
Qed.

Lemma wp_Mul (a b : Ct) (st : Stats) (P : Ct -> Stats -> Prop) :
  (forall c st', (forall i, slot M c i == slot M a i * slot M b i) -> P c st') ->
  wp F (Mul B e a b) st P.
Proof.
  intros H. unfold Mul. apply wp_backend_op; [backend_total @mul_total |].
  intros c E. apply H. intros i. apply (mul_slots B M _ _ _ E).
Qed.

Lemma wp_MulConst (a : Ct) (q : Q) (st : Stats) (P : Ct -> Stats -> Prop) :
  (forall c st', (forall i, slot M c i == q * slot M a i) -> P c st') ->
  wp F (MulConst B e a q) st P.
Proof.
  intros H. unfold MulConst. apply wp_backend_op; [backend_total @mul_scalar_total |].
  intros c E. apply H. intros i. apply (mul_scalar_slots B M _ _ _ E).
Qed.

Lemma wp_AddConst (a : Ct) (q : Q) (st : Stats) (P : Ct -> Stats -> Prop) :
  (forall c st', (forall i, slot M c i == slot M a i + q) -> P c st') ->
  wp F (AddConst B e a q) st P.
Proof.
  intros H. unfold AddConst. apply wp_backend_op; [backend_total @add_scalar_total |].
  intros c E. apply H. intros i. apply (add_scalar_slots B M _ _ _ E).
Qed.

Lemma wp_Rescale (a : Ct) (st : Stats) (P : Ct -> Stats -> Prop) :
  (forall c st', (forall i, slot M c i == slot M a i) -> P c st') ->
  wp F (Rescale B e a) st P.
Proof.
  intros H. unfold Rescale. apply wp_backend_op.
  - destruct backend_or_excuse as [T | f];
      [left; apply (rescale_total _ T) | right; exact f].
  - intros c E. apply H. intros i. apply (rescale_slots B M _ _ E).
Qed.

Lemma wp_Rotate (a : Ct) (k : Z) (st : Stats) (P : Ct -> Stats -> Prop) :
  (forall c st',
      (forall i, (0 <= i < MaxSlots B)%Z ->
                 slot M c i == slot M a ((i + k) mod MaxSlots B)) -> P c st') ->
  wp F (Rotate B e a k) st P.
Proof.
  intros H. unfold Rotate. apply wp_backend_op; [backend_total @rotate_total |].
  intros c E. apply H. intros i. apply (rotate_slots B M _ _ _ E).
Qed.

Lemma wp_Bootstrap (a : Ct) (st : Stats) (P : Ct -> Stats -> Prop) :
  (forall c st', (forall i, slot M c i == slot M a i) -> P c st') ->
  wp F (Bootstrap e a) st P.
Proof.
  intros H. unfold Bootstrap.
  destruct (bootstrapper e) as [btp |] eqn:Eb.
  - apply wp_backend_op.
    + destruct bootstrap_or_excuse as [(btp' & Eb' & T) | f]; [left | right; exact f].
      rewrite Eb in Eb'. injection Eb' as <-. apply T.
    + intros c E. apply H. intros i. apply (bootstrap_slots btp a c Eb E).
  - unfold wp, fail.
    destruct bootstrap_or_excuse as [(btp' & Eb' & T) | f]; [| exact f].
    rewrite Eb in Eb'. discriminate.
Qed.

Lemma wp_MaybeBootstrap (a : Ct) (st : Stats) (P : Ct -> Stats -> Prop) :
  (forall c st', (forall i, slot M c i == slot M a i) -> P c st') ->
  wp F (MaybeBootstrap B e a) st P.
Proof.
  intros H. unfold MaybeBootstrap.
  destruct (NeedsBootstrap B e a && CanBootstrap e).
  - apply wp_Bootstrap, H.
  - apply wp_ret, H. intros i. reflexivity.
Qed.

(** ** SumSlots *)

Lemma wp_doublingStep (ct r : Ct) (j : Z) (st : Stats) (P : Ct -> Stats -> Prop) :
  (0 <= j)%Z -> (0 < MaxSlots B)%Z -> window M ct j r ->
  (forall r' st', window M ct (j + 1) r' -> P r' st') ->
  wp F (doublingStep B e r (2 ^ j)) st P.
Proof.
  intros Hj HS Hw HP. unfold doublingStep.
  apply wp_bind, wp_onErr, wp_Rotate. intros rotated st1 Hrot.
  apply wp_onErr, wp_AddInPlace. intros r' st2 Hadd.
  apply HP. intros i Hi.
  assert (Hpow : (0 < 2 ^ j)%Z) by (apply Z.pow_pos_nonneg; lia).
  replace (Z.to_nat (2 ^ (j + 1))) with (Z.to_nat (2 ^ j) + Z.to_nat (2 ^ j))%nat
    by (rewrite Z.pow_add_r, Z.pow_1_r by lia; lia).
  rewrite sumQ_app, Hadd, (Hrot i Hi), (Hw i Hi).
  rewrite (Hw ((i + 2 ^ j) mod MaxSlots B)%Z) by (apply Z.mod_pos_bound; lia).
  apply Qplus_comp; [reflexivity |].
  apply sumQ_ext. intros t Ht.
  replace (((i + 2 ^ j) mod MaxSlots B + Z.of_nat t) mod MaxSlots B)%Z
    with ((i + Z.of_nat (Z.to_nat (2 ^ j) + t)) mod MaxSlots B)%Z; [reflexivity |].
  rewrite Zplus_mod_idemp_l. f_equal. lia.
Qed.

Lemma wp_doublingReduction (ct : Ct) (n : nat) :
  forall (j : Z) (r : Ct) (st : Stats) (P : Ct -> Stats -> Prop),
    (0 <= j)%Z -> (0 < MaxSlots B)%Z -> window M ct j r ->
    (forall r' st', window M ct (j + Z.of_nat n) r' -> P r' st') ->
    wp F (doublingReduction B e (doublings j n) r) st P.
Proof.
  induction n as [| n IH]; intros j r st P Hj HS Hw HP;
    cbn [doublings doublingReduction].
  - apply wp_ret, HP. replace (j + Z.of_nat 0)%Z with j by lia. exact Hw.
  - apply wp_bind. apply (wp_doublingStep ct r j st _ Hj HS Hw).
    intros r' st' Hw'. apply IH; [lia | exact HS | exact Hw' |].
    intros r'' st'' Hw''. apply HP.
    replace (j + Z.of_nat (S n))%Z with (j + 1 + Z.of_nat n)%Z by lia. exact Hw''.
Qed.

(** The loop of the source is the doubling reduction over the powers of
    two below the slot count. *)
Lemma sumSlotsLoop_doubling (k : Z) (n : nat) :
  forall (j : Z) (fuel : nat) (r : Ct) (st : Stats),
    (0 <= j)%Z -> (j + Z.of_nat n = k)%Z -> (k <= 62)%Z -> (n <= fuel)%nat ->
    sumSlotsLoop B fuel e (2 ^ k) (2 ^ j) r st
    = doublingReduction B e (doublings j n) r st.
Proof.
  induction n as [| n IH]; intros j fuel r st Hj Hk Hk62 Hfuel.
  - replace j with k by lia.
    destruct fuel; cbn [sumSlotsLoop doublings doublingReduction];
      rewrite Z.ltb_irrefl; reflexivity.
  - destruct fuel as [| fuel]; [lia |].
    cbn [sumSlotsLoop doublings doublingReduction].
    assert (Hlt : (2 ^ j < 2 ^ k)%Z) by (apply Z.pow_lt_mono_r; lia).
    apply Z.ltb_lt in Hlt. rewrite Hlt.
    assert (Hnext : GoInt.mul (2 ^ j) 2 = (2 ^ (j + 1))%Z).
    { unfold GoInt.mul. rewrite Z.pow_add_r, Z.pow_1_r by lia.
      apply wrap_small. unfold GoInt.in_range, GoInt.min_int, GoInt.max_int.
      assert ((2 ^ j <= 2 ^ 61)%Z) by (apply Z.pow_le_mono_r; lia).
      assert ((0 < 2 ^ j)%Z) by (apply Z.pow_pos_nonneg; lia). lia. }
    rewrite Hnext. unfold doublingStep, bind.
    destruct (onErr (Rotate B e r (2 ^ j)) _ _ st) as [[rotated | err] st1];
      [| reflexivity].
    destruct (onErr (AddInPlace B e r rotated) _ _ st1) as [[r' | err] st2];
      [| reflexivity].
    apply IH; lia.
Qed.

Lemma SumSlots_is_doubling (ct : Ct) (k : Z) (st : Stats) :
  (0 <= k <= 62)%Z -> MaxSlots B = (2 ^ k)%Z ->
  SumSlots B e ct st = doublingReduction B e (doublings 0 (Z.to_nat k)) ct st.
Proof.
  intros Hk HS. unfold SumSlots, Slots, CopyNew. rewrite HS.
  change 1%Z with (2 ^ 0)%Z.
  apply (sumSlotsLoop_doubling k (Z.to_nat k)); lia.
Qed.

Lemma wp_SumSlots (ct : Ct) (k : Z) (st : Stats) (P : Ct -> Stats -> Prop) :
  (0 <= k <= 62)%Z -> MaxSlots B = (2 ^ k)%Z ->
  (forall r st', slot M r 0 == sumSlotsOf (slot M ct) (MaxSlots B) -> P r st') ->
  wp F (SumSlots B e ct) st P.
Proof.
  intros Hk HS HP. unfold wp.
  rewrite (SumSlots_is_doubling ct k st Hk HS).
  assert (Hpos : (0 < MaxSlots B)%Z) by (rewrite HS; apply Z.pow_pos_nonneg; lia).
  apply (wp_doublingReduction ct (Z.to_nat k) 0 ct st P); [lia | exact Hpos | |].
  - intros i Hi. change (Z.to_nat (2 ^ 0)) with 1%nat. cbn [sumQ Z.of_nat].
    rewrite Z.add_0_r, Z.mod_small by lia. ring.
  - intros r st' Hw. apply HP.
    rewrite (Hw 0%Z) by lia. unfold sumSlotsOf.
    replace (0 + Z.of_nat (Z.to_nat k))%Z with k by lia. rewrite <- HS.
    apply sumQ_ext. intros t Ht. rewrite Z.mod_small by lia. reflexivity.
Qed.


(** ** Power *)

Lemma wp_power_square (base : Ct) (p' : Z) (st : Stats) (P : Ct -> Stats -> Prop) :
  (forall base' st',
      ((0 < p')%Z -> forall i, slot M base' i == slot M base i * slot M base i) ->
      ((p' <= 0)%Z -> base' = base) -> P base' st') ->
  wp F (if (0 <? p')%Z
        then bind (Mul B e base base) (fun b => Rescale B e b)
        else ret base) st P.
Proof.
  intros HP. destruct (Z.ltb_spec 0 p') as [Hlt | Hle].
  - apply wp_bind, wp_Mul. intros b st1 Hb. apply wp_Rescale. intros b' st2 Hb'.
    apply HP; [| lia]. intros _ i. rewrite Hb', Hb. reflexivity.
  - apply wp_ret, HP; [lia | reflexivity].
Qed.

Lemma wp_powerLoop (f : Z -> Q) (fuel : nat) :
  forall (result base : Ct) (power : Z) (first : bool) (st : Stats)
         (P : Ct -> Stats -> Prop),
    (0 <= power < 2 ^ Z.of_nat fuel)%Z ->
    (first = true -> (0 < power)%Z) ->
    (forall i, (if first then 1 else slot M result i) * slot M base i ^ power == f i) ->
    (forall c st', (forall i, slot M c i == f i) -> P c st') ->
    wp F (powerLoop B fuel e result base power first) st P.
Proof.
  induction fuel as [| fuel IH]; intros result base power first st P Hp Hfirst Hinv HP.
  - assert (power = 0%Z) by (cbn in Hp; lia). subst power.
    cbn [powerLoop]. apply wp_ret, HP. intros i.
    destruct first; [specialize (Hfirst eq_refl); lia |].
    rewrite <- (Hinv i). change (slot M base i ^ 0) with 1. ring.
  - cbn [powerLoop]. destruct (Z.ltb_spec 0 power) as [Hpos | Hzero].
    + assert (Hhalf : (0 <= power / 2 < 2 ^ Z.of_nat fuel)%Z).
      { split; [apply Z.div_pos; lia |].
        apply Z.div_lt_upper_bound; [lia |].
        rewrite Nat2Z.inj_succ, Z.pow_succ_r in Hp by lia. lia. }
      (* what a turn of the loop keeps, whatever the bit *)
      assert (Hturn : forall base' i,
                 ((0 < power / 2)%Z ->
                  forall i, slot M base' i == slot M base i * slot M base i) ->
                 ((power / 2 <= 0)%Z -> base' = base) ->
                 (if first then 1 else slot M result i)
                 * (if Z.odd power then slot M base i else 1)
                 * slot M base' i ^ (power / 2) == f i).
      { intros base' i Hsq Hsame.
        apply (power_step_inv _ (slot M base i) _ _ _ Hpos); [| | apply Hinv].
        - intros H. apply Hsq. exact H.
        - intros H. rewrite (Hsame H). reflexivity. }
      rewrite land1_odd, shiftr1_half.
      apply wp_bind.
      destruct (Z.odd power) eqn:Hodd.
      * destruct first.
        -- (* the first set bit: result takes the base *)
           apply wp_ret. cbn [fst snd]. apply wp_bind, wp_power_square.
           intros base' st1 Hsq Hsame.
           apply IH; [exact Hhalf | discriminate | | exact HP].
           intros i. unfold CopyNew. rewrite <- (Hturn base' i Hsq Hsame). ring.
        -- (* a later set bit: result is multiplied by the base *)
           apply wp_bind, wp_Mul. intros r st1 Hr.
           apply wp_bind, wp_Rescale. intros r' st2 Hr'.
           apply wp_ret. cbn [fst snd]. apply wp_bind, wp_power_square.
           intros base' st3 Hsq Hsame.
           apply IH; [exact Hhalf | discriminate | | exact HP].
           intros i. rewrite Hr', Hr, <- (Hturn base' i Hsq Hsame). ring.
      * (* a clear bit: only the base is squared *)
        apply wp_ret. cbn [fst snd]. apply wp_bind, wp_power_square.
        intros base' st1 Hsq Hsame.
        assert (Heven : (power = 2 * (power / 2))%Z).
        { pose proof (Z.div2_odd power) as H. rewrite Z.div2_div, Hodd in H.
          cbn [Z.b2z] in H. lia. }
        apply IH; [exact Hhalf | intros _; lia | | exact HP].
        intros i. rewrite <- (Hturn base' i Hsq Hsame). ring.
    + assert (power = 0%Z) by lia. subst power.
      apply wp_ret, HP. intros i.
      destruct first; [specialize (Hfirst eq_refl); lia |].
      rewrite <- (Hinv i). change (slot M base i ^ 0) with 1. ring.
Qed.

Lemma wp_Power (ct : Ct) (n : Z) (st : Stats) (P : Ct -> Stats -> Prop) :
  (1 <= n <= GoInt.max_int)%Z ->
  (forall c st', (forall i, slot M c i == slot M ct i ^ n) -> P c st') ->
  wp F (Power B e ct n) st P.
Proof.
  intros Hn HP. unfold Power.
  destruct (Z.ltb_spec n 1); [lia |].
  destruct (Z.eqb_spec n 1) as [-> | Hne].
  - apply wp_ret, HP. intros i. reflexivity.
  - apply (wp_powerLoop (fun i => slot M ct i ^ n)); [| intros _; lia | | exact HP].
    + unfold GoInt.max_int in Hn. change (Z.of_nat 64) with 64%Z. lia.
    + intros i. unfold CopyNew. ring.
Qed.

(** ** The Newton iteration *)

Lemma wp_constMinus (iter : Z) (nPlusOne : Q) (t : Ct) (st : Stats)
      (P : Ct -> Stats -> Prop) :
  (forall u st',
      (forall i, slot M u i == - (1) * (slot M t i + - nPlusOne)) -> P u st') ->
  wp F (constMinus B (NewNumericOp e) iter nPlusOne t) st P.
Proof.
  intros HP. unfold constMinus. cbn [eval NewNumericOp].
  apply wp_bind, wp_onErr, wp_AddConst. intros d st1 Hd.
  apply wp_onErr, wp_MulConst. intros u st2 Hu.
  apply HP. intros i. rewrite Hu, Hd. reflexivity.
Qed.

Lemma wp_newtonIteration (config : INVNTHSQRTConfig) (nPlusOne invN : Q)
      (x : Ct) (iter : Z) (y : Ct) (st : Stats) (P : Ct -> Stats -> Prop) :
  (1 <= N config <= GoInt.max_int)%Z ->
  (forall y' st',
      (forall i, slot M y' i ==
                 invN * (slot M y i * (nPlusOne - slot M x i * slot M y i ^ N config))) ->
      P y' st') ->
  wp F (newtonIteration B (NewNumericOp e) config nPlusOne invN x iter y) st P.
Proof.
  intros HN HP. unfold newtonIteration. cbn [eval NewNumericOp].
  apply wp_bind.
  apply (wp_mono F _ st (fun y1 _ => forall i, slot M y1 i == slot M y i)).
  2: { destruct ((0 <? BootstrapFrequency config)%Z && (0 <? iter)%Z
                 && (Z.rem iter (BootstrapFrequency config) =? 0)%Z);
       [destruct (NeedsBootstrap B e y) |].
       - apply wp_onErr, wp_Bootstrap. intros c st' Hc. exact Hc.
       - apply wp_ret. intros i. reflexivity.
       - apply wp_ret. intros i. reflexivity. }
  intros y1 st1 Hy1. apply wp_bind.
  apply (wp_mono F _ st1 (fun yN _ => forall i, slot M yN i == slot M y1 i ^ N config)).
  2: { destruct (Z.eqb_spec (N config) 1) as [E1 | _].
       - apply wp_ret. intros i. rewrite E1. reflexivity.
       - apply wp_onErr, wp_Power; [exact HN |]. intros c st' Hc. exact Hc. }
  intros yN st2 HyN.
  apply wp_bind, wp_onErr, wp_Mul. intros xyN st3 Hxy.
  apply wp_bind, wp_onErr, wp_Rescale. intros xyN1 st4 Hxy1.
  apply wp_bind, wp_onErr, wp_MaybeBootstrap. intros xyN2 st5 Hxy2.
  apply wp_bind, wp_constMinus. intros diff st6 Hdiff.
  apply wp_bind, wp_onErr, wp_Mul. intros yNew st7 HyNew.
  apply wp_bind, wp_onErr, wp_Rescale. intros yNew1 st8 HyNew1.
  apply wp_bind, wp_onErr, wp_MaybeBootstrap. intros yNew2 st9 HyNew2.
  apply wp_onErr, wp_MulConst. intros y' st10 Hy'.
  apply HP. intros i.
  rewrite Hy', HyNew2, HyNew1, HyNew, Hdiff, Hxy2, Hxy1, Hxy, HyN, Hy1. ring.
Qed.

Lemma wp_INVNTHSQRT_float (config : INVNTHSQRTConfig) (x : Ct) (st : Stats)
      (P : Ct -> Stats -> Prop) :
  (1 <= N config <= GoInt.max_int)%Z ->
  (forall r st',
      (forall i, slot M r i ==
                 Nat.iter (Z.to_nat (Iterations config))
                          (newtonStep (N config) (floatNPlusOne (N config))
                                      (floatInvN (N config)) (slot M x i))
                          (InitialGuess config)) ->
      P r st') ->
  wp F (INVNTHSQRT B (NewNumericOp e) x config) st P.
Proof.
  intros HN HP. unfold INVNTHSQRT. cbn [eval NewNumericOp].
  destruct (Z.ltb_spec (N config) 1); [lia |].
  apply wp_bind, wp_onErr, wp_MaybeBootstrap. intros x' st1 Hx'.
  apply wp_bind, wp_onErr, wp_AddConst. intros y0 st2 Hy0.
  apply (wp_for_upto F
           (fun j y => forall i, slot M y i ==
              Nat.iter j (newtonStep (N config) (floatNPlusOne (N config))
                                     (floatInvN (N config)) (slot M x i))
                       (InitialGuess config))).
  - intros i. change (Nat.iter 0 ?f ?a) with a. rewrite Hy0.
    unfold ZeroCiphertextLike. rewrite (zero_slots B M). ring.
  - intros j y st0 Post Hj Hy HPost.
    apply wp_newtonIteration; [exact HN |]. intros y' st' Hy'.
    apply HPost. intros i. rewrite Nat.add_1_r, Nat.iter_succ.
    rewrite Hy'. unfold newtonStep, floatNPlusOne, floatInvN.
    rewrite (Hx' i), (Hy i). reflexivity.
  - exact HP.
Qed.

Lemma wp_INVNTHSQRT (config : INVNTHSQRTConfig) (x : Ct) (st : Stats)
      (P : Ct -> Stats -> Prop) :
  (1 <= N config < GoInt.max_int)%Z ->
  exactConstants (N config) = true ->
  (forall r st',
      (forall i, slot M r i ==
                 Nat.iter (Z.to_nat (Iterations config))
                          (newtonMap (N config) (slot M x i)) (InitialGuess config)) ->
      P r st') ->
  wp F (INVNTHSQRT B (NewNumericOp e) x config) st P.
Proof.
  intros HN Hexact HP. apply wp_INVNTHSQRT_float; [lia |].
  intros r st' Hr. apply HP. intros i. rewrite (Hr i).
  apply newtonStep_iter_exact, Hexact.
Qed.

(** ** The flip mapping *)

Lemma wp_applyFlipMapping (x : Ct) (st : Stats) (P : Ct -> Stats -> Prop) :
  (forall r st', (forall i, slot M r i == flip (slot M x i)) -> P r st') ->
  wp F (applyFlipMapping B (NewOrdinalOp e) x) st P.
Proof.
  intros HP. unfold applyFlipMapping. cbn [oeval NewOrdinalOp].
  apply wp_bind, wp_onErr, wp_Mul. intros x2 st1 Hx2.
  apply wp_bind, wp_onErr, wp_Rescale. intros x2' st2 Hx2'.
  apply wp_bind, wp_onErr, wp_MulConst. intros term1 st3 Ht1.
  apply wp_bind, wp_onErr, wp_MulConst. intros term2 st4 Ht2.
  apply wp_bind, wp_onErr, wp_Add. intros result st5 Hres.
  apply wp_onErr, wp_AddConst. intros r st6 Hr.
  apply HP. intros i. rewrite Hr, Hres, Ht1, Ht2, Hx2', Hx2, flip_expanded.
  change (slot M x i ^ 2) with (slot M x i * slot M x i). ring.
Qed.

End EvaluatorLogic.

(* ===================================================================== *)
(** * The ideal backend meets the assumptions *)
(* ===================================================================== *)

Lemma ideal_total (slots : Z) : BackendTotal (Ideal.backend slots).
Proof. split; cbn; eauto. Qed.

Lemma ideal_bootstrap_keeps (slots : Z) (e : Evaluator Ideal.ct) (top : Z) :
  bootstrapper e = Some (Ideal.btp top) ->
  BootstrapKeepsSlots (Ideal.backend slots) (idealModel slots) e.
Proof.
  intros He btp a c Hb E i. rewrite He in Hb. injection Hb as <-.
  cbn in E. injection E as <-. reflexivity.
Qed.

Lemma ideal_no_bootstrap_keeps (slots : Z) (e : Evaluator Ideal.ct) :
  bootstrapper e = None ->
  BootstrapKeepsSlots (Ideal.backend slots) (idealModel slots) e.
Proof. intros He btp a c Hb. rewrite He in Hb. discriminate. Qed.

Lemma doublings_powers (n : nat) :
  forall j, doublings j n = map (fun t => 2 ^ (j + Z.of_nat t)) (seq 0 n).
Proof.
  induction n as [| n IH]; intros j; [reflexivity |].
  cbn [doublings]. rewrite IH. cbn [seq map]. rewrite Z.add_0_r. f_equal.
  rewrite <- seq_shift, map_map. apply map_ext. intros t. f_equal. lia.
Qed.

(* ===================================================================== *)
(** * C4: SumSlots *)
(* ===================================================================== *)

(** C4: on S = 2^k slots, [SumSlots] runs the doubling reduction
    [ct <- ct + rotate(ct, r)] for r = 1, 2, 4, ..., 2^(k-1) = S/2, errors
    and counters included; a result it returns holds in slot 0 the sum of
    the S slots of the input; and it returns one whenever no rotation and
    no addition of the backend fails. *)
Theorem SumSlots_sums_all_slots {Ct : Type} (B : Backend Ct) (M : PlainModel B)
        (e : Evaluator Ct) (ct : Ct) (k : Z) :
  0 <= k <= 62 -> MaxSlots B = 2 ^ k ->
  doublings 0 (Z.to_nat k) = map (fun t => 2 ^ Z.of_nat t) (seq 0 (Z.to_nat k)) /\
  (forall st, SumSlots B e ct st
              = doublingReduction B e (doublings 0 (Z.to_nat k)) ct st) /\
  (forall st r st', SumSlots B e ct st = (Ok r, st') ->
                    (slot M r 0 == sumSlotsOf (slot M ct) (MaxSlots B))%Q) /\
  (BackendTotal B -> forall st, exists r st', SumSlots B e ct st = (Ok r, st')).
Proof.
  intros Hk HS. split; [| split; [| split]].
  - apply doublings_powers.
  - intros st. apply SumSlots_is_doubling; assumption.
  - intros st r st' E.
    refine (wp_returned True _ st
              (fun r _ => (slot M r 0 == sumSlotsOf (slot M ct) (MaxSlots B))%Q)
              r st' _ E).
    apply (wp_SumSlots B M e True (or_intror I) ct k st _ Hk HS).
    intros r0 _ H. exact H.
  - intros T st.
    destruct (wp_total (SumSlots B e ct) st (fun _ _ => True)) as (r & st' & E & _).
    + apply (wp_SumSlots B M e False (or_introl T) ct k st _ Hk HS).
      intros; exact I.
    + exists r, st'. exact E.
Qed.

Lemma SumSlots_sums_all_slots_witness :
  (0 <= 2 <= 62 /\ MaxSlots (Ideal.backend 4) = 2 ^ 2) /\
  doublings 0 (Z.to_nat 2) = map (fun t => 2 ^ Z.of_nat t) (seq 0 (Z.to_nat 2)) /\
  (forall st, SumSlots (Ideal.backend 4) idealEval sampleCt st
              = doublingReduction (Ideal.backend 4) idealEval
                                  (doublings 0 (Z.to_nat 2)) sampleCt st) /\
  (forall st r st', SumSlots (Ideal.backend 4) idealEval sampleCt st = (Ok r, st') ->
                    (slot (idealModel 4) r 0
                     == sumSlotsOf (slot (idealModel 4) sampleCt)
                                   (MaxSlots (Ideal.backend 4)))%Q) /\
  (BackendTotal (Ideal.backend 4) ->
   forall st, exists r st',
       SumSlots (Ideal.backend 4) idealEval sampleCt st = (Ok r, st')).
Proof.
  split; [split; [lia | reflexivity] |].
  apply (SumSlots_sums_all_slots (Ideal.backend 4) (idealModel 4) idealEval sampleCt 2);
    [lia | reflexivity].
Defined.

(** A run: the slots 1, 2, 3, 4 sum to 10, with two rotations and two
    additions counted. *)
Example SumSlots_run :
  exists r,
    SumSlots (Ideal.backend 4) idealEval sampleCt zeroStats
    = (Ok r, {| MulCount := 0; AddCount := 2; RotateCount := 2;
                RescaleCount := 0; BootstrapCount := 0 |})
    /\ Qeq_bool (Ideal.val r 0) 10 = true.
Proof. eexists. split; [reflexivity | vm_compute; reflexivity]. Qed.

(* ===================================================================== *)
(** * C6: the Newton iteration of INVNTHSQRT *)
(* ===================================================================== *)

(** C6, as amended: for every exponent n >= 1, with d = float64(n + 1)
    and c = 1.0 / float64(n) the two float64 constants the code computes,
    in the plaintext model: a Newton iteration that returns has updated
    every slot of y to c * (y * (d - x * y^n)); the constant-minus-ciphertext
    it uses returns u = (-1) * (t - d), which is d - t; [INVNTHSQRT]
    returns the initial guess iterated that way [Iterations] times.  When
    the two floats are exact, d = n + 1 and c = 1/n, the update is
    (1/n) * (y * ((n+1) - x * y^n)) and [INVNTHSQRT] iterates that map;
    they are exact at n = 1 and n = 2.  With a backend and a bootstrapper
    that do not fail, the iteration and the whole function return. *)
Theorem INVNTHSQRT_newton_iteration {Ct : Type} (B : Backend Ct) (M : PlainModel B)
        (n : NumericOp Ct) (config : INVNTHSQRTConfig) :
  1 <= N config <= GoInt.max_int ->
  BootstrapKeepsSlots B M (eval n) ->
  let nPlusOne := floatNPlusOne (N config) in
  let invN := floatInvN (N config) in
  (forall x iter y st y' st',
      newtonIteration B n config nPlusOne invN x iter y st = (Ok y', st') ->
      forall i, (slot M y' i ==
                 invN * (slot M y i * (nPlusOne - slot M x i * slot M y i ^ N config)))%Q) /\
  (forall iter t st u st',
      constMinus B n iter nPlusOne t st = (Ok u, st') ->
      forall i,
        (slot M u i == - (1) * (slot M t i - nPlusOne))%Q /\
        (slot M u i == nPlusOne - slot M t i)%Q) /\
  (forall x st r st',
      INVNTHSQRT B n x config st = (Ok r, st') ->
      forall i, (slot M r i ==
                 Nat.iter (Z.to_nat (Iterations config))
                          (newtonStep (N config) nPlusOne invN (slot M x i))
                          (InitialGuess config))%Q) /\
  (exactConstants (N config) = true ->
   (nPlusOne == inject_Z (N config + 1))%Q /\
   (invN == 1 / inject_Z (N config))%Q /\
   (forall x iter y st y' st',
       newtonIteration B n config nPlusOne invN x iter y st = (Ok y', st') ->
       forall i, (slot M y' i == newtonMap (N config) (slot M x i) (slot M y i))%Q) /\
   (forall x st r st',
       INVNTHSQRT B n x config st = (Ok r, st') ->
       forall i, (slot M r i ==
                  Nat.iter (Z.to_nat (Iterations config))
                           (newtonMap (N config) (slot M x i)) (InitialGuess config))%Q)) /\
  (N config = 1 \/ N config = 2 -> exactConstants (N config) = true) /\
  (BackendTotal B -> BootstrapTotal (eval n) ->
   (forall x iter y st, exists y' st',
         newtonIteration B n config nPlusOne invN x iter y st = (Ok y', st')) /\
   (forall x st, exists r st', INVNTHSQRT B n x config st = (Ok r, st'))).
Proof.
  intros HN Hboot nPlusOne invN.
  assert (Hiter : forall x iter y st y' st',
             newtonIteration B n config nPlusOne invN x iter y st = (Ok y', st') ->
             forall i, (slot M y' i ==
                        invN * (slot M y i
                                * (nPlusOne - slot M x i * slot M y i ^ N config)))%Q).
  { intros x iter y st y' st' E.
    change (newtonIteration B n config nPlusOne invN x iter y)
      with (newtonIteration B (NewNumericOp (eval n)) config nPlusOne invN x iter y) in E.
    refine (wp_returned True _ st
              (fun y' _ => forall i,
                   (slot M y' i ==
                    invN * (slot M y i
                            * (nPlusOne - slot M x i * slot M y i ^ N config)))%Q)
              y' st' _ E).
    apply (wp_newtonIteration B M (eval n) True (or_intror I) (or_intror I) Hboot
             config nPlusOne invN x iter y st _ HN).
    intros c _ Hc. exact Hc. }
  assert (Hwhole : forall x st r st',
             INVNTHSQRT B n x config st = (Ok r, st') ->
             forall i, (slot M r i ==
                        Nat.iter (Z.to_nat (Iterations config))
                                 (newtonStep (N config) nPlusOne invN (slot M x i))
                                 (InitialGuess config))%Q).
  { intros x st r st' E.
    change (INVNTHSQRT B n x config)
      with (INVNTHSQRT B (NewNumericOp (eval n)) x config) in E.
    refine (wp_returned True _ st
              (fun r _ => forall i,
                   (slot M r i ==
                    Nat.iter (Z.to_nat (Iterations config))
                             (newtonStep (N config) nPlusOne invN (slot M x i))
                             (InitialGuess config))%Q)
              r st' _ E).
    apply (wp_INVNTHSQRT_float B M (eval n) True (or_intror I) (or_intror I) Hboot
             config x st _ HN).
    intros c _ Hc. exact Hc. }
  split; [exact Hiter |]. split; [| split; [exact Hwhole |]].
  - intros iter t st u st' E.
    change (constMinus B n iter nPlusOne t)
      with (constMinus B (NewNumericOp (eval n)) iter nPlusOne t) in E.
    assert (Hu : forall i, (slot M u i == - (1) * (slot M t i + - nPlusOne))%Q).
    { refine (wp_returned True _ st
                (fun u _ => forall i,
                     (slot M u i == - (1) * (slot M t i + - nPlusOne))%Q)
                u st' _ E).
      apply (wp_constMinus B M (eval n) True (or_intror I)). intros c _ Hc. exact Hc. }
    intros i. rewrite (Hu i). split; ring.
  - split; [| split].
    + intros Hexact. destruct (exactConstants_spec (N config) Hexact) as [H1 H2].
      split; [exact H1 |]. split; [exact H2 |]. split.
      * intros x iter y st y' st' E i. rewrite (Hiter x iter y st y' st' E i).
        apply (newtonStep_exact (N config) (slot M x i) (slot M y i) Hexact).
      * intros x st r st' E i. rewrite (Hwhole x st r st' E i).
        apply newtonStep_iter_exact, Hexact.
    + intros [E | E]; rewrite E; vm_compute; reflexivity.
    + intros T Tb. split.
      * intros x iter y st.
        destruct (wp_total (newtonIteration B (NewNumericOp (eval n)) config nPlusOne
                                            invN x iter y) st (fun _ _ => True))
          as (y' & st' & E & _).
        -- apply (wp_newtonIteration B M (eval n) False (or_introl T) (or_introl Tb)
                    Hboot config nPlusOne invN x iter y st _ HN).
           intros; exact I.
        -- exists y', st'. exact E.
      * intros x st.
        destruct (wp_total (INVNTHSQRT B (NewNumericOp (eval n)) x config) st
                           (fun _ _ => True)) as (r & st' & E & _).
        -- apply (wp_INVNTHSQRT_float B M (eval n) False (or_introl T) (or_introl Tb)
                    Hboot config x st _ HN).
           intros; exact I.
        -- exists r, st'. exact E.
Qed.

Lemma INVNTHSQRT_newton_iteration_witness :
  (1 <= N DefaultINVSQRTConfig <= GoInt.max_int /\
   BootstrapKeepsSlots (Ideal.backend 4) (idealModel 4) (eval (NewNumericOp idealEvalBtp)) /\
   exactConstants (N DefaultINVSQRTConfig) = true) /\
  forall x iter y st y' st',
    newtonIteration (Ideal.backend 4) (NewNumericOp idealEvalBtp) DefaultINVSQRTConfig
                    (floatNPlusOne (N DefaultINVSQRTConfig))
                    (floatInvN (N DefaultINVSQRTConfig)) x iter y st = (Ok y', st') ->
    forall i, (slot (idealModel 4) y' i
               == newtonMap (N DefaultINVSQRTConfig) (slot (idealModel 4) x i)
                            (slot (idealModel 4) y i))%Q.
Proof.
  assert (H1 : 1 <= N DefaultINVSQRTConfig <= GoInt.max_int)
    by (unfold GoInt.max_int; cbn; lia).
  assert (H2 : BootstrapKeepsSlots (Ideal.backend 4) (idealModel 4)
                                   (eval (NewNumericOp idealEvalBtp)))
    by (apply (ideal_bootstrap_keeps 4 _ 10); reflexivity).
  assert (H3 : exactConstants (N DefaultINVSQRTConfig) = true)
    by (vm_compute; reflexivity).
  split; [split; [exact H1 | split; [exact H2 | exact H3]] |].
  exact (proj1 (proj2 (proj2
           (proj1 (proj2 (proj2 (proj2
              (INVNTHSQRT_newton_iteration (Ideal.backend 4) (idealModel 4)
                 (NewNumericOp idealEvalBtp) DefaultINVSQRTConfig H1 H2)))) H3)))).
Defined.

(** C6 as stated fails at n = 3: float64 1.0/3.0 is
    6004799503160661 * 2^-54, not 1/3.  One iteration from y0 = 1/2 on the
    slot value 1 returns 6004799503160661 * 2^-54 * (31/16), where the
    claim's update (1/3) * (y * (4 - x * y^3)) is 31/48. *)
Lemma INVNTHSQRT_inexact_at_three :
  exactConstants 3 = false /\
  (floatInvN 3 == 6004799503160661 # 18014398509481984)%Q /\
  (newtonMap 3 (slot (idealModel 4) sampleOnes 0) (1 # 2) == 31 # 48)%Q /\
  exists r st',
    INVNTHSQRT (Ideal.backend 4) (NewNumericOp idealEvalBtp) sampleOnes
               sampleCubeRootConfig zeroStats = (Ok r, st') /\
    (slot (idealModel 4) r 0
     == (6004799503160661 # 18014398509481984) * (31 # 16))%Q /\
    ~ (slot (idealModel 4) r 0
       == newtonMap (N sampleCubeRootConfig) (slot (idealModel 4) sampleOnes 0)
                    (InitialGuess sampleCubeRootConfig))%Q.
Proof.
  split; [vm_compute; reflexivity |].
  split; [apply Qeq_bool_eq; vm_compute; reflexivity |].
  split; [apply Qeq_bool_eq; vm_compute; reflexivity |].
  assert (H : match INVNTHSQRT (Ideal.backend 4) (NewNumericOp idealEvalBtp) sampleOnes
                               sampleCubeRootConfig zeroStats with
              | (Ok r, _) =>
                  Qeq_bool (slot (idealModel 4) r 0)
                           ((6004799503160661 # 18014398509481984) * (31 # 16))
                  && negb (Qeq_bool (slot (idealModel 4) r 0)
                                    (newtonMap (N sampleCubeRootConfig)
                                               (slot (idealModel 4) sampleOnes 0)
                                               (InitialGuess sampleCubeRootConfig)))
              | (Err _, _) => false
              end = true) by (vm_compute; reflexivity).
  destruct (INVNTHSQRT (Ideal.backend 4) (NewNumericOp idealEvalBtp) sampleOnes
                       sampleCubeRootConfig zeroStats) as [[r | err] st'];
    [| discriminate H].
  apply andb_prop in H. destruct H as [Hval Hne].
  exists r, st'. split; [reflexivity |]. split; [apply Qeq_bool_eq, Hval |].
  intros Heq. apply Qeq_eq_bool in Heq. rewrite Heq in Hne. discriminate Hne.
Qed.

(** A run of the reciprocal: three iterations from 1/2 on the slot value 1
    give 1 - 2^-8, on its way to 1/1. *)
Example INVNTHSQRT_run :
  match INVNTHSQRT (Ideal.backend 4) (NewNumericOp idealEvalBtp)
                   (Ideal.of_list 5 [1; 1; 1; 1]%Q)
                   {| N := 1; Iterations := 3; BootstrapFrequency := 5;
                      InitialGuess := 1 # 2 |} zeroStats with
  | (Ok r, _) => Qeq_bool (Ideal.val r 0) (255 # 256)
  | (Err _, _) => false
  end = true.
Proof. vm_compute. reflexivity. Qed.

(* ===================================================================== *)
(** * C8: the flip mapping *)
(* ===================================================================== *)

(** C8: [applyFlipMapping] computes, in every slot,
    f(s) = -0.5 * (s - 0.5)^2 + 1.125 of the sign value s; f(s) is
    -0.5 s^2 + 0.5 s + 1 for every s; f(-1) = 0 and f(1) = 1; and the
    mapping returns whenever the backend does not fail. *)
Theorem applyFlipMapping_computes_flip {Ct : Type} (B : Backend Ct) (M : PlainModel B)
        (o : OrdinalOp Ct) (x : Ct) :
  (forall st r st', applyFlipMapping B o x st = (Ok r, st') ->
                    forall i, (slot M r i == flip (slot M x i))%Q) /\
  (forall s, (flip s == - (1 # 2) * s ^ 2 + (1 # 2) * s + 1)%Q) /\
  (flip (- (1)) == 0)%Q /\ (flip 1 == 1)%Q /\
  (BackendTotal B -> forall st, exists r st', applyFlipMapping B o x st = (Ok r, st')).
Proof.
  split; [| split; [| split; [| split]]].
  - intros st r st' E.
    change (applyFlipMapping B o x)
      with (applyFlipMapping B (NewOrdinalOp (oeval o)) x) in E.
    refine (wp_returned True _ st
              (fun r _ => forall i, (slot M r i == flip (slot M x i))%Q) r st' _ E).
    apply (wp_applyFlipMapping B M (oeval o) True (or_intror I)).
    intros c _ Hc. exact Hc.
  - apply flip_expanded.
  - reflexivity.
  - reflexivity.
  - intros T st.
    destruct (wp_total (applyFlipMapping B (NewOrdinalOp (oeval o)) x) st
                       (fun _ _ => True)) as (r & st' & E & _).
    + apply (wp_applyFlipMapping B M (oeval o) False (or_introl T)). intros; exact I.
    + exists r, st'. exact E.
Qed.

Lemma applyFlipMapping_computes_flip_witness :
  (forall st r st',
      applyFlipMapping (Ideal.backend 4) (NewOrdinalOp idealEval) sampleCt st
      = (Ok r, st') ->
      forall i, (slot (idealModel 4) r i == flip (slot (idealModel 4) sampleCt i))%Q) /\
  (flip (- (1)) == 0)%Q /\ (flip 1 == 1)%Q.
Proof.
  destruct (applyFlipMapping_computes_flip (Ideal.backend 4) (idealModel 4)
              (NewOrdinalOp idealEval) sampleCt) as (H1 & _ & H2 & H3 & _).
  split; [exact H1 | split; [exact H2 | exact H3]].
Defined.

(** A run on the slots 1, 2, 3, 4: slot 0, which holds the sign +1, maps
    to 1. *)
Example applyFlipMapping_run :
  match applyFlipMapping (Ideal.backend 4) (NewOrdinalOp idealEval) sampleCt zeroStats with
  | (Ok r, _) => Qeq_bool (Ideal.val r 0) 1
  | (Err _, _) => false
  end = true.
Proof. vm_compute. reflexivity. Qed.

(* ===================================================================== *)
(** * C7: the aggregation flag of ComputeLBc *)
(* ===================================================================== *)



Section LBcLogic.

Context {Ct : Type}.
Variable B : Backend Ct.
Context {Config : Type}.
Variable Delta : Config -> Z.
Variable l : @LBcComputer Ct Config.
Variable F : Prop.
Hypothesis backend_or_excuse : BackendTotal B \/ F.







Variable f0Column : string.
Variable pbmvStore : @PBMVStore Ct.
Variable otherColumns : list string.
Variable bbmvStores : string -> option (@BBMVStore Ct).
Variable validityBlocks : list Ct.


End LBcLogic.



(** Runs of both drafts on four slots: two blocks at Δ = 10 need no
    aggregation (8 rows against 4096), three blocks at Δ = 1 do (12 rows
    against 8). *)
Example ComputeLBc_run_offset_draft :
  match ComputeLBc (Ideal.backend 4) LBc.Delta sampleLBc "gender" samplePBMV ["region"]
                   sampleBBMV [sampleCt; sampleCt] zeroStats with
  | (Ok res, _) => negb (RequiresAggregation res) && (NumBlocks res =? 2)
  | (Err _, _) => false
  end = true.
Proof. vm_compute. reflexivity. Qed.

Example ComputeLBc_run_binop :
  match ComputeLBc (Ideal.backend 4) LBcBinop.Delta sampleLBcBinop "gender"
                   (Ideal.constPBMV 3 sampleCt) ["region"] sampleBBMV
                   [sampleCt; sampleCt; sampleCt] zeroStats with
  | (Ok res, _) => RequiresAggregation res && (NumBlocks res =? 3)
  | (Err _, _) => false
  end = true.
Proof. vm_compute. reflexivity. Qed.

(* ===================================================================== *)
(** * C9: ciphertext serialization *)
(* ===================================================================== *)

Lemma byte_to_Z_of_Z (v : Z) : Storage.byte_to_Z (Storage.byte_of_Z v) = v mod 2 ^ 8.
Proof.
  unfold Storage.byte_to_Z, Storage.byte_of_Z. change 256 with (2 ^ 8).
  pose proof (Z.mod_pos_bound v (2 ^ 8) ltac:(lia)) as Hb.
  destruct (Byte.of_N (Z.to_N (v mod 2 ^ 8))) as [b |] eqn:E.
  - apply Byte.to_of_N in E. rewrite E. apply Z2N.id. lia.
  - apply Byte.of_N_None_iff in E. exfalso.
    apply N2Z.inj_lt in E. rewrite Z2N.id in E by lia.
    change (Z.of_N 255) with 255 in E. lia.
Qed.

(** The bits of the byte taken at bit [k] of [v], put back at bit [k]. *)
Lemma testbit_byte_field (v k i : Z) :
  0 <= k -> 0 <= i ->
  Z.testbit (Z.shiftl (Z.shiftr v k mod 2 ^ 8) k) i
  = (k <=? i) && (i <? k + 8) && Z.testbit v i.
Proof.
  intros Hk Hi. rewrite Z.shiftl_spec by lia.
  destruct (Z.leb_spec k i) as [Hle | Hlt].
  - rewrite Z.testbit_mod_pow2, Z.shiftr_spec by lia.
    replace (i - k + k) with i by lia.
    destruct (Z.ltb_spec (i - k) 8), (Z.ltb_spec i (k + 8)); try lia; reflexivity.
  - rewrite Z.testbit_neg_r by lia. reflexivity.
Qed.

Lemma Uint64_PutUint64 (v : Z) :
  0 <= v < 2 ^ 64 -> Storage.Uint64 (Storage.PutUint64 v) = v.
Proof.
  intros Hv. unfold Storage.Uint64, Storage.PutUint64.
  rewrite !byte_to_Z_of_Z.
  rewrite <- (Z.shiftl_0_r (v mod 2 ^ 8)).
  rewrite <- (Z.shiftr_0_r v) at 1.
  apply Z.bits_inj'. intros i Hi.
  rewrite !Z.lor_spec, !testbit_byte_field by lia.
  assert (Hhigh : 64 <= i -> Z.testbit v i = false).
  { intros H. rewrite <- (Z.mod_small v (2 ^ 64)) by lia.
    apply Z.mod_pow2_bits_high. lia. }
  destruct (Z.testbit v i); [| rewrite !andb_false_r; reflexivity].
  assert (Hi64 : i < 64).
  { destruct (Z_lt_le_dec i 64) as [H | H]; [exact H |].
    specialize (Hhigh H). discriminate. }
  rewrite !andb_true_r.
  repeat match goal with
         | |- context [?a <=? ?b] => destruct (Z.leb_spec a b); try lia
         | |- context [?a <? ?b] => destruct (Z.ltb_spec a b); try lia
         end; reflexivity.
Qed.

Lemma firstn_skipn_app {A : Type} (l r : list A) :
  firstn (List.length l) (l ++ r) = l /\ skipn (List.length l) (l ++ r) = r.
Proof.
  induction l as [| x l [IH1 IH2]]; cbn; [split; reflexivity |].
  rewrite IH1, IH2. split; reflexivity.
Qed.

Lemma ReadFull_app (data rest : list Storage.byte) :
  Storage.ReadFull (Storage.len data) (data ++ rest)%list = (Ok data, rest).
Proof.
  unfold Storage.ReadFull, Storage.len.
  destruct data as [| b data].
  - reflexivity.
  - destruct (Z.leb_spec (Z.of_nat (List.length (b :: data))) 0) as [H | _];
      [cbn [List.length] in H; lia |].
    rewrite length_app.
    destruct (Z.eqb_spec (Z.of_nat (List.length (b :: data) + List.length rest)) 0)
      as [H | _]; [cbn [List.length] in H; lia |].
    destruct (Z.ltb_spec (Z.of_nat (List.length (b :: data) + List.length rest))
                         (Z.of_nat (List.length (b :: data)))) as [H | _]; [lia |].
    rewrite Nat2Z.id.
    destruct (firstn_skipn_app (b :: data) rest) as [-> ->]. reflexivity.
Qed.

(** C9: when Lattigo's codec decodes what it encodes, [WriteCiphertext]
    appends to the stream the 8 bytes of the little-endian u64 length of
    the marshaled ciphertext and then exactly those marshaled bytes, and
    [ReadCiphertext] on these bytes returns the ciphertext written and
    leaves what follows them unread. *)
Theorem ciphertext_serialization_round_trip {Ct : Type} (C : Storage.Codec Ct)
        (ct : Ct) (data : list Storage.byte) :
  (forall c d, Storage.MarshalBinary C c = Ok d -> Storage.UnmarshalBinary C d = Ok c) ->
  Storage.MarshalBinary C ct = Ok data ->
  Storage.len data <= GoInt.max_int ->
  forall w rest : list Storage.byte,
    Storage.WriteCiphertext C ct w
    = (Ok tt, (w ++ Storage.PutUint64 (Storage.len data) ++ data)%list) /\
    List.length (Storage.PutUint64 (Storage.len data)) = 8%nat /\
    Storage.Uint64 (Storage.PutUint64 (Storage.len data)) = Storage.len data /\
    Storage.ReadCiphertext C (Storage.PutUint64 (Storage.len data) ++ data ++ rest)%list
    = (Ok ct, rest).
Proof.
  intros Hcodec Hm Hlen w rest.
  assert (Hrange : 0 <= Storage.len data < 2 ^ 64)
    by (unfold Storage.len, GoInt.max_int in *; lia).
  assert (Hu : Storage.Uint64 (Storage.PutUint64 (Storage.len data)) = Storage.len data)
    by (apply Uint64_PutUint64; exact Hrange).
  split; [| split; [reflexivity | split; [exact Hu |]]].
  - unfold Storage.WriteCiphertext, Storage.binaryWrite, Storage.Write, bind, onErr,
      liftR, ret.
    rewrite Hm. unfold GoInt.to_uint64. rewrite Z.mod_small by exact Hrange.
    rewrite <- app_assoc. reflexivity.
  - unfold Storage.ReadCiphertext, Storage.binaryRead, bind, onErr, ret.
    change 8 with (Storage.len (Storage.PutUint64 (Storage.len data))) at 1.
    rewrite ReadFull_app, Hu.
    destruct (Z.ltb_spec GoInt.max_int (Storage.len data)); [lia |].
    rewrite ReadFull_app. unfold liftR. rewrite (Hcodec ct data Hm). reflexivity.
Qed.

Lemma ciphertext_serialization_round_trip_witness :
  ((forall c d, Storage.MarshalBinary Ideal.blobCodec c = Ok d ->
                Storage.UnmarshalBinary Ideal.blobCodec d = Ok c) /\
   Storage.MarshalBinary Ideal.blobCodec sampleBlob = Ok sampleBlob /\
   Storage.len sampleBlob <= GoInt.max_int) /\
  forall w rest : list Storage.byte,
    Storage.WriteCiphertext Ideal.blobCodec sampleBlob w
    = (Ok tt, (w ++ Storage.PutUint64 (Storage.len sampleBlob) ++ sampleBlob)%list) /\
    List.length (Storage.PutUint64 (Storage.len sampleBlob)) = 8%nat /\
    Storage.Uint64 (Storage.PutUint64 (Storage.len sampleBlob))
    = Storage.len sampleBlob /\
    Storage.ReadCiphertext Ideal.blobCodec
      (Storage.PutUint64 (Storage.len sampleBlob) ++ sampleBlob ++ rest)%list
    = (Ok sampleBlob, rest).
Proof.
  assert (H1 : forall c d, Storage.MarshalBinary Ideal.blobCodec c = Ok d ->
                           Storage.UnmarshalBinary Ideal.blobCodec d = Ok c)
    by (intros c d E; cbn in *; injection E as <-; reflexivity).
  assert (H2 : Storage.MarshalBinary Ideal.blobCodec sampleBlob = Ok sampleBlob)
    by reflexivity.
  assert (H3 : Storage.len sampleBlob <= GoInt.max_int)
    by (unfold GoInt.max_int; cbn; lia).
  split; [split; [exact H1 | split; [exact H2 | exact H3]] |].
  apply (ciphertext_serialization_round_trip Ideal.blobCodec sampleBlob sampleBlob
           H1 H2 H3).
Defined.

(** A run: three bytes go out behind the prefix 03 00 00 00 00 00 00 00 and
    come back. *)
Example serialization_run :
  Storage.WriteCiphertext Ideal.blobCodec sampleBlob []
  = (Ok tt, [Byte.x03; Byte.x00; Byte.x00; Byte.x00; Byte.x00; Byte.x00; Byte.x00;
             Byte.x00; Byte.x01; Byte.xab; Byte.xff]) /\
  Storage.ReadCiphertext Ideal.blobCodec
    [Byte.x03; Byte.x00; Byte.x00; Byte.x00; Byte.x00; Byte.x00; Byte.x00;
     Byte.x00; Byte.x01; Byte.xab; Byte.xff] = (Ok sampleBlob, []).
Proof. split; reflexivity. Qed.

(* ===================================================================== *)
(** * More of the evaluator: steps that count, lists, sums of blocks *)
(* ===================================================================== *)

Lemma wp_tick (F : Prop) (tk : Stats -> Stats) (st : Stats)
      (P : unit -> Stats -> Prop) :
  P tt (tk st) -> wp F (tick tk) st P.
Proof. intros H. exact H. Qed.

Lemma wp_fail_excused {S A : Type} (F : Prop) (err : error) (st : S)
      (P : A -> S -> Prop) :
  F -> wp F (fail err) st P.
Proof. intros f. exact f. Qed.

Lemma wp_index_at {A : Type} (F : Prop) (xs : list A) (i : nat) (x : A) (st : Stats)
      (P : A -> Stats -> Prop) :
  nth_error xs i = Some x -> P x st -> wp F (index xs (Z.of_nat i)) st P.
Proof.
  intros Hx HP. unfold index. destruct (Z.ltb_spec (Z.of_nat i) 0); [lia |].
  rewrite Nat2Z.id, Hx. exact HP.
Qed.

Lemma wp_deref_some {A : Type} (F : Prop) (a : A) (st : Stats)
      (P : A -> Stats -> Prop) :
  P a st -> wp F (deref (Some a)) st P.
Proof. intros H. exact H. Qed.

Lemma sumList_app (l1 l2 : list Q) : (sumList (l1 ++ l2) == sumList l1 + sumList l2)%Q.
Proof.
  induction l1 as [| q l1 IH]; cbn [sumList app]; [ring |]. rewrite IH. ring.
Qed.

Lemma slotSum_snoc (fs : list (Z -> Q)) (g : Z -> Q) (i : Z) :
  (slotSum (fs ++ [g]) i == slotSum fs i + g i)%Q.
Proof.
  unfold slotSum. rewrite map_app, sumList_app. cbn [map sumList]. ring.
Qed.

Lemma sumQ_plus (f g : nat -> Q) (n : nat) :
  (sumQ (fun t => f t + g t) n == sumQ f n + sumQ g n)%Q.
Proof.
  induction n as [| n IH]; cbn [sumQ]; [ring |]. rewrite IH. ring.
Qed.

Lemma sumQ_zero (n : nat) : (sumQ (fun _ => 0) n == 0)%Q.
Proof. induction n as [| n IH]; cbn [sumQ]; [reflexivity |]. rewrite IH. ring. Qed.

(** Summing the slots of a sum of blocks is summing the blocks' sums. *)
Lemma sumSlotsOf_slotSum (fs : list (Z -> Q)) (n : Z) :
  (sumSlotsOf (slotSum fs) n == blocksTotal fs n)%Q.
Proof.
  unfold sumSlotsOf, blocksTotal, slotSum.
  induction fs as [| f fs IH]; cbn [map sumList].
  - apply sumQ_zero.
  - rewrite sumQ_plus, IH. reflexivity.
Qed.

Lemma sumSlotsOf_ext (f g : Z -> Q) (n : Z) :
  (forall i, (f i == g i)%Q) -> (sumSlotsOf f n == sumSlotsOf g n)%Q.
Proof. intros H. unfold sumSlotsOf. apply sumQ_ext. intros t _. apply H. Qed.

Lemma firstn_snoc_nth {A : Type} (l : list A) (j : nat) (x : A) :
  nth_error l j = Some x -> firstn (j + 1) l = (firstn j l ++ [x])%list.
Proof.
  revert j. induction l as [| a l IH]; intros [| j] H; cbn in *; try discriminate.
  - injection H as ->. reflexivity.
  - f_equal. apply IH. exact H.
Qed.

Lemma nth_error_combine {A B : Type} (l1 : list A) (l2 : list B) (j : nat)
      (a : A) (b : B) :
  nth_error l1 j = Some a -> nth_error l2 j = Some b ->
  nth_error (combine l1 l2) j = Some (a, b).
Proof.
  revert l2 j. induction l1 as [| x l1 IH]; intros [| y l2] [| j] H1 H2;
    cbn in *; try discriminate.
  - injection H1 as ->. injection H2 as ->. reflexivity.
  - apply IH; assumption.
Qed.

Lemma nth_error_same_length {A B : Type} (l1 : list A) (l2 : list B) (j : nat) (a : A) :
  List.length l1 = List.length l2 -> nth_error l1 j = Some a ->
  exists b, nth_error l2 j = Some b.
Proof.
  intros Hlen Ha.
  destruct (nth_error l2 j) as [b |] eqn:E; [exists b; reflexivity |].
  apply nth_error_None in E.
  assert (j < List.length l1)%nat by (apply nth_error_Some; rewrite Ha; discriminate).
  lia.
Qed.

(** The value of a polynomial by Horner's rule. *)
Lemma polyQ_cons (c : Q) (coeffs : list Q) (x : Q) :
  (polyQ (c :: coeffs) x == c + x * polyQ coeffs x)%Q.
Proof.
  unfold polyQ. cbn [List.length].
  assert (H : forall n,
             (sumQ (fun i => nth i (c :: coeffs) 0 * x ^ Z.of_nat i) (S n)
              == c + x * sumQ (fun i => nth i coeffs 0 * x ^ Z.of_nat i) n)%Q).
  { induction n as [| n IH].
    - cbn [sumQ nth Z.of_nat]. change (x ^ 0)%Q with 1%Q. ring.
    - change (sumQ ?f (S (S n))) with (sumQ f (S n) + f (S n))%Q.
      rewrite IH. cbn [sumQ nth].
      rewrite Nat2Z.inj_succ, <- Z.add_1_r.
      rewrite Qpower_plus' by lia. change (x ^ 1)%Q with x. ring. }
  apply H.
Qed.

Lemma polyQ_nil (x : Q) : (polyQ [] x == 0)%Q.
Proof. reflexivity. Qed.

Lemma polyQ_snoc (l : list Q) (c x : Q) :
  (polyQ (l ++ [c]) x == polyQ l x + c * x ^ Z.of_nat (List.length l))%Q.
Proof.
  induction l as [| a l IHl].
  - cbn [app List.length Z.of_nat]. rewrite polyQ_cons, !polyQ_nil.
    change (x ^ 0)%Q with 1%Q. ring.
  - cbn [app]. rewrite !polyQ_cons, IHl. cbn [List.length].
    rewrite Nat2Z.inj_succ, <- Z.add_1_r.
    rewrite Qpower_plus' by lia. change (x ^ 1)%Q with x. ring.
Qed.

Lemma skipn_nth_cons {A : Type} (l : list A) (i : nat) (x : A) :
  nth_error l i = Some x -> skipn i l = x :: skipn (S i) l.
Proof.
  revert i. induction l as [| a l IH]; intros [| i] H; cbn in *; try discriminate.
  - injection H as ->. reflexivity.
  - apply IH. exact H.
Qed.

Section OperatorLogic.

Context {Ct : Type}.
Variable B : Backend Ct.
Variable M : PlainModel B.
Variable e : Evaluator Ct.

Variable F : Prop.
Hypothesis backend_or_excuse : BackendTotal B \/ F.
Hypothesis bootstrap_or_excuse : BootstrapTotal e \/ F.
Hypothesis bootstrap_slots : BootstrapKeepsSlots B M e.
Hypothesis bootstrap_never_fails : BootstrapNeverFails e \/ F.

Local Open Scope Q_scope.

Ltac backend_does field :=
  destruct backend_or_excuse as [T | f];
  [left; apply (field _ _ T) | right; exact f].

(** A call made on the Lattigo evaluator directly. *)
Lemma wp_lift (r : result Ct) (format : string) (args : list fmt_arg)
      (st : Stats) (P : Ct -> Stats -> Prop) :
  ((exists c, r = Ok c) \/ F) ->
  (forall c, r = Ok c -> P c st) ->
  wp F (onErr (liftR r) format args) st P.
Proof.
  intros Hr HP. unfold wp, onErr, liftR.
  destruct r as [c | err]; [apply HP; reflexivity |].
  destruct Hr as [[c Hc] | f]; [discriminate | exact f].
Qed.

(** ** EvaluatePolynomial *)

Lemma wp_hornerStep (ct : Ct) (coeffs : list Q) (i : nat) (c_i : Q) (result : Ct)
      (st : Stats) (P : Ct -> Stats -> Prop) :
  nth_error coeffs i = Some c_i ->
  (forall r, (forall k, slot M r k == slot M result k * slot M ct k + c_i) ->
             P r (hornerCount st)) ->
  wp F (hornerStep B e ct coeffs (Z.of_nat i) result) st P.
Proof.
  intros Hc HP. unfold hornerStep.
  apply wp_bind, wp_lift; [backend_does @mul_total |]. intros tmp Etmp.
  apply wp_bind, wp_tick.
  apply wp_bind, wp_lift.
  { destruct backend_or_excuse as [T | f];
      [left; apply (rescale_total _ T) | right; exact f]. }
  intros tmp1 Etmp1.
  apply wp_bind, wp_tick.
  apply wp_bind, (wp_index_at F coeffs i c_i _ _ Hc).
  apply wp_bind, wp_lift; [backend_does @add_scalar_total |]. intros tmp2 Etmp2.
  apply wp_bind, wp_tick. apply wp_ret.
  apply HP. intros k.
  rewrite (add_scalar_slots B M _ _ _ Etmp2), (rescale_slots B M _ _ Etmp1),
    (mul_slots B M _ _ _ Etmp). reflexivity.
Qed.

Lemma wp_hornerLoop (ct : Ct) (coeffs : list Q) (todo : nat) :
  forall (result : Ct) (st : Stats) (P : Ct -> Stats -> Prop),
    (todo <= List.length coeffs)%nat ->
    (forall r,
        (forall k, slot M r k ==
                   slot M result k * slot M ct k ^ Z.of_nat todo
                   + polyQ (firstn todo coeffs) (slot M ct k)) ->
        P r (Nat.iter todo hornerCount st)) ->
    wp F (hornerLoop B e ct coeffs todo result) st P.
Proof.
  induction todo as [| i IH]; intros result st P Hlen HP; cbn [hornerLoop].
  - apply wp_ret. apply HP. intros k. cbn [firstn Z.of_nat].
    change (slot M ct k ^ 0) with 1. rewrite polyQ_nil. ring.
  - destruct (nth_error coeffs i) as [c_i |] eqn:Hc;
      [| apply nth_error_None in Hc; lia].
    apply wp_bind, (wp_hornerStep ct coeffs i c_i result st _ Hc).
    intros r Hr. apply IH; [lia |]. intros r' Hr'.
    rewrite <- Nat.iter_succ_r. apply HP. intros k. rewrite (Hr' k), (Hr k).
    replace (S i) with (i + 1)%nat by lia.
    rewrite (firstn_snoc_nth coeffs i c_i Hc).
    set (x := slot M ct k).
    rewrite polyQ_snoc, length_firstn, Nat.min_l by lia.
    rewrite Nat2Z.inj_add. change (Z.of_nat 1) with 1%Z.
    rewrite Qpower_plus' by lia. change (x ^ 1) with x. ring.
Qed.

Lemma wp_EvaluatePolynomial (ct : Ct) (coeffs : list Q) (st : Stats)
      (P : Ct -> Stats -> Prop) :
  coeffs <> [] -> (len coeffs <= GoInt.max_int)%Z ->
  (forall r, (forall k, slot M r k == polyQ coeffs (slot M ct k)) ->
             P r (Nat.iter (List.length coeffs - 1) hornerCount st)) ->
  wp F (EvaluatePolynomial B e ct coeffs) st P.
Proof.
  intros Hne Hlen HP. unfold EvaluatePolynomial, len in *.
  destruct coeffs as [| c0 rest]; [congruence |]. clear Hne.
  destruct (Z.eqb_spec (Z.of_nat (List.length (c0 :: rest))) 0) as [E0 | _];
    [cbn [List.length] in E0; lia |].
  destruct (Z.eqb_spec (Z.of_nat (List.length (c0 :: rest))) 1) as [E1 | N1].
  - (* a constant *)
    destruct rest as [| c1 rest]; [| cbn [List.length] in E1; lia].
    apply wp_bind, wp_lift; [backend_does @mul_scalar_total |]. intros r1 Er1.
    apply wp_bind, (wp_index_at F [c0] 0 c0 _ _ eq_refl).
    apply wp_lift; [backend_does @add_scalar_total |]. intros r2 Er2.
    apply HP. intros k.
    rewrite (add_scalar_slots B M _ _ _ Er2), (mul_scalar_slots B M _ _ _ Er1).
    rewrite polyQ_cons, polyQ_nil. ring.
  - (* Horner's rule from the leading coefficient down *)
    set (coeffs := c0 :: rest) in *.
    assert (Hn : (2 <= List.length coeffs)%nat).
    { unfold coeffs in *. cbn [List.length] in *. lia. }
    assert (Hsub1 : GoInt.sub (Z.of_nat (List.length coeffs)) 1
                    = Z.of_nat (List.length coeffs - 1)).
    { unfold GoInt.sub. rewrite wrap_small; [lia |].
      unfold GoInt.in_range, GoInt.min_int, GoInt.max_int in *. lia. }
    assert (Hsub2 : Z.to_nat (GoInt.sub (Z.of_nat (List.length coeffs)) 2 + 1)
                    = (List.length coeffs - 1)%nat).
    { unfold GoInt.sub. rewrite wrap_small; [lia |].
      unfold GoInt.in_range, GoInt.min_int, GoInt.max_int in *. lia. }
    rewrite Hsub1, Hsub2.
    destruct (nth_error coeffs (List.length coeffs - 1)) as [c |] eqn:Hc;
      [| apply nth_error_None in Hc; lia].
    apply wp_bind, wp_lift; [backend_does @mul_scalar_total |]. intros r1 Er1.
    apply wp_bind, (wp_index_at F coeffs _ c _ _ Hc).
    apply wp_bind, wp_lift; [backend_does @add_scalar_total |]. intros r2 Er2.
    apply wp_hornerLoop; [lia |]. intros r Hr.
    apply HP. intros k. rewrite (Hr k).
    rewrite (add_scalar_slots B M _ _ _ Er2), (mul_scalar_slots B M _ _ _ Er1).
    set (x := slot M ct k). set (m := (List.length coeffs - 1)%nat) in *.
    assert (Hsplit : coeffs = (firstn m coeffs ++ [c])%list).
    { rewrite <- (firstn_snoc_nth coeffs m c Hc).
      replace (m + 1)%nat with (List.length coeffs) by (unfold m; lia).
      symmetry. apply firstn_all. }
    assert (Hpoly : polyQ coeffs x == polyQ (firstn m coeffs) x + c * x ^ Z.of_nat m).
    { transitivity (polyQ (firstn m coeffs ++ [c]) x);
        [rewrite <- Hsplit; reflexivity |].
      rewrite polyQ_snoc, length_firstn, Nat.min_l by (unfold m; lia). reflexivity. }
    rewrite Hpoly. ring.
Qed.


Local Abbreviation wpAdd := (wp_Add B M e F backend_or_excuse).
Local Abbreviation wpAddInPlace := (wp_AddInPlace B M e F backend_or_excuse).
Local Abbreviation wpSub := (wp_Sub B M e F backend_or_excuse).
Local Abbreviation wpMul := (wp_Mul B M e F backend_or_excuse).
Local Abbreviation wpMulConst := (wp_MulConst B M e F backend_or_excuse).
Local Abbreviation wpAddConst := (wp_AddConst B M e F backend_or_excuse).
Local Abbreviation wpRescale := (wp_Rescale B M e F backend_or_excuse).
Local Abbreviation wpMaybeBootstrap :=
  (wp_MaybeBootstrap B M e F bootstrap_or_excuse bootstrap_slots).
Local Abbreviation wpSumSlots := (wp_SumSlots B M e F backend_or_excuse).
Local Abbreviation wpINVNTHSQRT :=
  (wp_INVNTHSQRT B M e F backend_or_excuse bootstrap_or_excuse bootstrap_slots).

(** ** Sums over blocks *)

Lemma blocksHeld_snoc (gs : list (Z -> Q)) (g : Z -> Q) (r c r' : Ct) :
  gs <> [] -> (forall i, slot M r i == slotSum gs i) ->
  (forall i, slot M c i == g i) ->
  (forall i, slot M r' i == slot M r i + slot M c i) ->
  blocksHeld M (gs ++ [g]) (Some r').
Proof.
  intros Hne Hr Hc Hr'. split.
  - destruct gs; [congruence | discriminate].
  - intros i. rewrite Hr', slotSum_snoc, Hr, Hc. reflexivity.
Qed.

Lemma blocksHeld_first (g : Z -> Q) (c : Ct) :
  (forall i, slot M c i == g i) -> blocksHeld M ([] ++ [g]) (Some c).
Proof.
  intros Hc. split; [discriminate |].
  intros i. unfold slotSum. cbn [app map sumList]. rewrite Hc. ring.
Qed.

Lemma wp_accumulate (i : Z) (acc : option Ct) (c : Ct) (gs : list (Z -> Q))
      (g : Z -> Q) (st : Stats) (P : option Ct -> Stats -> Prop) :
  blocksHeld M gs acc -> (forall k, slot M c k == g k) ->
  (forall acc' st', blocksHeld M (gs ++ [g]) acc' -> P acc' st') ->
  wp F (accumulate B (NewNumericOp e) i acc c) st P.
Proof.
  intros Hh Hc HP. unfold accumulate. cbn [eval NewNumericOp].
  destruct acc as [r |].
  - destruct Hh as [Hne Hr].
    apply wp_bind, wp_onErr, wpAddInPlace. intros r' st' Hr'.
    apply wp_ret, HP. apply (blocksHeld_snoc gs g r c r'); assumption.
  - cbn in Hh. subst gs. apply wp_ret, HP, blocksHeld_first, Hc.
Qed.

(** The end of every sum over blocks: the accumulator is dereferenced and
    its slots are summed. *)
Lemma wp_sum_held (gs : list (Z -> Q)) (acc : option Ct) (k : Z) (st : Stats)
      (P : Ct -> Stats -> Prop) :
  (0 <= k <= 62)%Z -> MaxSlots B = (2 ^ k)%Z -> gs <> [] ->
  blocksHeld M gs acc ->
  (forall r st', slot M r 0 == blocksTotal gs (MaxSlots B) -> P r st') ->
  wp F (bind (deref acc) (fun r => SumSlots B e r)) st P.
Proof.
  intros Hk HS Hne Hh HP. destruct acc as [r |]; [| cbn in Hh; congruence].
  destruct Hh as [_ Hr].
  apply wp_bind, wp_deref_some. apply (wpSumSlots r k); [exact Hk | exact HS |].
  intros r' st' Hr'. apply HP.
  rewrite Hr', <- sumSlotsOf_slotSum. apply sumSlotsOf_ext, Hr.
Qed.

Lemma wp_MaskedSum (xs vs : list Ct) (k : Z) (st : Stats) (P : Ct -> Stats -> Prop) :
  (0 <= k <= 62)%Z -> MaxSlots B = (2 ^ k)%Z ->
  List.length xs = List.length vs -> xs <> [] ->
  (forall r st',
      slot M r 0 == blocksTotal (map (slotProduct M) (combine xs vs)) (MaxSlots B) ->
      P r st') ->
  wp F (MaskedSum B (NewNumericOp e) xs vs) st P.
Proof.
  intros Hk HS Hlen Hne HP. unfold MaskedSum, len. cbn [eval NewNumericOp].
  rewrite Hlen, Z.eqb_refl. cbn [negb].
  destruct (Z.eqb_spec (Z.of_nat (List.length vs)) 0) as [E0 | _].
  { destruct xs; [congruence | cbn [List.length] in Hlen; lia]. }
  set (gs := map (slotProduct M) (combine xs vs)).
  assert (Hgs : List.length gs = List.length xs).
  { unfold gs. rewrite length_map, length_combine. lia. }
  apply wp_bind. unfold for_range.
  apply (wp_for_range_from F (fun j acc => blocksHeld M (firstn j gs) acc)
                           _ _ 0%Z 0%nat None st).
  - reflexivity.
  - intros j x a st0 Post Hx Ha HPost. cbn [Nat.add Z.add] in *.
    destruct (nth_error_same_length xs vs j x Hlen Hx) as [v Hv].
    apply wp_bind, (wp_index_at F vs j v _ _ Hv).
    apply wp_bind, wp_onErr, wpMul. intros m st1 Hm.
    apply wp_bind, wp_onErr, wpRescale. intros m' st2 Hm'.
    apply (wp_accumulate _ a m' (firstn j gs) (slotProduct M (x, v))).
    + exact Ha.
    + intros i. rewrite Hm', Hm. reflexivity.
    + intros acc' st' Hacc. apply HPost.
      rewrite (firstn_snoc_nth gs j (slotProduct M (x, v))); [exact Hacc |].
      unfold gs. rewrite nth_error_map, (nth_error_combine xs vs j x v Hx Hv).
      reflexivity.
  - intros acc st' Hacc. cbn [Nat.add] in Hacc.
    rewrite firstn_all2 in Hacc by lia.
    apply (wp_sum_held gs acc k); try assumption.
    intros E. apply Hne. destruct xs; [reflexivity | rewrite E in Hgs; discriminate].
Qed.

Lemma wp_Count (vs : list Ct) (k : Z) (st : Stats) (P : Ct -> Stats -> Prop) :
  (0 <= k <= 62)%Z -> MaxSlots B = (2 ^ k)%Z -> vs <> [] ->
  (forall r st', slot M r 0 == blocksTotal (map (slot M) vs) (MaxSlots B) -> P r st') ->
  wp F (Count B (NewNumericOp e) vs) st P.
Proof.
  intros Hk HS Hne HP. unfold Count, len. cbn [eval NewNumericOp].
  destruct (Z.eqb_spec (Z.of_nat (List.length vs)) 0) as [E0 | _].
  { destruct vs; [congruence | cbn [List.length] in E0; lia]. }
  set (gs := map (slot M) vs).
  assert (Hgs : List.length gs = List.length vs) by (unfold gs; apply length_map).
  apply wp_bind. unfold for_range.
  apply (wp_for_range_from F (fun j acc => blocksHeld M (firstn j gs) acc)
                           _ _ 0%Z 0%nat None st).
  - reflexivity.
  - intros j v a st0 Post Hv Ha HPost. cbn [Nat.add Z.add] in *.
    assert (Hnth : nth_error gs j = Some (slot M v)).
    { unfold gs. rewrite nth_error_map, Hv. reflexivity. }
    destruct a as [r |].
    + destruct Ha as [Hne' Hr].
      apply wp_bind, wp_onErr, wpAddInPlace. intros r' st' Hr'.
      apply wp_ret, HPost. rewrite (firstn_snoc_nth gs j _ Hnth).
      apply (blocksHeld_snoc _ _ r v r'); try assumption. intros i. reflexivity.
    + cbn in Ha. apply wp_ret, HPost. rewrite (firstn_snoc_nth gs j _ Hnth), Ha.
      apply blocksHeld_first. intros i. reflexivity.
  - intros acc st' Hacc. cbn [Nat.add] in Hacc.
    rewrite firstn_all2 in Hacc by lia.
    apply (wp_sum_held gs acc k); try assumption.
    intros E. apply Hne. destruct vs; [reflexivity | rewrite E in Hgs; discriminate].
Qed.

Lemma wp_MaskedSumOfSquares (xs vs : list Ct) (k : Z) (st : Stats)
      (P : Ct -> Stats -> Prop) :
  (0 <= k <= 62)%Z -> MaxSlots B = (2 ^ k)%Z ->
  List.length xs = List.length vs -> xs <> [] ->
  (forall r st',
      slot M r 0 == blocksTotal (map (slotSquareMasked M) (combine xs vs)) (MaxSlots B) ->
      P r st') ->
  wp F (MaskedSumOfSquares B (NewNumericOp e) xs vs) st P.
Proof.
  intros Hk HS Hlen Hne HP. unfold MaskedSumOfSquares, len. cbn [eval NewNumericOp].
  rewrite Hlen, Z.eqb_refl. cbn [negb].
  destruct (Z.eqb_spec (Z.of_nat (List.length vs)) 0) as [E0 | _].
  { destruct xs; [congruence | cbn [List.length] in Hlen; lia]. }
  set (gs := map (slotSquareMasked M) (combine xs vs)).
  assert (Hgs : List.length gs = List.length xs).
  { unfold gs. rewrite length_map, length_combine. lia. }
  apply wp_bind. unfold for_range.
  apply (wp_for_range_from F (fun j acc => blocksHeld M (firstn j gs) acc)
                           _ _ 0%Z 0%nat None st).
  - reflexivity.
  - intros j x a st0 Post Hx Ha HPost. cbn [Nat.add Z.add] in *.
    destruct (nth_error_same_length xs vs j x Hlen Hx) as [v Hv].
    apply wp_bind, wp_onErr, wpMul. intros sq st1 Hsq.
    apply wp_bind, wp_onErr, wpRescale. intros sq' st2 Hsq'.
    apply wp_bind, (wp_index_at F vs j v _ _ Hv).
    apply wp_bind, wp_onErr, wpMul. intros m st3 Hm.
    apply wp_bind, wp_onErr, wpRescale. intros m' st4 Hm'.
    apply (wp_accumulate _ a m' (firstn j gs) (slotSquareMasked M (x, v))).
    + exact Ha.
    + intros i. rewrite Hm', Hm, Hsq', Hsq. reflexivity.
    + intros acc' st' Hacc. apply HPost.
      rewrite (firstn_snoc_nth gs j (slotSquareMasked M (x, v))); [exact Hacc |].
      unfold gs. rewrite nth_error_map, (nth_error_combine xs vs j x v Hx Hv).
      reflexivity.
  - intros acc st' Hacc. cbn [Nat.add] in Hacc.
    rewrite firstn_all2 in Hacc by lia.
    apply (wp_sum_held gs acc k); try assumption.
    intros E. apply Hne. destruct xs; [reflexivity | rewrite E in Hgs; discriminate].
Qed.

Lemma wp_MaskedCrossSum (xs ys vs : list Ct) (k : Z) (st : Stats)
      (P : Ct -> Stats -> Prop) :
  (0 <= k <= 62)%Z -> MaxSlots B = (2 ^ k)%Z ->
  List.length xs = List.length ys -> List.length xs = List.length vs -> xs <> [] ->
  (forall r st',
      slot M r 0 == blocksTotal (map (slotProduct3 M) (combine (combine xs ys) vs))
                                (MaxSlots B) ->
      P r st') ->
  wp F (MaskedCrossSum B (NewNumericOp e) xs ys vs) st P.
Proof.
  intros Hk HS Hxy Hxv Hne HP. unfold MaskedCrossSum, len. cbn [eval NewNumericOp].
  rewrite <- Hxy, <- Hxv, Z.eqb_refl. cbn [negb orb].
  destruct (Z.eqb_spec (Z.of_nat (List.length xs)) 0) as [E0 | _].
  { destruct xs; [congruence | cbn [List.length] in E0; lia]. }
  set (gs := map (slotProduct3 M) (combine (combine xs ys) vs)).
  assert (Hgs : List.length gs = List.length xs).
  { unfold gs. rewrite length_map, !length_combine. lia. }
  apply wp_bind. unfold for_range.
  apply (wp_for_range_from F (fun j acc => blocksHeld M (firstn j gs) acc)
                           _ _ 0%Z 0%nat None st).
  - reflexivity.
  - intros j x a st0 Post Hx Ha HPost. cbn [Nat.add Z.add] in *.
    destruct (nth_error_same_length xs ys j x Hxy Hx) as [y Hy].
    destruct (nth_error_same_length xs vs j x Hxv Hx) as [v Hv].
    apply wp_bind, (wp_index_at F ys j y _ _ Hy).
    apply wp_bind, wp_onErr, wpMul. intros xy st1 Hxy1.
    apply wp_bind, wp_onErr, wpRescale. intros xy' st2 Hxy2.
    apply wp_bind, (wp_index_at F vs j v _ _ Hv).
    apply wp_bind, wp_onErr, wpMul. intros m st3 Hm.
    apply wp_bind, wp_onErr, wpRescale. intros m' st4 Hm'.
    apply (wp_accumulate _ a m' (firstn j gs) (slotProduct3 M (x, y, v))).
    + exact Ha.
    + intros i. rewrite Hm', Hm, Hxy2, Hxy1. reflexivity.
    + intros acc' st' Hacc. apply HPost.
      rewrite (firstn_snoc_nth gs j (slotProduct3 M (x, y, v))); [exact Hacc |].
      unfold gs.
      rewrite nth_error_map,
        (nth_error_combine (combine xs ys) vs j (x, y) v
                           (nth_error_combine xs ys j x y Hx Hy) Hv).
      reflexivity.
  - intros acc st' Hacc. cbn [Nat.add] in Hacc.
    rewrite firstn_all2 in Hacc by lia.
    apply (wp_sum_held gs acc k); try assumption.
    intros E. apply Hne. destruct xs; [reflexivity | rewrite E in Hgs; discriminate].
Qed.

(** ** Mean and variance *)

Lemma wp_Mean (xs vs : list Ct) (k : Z) (st : Stats) (P : Ct -> Stats -> Prop) :
  (0 <= k <= 62)%Z -> MaxSlots B = (2 ^ k)%Z ->
  List.length xs = List.length vs -> xs <> [] ->
  (forall r st',
      slot M r 0 ==
      blocksTotal (map (slotProduct M) (combine xs vs)) (MaxSlots B)
      * newtonInverse (blocksTotal (map (slot M) vs) (MaxSlots B)) ->
      P r st') ->
  wp F (Mean B (NewNumericOp e) xs vs) st P.
Proof.
  intros Hk HS Hlen Hne HP. unfold Mean.
  assert (Hvs : vs <> []).
  { intros E. apply Hne. destruct xs; [reflexivity | rewrite E in Hlen; discriminate]. }
  apply wp_bind, wp_onErr, (wp_MaskedSum xs vs k); try assumption.
  intros sumXV st1 Hsum.
  apply wp_bind, wp_onErr, (wp_Count vs k); try assumption.
  intros count st2 Hcount.
  apply wp_bind, wp_onErr, wpINVNTHSQRT.
  { cbn. unfold GoInt.max_int. lia. }
  { vm_compute. reflexivity. }
  intros inv st3 Hinv. cbn [eval NewNumericOp].
  apply wp_bind, wp_onErr, wpMul. intros mean st4 Hmean.
  apply wpRescale. intros r st5 Hr. apply HP.
  rewrite Hr, Hmean, Hsum, (Hinv 0%Z). unfold newtonInverse.
  rewrite (newtonMap_iter_compat 1 _ _ _ _ Hcount). reflexivity.
Qed.

Lemma wp_Variance (xs vs : list Ct) (k : Z) (st : Stats) (P : Ct -> Stats -> Prop) :
  (0 <= k <= 62)%Z -> MaxSlots B = (2 ^ k)%Z ->
  List.length xs = List.length vs -> xs <> [] ->
  (forall r st',
      slot M r 0 ==
      blocksTotal (map (slotSquareMasked M) (combine xs vs)) (MaxSlots B)
      * newtonInverse (blocksTotal (map (slot M) vs) (MaxSlots B))
      - (blocksTotal (map (slotProduct M) (combine xs vs)) (MaxSlots B)
         * newtonInverse (blocksTotal (map (slot M) vs) (MaxSlots B))) ^ 2 ->
      P r st') ->
  wp F (Variance B (NewNumericOp e) xs vs) st P.
Proof.
  intros Hk HS Hlen Hne HP. unfold Variance.
  assert (Hvs : vs <> []).
  { intros E. apply Hne. destruct xs; [reflexivity | rewrite E in Hlen; discriminate]. }
  apply wp_bind, wp_onErr, (wp_Mean xs vs k); try assumption.
  intros mean st1 Hmean.
  apply wp_bind, wp_onErr, (wp_MaskedSumOfSquares xs vs k); try assumption.
  intros sumX2V st2 Hsum2.
  apply wp_bind, wp_onErr, (wp_Count vs k); try assumption.
  intros count st3 Hcount.
  apply wp_bind, wp_onErr, wpINVNTHSQRT.
  { cbn. unfold GoInt.max_int. lia. }
  { vm_compute. reflexivity. }
  intros inv st4 Hinv. cbn [eval NewNumericOp].
  apply wp_bind, wp_onErr, wpMul. intros eX2 st5 HeX2.
  apply wp_bind, wp_onErr, wpRescale. intros eX2' st6 HeX2'.
  apply wp_bind, wp_onErr, wpMul. intros meanSq st7 HmeanSq.
  apply wp_bind, wp_onErr, wpRescale. intros meanSq' st8 HmeanSq'.
  apply wp_onErr, wpSub. intros r st9 Hr. apply HP.
  rewrite Hr, HeX2', HeX2, HmeanSq', HmeanSq, Hsum2, Hmean, (Hinv 0%Z).
  unfold newtonInverse.
  rewrite (newtonMap_iter_compat 1 _ _ _ _ Hcount).
  set (a := blocksTotal (map (slotProduct M) (combine xs vs)) (MaxSlots B)).
  set (b := Nat.iter _ _ _).
  change ((a * b) ^ 2) with ((a * b) * (a * b)). ring.
Qed.

(** ** The approximations *)

(** [MaybeBootstrap] needs no bootstrapper: where there is none it returns
    its argument. *)
Lemma wp_MaybeBootstrap_any (a : Ct) (st : Stats) (P : Ct -> Stats -> Prop) :
  (forall c st', (forall i, slot M c i == slot M a i) -> P c st') ->
  wp F (MaybeBootstrap B e a) st P.
Proof.
  intros H. unfold MaybeBootstrap, CanBootstrap, Bootstrap.
  destruct (bootstrapper e) as [btp |] eqn:Eb.
  - destruct (NeedsBootstrap B e a); cbn [andb].
    + apply wp_backend_op.
      * destruct bootstrap_never_fails as [T | f]; [left | right; exact f].
        apply (T btp Eb).
      * intros c E. apply H. intros i. apply (bootstrap_slots btp a c Eb E).
    + apply wp_ret, H. intros i. reflexivity.
  - rewrite andb_false_r. apply wp_ret, H. intros i. reflexivity.
Qed.

Lemma wp_ApplyFilterPolynomial (s : Ct) (st : Stats) (P : Ct -> Stats -> Prop) :
  (forall r st', (forall i, slot M r i == filterPoly (slot M s i)) -> P r st') ->
  wp F (Approx.ApplyFilterPolynomial B (Approx.NewApproxOp e) s) st P.
Proof.
  intros HP. unfold Approx.ApplyFilterPolynomial. cbn [Approx.eval Approx.NewApproxOp].
  apply wp_bind, wp_onErr, wpMul. intros s2 st1 Hs2.
  apply wp_bind, wp_onErr, wpRescale. intros s2' st2 Hs2'.
  apply wp_bind, wp_onErr, wpMul. intros s3 st3 Hs3.
  apply wp_bind, wp_onErr, wpRescale. intros s3' st4 Hs3'.
  apply wp_bind, wp_onErr, wpMulConst. intros neg3s st5 Hneg.
  apply wp_bind, wp_onErr, wpAddConst. intros four st6 Hfour.
  apply wp_bind, wp_onErr, wpMul. intros res st7 Hres.
  apply wpRescale. intros r st8 Hr. apply HP. intros i.
  rewrite Hr, Hres, Hfour, Hneg, Hs3', Hs3, Hs2', Hs2. unfold filterPoly.
  ring.
Qed.

Lemma wp_signIteration (i : Z) (s : Ct) (st : Stats) (P : Ct -> Stats -> Prop) :
  (forall r st', (forall j, slot M r j == signStep (slot M s j)) -> P r st') ->
  wp F (Approx.signIteration B (Approx.NewApproxOp e) i s) st P.
Proof.
  intros HP. unfold Approx.signIteration. cbn [Approx.eval Approx.NewApproxOp].
  apply wp_bind, wp_onErr, wpMul. intros s2 st1 Hs2.
  apply wp_bind, wp_onErr, wpRescale. intros s2' st2 Hs2'.
  apply wp_bind, wp_onErr, wpMulConst. intros neg st3 Hneg.
  apply wp_bind, wp_onErr, wpAddConst. intros three st4 Hthree.
  apply wp_bind, wp_onErr, wpMul. intros r0 st5 Hr0.
  apply wp_bind, wp_onErr, wpRescale. intros r1 st6 Hr1.
  apply wp_bind, wp_onErr, wpMulConst. intros r2 st7 Hr2.
  apply wp_onErr, wp_MaybeBootstrap_any. intros r st8 Hr. apply HP. intros j.
  rewrite Hr, Hr2, Hr1, Hr0, Hthree, Hneg, Hs2', Hs2. unfold signStep. field.
Qed.

Lemma signStep_compat (s s' : Q) : s == s' -> signStep s == signStep s'.
Proof. intros H. unfold signStep. rewrite H. reflexivity. Qed.

Lemma signStep_iter_compat (s s' : Q) (k : nat) :
  s == s' -> Nat.iter k signStep s == Nat.iter k signStep s'.
Proof.
  intros H. induction k as [| k IH]; [exact H |].
  rewrite !Nat.iter_succ. apply signStep_compat, IH.
Qed.

Lemma wp_APPROXSIGN (x : Ct) (config : Approx.ApproxSignConfig) (st : Stats)
      (P : Ct -> Stats -> Prop) :
  (forall r st',
      (forall i, slot M r i ==
                 Nat.iter (Z.to_nat (Approx.Iterations config)) signStep (slot M x i)) ->
      P r st') ->
  wp F (Approx.APPROXSIGN B (Approx.NewApproxOp e) x config) st P.
Proof.
  intros HP. unfold Approx.APPROXSIGN.
  apply (wp_for_upto F (fun j s => forall i, slot M s i == Nat.iter j signStep (slot M x i))).
  - intros i. reflexivity.
  - intros j s st0 Post Hj Hs HPost.
    apply wp_signIteration. intros r st' Hr. apply HPost. intros i.
    rewrite Nat.add_1_r, Nat.iter_succ, Hr. apply signStep_compat, Hs.
  - exact HP.
Qed.

Lemma wp_COMP (x1 x2 : Ct) (config : Approx.ApproxSignConfig) (st : Stats)
      (P : Ct -> Stats -> Prop) :
  (forall r st',
      (forall i, slot M r i ==
                 (Nat.iter (Z.to_nat (Approx.Iterations config)) signStep
                           (slot M x1 i - slot M x2 i) + 1) / 2) ->
      P r st') ->
  wp F (Approx.COMP B (Approx.NewApproxOp e) x1 x2 config) st P.
Proof.
  intros HP. unfold Approx.COMP. cbn [Approx.eval Approx.NewApproxOp].
  apply wp_bind, wp_onErr, wpSub. intros diff st1 Hdiff.
  apply wp_bind, wp_onErr, wp_APPROXSIGN. intros sign st2 Hsign.
  apply wp_bind, wp_onErr, wpAddConst. intros sh st3 Hsh.
  apply wp_onErr, wpMulConst. intros r st4 Hr. apply HP. intros i.
  rewrite Hr, Hsh, Hsign, (signStep_iter_compat _ _ _ (Hdiff i)). field.
Qed.

(** ** Masks *)

Lemma maskSlots_ext (bmvs : list (Z -> Q)) :
  forall (v v' : Z -> Q) (i : Z),
    (forall j, v j == v' j) -> maskSlots v bmvs i == maskSlots v' bmvs i.
Proof.
  induction bmvs as [| f rest IH]; intros v v' i H; cbn [maskSlots]; [apply H |].
  apply IH. intros j. rewrite (H j). reflexivity.
Qed.

Lemma maskSlots_snoc (bmvs : list (Z -> Q)) (g : Z -> Q) :
  forall (v : Z -> Q) (i : Z),
    maskSlots v (bmvs ++ [g]) i == maskSlots v bmvs i * g i.
Proof.
  induction bmvs as [| f rest IH]; intros v i; cbn [maskSlots app]; [reflexivity |].
  apply IH.
Qed.

Lemma wp_blockMask (conditions : list Categorical.Condition)
      (bmvStore : Categorical.BMVStore Ct)
      (content : Categorical.Condition -> Z -> Z -> Q) (b : Z) (v : Ct)
      (st : Stats) (P : Ct -> Stats -> Prop) :
  bmvContent M bmvStore content conditions ->
  ((forall cond, In cond conditions ->
      exists c, Categorical.GetBMV bmvStore (Categorical.ColumnName cond)
                                   (Categorical.Value cond) b = Ok c) \/ F) ->
  (forall m st',
      (forall i, slot M m i ==
                 maskSlots (slot M v) (map (fun cond => content cond b) conditions) i) ->
      P m st') ->
  wp F (Categorical.blockMask B (Categorical.NewCategoricalOp e) conditions bmvStore b v)
     st P.
Proof.
  intros Hcontent Hserved HP. unfold Categorical.blockMask, for_range.
  cbn [Categorical.eval Categorical.NewCategoricalOp].
  set (gs := map (fun cond => content cond b) conditions).
  apply (wp_for_range_from F
           (fun j m => forall i, slot M m i == maskSlots (slot M v) (firstn j gs) i)
           _ _ 0%Z 0%nat (CopyNew v) st).
  - intros i. reflexivity.
  - intros j cond m st0 Post Hcond Hm HPost. cbn [Nat.add Z.add] in *.
    pose proof (nth_error_In _ _ Hcond) as Hin.
    apply wp_bind, wp_lift.
    { destruct Hserved as [Hs | f]; [left; apply Hs, Hin | right; exact f]. }
    intros bmv Ebmv.
    apply wp_bind, wp_onErr, wpMul. intros m1 st1 Hm1.
    apply wp_onErr, wpRescale. intros m2 st2 Hm2.
    apply HPost. intros i.
    rewrite (firstn_snoc_nth gs j (content cond b)).
    + rewrite maskSlots_snoc, Hm2, Hm1, Hm, (Hcontent cond b bmv Hin Ebmv i).
      reflexivity.
    + unfold gs. rewrite nth_error_map, Hcond. reflexivity.
  - intros m st' Hm. apply HP. intros i. rewrite (Hm i).
    cbn [Nat.add]. rewrite firstn_all2; [reflexivity |].
    unfold gs. rewrite length_map. lia.
Qed.

Lemma nth_error_combine_seq {A : Type} (l : list A) (j : nat) (x : A) :
  nth_error l j = Some x ->
  nth_error (combine (seq 0 (List.length l)) l) j = Some (j, x).
Proof.
  intros Hx. apply nth_error_combine; [| exact Hx].
  assert (j < List.length l)%nat by (apply nth_error_Some; rewrite Hx; discriminate).
  rewrite nth_error_nth' with (d := 0%nat) by (rewrite length_seq; lia).
  rewrite seq_nth by lia. reflexivity.
Qed.

Lemma wp_BuildMask (validityBlocks : list Ct) (conditions : list Categorical.Condition)
      (bmvStore : Categorical.BMVStore Ct)
      (content : Categorical.Condition -> Z -> Z -> Q)
      (st : Stats) (P : list Ct -> Stats -> Prop) :
  bmvContent M bmvStore content conditions ->
  (bmvServed bmvStore conditions (len validityBlocks) \/ F) ->
  (forall masks st',
      slotsAre M masks (maskVectors M content conditions validityBlocks) -> P masks st') ->
  wp F (Categorical.BuildMask B (Categorical.NewCategoricalOp e) validityBlocks
                              conditions bmvStore) st P.
Proof.
  intros Hcontent Hserved HP. unfold Categorical.BuildMask, for_range.
  set (gs := maskVectors M content conditions validityBlocks).
  assert (Hgs : List.length gs = List.length validityBlocks).
  { unfold gs, maskVectors. rewrite length_map, length_combine, length_seq. lia. }
  apply (wp_for_range_from F (fun j masks => slotsAre M masks (firstn j gs))
                           _ _ 0%Z 0%nat [] st).
  - constructor.
  - intros j v masks st0 Post Hv Hmasks HPost. cbn [Nat.add Z.add] in *.
    assert (Hj : (j < List.length validityBlocks)%nat)
      by (apply nth_error_Some; rewrite Hv; discriminate).
    apply wp_bind, (wp_blockMask conditions bmvStore content (Z.of_nat j) v).
    + exact Hcontent.
    + destruct Hserved as [Hs | f]; [left | right; exact f].
      intros cond Hin. apply Hs; [exact Hin | unfold len; lia].
    + intros m st1 Hm. apply wp_ret, HPost.
      rewrite (firstn_snoc_nth gs j
                 (maskSlots (slot M v)
                            (map (fun cond => content cond (Z.of_nat j)) conditions))).
      * apply Forall2_app; [exact Hmasks |]. constructor; [exact Hm | constructor].
      * unfold gs, maskVectors.
        rewrite nth_error_map, (nth_error_combine_seq validityBlocks j v Hv).
        reflexivity.
  - intros masks st' Hmasks. apply HP. cbn [Nat.add] in Hmasks.
    rewrite firstn_all2 in Hmasks by lia. exact Hmasks.
Qed.

Lemma blocksTotal_slotsAre (cts : list Ct) (gs : list (Z -> Q)) (n : Z) :
  slotsAre M cts gs -> blocksTotal (map (slot M) cts) n == blocksTotal gs n.
Proof.
  intros H. unfold blocksTotal.
  induction H as [| c g cts gs Hc _ IH]; cbn [map sumList]; [reflexivity |].
  rewrite IH, (sumSlotsOf_ext _ _ n Hc). reflexivity.
Qed.

Lemma wp_Bc (validityBlocks : list Ct) (conditions : list Categorical.Condition)
      (bmvStore : Categorical.BMVStore Ct)
      (content : Categorical.Condition -> Z -> Z -> Q) (k : Z)
      (st : Stats) (P : Ct -> Stats -> Prop) :
  (0 <= k <= 62)%Z -> MaxSlots B = (2 ^ k)%Z -> validityBlocks <> [] ->
  bmvContent M bmvStore content conditions ->
  (bmvServed bmvStore conditions (len validityBlocks) \/ F) ->
  (forall r st',
      slot M r 0 ==
      blocksTotal (maskVectors M content conditions validityBlocks) (MaxSlots B) ->
      P r st') ->
  wp F (Categorical.Bc B (Categorical.NewCategoricalOp e) validityBlocks conditions
                       bmvStore) st P.
Proof.
  intros Hk HS Hne Hcontent Hserved HP. unfold Categorical.Bc.
  apply wp_bind, wp_onErr, (wp_BuildMask _ _ _ content); try assumption.
  intros masks st1 Hmasks. cbn [Categorical.numericOp Categorical.NewCategoricalOp].
  apply (wp_Count masks k); try assumption.
  - intros E. unfold slotsAre in Hmasks. apply Forall2_length in Hmasks.
    rewrite E in Hmasks. unfold maskVectors in Hmasks.
    rewrite length_map, length_combine, length_seq in Hmasks.
    destruct validityBlocks; [congruence | cbn [List.length] in Hmasks; lia].
  - intros r st' Hr. apply HP. rewrite Hr. apply blocksTotal_slotsAre, Hmasks.
Qed.

End OperatorLogic.

(* ===================================================================== *)
(** * The evaluator's own algorithms *)
(* ===================================================================== *)

(** From a [wp] proved for every excuse: what a returned value satisfies,
    and that the computation returns when the excuse [T] holds. *)
Lemma wp_settles {A : Type} (m : HE A) (T : Prop) (P : Stats -> A -> Stats -> Prop) :
  (forall F : Prop, T \/ F -> forall st, wp F m st (P st)) ->
  (forall st a st', m st = (Ok a, st') -> P st a st') /\
  (T -> forall st, exists a st', m st = (Ok a, st')).
Proof.
  intros H. split.
  - intros st a st' E.
    exact (wp_returned True m st (P st) a st' (H True (or_intror I) st) E).
  - intros t st.
    destruct (wp_total m st (P st) (H False (or_introl t) st)) as (a & st' & E & _).
    exists a, st'. exact E.
Qed.

Lemma both_or {T1 T2 F : Prop} : (T1 /\ T2) \/ F -> (T1 \/ F) /\ (T2 \/ F).
Proof. intros [[t1 t2] | f]; split; auto. Qed.

(** Power: [Power] refuses an exponent below 1 with the error
    "power must be positive" and counts nothing; for an exponent n >= 1 a
    result it returns holds x^n in every slot, x being the slot of the
    input; and it returns one whenever no multiplication and no rescale of
    the backend fails. *)
Theorem Power_raises_every_slot {Ct : Type} (B : Backend Ct) (M : PlainModel B)
        (e : Evaluator Ct) (ct : Ct) (n : Z) :
  n <= GoInt.max_int ->
  (n < 1 ->
   forall st, Power B e ct n st = (Err (Errorf "power must be positive" []), st)) /\
  (1 <= n ->
   (forall st r st', Power B e ct n st = (Ok r, st') ->
                     forall i, (slot M r i == slot M ct i ^ n)%Q) /\
   (BackendTotal B -> forall st, exists r st', Power B e ct n st = (Ok r, st'))).
Proof.
  intros Hmax. split.
  - intros Hn st. unfold Power. destruct (Z.ltb_spec n 1); [reflexivity | lia].
  - intros Hn.
    apply (wp_settles (Power B e ct n) (BackendTotal B)
                      (fun _ r _ => forall i, (slot M r i == slot M ct i ^ n)%Q)).
    intros F HF st. apply (wp_Power B M e F HF); [lia |]. intros c _ Hc. exact Hc.
Qed.

Lemma Power_raises_every_slot_witness :
  (3 <= GoInt.max_int /\ 1 <= 3) /\
  (forall st r st',
      Power (Ideal.backend 4) idealEval sampleCt 3 st = (Ok r, st') ->
      forall i, (slot (idealModel 4) r i == slot (idealModel 4) sampleCt i ^ 3)%Q).
Proof.
  assert (H1 : 3 <= GoInt.max_int) by (unfold GoInt.max_int; lia).
  assert (H2 : 1 <= 3) by lia.
  split; [split; assumption |].
  apply (Power_raises_every_slot (Ideal.backend 4) (idealModel 4) idealEval sampleCt 3
                                 H1).
  exact H2.
Defined.

(** A run: the cube of the slots 1, 2, 3, 4 with two multiplications and
    two rescales. *)
Example Power_run :
  match Power (Ideal.backend 4) idealEval sampleCt 3 zeroStats with
  | (Ok r, st) => Qeq_bool (Ideal.val r 1) 8 && (MulCount st =? 2) && (RescaleCount st =? 2)
  | (Err _, _) => false
  end = true.
Proof. vm_compute. reflexivity. Qed.

(** EvaluatePolynomial: with no coefficient the function returns the error
    "coefficients cannot be empty"; with coefficients c_0, ..., c_(n-1) a
    result it returns holds c_0 + c_1 x + ... + c_(n-1) x^(n-1) in every
    slot, and the counters have moved by n - 1 multiplications, n - 1
    rescales and n - 1 additions, the set-up of the leading constant not
    being counted; it returns whenever the backend does not fail. *)
Theorem EvaluatePolynomial_is_horner {Ct : Type} (B : Backend Ct) (M : PlainModel B)
        (e : Evaluator Ct) (ct : Ct) (coeffs : list Q) :
  len coeffs <= GoInt.max_int ->
  (coeffs = [] ->
   forall st, EvaluatePolynomial B e ct coeffs st
              = (Err (Errorf "coefficients cannot be empty" []), st)) /\
  (coeffs <> [] ->
   (forall st r st',
       EvaluatePolynomial B e ct coeffs st = (Ok r, st') ->
       (forall i, (slot M r i == polyQ coeffs (slot M ct i))%Q) /\
       st' = Nat.iter (List.length coeffs - 1) hornerCount st) /\
   (BackendTotal B ->
    forall st, exists r st', EvaluatePolynomial B e ct coeffs st = (Ok r, st'))).
Proof.
  intros Hlen. split.
  - intros -> st. reflexivity.
  - intros Hne.
    apply (wp_settles (EvaluatePolynomial B e ct coeffs) (BackendTotal B)
             (fun st r st' =>
                (forall i, (slot M r i == polyQ coeffs (slot M ct i))%Q) /\
                st' = Nat.iter (List.length coeffs - 1) hornerCount st)).
    intros F HF st. apply (wp_EvaluatePolynomial B M e F HF); [exact Hne | exact Hlen |].
    intros r Hr. split; [exact Hr | reflexivity].
Qed.

Lemma EvaluatePolynomial_is_horner_witness :
  (len [1; 2; 3]%Q <= GoInt.max_int /\ [1; 2; 3]%Q <> []) /\
  (forall st r st',
      EvaluatePolynomial (Ideal.backend 4) idealEval sampleCt [1; 2; 3]%Q st = (Ok r, st') ->
      (forall i, (slot (idealModel 4) r i
                  == polyQ [1; 2; 3]%Q (slot (idealModel 4) sampleCt i))%Q) /\
      st' = Nat.iter (List.length [1; 2; 3]%Q - 1) hornerCount st).
Proof.
  assert (H1 : len [1; 2; 3]%Q <= GoInt.max_int) by (unfold GoInt.max_int; cbn; lia).
  assert (H2 : [1; 2; 3]%Q <> []) by discriminate.
  split; [split; assumption |].
  apply (EvaluatePolynomial_is_horner (Ideal.backend 4) (idealModel 4) idealEval sampleCt
                                      [1; 2; 3]%Q H1).
  exact H2.
Defined.

(** A run: 1 + 2x + 3x^2 at x = 2 is 17. *)
Example EvaluatePolynomial_run :
  match EvaluatePolynomial (Ideal.backend 4) idealEval sampleCt [1; 2; 3]%Q zeroStats with
  | (Ok r, st) => Qeq_bool (Ideal.val r 1) 17 && (MulCount st =? 2) && (AddCount st =? 2)
  | (Err _, _) => false
  end = true.
Proof. vm_compute. reflexivity. Qed.

(* ===================================================================== *)
(** * Sums over the blocks of a column *)
(* ===================================================================== *)

(** MaskedSum: on S = 2^k slots, block lists of different lengths are
    refused with the mismatch error; for as many data blocks as mask blocks,
    at least one, a result [MaskedSum] returns holds in slot 0 the sum over
    all blocks and all S slots of x * v; and it returns one whenever the
    backend does not fail. *)
Theorem MaskedSum_adds_masked_slots {Ct : Type} (B : Backend Ct) (M : PlainModel B)
        (n : NumericOp Ct) (xs vs : list Ct) (k : Z) :
  0 <= k <= 62 -> MaxSlots B = 2 ^ k ->
  (List.length xs <> List.length vs ->
   forall st, MaskedSum B n xs vs st
              = (Err (Errorf "block count mismatch: %d vs %d"
                             [ArgInt (len xs); ArgInt (len vs)]), st)) /\
  (List.length xs = List.length vs -> xs <> [] ->
   (forall st r st',
       MaskedSum B n xs vs st = (Ok r, st') ->
       (slot M r 0
        == blocksTotal (map (slotProduct M) (combine xs vs)) (MaxSlots B))%Q) /\
   (BackendTotal B -> forall st, exists r st', MaskedSum B n xs vs st = (Ok r, st'))).
Proof.
  intros Hk HS. split.
  - intros Hlen st. unfold MaskedSum, len.
    destruct (Z.eqb_spec (Z.of_nat (List.length xs)) (Z.of_nat (List.length vs)));
      [lia | reflexivity].
  - intros Hlen Hne.
    change (MaskedSum B n xs vs) with (MaskedSum B (NewNumericOp (eval n)) xs vs).
    apply (wp_settles _ (BackendTotal B)
             (fun _ r _ =>
                (slot M r 0
                 == blocksTotal (map (slotProduct M) (combine xs vs)) (MaxSlots B))%Q)).
    intros F HF st. apply (wp_MaskedSum B M (eval n) F HF xs vs k); try assumption.
    intros r _ Hr. exact Hr.
Qed.

Lemma MaskedSum_adds_masked_slots_witness :
  ((0 <= 2 <= 62 /\ MaxSlots (Ideal.backend 4) = 2 ^ 2) /\
   (List.length sampleData = List.length sampleValidity /\ sampleData <> [])) /\
  (forall st r st',
      MaskedSum (Ideal.backend 4) (NewNumericOp idealEval) sampleData sampleValidity st
      = (Ok r, st') ->
      (slot (idealModel 4) r 0
       == blocksTotal (map (slotProduct (idealModel 4)) (combine sampleData sampleValidity))
                      (MaxSlots (Ideal.backend 4)))%Q).
Proof.
  assert (H1 : 0 <= 2 <= 62) by lia.
  assert (H2 : MaxSlots (Ideal.backend 4) = 2 ^ 2) by reflexivity.
  assert (H3 : List.length sampleData = List.length sampleValidity) by reflexivity.
  assert (H4 : sampleData <> []) by discriminate.
  split; [split; split; assumption |].
  apply (MaskedSum_adds_masked_slots (Ideal.backend 4) (idealModel 4)
           (NewNumericOp idealEval) sampleData sampleValidity 2 H1 H2); assumption.
Defined.

(** A run: 1 + 2 + 4 of the first block and 6 + 7 + 8 of the second. *)
Example MaskedSum_run :
  match MaskedSum (Ideal.backend 4) (NewNumericOp idealEval) sampleData sampleValidity
                  zeroStats with
  | (Ok r, _) => Qeq_bool (Ideal.val r 0) 28
  | (Err _, _) => false
  end = true.
Proof. vm_compute. reflexivity. Qed.

(** Count: on S = 2^k slots, for at least one mask block, a result [Count]
    returns holds in slot 0 the sum of all S slots of all mask blocks: the
    number of valid rows when the masks hold 0 and 1; and it returns one
    whenever the backend does not fail. *)
Theorem Count_adds_mask_slots {Ct : Type} (B : Backend Ct) (M : PlainModel B)
        (n : NumericOp Ct) (vs : list Ct) (k : Z) :
  0 <= k <= 62 -> MaxSlots B = 2 ^ k -> vs <> [] ->
  (forall st r st',
      Count B n vs st = (Ok r, st') ->
      (slot M r 0 == blocksTotal (map (slot M) vs) (MaxSlots B))%Q) /\
  (BackendTotal B -> forall st, exists r st', Count B n vs st = (Ok r, st')).
Proof.
  intros Hk HS Hne.
  change (Count B n vs) with (Count B (NewNumericOp (eval n)) vs).
  apply (wp_settles _ (BackendTotal B)
           (fun _ r _ => (slot M r 0 == blocksTotal (map (slot M) vs) (MaxSlots B))%Q)).
  intros F HF st. apply (wp_Count B M (eval n) F HF vs k); try assumption.
  intros r _ Hr. exact Hr.
Qed.

Lemma Count_adds_mask_slots_witness :
  (0 <= 2 <= 62 /\ MaxSlots (Ideal.backend 4) = 2 ^ 2 /\ sampleValidity <> []) /\
  (forall st r st',
      Count (Ideal.backend 4) (NewNumericOp idealEval) sampleValidity st = (Ok r, st') ->
      (slot (idealModel 4) r 0
       == blocksTotal (map (slot (idealModel 4)) sampleValidity)
                      (MaxSlots (Ideal.backend 4)))%Q).
Proof.
  assert (H1 : 0 <= 2 <= 62) by lia.
  assert (H2 : MaxSlots (Ideal.backend 4) = 2 ^ 2) by reflexivity.
  assert (H3 : sampleValidity <> []) by discriminate.
  split; [split; [| split]; assumption |].
  apply (Count_adds_mask_slots (Ideal.backend 4) (idealModel 4)
           (NewNumericOp idealEval) sampleValidity 2 H1 H2 H3).
Defined.

(** A run: six valid rows. *)
Example Count_run :
  match Count (Ideal.backend 4) (NewNumericOp idealEval) sampleValidity zeroStats with
  | (Ok r, _) => Qeq_bool (Ideal.val r 0) 6
  | (Err _, _) => false
  end = true.
Proof. vm_compute. reflexivity. Qed.

(** MaskedSumOfSquares and MaskedCrossSum: on S = 2^k slots and block lists
    of one length, at least one block, a result of [MaskedSumOfSquares]
    holds in slot 0 the sum over all blocks and slots of x * x * v, and a
    result of [MaskedCrossSum] the sum of x * y * v; both return whenever
    the backend does not fail. *)
Theorem masked_sums_of_products {Ct : Type} (B : Backend Ct) (M : PlainModel B)
        (n : NumericOp Ct) (xs ys vs : list Ct) (k : Z) :
  0 <= k <= 62 -> MaxSlots B = 2 ^ k ->
  List.length xs = List.length ys -> List.length xs = List.length vs -> xs <> [] ->
  ((forall st r st',
       MaskedSumOfSquares B n xs vs st = (Ok r, st') ->
       (slot M r 0
        == blocksTotal (map (slotSquareMasked M) (combine xs vs)) (MaxSlots B))%Q) /\
   (BackendTotal B ->
    forall st, exists r st', MaskedSumOfSquares B n xs vs st = (Ok r, st'))) /\
  ((forall st r st',
       MaskedCrossSum B n xs ys vs st = (Ok r, st') ->
       (slot M r 0
        == blocksTotal (map (slotProduct3 M) (combine (combine xs ys) vs))
                       (MaxSlots B))%Q) /\
   (BackendTotal B ->
    forall st, exists r st', MaskedCrossSum B n xs ys vs st = (Ok r, st'))).
Proof.
  intros Hk HS Hxy Hxv Hne. split.
  - change (MaskedSumOfSquares B n xs vs)
      with (MaskedSumOfSquares B (NewNumericOp (eval n)) xs vs).
    apply (wp_settles _ (BackendTotal B)
             (fun _ r _ =>
                (slot M r 0
                 == blocksTotal (map (slotSquareMasked M) (combine xs vs))
                                (MaxSlots B))%Q)).
    intros F HF st.
    apply (wp_MaskedSumOfSquares B M (eval n) F HF xs vs k); try assumption.
    intros r _ Hr. exact Hr.
  - change (MaskedCrossSum B n xs ys vs)
      with (MaskedCrossSum B (NewNumericOp (eval n)) xs ys vs).
    apply (wp_settles _ (BackendTotal B)
             (fun _ r _ =>
                (slot M r 0
                 == blocksTotal (map (slotProduct3 M) (combine (combine xs ys) vs))
                                (MaxSlots B))%Q)).
    intros F HF st.
    apply (wp_MaskedCrossSum B M (eval n) F HF xs ys vs k); try assumption.
    intros r _ Hr. exact Hr.
Qed.

Lemma masked_sums_of_products_witness :
  ((0 <= 2 <= 62 /\ MaxSlots (Ideal.backend 4) = 2 ^ 2) /\
   (List.length sampleData = List.length sampleData /\
    List.length sampleData = List.length sampleValidity /\ sampleData <> [])) /\
  (forall st r st',
      MaskedSumOfSquares (Ideal.backend 4) (NewNumericOp idealEval) sampleData
                         sampleValidity st = (Ok r, st') ->
      (slot (idealModel 4) r 0
       == blocksTotal (map (slotSquareMasked (idealModel 4))
                           (combine sampleData sampleValidity))
                      (MaxSlots (Ideal.backend 4)))%Q).
Proof.
  assert (H1 : 0 <= 2 <= 62) by lia.
  assert (H2 : MaxSlots (Ideal.backend 4) = 2 ^ 2) by reflexivity.
  assert (H3 : List.length sampleData = List.length sampleData) by reflexivity.
  assert (H4 : List.length sampleData = List.length sampleValidity) by reflexivity.
  assert (H5 : sampleData <> []) by discriminate.
  split; [split; [split | split; [| split]]; assumption |].
  apply (masked_sums_of_products (Ideal.backend 4) (idealModel 4)
           (NewNumericOp idealEval) sampleData sampleData sampleValidity 2
           H1 H2 H3 H4 H5).
Defined.

(* ===================================================================== *)
(** * How the Newton iteration converges *)
(* ===================================================================== *)

Lemma newton1_error_step (x y : Q) :
  (1 - x * newtonMap 1 x y == (1 - x * y) ^ 2)%Q.
Proof. unfold newtonMap. change (inject_Z (1 + 1)) with 2%Q. field. Qed.

Lemma newton1_error_iter (x y0 : Q) (k : nat) :
  (1 - x * Nat.iter k (newtonMap 1 x) y0 == (1 - x * y0) ^ (2 ^ Z.of_nat k))%Q.
Proof.
  induction k as [| k IH].
  - cbn [Nat.iter Z.of_nat]. change (2 ^ 0) with 1. change (?q ^ 1)%Q with q.
    reflexivity.
  - rewrite Nat.iter_succ, newton1_error_step, IH.
    rewrite Nat2Z.inj_succ, Z.pow_succ_r by lia.
    rewrite (Z.mul_comm 2), Qpower_mult. reflexivity.
Qed.

Lemma newton2_error_step (x y : Q) :
  (1 - x * newtonMap 2 x y ^ 2 == invSqrtError (1 - x * y ^ 2))%Q.
Proof.
  unfold newtonMap, invSqrtError. change (inject_Z (2 + 1)) with 3%Q.
  change (inject_Z 2) with 2%Q. field.
Qed.

Lemma invSqrtError_compat (a b : Q) : (a == b)%Q -> (invSqrtError a == invSqrtError b)%Q.
Proof. intros H. unfold invSqrtError. rewrite H. reflexivity. Qed.

Lemma newton2_error_iter (x y0 : Q) (k : nat) :
  (1 - x * Nat.iter k (newtonMap 2 x) y0 ^ 2
   == Nat.iter k invSqrtError (1 - x * y0 ^ 2))%Q.
Proof.
  induction k as [| k IH]; [reflexivity |].
  rewrite !Nat.iter_succ, newton2_error_step. apply invSqrtError_compat, IH.
Qed.

Lemma Qsquare_lt_1 (q : Q) : (- (1) < q)%Q -> (q < 1)%Q -> (q * q < 1)%Q.
Proof.
  intros Hlo Hhi.
  assert (H : (0 < (1 - q) * (1 + q))%Q).
  { apply Qmult_lt_0_compat; lra. }
  assert (E : ((1 - q) * (1 + q) == 1 - q * q)%Q) by ring.
  rewrite E in H. lra.
Qed.

Lemma Qsquare_ge_1 (q : Q) : (q <= - (1))%Q -> (1 <= q * q)%Q.
Proof.
  intros H.
  assert (H' : (0 <= (- q - 1) * (- q + 1))%Q).
  { apply Qmult_le_0_compat; lra. }
  assert (E : ((- q - 1) * (- q + 1) == q * q - 1)%Q) by ring.
  rewrite E in H'. lra.
Qed.

Lemma Qsquare_nonneg (q : Q) : (0 <= q * q)%Q.
Proof.
  destruct (Qlt_le_dec q 0) as [Hneg | Hpos].
  - assert (H : (0 <= (- q) * (- q))%Q) by (apply Qmult_le_0_compat; lra).
    assert (E : ((- q) * (- q) == q * q)%Q) by ring.
    rewrite E in H. exact H.
  - apply Qmult_le_0_compat; assumption.
Qed.

(** A power of a number in [0, 1) stays below 1. *)
Lemma Qpower_pos_lt_1 (q : Q) (p : positive) :
  (0 <= q)%Q -> (q < 1)%Q -> (0 <= q ^ Z.pos p /\ q ^ Z.pos p < 1)%Q.
Proof.
  intros H0 H1. induction p as [| p IH] using Pos.peano_ind.
  - change (q ^ 1)%Q with q. split; assumption.
  - rewrite Pos2Z.inj_succ, <- Z.add_1_r, Qpower_plus' by lia.
    change (q ^ 1)%Q with q. destruct IH as [IH0 IH1]. split.
    + apply Qmult_le_0_compat; assumption.
    + apply Qle_lt_trans with (q ^ Z.pos p * 1)%Q; [| lra].
      apply Qmult_le_compat_nonneg; split; lra.
Qed.

(** Squaring k >= 1 times: the power 2^k of q is a power of q * q. *)
Lemma Qpower_two_pow (q : Q) (k : Z) :
  1 <= k -> (q ^ (2 ^ k) == (q * q) ^ (2 ^ (k - 1)))%Q.
Proof.
  intros Hk. replace k with (1 + (k - 1)) at 1 by lia.
  rewrite Z.pow_add_r, Z.pow_1_r by lia. rewrite Qpower_mult.
  change (q ^ 2)%Q with (q * q)%Q. reflexivity.
Qed.

(** The reciprocal, convergence: with N = 1, after k iterations from the
    guess y0, a result r of [INVNTHSQRT] has in every slot the error
    1 - x r = (1 - x y0)^(2^k): it is exact where x y0 = 1; after one
    iteration or more it lies in [0, 1) where 0 < x y0 < 2, and it is 1 or
    more where x y0 >= 2, so that x r <= 0 there: the iteration approaches
    1/x only for x between 0 and 2/y0. *)
Theorem INVNTHSQRT_reciprocal_error {Ct : Type} (B : Backend Ct) (M : PlainModel B)
        (n : NumericOp Ct) (config : INVNTHSQRTConfig) (x : Ct) :
  N config = 1 -> 0 <= Iterations config ->
  BootstrapKeepsSlots B M (eval n) ->
  forall st r st',
    INVNTHSQRT B n x config st = (Ok r, st') ->
    forall i,
      ((1 - slot M x i * slot M r i
        == (1 - slot M x i * InitialGuess config) ^ (2 ^ Iterations config)) /\
       (slot M x i * InitialGuess config == 1 -> slot M x i * slot M r i == 1) /\
       ((1 <= Iterations config)%Z ->
        0 < slot M x i * InitialGuess config -> slot M x i * InitialGuess config < 2 ->
        0 <= 1 - slot M x i * slot M r i /\ 1 - slot M x i * slot M r i < 1) /\
       ((1 <= Iterations config)%Z ->
        2 <= slot M x i * InitialGuess config ->
        1 <= 1 - slot M x i * slot M r i))%Q.
Proof.
  intros HN Hiter Hboot st r st' E i.
  assert (Hr : forall j,
             (slot M r j ==
              Nat.iter (Z.to_nat (Iterations config))
                       (newtonMap (N config) (slot M x j)) (InitialGuess config))%Q).
  { change (INVNTHSQRT B n x config)
      with (INVNTHSQRT B (NewNumericOp (eval n)) x config) in E.
    refine (wp_returned True _ st
              (fun r _ => forall j,
                   (slot M r j ==
                    Nat.iter (Z.to_nat (Iterations config))
                             (newtonMap (N config) (slot M x j))
                             (InitialGuess config))%Q) r st' _ E).
    apply (wp_INVNTHSQRT B M (eval n) True (or_intror I) (or_intror I) Hboot
             config x st).
    - rewrite HN. unfold GoInt.max_int. lia.
    - rewrite HN. vm_compute. reflexivity.
    - intros c _ Hc. exact Hc. }
  assert (Herr : (1 - slot M x i * slot M r i
                  == (1 - slot M x i * InitialGuess config) ^ (2 ^ Iterations config))%Q).
  { rewrite (Hr i), HN, newton1_error_iter. rewrite Z2Nat.id by exact Hiter.
    reflexivity. }
  set (xi := slot M x i) in *. set (ri := slot M r i) in *.
  set (y0 := InitialGuess config) in *.
  assert (Hpos : 0 < 2 ^ Iterations config) by (apply Z.pow_pos_nonneg; lia).
  split; [exact Herr | split; [| split]].
  - intros Hone.
    assert (H0 : (1 - xi * y0 == 0)%Q) by (rewrite Hone; ring).
    rewrite H0 in Herr.
    destruct (2 ^ Iterations config) as [| p | p] eqn:Ep; try lia.
    assert (Hz : (0 ^ Z.pos p == 0)%Q).
    { clear. induction p as [| p IH] using Pos.peano_ind; [reflexivity |].
      rewrite Pos2Z.inj_succ, <- Z.add_1_r, Qpower_plus' by lia. rewrite IH. ring. }
    rewrite Hz in Herr. lra.
  - intros H1 Hlo Hhi. rewrite Herr, (Qpower_two_pow _ _ H1).
    assert (Hp : 0 < 2 ^ (Iterations config - 1)) by (apply Z.pow_pos_nonneg; lia).
    destruct (2 ^ (Iterations config - 1)) as [| p | p] eqn:Ep; try lia.
    apply Qpower_pos_lt_1; [apply Qsquare_nonneg |].
    apply Qsquare_lt_1; lra.
  - intros H1 Hbig. rewrite Herr, (Qpower_two_pow _ _ H1).
    apply Qpower_1_le; [| apply Z.pow_nonneg; lia].
    apply Qsquare_ge_1. lra.
Qed.

Lemma INVNTHSQRT_reciprocal_error_witness :
  (N DefaultINVConfig = 1 /\ 0 <= Iterations DefaultINVConfig /\
   BootstrapKeepsSlots (Ideal.backend 4) (idealModel 4) (eval (NewNumericOp idealEvalBtp))) /\
  (forall st r st',
      INVNTHSQRT (Ideal.backend 4) (NewNumericOp idealEvalBtp) sampleCt DefaultINVConfig st
      = (Ok r, st') ->
      forall i,
        (1 - slot (idealModel 4) sampleCt i * slot (idealModel 4) r i
         == (1 - slot (idealModel 4) sampleCt i * InitialGuess DefaultINVConfig)
            ^ (2 ^ Iterations DefaultINVConfig))%Q).
Proof.
  assert (H1 : N DefaultINVConfig = 1) by reflexivity.
  assert (H2 : 0 <= Iterations DefaultINVConfig) by (cbn; lia).
  assert (H3 : BootstrapKeepsSlots (Ideal.backend 4) (idealModel 4)
                                   (eval (NewNumericOp idealEvalBtp)))
    by (apply (ideal_bootstrap_keeps 4 _ 10); reflexivity).
  split; [split; [| split]; assumption |].
  intros st r st' E i.
  exact (proj1 (INVNTHSQRT_reciprocal_error (Ideal.backend 4) (idealModel 4)
                  (NewNumericOp idealEvalBtp) DefaultINVConfig sampleCt H1 H2 H3
                  st r st' E i)).
Defined.

(** A run on the slots 1, 2, 3, 4 with the default configuration cut to
    four iterations: 1/2 is exact at once in the slot that holds 2, and the
    slot that holds 4 stays at 0, its product with the guess being 2. *)
Example INVNTHSQRT_reciprocal_run :
  match INVNTHSQRT (Ideal.backend 4) (NewNumericOp idealEvalBtp) sampleCt
                   {| N := 1; Iterations := 4; BootstrapFrequency := 5;
                      InitialGuess := 1 # 2 |} zeroStats with
  | (Ok r, _) => Qeq_bool (Ideal.val r 1) (1 # 2) && Qeq_bool (Ideal.val r 3) 0
  | (Err _, _) => false
  end = true.
Proof. vm_compute. reflexivity. Qed.

Lemma invSqrtError_bounds (err : Q) :
  (- (3) <= err)%Q -> (err <= 1)%Q ->
  (0 <= invSqrtError err /\ invSqrtError err <= err * err)%Q.
Proof.
  intros Hlo Hhi. unfold invSqrtError.
  pose proof (Qsquare_nonneg err) as Hsq.
  assert (E : (err * err * (3 + err) / 4 == err * err * ((3 + err) * (1 # 4)))%Q)
    by field.
  rewrite E. split.
  - apply Qmult_le_0_compat; [exact Hsq | lra].
  - rewrite <- (Qmult_1_r (err * err)) at 2.
    apply Qmult_le_compat_nonneg; split; first [lra | exact Hsq | apply Qle_refl].
Qed.

(** The inverse square root, convergence: with N = 2, a result r of
    [INVNTHSQRT] has in every slot the error 1 - x r^2 obtained from the
    error 1 - x y0^2 of the guess by k times e -> e^2 (3 + e) / 4; that map
    keeps 0, and takes an error between -3 and 1 to one between 0 and its
    square. *)
Theorem INVNTHSQRT_inverse_sqrt_error {Ct : Type} (B : Backend Ct) (M : PlainModel B)
        (n : NumericOp Ct) (config : INVNTHSQRTConfig) (x : Ct) :
  N config = 2 -> BootstrapKeepsSlots B M (eval n) ->
  (forall st r st',
      INVNTHSQRT B n x config st = (Ok r, st') ->
      forall i,
        (1 - slot M x i * slot M r i ^ 2
         == Nat.iter (Z.to_nat (Iterations config)) invSqrtError
                     (1 - slot M x i * InitialGuess config ^ 2))%Q) /\
  (invSqrtError 0 == 0)%Q /\
  (forall err, (- (3) <= err)%Q -> (err <= 1)%Q ->
               (0 <= invSqrtError err /\ invSqrtError err <= err * err)%Q).
Proof.
  intros HN Hboot. split; [| split; [reflexivity | exact invSqrtError_bounds]].
  intros st r st' E i.
  assert (Hr : forall j,
             (slot M r j ==
              Nat.iter (Z.to_nat (Iterations config))
                       (newtonMap (N config) (slot M x j)) (InitialGuess config))%Q).
  { change (INVNTHSQRT B n x config)
      with (INVNTHSQRT B (NewNumericOp (eval n)) x config) in E.
    refine (wp_returned True _ st
              (fun r _ => forall j,
                   (slot M r j ==
                    Nat.iter (Z.to_nat (Iterations config))
                             (newtonMap (N config) (slot M x j))
                             (InitialGuess config))%Q) r st' _ E).
    apply (wp_INVNTHSQRT B M (eval n) True (or_intror I) (or_intror I) Hboot
             config x st).
    - rewrite HN. unfold GoInt.max_int. lia.
    - rewrite HN. vm_compute. reflexivity.
    - intros c _ Hc. exact Hc. }
  rewrite (Hr i), HN. apply newton2_error_iter.
Qed.

Lemma INVNTHSQRT_inverse_sqrt_error_witness :
  (N DefaultINVSQRTConfig = 2 /\
   BootstrapKeepsSlots (Ideal.backend 4) (idealModel 4) (eval (NewNumericOp idealEvalBtp))) /\
  (forall st r st',
      INVNTHSQRT (Ideal.backend 4) (NewNumericOp idealEvalBtp) sampleCt
                 DefaultINVSQRTConfig st = (Ok r, st') ->
      forall i,
        (1 - slot (idealModel 4) sampleCt i * slot (idealModel 4) r i ^ 2
         == Nat.iter (Z.to_nat (Iterations DefaultINVSQRTConfig)) invSqrtError
                     (1 - slot (idealModel 4) sampleCt i
                          * InitialGuess DefaultINVSQRTConfig ^ 2))%Q).
Proof.
  assert (H1 : N DefaultINVSQRTConfig = 2) by reflexivity.
  assert (H2 : BootstrapKeepsSlots (Ideal.backend 4) (idealModel 4)
                                   (eval (NewNumericOp idealEvalBtp)))
    by (apply (ideal_bootstrap_keeps 4 _ 10); reflexivity).
  split; [split; assumption |].
  exact (proj1 (INVNTHSQRT_inverse_sqrt_error (Ideal.backend 4) (idealModel 4)
                  (NewNumericOp idealEvalBtp) DefaultINVSQRTConfig sampleCt H1 H2)).
Defined.

(* ===================================================================== *)
(** * Mean and variance *)
(* ===================================================================== *)

(** What the reciprocal of [Mean] makes of a count c: c times it is
    1 - (1 - c/2)^(2^25). *)
Lemma newtonInverse_error (c : Q) :
  (c * newtonInverse c == 1 - (1 - c * (1 # 2)) ^ (2 ^ 25))%Q.
Proof.
  pose proof (newton1_error_iter c (1 # 2) 25) as H.
  unfold newtonInverse. cbn [Iterations InitialGuess DefaultINVConfig].
  change (Z.to_nat 25) with 25%nat.
  change (Z.of_nat 25) with 25 in H.
  set (y := Nat.iter 25 (newtonMap 1 c) (1 # 2)) in *.
  set (p := ((1 - c * (1 # 2)) ^ (2 ^ 25))%Q) in *.
  lra.
Qed.

(** Mean: on S = 2^k slots, for as many data blocks as mask blocks, at
    least one, a result [Mean] returns holds in slot 0 the masked sum s
    times the Newton reciprocal of the count c, 25 iterations from 1/2:
    times c, that is s * (1 - (1 - c/2)^(2^25)), which is s when c = 2; and
    [Mean] returns whenever backend and bootstrapper do not fail. *)
Theorem Mean_is_sum_times_reciprocal {Ct : Type} (B : Backend Ct) (M : PlainModel B)
        (n : NumericOp Ct) (xs vs : list Ct) (k : Z) :
  0 <= k <= 62 -> MaxSlots B = 2 ^ k ->
  BootstrapKeepsSlots B M (eval n) ->
  List.length xs = List.length vs -> xs <> [] ->
  let s := blocksTotal (map (slotProduct M) (combine xs vs)) (MaxSlots B) in
  let c := blocksTotal (map (slot M) vs) (MaxSlots B) in
  (forall st r st',
      Mean B n xs vs st = (Ok r, st') ->
      (slot M r 0 == s * newtonInverse c)%Q /\
      (slot M r 0 * c == s * (1 - (1 - c * (1 # 2)) ^ (2 ^ 25)))%Q /\
      ((c == 2)%Q -> (slot M r 0 == s / 2)%Q)) /\
  (BackendTotal B -> BootstrapTotal (eval n) ->
   forall st, exists r st', Mean B n xs vs st = (Ok r, st')).
Proof.
  intros Hk HS Hboot Hlen Hne s c.
  change (Mean B n xs vs) with (Mean B (NewNumericOp (eval n)) xs vs).
  destruct (wp_settles (Mean B (NewNumericOp (eval n)) xs vs)
              (BackendTotal B /\ BootstrapTotal (eval n))
              (fun _ r _ => (slot M r 0 == s * newtonInverse c)%Q)) as [Hret Htot].
  { intros F HF st. destruct (both_or HF) as [HF1 HF2].
    apply (wp_Mean B M (eval n) F HF1 HF2 Hboot xs vs k); try assumption.
    intros r _ Hr. exact Hr. }
  split.
  - intros st r st' E. pose proof (Hret st r st' E) as Hr.
    split; [exact Hr | split].
    + rewrite Hr, <- newtonInverse_error. ring.
    + intros Hc.
      assert (H2 : (slot M r 0 * c == s * (1 - (1 - c * (1 # 2)) ^ (2 ^ 25)))%Q)
        by (rewrite Hr, <- newtonInverse_error; ring).
      assert (Hz : ((1 - c * (1 # 2)) ^ (2 ^ 25) == 0)%Q).
      { rewrite Hc. reflexivity. }
      rewrite Hz, Hc in H2.
      assert (Hhalf : (s / 2 == s * (1 # 2))%Q) by field.
      rewrite Hhalf. lra.
  - intros T Tb st. apply Htot. split; assumption.
Qed.

Lemma Mean_is_sum_times_reciprocal_witness :
  ((0 <= 2 <= 62 /\ MaxSlots (Ideal.backend 4) = 2 ^ 2) /\
   BootstrapKeepsSlots (Ideal.backend 4) (idealModel 4) (eval (NewNumericOp idealEvalBtp)) /\
   (List.length sampleData = List.length sampleValidityTwo /\ sampleData <> [])) /\
  (forall st r st',
      Mean (Ideal.backend 4) (NewNumericOp idealEvalBtp) sampleData sampleValidityTwo st
      = (Ok r, st') ->
      (slot (idealModel 4) r 0
       == blocksTotal (map (slotProduct (idealModel 4))
                           (combine sampleData sampleValidityTwo))
                      (MaxSlots (Ideal.backend 4))
          * newtonInverse (blocksTotal (map (slot (idealModel 4)) sampleValidityTwo)
                                       (MaxSlots (Ideal.backend 4))))%Q).
Proof.
  assert (H1 : 0 <= 2 <= 62) by lia.
  assert (H2 : MaxSlots (Ideal.backend 4) = 2 ^ 2) by reflexivity.
  assert (H3 : BootstrapKeepsSlots (Ideal.backend 4) (idealModel 4)
                                   (eval (NewNumericOp idealEvalBtp)))
    by (apply (ideal_bootstrap_keeps 4 _ 10); reflexivity).
  assert (H4 : List.length sampleData = List.length sampleValidityTwo) by reflexivity.
  assert (H5 : sampleData <> []) by discriminate.
  split; [split; [split | split; [| split]]; assumption |].
  intros st r st' E.
  exact (proj1 (proj1 (Mean_is_sum_times_reciprocal (Ideal.backend 4) (idealModel 4)
                         (NewNumericOp idealEvalBtp) sampleData sampleValidityTwo 2
                         H1 H2 H3 H4 H5) st r st' E)).
Defined.

(** Variance: under the conditions of [Mean], a result [Variance] returns
    holds in slot 0 the masked sum of squares times the reciprocal of the
    count, minus the square of the mean: E[X^2] - E[X]^2, both taken with
    the Newton reciprocal; and [Variance] returns whenever backend and
    bootstrapper do not fail. *)
Theorem Variance_is_mean_square_minus_square_mean {Ct : Type} (B : Backend Ct)
        (M : PlainModel B) (n : NumericOp Ct) (xs vs : list Ct) (k : Z) :
  0 <= k <= 62 -> MaxSlots B = 2 ^ k ->
  BootstrapKeepsSlots B M (eval n) ->
  List.length xs = List.length vs -> xs <> [] ->
  let s := blocksTotal (map (slotProduct M) (combine xs vs)) (MaxSlots B) in
  let s2 := blocksTotal (map (slotSquareMasked M) (combine xs vs)) (MaxSlots B) in
  let c := blocksTotal (map (slot M) vs) (MaxSlots B) in
  (forall st r st',
      Variance B n xs vs st = (Ok r, st') ->
      (slot M r 0 == s2 * newtonInverse c - (s * newtonInverse c) ^ 2)%Q /\
      ((c == 2)%Q -> (slot M r 0 == s2 / 2 - (s / 2) ^ 2)%Q)) /\
  (BackendTotal B -> BootstrapTotal (eval n) ->
   forall st, exists r st', Variance B n xs vs st = (Ok r, st')).
Proof.
  intros Hk HS Hboot Hlen Hne s s2 c.
  change (Variance B n xs vs) with (Variance B (NewNumericOp (eval n)) xs vs).
  destruct (wp_settles (Variance B (NewNumericOp (eval n)) xs vs)
              (BackendTotal B /\ BootstrapTotal (eval n))
              (fun _ r _ =>
                 (slot M r 0 == s2 * newtonInverse c - (s * newtonInverse c) ^ 2)%Q))
    as [Hret Htot].
  { intros F HF st. destruct (both_or HF) as [HF1 HF2].
    apply (wp_Variance B M (eval n) F HF1 HF2 Hboot xs vs k); try assumption.
    intros r _ Hr. exact Hr. }
  split.
  - intros st r st' E. pose proof (Hret st r st' E) as Hr.
    split; [exact Hr |].
    intros Hc.
    assert (Hinv : (newtonInverse c == 1 # 2)%Q).
    { pose proof (newtonInverse_error c) as H.
      assert (Hz : ((1 - c * (1 # 2)) ^ (2 ^ 25) == 0)%Q) by (rewrite Hc; reflexivity).
      rewrite Hz in H.
      assert (Hm : (c * newtonInverse c == 2 * newtonInverse c)%Q)
        by (apply Qmult_comp; [exact Hc | reflexivity]).
      lra. }
    rewrite Hr, Hinv. field.
  - intros T Tb st. apply Htot. split; assumption.
Qed.

Lemma Variance_is_mean_square_minus_square_mean_witness :
  ((0 <= 2 <= 62 /\ MaxSlots (Ideal.backend 4) = 2 ^ 2) /\
   BootstrapKeepsSlots (Ideal.backend 4) (idealModel 4) (eval (NewNumericOp idealEvalBtp)) /\
   (List.length sampleData = List.length sampleValidityTwo /\ sampleData <> [])) /\
  (forall st r st',
      Variance (Ideal.backend 4) (NewNumericOp idealEvalBtp) sampleData sampleValidityTwo st
      = (Ok r, st') ->
      (slot (idealModel 4) r 0
       == blocksTotal (map (slotSquareMasked (idealModel 4))
                           (combine sampleData sampleValidityTwo))
                      (MaxSlots (Ideal.backend 4))
          * newtonInverse (blocksTotal (map (slot (idealModel 4)) sampleValidityTwo)
                                       (MaxSlots (Ideal.backend 4)))
          - (blocksTotal (map (slotProduct (idealModel 4))
                              (combine sampleData sampleValidityTwo))
                         (MaxSlots (Ideal.backend 4))
             * newtonInverse (blocksTotal (map (slot (idealModel 4)) sampleValidityTwo)
                                          (MaxSlots (Ideal.backend 4)))) ^ 2)%Q).
Proof.
  assert (H1 : 0 <= 2 <= 62) by lia.
  assert (H2 : MaxSlots (Ideal.backend 4) = 2 ^ 2) by reflexivity.
  assert (H3 : BootstrapKeepsSlots (Ideal.backend 4) (idealModel 4)
                                   (eval (NewNumericOp idealEvalBtp)))
    by (apply (ideal_bootstrap_keeps 4 _ 10); reflexivity).
  assert (H4 : List.length sampleData = List.length sampleValidityTwo) by reflexivity.
  assert (H5 : sampleData <> []) by discriminate.
  split; [split; [split | split; [| split]]; assumption |].
  intros st r st' E.
  exact (proj1 (proj1 (Variance_is_mean_square_minus_square_mean
                         (Ideal.backend 4) (idealModel 4)
                         (NewNumericOp idealEvalBtp) sampleData sampleValidityTwo 2
                         H1 H2 H3 H4 H5) st r st' E)).
Defined.

(* ===================================================================== *)
(** * package approx: filter, sign and comparison *)
(* ===================================================================== *)

Lemma signStep_odd (s : Q) : (signStep (- s) == - signStep s)%Q.
Proof. unfold signStep. field. Qed.

Lemma signStep_iter_fixed (s0 : Q) (k : nat) :
  (signStep s0 == s0)%Q ->
  forall s, (s == s0)%Q -> (Nat.iter k signStep s == s0)%Q.
Proof.
  intros Hfix s Hs. induction k as [| k IH]; [exact Hs |].
  rewrite Nat.iter_succ, (signStep_compat _ _ IH). exact Hfix.
Qed.

Lemma signStep_towards_one (s : Q) :
  (0 < s)%Q -> (s < 1)%Q -> (s < signStep s /\ signStep s < 1)%Q.
Proof.
  intros H0 H1. unfold signStep.
  assert (Hsq : (s * s < 1)%Q) by (apply Qsquare_lt_1; lra).
  assert (E : (s * (3 - s * s) / 2 == s * (3 - s * s) * (1 # 2))%Q) by field.
  rewrite E. split.
  - assert (H : (0 < s * (1 - s * s))%Q) by (apply Qmult_lt_0_compat; lra).
    assert (E1 : (s * (1 - s * s) == s * (3 - s * s) - 2 * s)%Q) by ring.
    rewrite E1 in H. lra.
  - assert (H : (0 < (1 - s) * (1 - s) * (s + 2))%Q).
    { apply Qmult_lt_0_compat; [apply Qmult_lt_0_compat |]; lra. }
    assert (E1 : ((1 - s) * (1 - s) * (s + 2) == 2 - s * (3 - s * s))%Q) by ring.
    rewrite E1 in H. lra.
Qed.

Lemma no_bootstrapper_never_fails {Ct : Type} (e : Evaluator Ct) :
  bootstrapper e = None -> BootstrapNeverFails e.
Proof. intros He btp Hb. rewrite He in Hb. discriminate. Qed.

(** ApplyFilterPolynomial: a result holds p(s) = 4 s^3 - 3 s^4 in every
    slot, s being the slot of the input; p(0) = 0 and p(1) = 1; and the
    function returns whenever the backend does not fail. *)
Theorem ApplyFilterPolynomial_computes_filter {Ct : Type} (B : Backend Ct)
        (M : PlainModel B) (a : Approx.ApproxOp Ct) (s : Ct) :
  (forall st r st',
      Approx.ApplyFilterPolynomial B a s st = (Ok r, st') ->
      forall i, (slot M r i == filterPoly (slot M s i))%Q) /\
  (filterPoly 0 == 0)%Q /\ (filterPoly 1 == 1)%Q /\
  (BackendTotal B ->
   forall st, exists r st', Approx.ApplyFilterPolynomial B a s st = (Ok r, st')).
Proof.
  change (Approx.ApplyFilterPolynomial B a s)
    with (Approx.ApplyFilterPolynomial B (Approx.NewApproxOp (Approx.eval a)) s).
  destruct (wp_settles
              (Approx.ApplyFilterPolynomial B (Approx.NewApproxOp (Approx.eval a)) s)
              (BackendTotal B)
              (fun _ r _ => forall i, (slot M r i == filterPoly (slot M s i))%Q))
    as [Hret Htot].
  { intros F HF st. apply (wp_ApplyFilterPolynomial B M (Approx.eval a) F HF).
    intros r _ Hr. exact Hr. }
  split; [exact Hret | split; [reflexivity | split; [reflexivity | exact Htot]]].
Qed.

(** A run on the slots 1, 2, 3, 4: p(1) = 1 and p(2) = 32 - 48 = -16. *)
Example ApplyFilterPolynomial_run :
  match Approx.ApplyFilterPolynomial (Ideal.backend 4) (Approx.NewApproxOp idealEval)
                                     sampleCt zeroStats with
  | (Ok r, _) => Qeq_bool (Ideal.val r 0) 1 && Qeq_bool (Ideal.val r 1) (- (16))
  | (Err _, _) => false
  end = true.
Proof. vm_compute. reflexivity. Qed.

(** APPROXSIGN: a result holds in every slot the input slot taken
    [Iterations] times through s -> s (3 - s^2) / 2; the slots that hold
    -1, 0 or 1 are returned as they are; the step is odd, and it moves a
    value strictly between 0 and 1 up, and keeps it below 1; the function
    returns whenever the backend and the bootstrapper, if there is one, do
    not fail. *)
Theorem APPROXSIGN_iterates_sign_step {Ct : Type} (B : Backend Ct) (M : PlainModel B)
        (a : Approx.ApproxOp Ct) (x : Ct) (config : Approx.ApproxSignConfig) :
  BootstrapKeepsSlots B M (Approx.eval a) ->
  (forall st r st',
      Approx.APPROXSIGN B a x config st = (Ok r, st') ->
      forall i,
        (slot M r i
         == Nat.iter (Z.to_nat (Approx.Iterations config)) signStep (slot M x i))%Q /\
        ((slot M x i == 1 \/ slot M x i == 0 \/ slot M x i == - (1))%Q ->
         (slot M r i == slot M x i)%Q)) /\
  (forall s, (signStep (- s) == - signStep s)%Q) /\
  (forall s, (0 < s)%Q -> (s < 1)%Q -> (s < signStep s /\ signStep s < 1)%Q) /\
  (BackendTotal B -> BootstrapNeverFails (Approx.eval a) ->
   forall st, exists r st', Approx.APPROXSIGN B a x config st = (Ok r, st')).
Proof.
  intros Hboot.
  change (Approx.APPROXSIGN B a x config)
    with (Approx.APPROXSIGN B (Approx.NewApproxOp (Approx.eval a)) x config).
  destruct (wp_settles
              (Approx.APPROXSIGN B (Approx.NewApproxOp (Approx.eval a)) x config)
              (BackendTotal B /\ BootstrapNeverFails (Approx.eval a))
              (fun _ r _ => forall i,
                   (slot M r i
                    == Nat.iter (Z.to_nat (Approx.Iterations config)) signStep
                                (slot M x i))%Q))
    as [Hret Htot].
  { intros F HF st. destruct (both_or HF) as [HF1 HF2].
    apply (wp_APPROXSIGN B M (Approx.eval a) F HF1 Hboot HF2).
    intros r _ Hr. exact Hr. }
  split; [| split; [exact signStep_odd | split; [exact signStep_towards_one |]]].
  - intros st r st' E i. pose proof (Hret st r st' E i) as Hr.
    split; [exact Hr |].
    intros [H1 | [H0 | Hm1]]; rewrite Hr.
    + rewrite (signStep_iter_fixed 1 _ ltac:(reflexivity) _ H1). symmetry. exact H1.
    + rewrite (signStep_iter_fixed 0 _ ltac:(reflexivity) _ H0). symmetry. exact H0.
    + rewrite (signStep_iter_fixed (- (1)) _ ltac:(reflexivity) _ Hm1).
      symmetry. exact Hm1.
  - intros T Tb st. apply Htot. split; assumption.
Qed.

Lemma APPROXSIGN_iterates_sign_step_witness :
  BootstrapKeepsSlots (Ideal.backend 4) (idealModel 4)
                      (Approx.eval (Approx.NewApproxOp idealEval)) /\
  (forall st r st',
      Approx.APPROXSIGN (Ideal.backend 4) (Approx.NewApproxOp idealEval) sampleCt
                        Approx.DefaultApproxSignConfig st = (Ok r, st') ->
      forall i,
        (slot (idealModel 4) r i
         == Nat.iter (Z.to_nat (Approx.Iterations Approx.DefaultApproxSignConfig))
                     signStep (slot (idealModel 4) sampleCt i))%Q /\
        ((slot (idealModel 4) sampleCt i == 1 \/ slot (idealModel 4) sampleCt i == 0
          \/ slot (idealModel 4) sampleCt i == - (1))%Q ->
         (slot (idealModel 4) r i == slot (idealModel 4) sampleCt i)%Q)).
Proof.
  assert (H1 : BootstrapKeepsSlots (Ideal.backend 4) (idealModel 4)
                                   (Approx.eval (Approx.NewApproxOp idealEval)))
    by (apply ideal_no_bootstrap_keeps; reflexivity).
  split; [exact H1 |].
  exact (proj1 (APPROXSIGN_iterates_sign_step (Ideal.backend 4) (idealModel 4)
                  (Approx.NewApproxOp idealEval) sampleCt
                  Approx.DefaultApproxSignConfig H1)).
Defined.

(** A run of one refinement on the slots 1/2, -1/2, 1, 0: 11/16, -11/16,
    1 and 0. *)
Example APPROXSIGN_run :
  match Approx.APPROXSIGN (Ideal.backend 4) (Approx.NewApproxOp idealEval)
                          (Ideal.of_list 5 [1 # 2; - (1 # 2); 1; 0]%Q)
                          {| Approx.Degree := 15; Approx.Iterations := 1 |} zeroStats with
  | (Ok r, _) => Qeq_bool (Ideal.val r 0) (11 # 16)
                 && Qeq_bool (Ideal.val r 1) (- (11 # 16))
                 && Qeq_bool (Ideal.val r 2) 1 && Qeq_bool (Ideal.val r 3) 0
  | (Err _, _) => false
  end = true.
Proof. vm_compute. reflexivity. Qed.

(** COMP: a result holds in every slot (sign(x1 - x2) + 1) / 2, sign being
    the iterate of [APPROXSIGN]: exactly 1/2 where the two inputs are
    equal, 1 where x1 - x2 = 1 and 0 where x1 - x2 = -1; the function
    returns whenever the backend and the bootstrapper, if there is one, do
    not fail. *)
Theorem COMP_halves_the_sign {Ct : Type} (B : Backend Ct) (M : PlainModel B)
        (a : Approx.ApproxOp Ct) (x1 x2 : Ct) (config : Approx.ApproxSignConfig) :
  BootstrapKeepsSlots B M (Approx.eval a) ->
  (forall st r st',
      Approx.COMP B a x1 x2 config st = (Ok r, st') ->
      forall i,
        (slot M r i
         == (Nat.iter (Z.to_nat (Approx.Iterations config)) signStep
                      (slot M x1 i - slot M x2 i) + 1) / 2)%Q /\
        ((slot M x1 i == slot M x2 i)%Q -> (slot M r i == 1 # 2)%Q) /\
        ((slot M x1 i - slot M x2 i == 1)%Q -> (slot M r i == 1)%Q) /\
        ((slot M x1 i - slot M x2 i == - (1))%Q -> (slot M r i == 0)%Q)) /\
  (BackendTotal B -> BootstrapNeverFails (Approx.eval a) ->
   forall st, exists r st', Approx.COMP B a x1 x2 config st = (Ok r, st')).
Proof.
  intros Hboot.
  change (Approx.COMP B a x1 x2 config)
    with (Approx.COMP B (Approx.NewApproxOp (Approx.eval a)) x1 x2 config).
  destruct (wp_settles
              (Approx.COMP B (Approx.NewApproxOp (Approx.eval a)) x1 x2 config)
              (BackendTotal B /\ BootstrapNeverFails (Approx.eval a))
              (fun _ r _ => forall i,
                   (slot M r i
                    == (Nat.iter (Z.to_nat (Approx.Iterations config)) signStep
                                 (slot M x1 i - slot M x2 i) + 1) / 2)%Q))
    as [Hret Htot].
  { intros F HF st. destruct (both_or HF) as [HF1 HF2].
    apply (wp_COMP B M (Approx.eval a) F HF1 Hboot HF2).
    intros r _ Hr. exact Hr. }
  split.
  - intros st r st' E i. pose proof (Hret st r st' E i) as Hr.
    split; [exact Hr | split; [| split]]; intros H; rewrite Hr.
    + rewrite (signStep_iter_fixed 0); [reflexivity | reflexivity |].
      rewrite H. ring.
    + rewrite (signStep_iter_fixed 1); [reflexivity | reflexivity | exact H].
    + rewrite (signStep_iter_fixed (- (1))); [reflexivity | reflexivity | exact H].
  - intros T Tb st. apply Htot. split; assumption.
Qed.

Lemma COMP_halves_the_sign_witness :
  BootstrapKeepsSlots (Ideal.backend 4) (idealModel 4)
                      (Approx.eval (Approx.NewApproxOp idealEval)) /\
  (forall st r st',
      Approx.COMP (Ideal.backend 4) (Approx.NewApproxOp idealEval) sampleCt sampleCt
                  Approx.DefaultApproxSignConfig st = (Ok r, st') ->
      forall i,
        (slot (idealModel 4) sampleCt i == slot (idealModel 4) sampleCt i)%Q ->
        (slot (idealModel 4) r i == 1 # 2)%Q).
Proof.
  assert (H1 : BootstrapKeepsSlots (Ideal.backend 4) (idealModel 4)
                                   (Approx.eval (Approx.NewApproxOp idealEval)))
    by (apply ideal_no_bootstrap_keeps; reflexivity).
  split; [exact H1 |].
  intros st r st' E i.
  exact (proj1 (proj2 (proj1 (COMP_halves_the_sign (Ideal.backend 4) (idealModel 4)
                                (Approx.NewApproxOp idealEval) sampleCt sampleCt
                                Approx.DefaultApproxSignConfig H1) st r st' E i))).
Defined.

(* ===================================================================== *)
(** * package categorical: masks and bin count *)
(* ===================================================================== *)

(** BuildMask: when the BMV blocks of the store hold the slot vectors
    [content], the masks [BuildMask] returns are as many as the validity
    blocks, and the mask of block b holds in every slot the validity slot
    times the BMV slot of each condition at b; without conditions the masks
    are the validity blocks and nothing is counted; and [BuildMask] returns
    whenever the backend does not fail and the store serves the blocks. *)
Theorem BuildMask_multiplies_the_conditions {Ct : Type} (B : Backend Ct)
        (M : PlainModel B) (e : Evaluator Ct) (validityBlocks : list Ct)
        (conditions : list Categorical.Condition)
        (bmvStore : Categorical.BMVStore Ct)
        (content : Categorical.Condition -> Z -> Z -> Q) :
  bmvContent M bmvStore content conditions ->
  (forall st masks st',
      Categorical.BuildMask B (Categorical.NewCategoricalOp e) validityBlocks
                            conditions bmvStore st = (Ok masks, st') ->
      List.length masks = List.length validityBlocks /\
      slotsAre M masks (maskVectors M content conditions validityBlocks)) /\
  (conditions = [] ->
   forall st,
     Categorical.BuildMask B (Categorical.NewCategoricalOp e) validityBlocks
                           conditions bmvStore st = (Ok validityBlocks, st)) /\
  (BackendTotal B -> bmvServed bmvStore conditions (len validityBlocks) ->
   forall st, exists masks st',
       Categorical.BuildMask B (Categorical.NewCategoricalOp e) validityBlocks
                             conditions bmvStore st = (Ok masks, st')).
Proof.
  intros Hcontent.
  destruct (wp_settles
              (Categorical.BuildMask B (Categorical.NewCategoricalOp e) validityBlocks
                                     conditions bmvStore)
              (BackendTotal B /\ bmvServed bmvStore conditions (len validityBlocks))
              (fun _ masks _ =>
                 slotsAre M masks (maskVectors M content conditions validityBlocks)))
    as [Hret Htot].
  { intros F HF st. destruct (both_or HF) as [HF1 HF2].
    apply (wp_BuildMask B M e F HF1 _ _ _ content); try assumption.
    intros masks _ Hm. exact Hm. }
  split; [| split].
  - intros st masks st' E. pose proof (Hret st masks st' E) as Hm.
    split; [| exact Hm].
    unfold slotsAre in Hm. apply Forall2_length in Hm. rewrite Hm.
    unfold maskVectors. rewrite length_map, length_combine, length_seq. lia.
  - intros -> st. unfold Categorical.BuildMask, Categorical.blockMask, for_range.
    cbn [for_range_from].
    assert (H : forall (l : list Ct) (acc : list Ct) (i : Z),
               for_range_from i l
                 (fun (_ : Z) (validity : Ct) (masks : list Ct) =>
                    bind (ret (CopyNew validity))
                         (fun mask => ret (masks ++ [mask])%list)) acc st
               = (Ok (acc ++ l)%list, st)).
    { induction l as [| x l IH]; intros acc i; cbn [for_range_from].
      - rewrite app_nil_r. reflexivity.
      - unfold bind at 1. unfold bind at 1. unfold ret at 1. unfold ret at 1.
        rewrite IH, <- app_assoc. reflexivity. }
    apply (H validityBlocks [] 0).
  - intros T Ts st. apply Htot. split; assumption.
Qed.

Lemma sample_bmv_content :
  bmvContent (idealModel 4) sampleBMVStore
             (fun _ _ => Ideal.val (Ideal.of_list 5 [1; 1; 0; 0]%Q)) sampleConditions.
Proof. intros cond b c _ E i. cbn in E. injection E as <-. reflexivity. Qed.

Lemma BuildMask_multiplies_the_conditions_witness :
  bmvContent (idealModel 4) sampleBMVStore
             (fun _ _ => Ideal.val (Ideal.of_list 5 [1; 1; 0; 0]%Q)) sampleConditions /\
  (forall st masks st',
      Categorical.BuildMask (Ideal.backend 4) (Categorical.NewCategoricalOp idealEval)
                            sampleValidity sampleConditions sampleBMVStore st
      = (Ok masks, st') ->
      List.length masks = List.length sampleValidity /\
      slotsAre (idealModel 4) masks
               (maskVectors (idealModel 4)
                            (fun _ _ => Ideal.val (Ideal.of_list 5 [1; 1; 0; 0]%Q))
                            sampleConditions sampleValidity)).
Proof.
  split; [exact sample_bmv_content |].
  exact (proj1 (BuildMask_multiplies_the_conditions (Ideal.backend 4) (idealModel 4)
                  idealEval sampleValidity sampleConditions sampleBMVStore
                  (fun _ _ => Ideal.val (Ideal.of_list 5 [1; 1; 0; 0]%Q))
                  sample_bmv_content)).
Defined.

(** Bc: on S = 2^k slots, without validity blocks [Bc] fails with
    "no blocks provided"; with some, when the BMV blocks of the store hold
    the slot vectors [content], a result [Bc] returns holds in slot 0 the
    sum over all blocks and slots of validity times the BMV of every
    condition: the number of rows that meet all conditions when these
    vectors hold 0 and 1; and [Bc] returns whenever the backend does not
    fail and the store serves the blocks. *)
Theorem Bc_sums_the_masks {Ct : Type} (B : Backend Ct) (M : PlainModel B)
        (e : Evaluator Ct) (validityBlocks : list Ct)
        (conditions : list Categorical.Condition)
        (bmvStore : Categorical.BMVStore Ct)
        (content : Categorical.Condition -> Z -> Z -> Q) (k : Z) :
  0 <= k <= 62 -> MaxSlots B = 2 ^ k ->
  bmvContent M bmvStore content conditions ->
  (validityBlocks = [] ->
   forall st,
     Categorical.Bc B (Categorical.NewCategoricalOp e) validityBlocks conditions
                    bmvStore st = (Err (Errorf "no blocks provided" []), st)) /\
  (validityBlocks <> [] ->
   (forall st r st',
       Categorical.Bc B (Categorical.NewCategoricalOp e) validityBlocks conditions
                      bmvStore st = (Ok r, st') ->
       (slot M r 0
        == blocksTotal (maskVectors M content conditions validityBlocks)
                       (MaxSlots B))%Q) /\
   (BackendTotal B -> bmvServed bmvStore conditions (len validityBlocks) ->
    forall st, exists r st',
        Categorical.Bc B (Categorical.NewCategoricalOp e) validityBlocks conditions
                       bmvStore st = (Ok r, st'))).
Proof.
  intros Hk HS Hcontent. split.
  - intros -> st. reflexivity.
  - intros Hne.
    destruct (wp_settles
                (Categorical.Bc B (Categorical.NewCategoricalOp e) validityBlocks
                                conditions bmvStore)
                (BackendTotal B /\ bmvServed bmvStore conditions (len validityBlocks))
                (fun _ r _ =>
                   (slot M r 0
                    == blocksTotal (maskVectors M content conditions validityBlocks)
                                   (MaxSlots B))%Q))
      as [Hret Htot].
    { intros F HF st. destruct (both_or HF) as [HF1 HF2].
      apply (wp_Bc B M e F HF1 _ _ _ content k); try assumption.
      intros r _ Hr. exact Hr. }
    split; [exact Hret |].
    intros T Ts st. apply Htot. split; assumption.
Qed.

Lemma Bc_sums_the_masks_witness :
  ((0 <= 2 <= 62 /\ MaxSlots (Ideal.backend 4) = 2 ^ 2) /\
   bmvContent (idealModel 4) sampleBMVStore
              (fun _ _ => Ideal.val (Ideal.of_list 5 [1; 1; 0; 0]%Q)) sampleConditions /\
   sampleValidity <> []) /\
  (forall st r st',
      Categorical.Bc (Ideal.backend 4) (Categorical.NewCategoricalOp idealEval)
                     sampleValidity sampleConditions sampleBMVStore st = (Ok r, st') ->
      (slot (idealModel 4) r 0
       == blocksTotal (maskVectors (idealModel 4)
                                   (fun _ _ => Ideal.val (Ideal.of_list 5 [1; 1; 0; 0]%Q))
                                   sampleConditions sampleValidity)
                      (MaxSlots (Ideal.backend 4)))%Q).
Proof.
  assert (H1 : 0 <= 2 <= 62) by lia.
  assert (H2 : MaxSlots (Ideal.backend 4) = 2 ^ 2) by reflexivity.
  assert (H3 : sampleValidity <> []) by discriminate.
  split; [split; [split | split]; try assumption; exact sample_bmv_content |].
  exact (proj1 (proj2 (Bc_sums_the_masks (Ideal.backend 4) (idealModel 4) idealEval
                         sampleValidity sampleConditions sampleBMVStore
                         (fun _ _ => Ideal.val (Ideal.of_list 5 [1; 1; 0; 0]%Q)) 2
                         H1 H2 sample_bmv_content) H3)).
Defined.

(** A run: of the six valid rows, the rows 0 and 1 of each block are
    marked; three of them are valid. *)
Example Bc_run :
  match Categorical.Bc (Ideal.backend 4) (Categorical.NewCategoricalOp idealEval)
                       sampleValidity sampleConditions sampleBMVStore zeroStats with
  | (Ok r, st) => Qeq_bool (Ideal.val r 0) 3 && (MulCount st =? 2)
  | (Err _, _) => false
  end = true.
Proof. vm_compute. reflexivity. Qed.

(* ===================================================================== *)
(** * package schema *)
(* ===================================================================== *)

Lemma wrap_wrap_add (a b : Z) : GoInt.wrap (GoInt.wrap a + b) = GoInt.wrap (a + b).
Proof.
  unfold GoInt.wrap. f_equal.
  replace ((a + 2 ^ 63) mod 2 ^ 64 - 2 ^ 63 + b + 2 ^ 63)
    with ((a + 2 ^ 63) mod 2 ^ 64 + b) by ring.
  rewrite Zplus_mod_idemp_l. f_equal. ring.
Qed.

Lemma Column_Validate_ok (c : Schema.Column) :
  Schema.Column_Validate c = Ok tt <-> wellFormedColumn c.
Proof.
  unfold Schema.Column_Validate, wellFormedColumn.
  destruct (String.eqb_spec (Schema.Name c) "") as [En | En].
  - split; [discriminate | intros [H _]; contradiction].
  - destruct (String.eqb_spec (Schema.ColType c) Schema.Numerical) as [E1 | E1].
    + split; [intros _; split; [exact En | left; exact E1] | reflexivity].
    + destruct (String.eqb_spec (Schema.ColType c) Schema.Categorical) as [E2 | E2];
        destruct (String.eqb_spec (Schema.ColType c) Schema.Ordinal) as [E3 | E3];
        cbn [orb];
        try (destruct (Z.leb_spec (Schema.CategoryCount c) 0) as [Hc | Hc]);
        (split;
         [ first [ discriminate
                 | intros _; split; [exact En | right; split; [auto | lia]] ]
         | first [ reflexivity
                 | intros [_ [H | [[H | H] H']]]; first [contradiction | lia] ] ]).
Qed.

Lemma Column_Validate_error (c : Schema.Column) (e : error) :
  Schema.Column_Validate c = Err e -> isErrorValue e.
Proof.
  unfold Schema.Column_Validate.
  repeat match goal with
         | |- context [if ?b then _ else _] => destruct b
         end; intros H; inversion H; exact I.
Qed.

Lemma validateColumns_error (cols : list Schema.Column) (names : StringSet) (e : error) :
  Schema.validateColumns cols names = Err e -> isErrorValue e.
Proof.
  revert names. induction cols as [| c cols IH]; intros names; cbn.
  - discriminate.
  - destruct (Schema.Column_Validate c) as [u | e0] eqn:Ec.
    + destruct (names (Schema.Name c)).
      * intros H. inversion H. exact I.
      * apply IH.
    + intros H. inversion H. apply Column_Validate_error in Ec.
      destruct e0; cbn in *; first [exact I | contradiction].
Qed.

Lemma setAdd_false (k k' : string) (s : StringSet) :
  setAdd k s k' = false <-> k' <> k /\ s k' = false.
Proof.
  unfold setAdd. destruct (String.eqb_spec k' k) as [E | E].
  - split; [discriminate | intros [H _]; contradiction].
  - split; [intros H; split; assumption | intros [_ H]; exact H].
Qed.

Lemma validateColumns_ok (cols : list Schema.Column) (names : StringSet) :
  Schema.validateColumns cols names = Ok tt <->
  Forall wellFormedColumn cols /\ NoDup (map Schema.Name cols) /\
  (forall c, In c cols -> names (Schema.Name c) = false).
Proof.
  revert names. induction cols as [| c cols IH]; intros names; cbn [Schema.validateColumns].
  - split; [intros _ | reflexivity].
    split; [constructor | split; [constructor | intros c []]].
  - destruct (Schema.Column_Validate c) as [[] | e0] eqn:Ec.
    + apply Column_Validate_ok in Ec.
      destruct (names (Schema.Name c)) eqn:En.
      * split; [discriminate |]. intros (_ & _ & H).
        rewrite (H c (or_introl eq_refl)) in En. discriminate.
      * rewrite IH. cbn [map]. split.
        -- intros (HF & HN & Hs). split; [constructor; assumption |]. split.
           ++ constructor; [| exact HN]. intros Hin. apply in_map_iff in Hin.
              destruct Hin as (c' & Hc' & Hin). apply Hs in Hin.
              apply setAdd_false in Hin. destruct Hin as [Hne _]. contradiction.
           ++ intros c' [<- | Hin]; [exact En |].
              apply Hs in Hin. apply setAdd_false in Hin. apply Hin.
        -- intros (HF & HN & Hs). inversion HF; subst. inversion HN; subst.
           split; [assumption |]. split; [assumption |].
           intros c' Hin. apply setAdd_false. split.
           ++ intros E. apply H3. rewrite <- E. apply in_map. exact Hin.
           ++ apply Hs. right. exact Hin.
    + split; [discriminate |]. intros (HF & _). inversion HF; subst.
      apply Column_Validate_ok in H1. congruence.
Qed.

Lemma TableSchema_Validate_ok (s : Schema.TableSchema) :
  Schema.TableSchema_Validate s = Ok tt <->
  Schema.TableName s <> "" /\ Schema.Columns s <> [] /\
  Forall wellFormedColumn (Schema.Columns s) /\
  NoDup (map Schema.Name (Schema.Columns s)).
Proof.
  unfold Schema.TableSchema_Validate, Schema.len.
  destruct (String.eqb_spec (Schema.TableName s) "") as [En | En].
  - split; [discriminate | intros [H _]; contradiction].
  - destruct (Schema.Columns s) as [| c cols] eqn:Ecols.
    + cbn. split; [discriminate | intros (_ & H & _); contradiction].
    + destruct (Z.eqb_spec (Z.of_nat (List.length (c :: cols))) 0) as [E0 | _];
        [cbn [List.length] in E0; lia |].
      rewrite validateColumns_ok. split.
      * intros (HF & HN & _). repeat split; try assumption. discriminate.
      * intros (_ & _ & HF & HN). repeat split; try assumption.
Qed.

(** Schema validation: [TableSchema.Validate] accepts a schema exactly when
    the table has a name and at least one column, every column has a name
    and is numerical or is categorical or ordinal with a positive category
    count, and no two columns share a name; what it returns otherwise is
    an error value, never a panic. *)
Theorem TableSchema_Validate_accepts_iff (s : Schema.TableSchema) :
  (Schema.TableSchema_Validate s = Ok tt <->
   Schema.TableName s <> "" /\ Schema.Columns s <> [] /\
   Forall wellFormedColumn (Schema.Columns s) /\
   NoDup (map Schema.Name (Schema.Columns s))) /\
  (forall e, Schema.TableSchema_Validate s = Err e -> isErrorValue e).
Proof.
  split; [apply TableSchema_Validate_ok |].
  intros e. unfold Schema.TableSchema_Validate, Schema.len.
  destruct (String.eqb (Schema.TableName s) ""); [intros H; inversion H; exact I |].
  destruct (Z.of_nat (List.length (Schema.Columns s)) =? 0);
    [intros H; inversion H; exact I |].
  apply validateColumns_error.
Qed.

(** A run: the sample schema passes, and a second column called "income"
    is refused as a duplicate. *)
Example TableSchema_Validate_run :
  Schema.TableSchema_Validate sampleSchema = Ok tt /\
  Schema.TableSchema_Validate
    {| Schema.TableName := "t"; Schema.TableDescription := "d";
       Schema.Columns := (Schema.Columns sampleSchema ++ Schema.Columns sampleSchema)%list |}
  = Err (Errorf "duplicate column name: %q" [ArgStr "income"]).
Proof. split; reflexivity. Qed.

Lemma getColumnLoop_index (cols : list Schema.Column) (name : string) (i : Z) :
  match Schema.getColumnLoop cols name with
  | None => Schema.getColumnIndexLoop i cols name = -1 /\
            forall c, In c cols -> Schema.Name c <> name
  | Some c => Schema.Name c = name /\
              i <= Schema.getColumnIndexLoop i cols name /\
              nth_error cols (Z.to_nat (Schema.getColumnIndexLoop i cols name - i))
              = Some c
  end.
Proof.
  revert i. induction cols as [| c0 cols IH]; intros i; cbn.
  - split; [reflexivity | intros c []].
  - destruct (String.eqb_spec (Schema.Name c0) name) as [E | E].
    + split; [exact E |]. split; [lia |]. rewrite Z.sub_diag. reflexivity.
    + specialize (IH (i + 1)).
      destruct (Schema.getColumnLoop cols name) as [c |].
      * destruct IH as (Hn & Hle & Hnth). split; [exact Hn |]. split; [lia |].
        replace (Z.to_nat (Schema.getColumnIndexLoop (i + 1) cols name - i))
          with (S (Z.to_nat (Schema.getColumnIndexLoop (i + 1) cols name - (i + 1))))
          by lia.
        exact Hnth.
      * destruct IH as (Hi & Hall). split; [exact Hi |].
        intros c [<- | Hin]; [exact E | apply Hall; exact Hin].
Qed.

Lemma getColumnLoop_nodup (cols : list Schema.Column) :
  NoDup (map Schema.Name cols) ->
  forall (i : nat) (c : Schema.Column) (k : Z),
    nth_error cols i = Some c ->
    Schema.getColumnLoop cols (Schema.Name c) = Some c /\
    Schema.getColumnIndexLoop k cols (Schema.Name c) = k + Z.of_nat i.
Proof.
  induction cols as [| c0 cols IH]; intros HN i c k Hnth.
  - destruct i; discriminate.
  - inversion HN as [| x l Hnotin HN']; subst. destruct i as [| i]; cbn in Hnth.
    + injection Hnth as ->. cbn. rewrite String.eqb_refl. split; [reflexivity | lia].
    + cbn. destruct (String.eqb_spec (Schema.Name c0) (Schema.Name c)) as [E | E].
      * exfalso. apply Hnotin. rewrite E. apply in_map.
        apply nth_error_In with (n := i). exact Hnth.
      * destruct (IH HN' i c (k + 1) Hnth) as [H1 H2]. split; [exact H1 | lia].
Qed.

(** Column lookup: in a schema [TableSchema.Validate] accepts, [GetColumn]
    by the name of the column at position i returns that very column and
    [GetColumnIndex] returns i.  In any schema, a name no column bears
    gives the nil pointer and -1, and what [GetColumn] returns bears the
    name asked for and sits at the position [GetColumnIndex] returns. *)
Theorem GetColumn_finds_every_column (s : Schema.TableSchema) :
  (Schema.TableSchema_Validate s = Ok tt ->
   forall (i : nat) (c : Schema.Column),
     nth_error (Schema.Columns s) i = Some c ->
     Schema.GetColumn s (Schema.Name c) = Some c /\
     Schema.GetColumnIndex s (Schema.Name c) = Z.of_nat i) /\
  (forall name,
      (forall c, In c (Schema.Columns s) -> Schema.Name c <> name) <->
      Schema.GetColumn s name = None) /\
  (forall name,
      Schema.GetColumn s name = None <-> Schema.GetColumnIndex s name = -1) /\
  (forall name c,
      Schema.GetColumn s name = Some c ->
      Schema.Name c = name /\ 0 <= Schema.GetColumnIndex s name /\
      nth_error (Schema.Columns s) (Z.to_nat (Schema.GetColumnIndex s name)) = Some c).
Proof.
  unfold Schema.GetColumn, Schema.GetColumnIndex.
  split; [| split; [| split]].
  - intros Hv i c Hnth. apply TableSchema_Validate_ok in Hv.
    destruct Hv as (_ & _ & _ & HN).
    destruct (getColumnLoop_nodup (Schema.Columns s) HN i c 0 Hnth) as [H1 H2].
    split; [exact H1 | lia].
  - intros name. pose proof (getColumnLoop_index (Schema.Columns s) name 0) as H.
    destruct (Schema.getColumnLoop (Schema.Columns s) name) as [c |].
    + destruct H as (Hn & _ & Hnth). split; [| discriminate].
      intros Hall. exfalso. apply (Hall c); [| exact Hn].
      apply nth_error_In in Hnth. exact Hnth.
    + destruct H as [_ Hall]. split; [reflexivity | intros _; exact Hall].
  - intros name. pose proof (getColumnLoop_index (Schema.Columns s) name 0) as H.
    destruct (Schema.getColumnLoop (Schema.Columns s) name) as [c |].
    + destruct H as (_ & Hle & _). split; [discriminate | lia].
    + destruct H as [Hi _]. split; [intros _; exact Hi | reflexivity].
  - intros name c E. pose proof (getColumnLoop_index (Schema.Columns s) name 0) as H.
    rewrite E in H. destruct H as (Hn & Hle & Hnth). rewrite Z.sub_0_r in Hnth.
    split; [exact Hn | split; [exact Hle | exact Hnth]].
Qed.

Lemma GetColumn_finds_every_column_witness :
  Schema.TableSchema_Validate sampleSchema = Ok tt /\
  (forall (i : nat) (c : Schema.Column),
      nth_error (Schema.Columns sampleSchema) i = Some c ->
      Schema.GetColumn sampleSchema (Schema.Name c) = Some c /\
      Schema.GetColumnIndex sampleSchema (Schema.Name c) = Z.of_nat i).
Proof.
  assert (H : Schema.TableSchema_Validate sampleSchema = Ok tt) by reflexivity.
  split; [exact H |].
  exact (proj1 (GetColumn_finds_every_column sampleSchema) H).
Defined.

(** A run: "region" is the column at index 1, and "age" is not there. *)
Example GetColumn_run :
  Schema.GetColumnIndex sampleSchema "region" = 1 /\
  option_map Schema.CategoryCount (Schema.GetColumn sampleSchema "region") = Some 3 /\
  Schema.GetColumnIndex sampleSchema "age" = -1 /\
  Schema.GetColumn sampleSchema "age" = None.
Proof. repeat split; reflexivity. Qed.

(** [ceil(R / S)] as the source computes it, when R + S - 1 is an [int]. *)
Lemma block_count_ceiling (R S : Z) :
  0 < R -> 0 < S -> R + S - 1 <= GoInt.max_int ->
  let q := GoInt.wrap (Z.quot (GoInt.sub (GoInt.add R S) 1) S) in
  (q - 1) * S < R <= q * S /\ 1 <= q <= R.
Proof.
  intros HR HS Hmax. unfold GoInt.sub, GoInt.add.
  replace (GoInt.wrap (R + S) - 1) with (GoInt.wrap (R + S) + (- 1)) by ring.
  rewrite wrap_wrap_add.
  assert (Hin : GoInt.in_range (R + S + - 1))
    by (unfold GoInt.in_range, GoInt.min_int, GoInt.max_int in *; lia).
  rewrite (wrap_small _ Hin).
  rewrite Z.quot_div_nonneg by lia.
  pose proof (Z.div_mod (R + S + - 1) S ltac:(lia)) as Hdm.
  pose proof (Z.mod_pos_bound (R + S + - 1) S HS) as Hmod.
  set (q := (R + S + - 1) / S) in *.
  assert (Hq : (q - 1) * S < R <= q * S) by nia.
  assert (Hq1 : 1 <= q <= R) by nia.
  assert (Hqin : GoInt.in_range q)
    by (unfold GoInt.in_range, GoInt.min_int, GoInt.max_int in *; lia).
  cbv zeta. rewrite (wrap_small _ Hqin). split; assumption.
Qed.

(** Table metadata: [NewTableMetadata] passes on the error of a schema
    [Validate] refuses, refuses a row count or a slot count that is not
    positive, and otherwise returns metadata that holds its arguments and
    that [TableMetadata.Validate] accepts; when R + S - 1 is an [int], the
    block count NB it stores is the ceiling of R / S:
    (NB - 1) * S < R <= NB * S. *)
Theorem NewTableMetadata_counts_blocks (schema : Schema.TableSchema) (R S : Z)
        (paramsHash : string) (logScale : Z) (dataOwnerID : string) :
  Schema.TableSchema_Validate schema = Ok tt ->
  (R <= 0 ->
   Schema.NewTableMetadata schema R S paramsHash logScale dataOwnerID
   = Err (Errorf "row count must be positive" [])) /\
  (0 < R -> S <= 0 ->
   Schema.NewTableMetadata schema R S paramsHash logScale dataOwnerID
   = Err (Errorf "slots must be positive" [])) /\
  (0 < R -> 0 < S ->
   exists m,
     Schema.NewTableMetadata schema R S paramsHash logScale dataOwnerID = Ok m /\
     Schema.Schema m = schema /\ Schema.RowCount m = R /\ Schema.Slots m = S /\
     Schema.ParamsHash m = paramsHash /\ Schema.LogScale m = logScale /\
     Schema.DataOwnerID m = dataOwnerID /\ Schema.Version m = "1.0" /\
     Schema.TableMetadata_Validate m = Ok tt /\
     (R + S - 1 <= GoInt.max_int ->
      (Schema.BlockCount m - 1) * S < R <= Schema.BlockCount m * S)).
Proof.
  intros Hv. unfold Schema.NewTableMetadata. rewrite Hv.
  split; [| split].
  - intros HR. destruct (Z.leb_spec R 0); [reflexivity | lia].
  - intros HR HS. destruct (Z.leb_spec R 0); [lia |].
    destruct (Z.leb_spec S 0); [reflexivity | lia].
  - intros HR HS. destruct (Z.leb_spec R 0); [lia |].
    destruct (Z.leb_spec S 0); [lia |].
    eexists. split; [reflexivity |]. cbn.
    repeat (split; [reflexivity |]). split.
    + unfold Schema.TableMetadata_Validate. cbn. rewrite Hv.
      destruct (Z.leb_spec R 0); [lia |]. destruct (Z.leb_spec S 0); [lia |].
      rewrite Z.eqb_refl. reflexivity.
    + intros Hmax. apply (block_count_ceiling R S HR HS Hmax).
Qed.

Lemma NewTableMetadata_counts_blocks_witness :
  (Schema.TableSchema_Validate sampleSchema = Ok tt /\ 0 < 100 /\ 0 < 30) /\
  exists m,
    Schema.NewTableMetadata sampleSchema 100 30 "hash" 40 "owner" = Ok m /\
    Schema.Schema m = sampleSchema /\ Schema.RowCount m = 100 /\ Schema.Slots m = 30 /\
    Schema.ParamsHash m = "hash" /\ Schema.LogScale m = 40 /\
    Schema.DataOwnerID m = "owner" /\ Schema.Version m = "1.0" /\
    Schema.TableMetadata_Validate m = Ok tt /\
    (100 + 30 - 1 <= GoInt.max_int ->
     (Schema.BlockCount m - 1) * 30 < 100 <= Schema.BlockCount m * 30).
Proof.
  assert (H : Schema.TableSchema_Validate sampleSchema = Ok tt) by reflexivity.
  assert (H1 : 0 < 100) by lia.
  assert (H2 : 0 < 30) by lia.
  split; [split; [exact H | split; assumption] |].
  apply (NewTableMetadata_counts_blocks sampleSchema 100 30 "hash" 40 "owner" H);
    assumption.
Defined.

(** A run: 100 rows in blocks of 30 slots are 4 blocks. *)
Example NewTableMetadata_run :
  Schema.NewTableMetadata sampleSchema 100 30 "hash" 40 "owner" = Ok sampleMetadata.
Proof. reflexivity. Qed.

Lemma TableMetadata_Validate_ok (m : Schema.TableMetadata) :
  Schema.TableMetadata_Validate m = Ok tt ->
  0 < Schema.RowCount m /\ 0 < Schema.Slots m /\
  Schema.BlockCount m
  = GoInt.wrap (Z.quot (GoInt.sub (GoInt.add (Schema.RowCount m) (Schema.Slots m)) 1)
                       (Schema.Slots m)).
Proof.
  unfold Schema.TableMetadata_Validate.
  destruct (Schema.TableSchema_Validate (Schema.Schema m)); [| discriminate].
  destruct (Z.leb_spec (Schema.RowCount m) 0); [discriminate |].
  destruct (Z.leb_spec (Schema.Slots m) 0); [discriminate |].
  match goal with
  | |- context [negb (?a =? ?b)] => destruct (Z.eqb_spec a b) as [E | E]
  end; [| discriminate].
  intros _. split; [assumption | split; [assumption | exact E]].
Qed.

(** Block ranges: for metadata [TableMetadata.Validate] accepts, with
    R + S - 1 an [int], the blocks 0 .. NB - 1 cut the rows 0 .. R - 1
    into consecutive ranges: block b starts at row b * S and ends before
    min((b + 1) * S, R); [RowsInBlock] is between 1 and S, and is S for
    every block but the last; the last block ends at row R. *)
Theorem BlockRange_partitions_rows (m : Schema.TableMetadata) (b : Z) :
  Schema.TableMetadata_Validate m = Ok tt ->
  Schema.RowCount m + Schema.Slots m - 1 <= GoInt.max_int ->
  0 <= b < Schema.BlockCount m ->
  Schema.BlockRange m b
  = (b * Schema.Slots m, Z.min ((b + 1) * Schema.Slots m) (Schema.RowCount m)) /\
  1 <= Schema.RowsInBlock m b <= Schema.Slots m /\
  Schema.RowsInBlock m b = snd (Schema.BlockRange m b) - fst (Schema.BlockRange m b) /\
  (b + 1 < Schema.BlockCount m ->
   Schema.RowsInBlock m b = Schema.Slots m /\
   snd (Schema.BlockRange m b) = fst (Schema.BlockRange m (b + 1))) /\
  (b + 1 = Schema.BlockCount m -> snd (Schema.BlockRange m b) = Schema.RowCount m).
Proof.
  intros Hv Hmax Hb.
  destruct (TableMetadata_Validate_ok m Hv) as (HR & HS & HNB).
  pose proof (block_count_ceiling _ _ HR HS Hmax) as Hq. cbv zeta in Hq.
  rewrite <- HNB in Hq. destruct Hq as [Hq Hq1].
  set (R := Schema.RowCount m) in *. set (S := Schema.Slots m) in *.
  set (NB := Schema.BlockCount m) in *.
  assert (Hstart : GoInt.mul b S = b * S).
  { unfold GoInt.mul. apply wrap_small.
    unfold GoInt.in_range, GoInt.min_int, GoInt.max_int in *. nia. }
  assert (Hend : GoInt.add (b * S) S = (b + 1) * S).
  { unfold GoInt.add. replace (b * S + S) with ((b + 1) * S) by ring.
    apply wrap_small. unfold GoInt.in_range, GoInt.min_int, GoInt.max_int in *. nia. }
  assert (Hrange : Schema.BlockRange m b = (b * S, Z.min ((b + 1) * S) R)).
  { unfold Schema.BlockRange. fold S R. rewrite Hstart, Hend.
    destruct (Z.ltb_spec R ((b + 1) * S)); f_equal; lia. }
  assert (Hrows : Schema.RowsInBlock m b = Z.min ((b + 1) * S) R - b * S).
  { unfold Schema.RowsInBlock. rewrite Hrange. unfold GoInt.sub. apply wrap_small.
    unfold GoInt.in_range, GoInt.min_int, GoInt.max_int in *. nia. }
  split; [exact Hrange |]. rewrite Hrows, Hrange. cbn [fst snd].
  split; [nia |]. split; [reflexivity |]. split.
  - intros Hnext.
    assert (Hstart' : GoInt.mul (b + 1) S = (b + 1) * S).
    { unfold GoInt.mul. apply wrap_small.
      unfold GoInt.in_range, GoInt.min_int, GoInt.max_int in *. nia. }
    unfold Schema.BlockRange. fold S R. rewrite Hstart'. cbn [fst]. nia.
  - intros Hlast. nia.
Qed.

Lemma BlockRange_partitions_rows_witness :
  (Schema.TableMetadata_Validate sampleMetadata = Ok tt /\
   Schema.RowCount sampleMetadata + Schema.Slots sampleMetadata - 1 <= GoInt.max_int /\
   0 <= 3 < Schema.BlockCount sampleMetadata) /\
  Schema.BlockRange sampleMetadata 3
  = (3 * Schema.Slots sampleMetadata,
     Z.min ((3 + 1) * Schema.Slots sampleMetadata) (Schema.RowCount sampleMetadata)) /\
  1 <= Schema.RowsInBlock sampleMetadata 3 <= Schema.Slots sampleMetadata.
Proof.
  assert (H1 : Schema.TableMetadata_Validate sampleMetadata = Ok tt) by reflexivity.
  assert (H2 : Schema.RowCount sampleMetadata + Schema.Slots sampleMetadata - 1
               <= GoInt.max_int) by (unfold GoInt.max_int; cbn; lia).
  assert (H3 : 0 <= 3 < Schema.BlockCount sampleMetadata) by (cbn; lia).
  split; [split; [exact H1 | split; assumption] |].
  pose proof (BlockRange_partitions_rows sampleMetadata 3 H1 H2 H3) as H.
  split; [apply H | apply H].
Defined.

(** A run: the last of the four blocks holds the rows 90 to 99. *)
Example BlockRange_run :
  Schema.BlockRange sampleMetadata 0 = (0, 30) /\
  Schema.BlockRange sampleMetadata 3 = (90, 100) /\
  Schema.RowsInBlock sampleMetadata 3 = 10.
Proof. repeat split; reflexivity. Qed.

(* ===================================================================== *)
(** * package storage: truncated records and the table store *)
(* ===================================================================== *)

Lemma len_range (data : list Storage.byte) :
  Storage.len data <= GoInt.max_int -> 0 <= Storage.len data < 2 ^ 64.
Proof. unfold Storage.len, GoInt.max_int. lia. Qed.

Lemma ReadFull_short (n : Z) (r : list Storage.byte) :
  0 < n -> Storage.len r < n ->
  exists cause rest, Storage.ReadFull n r = (Err (External cause), rest).
Proof.
  intros Hn Hr. unfold Storage.ReadFull.
  destruct (Z.leb_spec n 0); [lia |].
  destruct (Storage.len r =? 0); [eexists; eexists; reflexivity |].
  destruct (Z.ltb_spec (Storage.len r) n); [eexists; eexists; reflexivity | lia].
Qed.

(** Truncated records: of the record [WriteCiphertext] writes for a
    ciphertext (the 8 length bytes, then the marshaled bytes), every
    proper prefix makes [ReadCiphertext] return an error value, "failed to
    read length" when fewer than 8 bytes are there and "failed to read
    ciphertext data" otherwise, without Lattigo's codec being asked: a
    truncated file never yields a ciphertext, nor a panic. *)
Theorem ReadCiphertext_rejects_truncated {Ct : Type} (C : Storage.Codec Ct)
        (data p q : list Storage.byte) :
  Storage.len data <= GoInt.max_int ->
  (p ++ q)%list = (Storage.PutUint64 (Storage.len data) ++ data)%list ->
  q <> [] ->
  ((List.length p < 8)%nat ->
   exists cause,
     fst (Storage.ReadCiphertext C p)
     = Err (Wrapf "failed to read length: %w" [] (External cause))) /\
  ((8 <= List.length p)%nat ->
   exists cause,
     fst (Storage.ReadCiphertext C p)
     = Err (Wrapf "failed to read ciphertext data: %w" [] (External cause))).
Proof.
  intros Hlen Hsplit Hq. pose proof (len_range data Hlen) as Hrange. split.
  - intros Hp.
    destruct (ReadFull_short 8 p ltac:(lia) ltac:(unfold Storage.len; lia))
      as (cause & rest & E).
    exists cause. unfold Storage.ReadCiphertext, Storage.binaryRead, bind, onErr, ret.
    rewrite E. reflexivity.
  - intros Hp.
    assert (Hp' : exists p', p = (Storage.PutUint64 (Storage.len data) ++ p')%list /\
                             data = (p' ++ q)%list).
    { apply app_eq_app in Hsplit. destruct Hsplit as (l & [[H1 H2] | [H1 H2]]).
      - exists l. split; assumption.
      - assert (Hl : l = []).
        { apply (f_equal (@List.length _)) in H1. rewrite length_app in H1.
          cbn [Storage.PutUint64 List.length] in H1. destruct l; [reflexivity |].
          cbn [List.length] in H1. lia. }
        subst l. exists []. split.
        + rewrite app_nil_r in H1. rewrite app_nil_r. symmetry. exact H1.
        + cbn in H2. cbn. symmetry. exact H2. }
    destruct Hp' as (p' & -> & Hdata).
    assert (Hshort : Storage.len p' < Storage.len data).
    { rewrite Hdata. unfold Storage.len. rewrite length_app.
      destruct q; [contradiction | cbn [List.length]; lia]. }
    destruct (ReadFull_short (Storage.len data) p'
                ltac:(unfold Storage.len in *; lia) Hshort) as (cause & rest & E).
    exists cause. unfold Storage.ReadCiphertext, Storage.binaryRead, bind, onErr, ret.
    change 8 with (Storage.len (Storage.PutUint64 (Storage.len data))) at 1.
    rewrite ReadFull_app, (Uint64_PutUint64 _ Hrange).
    destruct (Z.ltb_spec GoInt.max_int (Storage.len data)); [lia |].
    rewrite E. reflexivity.
Qed.

Lemma ReadCiphertext_rejects_truncated_witness :
  (Storage.len sampleBlob <= GoInt.max_int /\
   ((Storage.PutUint64 3 ++ [Byte.x01]) ++ [Byte.xab; Byte.xff])%list
   = (Storage.PutUint64 (Storage.len sampleBlob) ++ sampleBlob)%list /\
   [Byte.xab; Byte.xff] <> [] /\
   (8 <= List.length (Storage.PutUint64 3 ++ [Byte.x01]))%nat) /\
  exists cause,
    fst (Storage.ReadCiphertext Ideal.blobCodec (Storage.PutUint64 3 ++ [Byte.x01])%list)
    = Err (Wrapf "failed to read ciphertext data: %w" [] (External cause)).
Proof.
  assert (H1 : Storage.len sampleBlob <= GoInt.max_int)
    by (unfold GoInt.max_int; cbn; lia).
  assert (H2 : ((Storage.PutUint64 3 ++ [Byte.x01]) ++ [Byte.xab; Byte.xff])%list
               = (Storage.PutUint64 (Storage.len sampleBlob) ++ sampleBlob)%list)
    by reflexivity.
  assert (H3 : [Byte.xab; Byte.xff] <> ([] : list Storage.byte)) by discriminate.
  assert (H4 : (8 <= List.length (Storage.PutUint64 3 ++ [Byte.x01]))%nat)
    by (cbn; lia).
  split; [split; [exact H1 | split; [exact H2 | split; [exact H3 | exact H4]]] |].
  apply (ReadCiphertext_rejects_truncated Ideal.blobCodec sampleBlob
           (Storage.PutUint64 3 ++ [Byte.x01])%list [Byte.xab; Byte.xff] H1 H2 H3).
  exact H4.
Defined.

(** A run: the record of three bytes cut after its first data byte, and
    cut inside the length. *)
Example ReadCiphertext_truncated_run :
  fst (Storage.ReadCiphertext Ideal.blobCodec (Storage.PutUint64 3 ++ [Byte.x01])%list)
  = Err (Wrapf "failed to read ciphertext data: %w" [] (External "unexpected EOF")) /\
  fst (Storage.ReadCiphertext Ideal.blobCodec [Byte.x03; Byte.x00])
  = Err (Wrapf "failed to read length: %w" [] (External "unexpected EOF")) /\
  fst (Storage.ReadCiphertext Ideal.blobCodec [])
  = Err (Wrapf "failed to read length: %w" [] (External "EOF")).
Proof. repeat split; reflexivity. Qed.

Lemma writeFile_same (path : string) (content : list Storage.byte) (fs : Store.FileSystem) :
  Store.file (Store.writeFile path content fs) path = Some content.
Proof. cbn. rewrite String.eqb_refl. reflexivity. Qed.

Lemma writeFile_other (path p : string) (content : list Storage.byte)
      (fs : Store.FileSystem) :
  p <> path -> Store.file (Store.writeFile path content fs) p = Store.file fs p.
Proof. intros H. cbn. destruct (String.eqb_spec p path); [contradiction | reflexivity]. Qed.

Section StoreFacts.

Context {Ct : Type}.
Variable C : Storage.Codec Ct.

Lemma SaveCiphertext_saves (path : string) (ct : Ct) (data : list Storage.byte)
      (fs : Store.FileSystem) :
  Store.denied fs path = false ->
  Storage.MarshalBinary C ct = Ok data ->
  Storage.len data <= GoInt.max_int ->
  Store.SaveCiphertext C path ct fs
  = (Ok tt, Store.writeFile path (Storage.PutUint64 (Storage.len data) ++ data)%list
                            (Store.writeFile path [] fs)).
Proof.
  intros Hd Hm Hlen. pose proof (len_range data Hlen) as Hrange.
  unfold Store.SaveCiphertext, Store.osCreate. rewrite Hd.
  unfold Storage.WriteCiphertext, Storage.binaryWrite, Storage.Write, bind, onErr,
    liftR, ret.
  rewrite Hm. unfold GoInt.to_uint64. rewrite Z.mod_small by exact Hrange.
  reflexivity.
Qed.

Lemma SaveCiphertext_marshal_fails (path : string) (ct : Ct) (e : error)
      (fs : Store.FileSystem) :
  Store.denied fs path = false ->
  Storage.MarshalBinary C ct = Err e ->
  Store.SaveCiphertext C path ct fs
  = (Err (wrapf "failed to marshal ciphertext: %w" [] e),
     Store.writeFile path [] (Store.writeFile path [] fs)).
Proof.
  intros Hd Hm. unfold Store.SaveCiphertext, Store.osCreate. rewrite Hd.
  unfold Storage.WriteCiphertext, bind, onErr, liftR. rewrite Hm. reflexivity.
Qed.

Lemma LoadCiphertext_reads (path : string) (content : list Storage.byte)
      (fs : Store.FileSystem) :
  Store.file fs path = Some content ->
  Store.LoadCiphertext C path fs = (fst (Storage.ReadCiphertext C content), fs).
Proof. intros H. unfold Store.LoadCiphertext, Store.osOpen. rewrite H. reflexivity. Qed.

Lemma ReadCiphertext_record (ct : Ct) (data : list Storage.byte) :
  (forall c d, Storage.MarshalBinary C c = Ok d -> Storage.UnmarshalBinary C d = Ok c) ->
  Storage.MarshalBinary C ct = Ok data ->
  Storage.len data <= GoInt.max_int ->
  Storage.ReadCiphertext C (Storage.PutUint64 (Storage.len data) ++ data)%list
  = (Ok ct, []).
Proof.
  intros Hcodec Hm Hlen. pose proof (len_range data Hlen) as Hrange.
  unfold Storage.ReadCiphertext, Storage.binaryRead, bind, onErr, ret.
  change 8 with (Storage.len (Storage.PutUint64 (Storage.len data))) at 1.
  rewrite ReadFull_app, (Uint64_PutUint64 _ Hrange).
  destruct (Z.ltb_spec GoInt.max_int (Storage.len data)); [lia |].
  rewrite <- (app_nil_r data) at 2. rewrite ReadFull_app.
  unfold liftR. rewrite (Hcodec ct data Hm). reflexivity.
Qed.

End StoreFacts.

(** The table store: when Lattigo's codec decodes what it encodes,
    [LoadBlock] after [SaveBlock] of the same column and block index
    returns the ciphertext saved, every other file being left as it was.
    [SaveBlock] at a path that cannot be created fails and changes
    nothing; when the ciphertext cannot be marshaled it fails after the
    file was emptied, so that a block saved there before is lost and
    [LoadBlock] then fails to read the length; [LoadBlock] of a block
    never saved fails to open the file. *)
Theorem SaveBlock_LoadBlock_round_trip {Ct : Type} (C : Storage.Codec Ct)
        (Join : list string -> string) (Sprintf : string -> list fmt_arg -> string)
        (ts : Store.TableStore) (col : string) (idx : Z) (ct : Ct)
        (fs : Store.FileSystem) :
  (forall c d, Storage.MarshalBinary C c = Ok d -> Storage.UnmarshalBinary C d = Ok c) ->
  (Store.denied fs (Store.blockPath Join Sprintf ts col idx) = false ->
   forall data,
     Storage.MarshalBinary C ct = Ok data -> Storage.len data <= GoInt.max_int ->
     exists fs',
       Store.SaveBlock C Join Sprintf ts col idx ct fs = (Ok tt, fs') /\
       Store.LoadBlock C Join Sprintf ts col idx fs' = (Ok ct, fs') /\
       Store.file fs' (Store.blockPath Join Sprintf ts col idx)
       = Some (Storage.PutUint64 (Storage.len data) ++ data)%list /\
       forall p, p <> Store.blockPath Join Sprintf ts col idx ->
                 Store.file fs' p = Store.file fs p) /\
  (Store.denied fs (Store.blockPath Join Sprintf ts col idx) = true ->
   exists cause,
     Store.SaveBlock C Join Sprintf ts col idx ct fs
     = (Err (Wrapf "failed to create ciphertext file: %w" [] (External cause)), fs)) /\
  (Store.denied fs (Store.blockPath Join Sprintf ts col idx) = false ->
   forall e,
     Storage.MarshalBinary C ct = Err e ->
     exists fs',
       Store.SaveBlock C Join Sprintf ts col idx ct fs
       = (Err (wrapf "failed to marshal ciphertext: %w" [] e), fs') /\
       Store.file fs' (Store.blockPath Join Sprintf ts col idx) = Some [] /\
       Store.LoadBlock C Join Sprintf ts col idx fs'
       = (Err (Wrapf "failed to read length: %w" [] (External "EOF")), fs')) /\
  (Store.file fs (Store.blockPath Join Sprintf ts col idx) = None ->
   exists cause,
     Store.LoadBlock C Join Sprintf ts col idx fs
     = (Err (Wrapf "failed to open ciphertext file: %w" [] (External cause)), fs)).
Proof.
  intros Hcodec. unfold Store.SaveBlock, Store.LoadBlock.
  set (path := Store.blockPath Join Sprintf ts col idx).
  split; [| split; [| split]].
  - intros Hd data Hm Hlen.
    rewrite (SaveCiphertext_saves C path ct data fs Hd Hm Hlen).
    eexists. split; [reflexivity |]. split; [| split].
    + rewrite (LoadCiphertext_reads C path _ _ (writeFile_same _ _ _)).
      rewrite (ReadCiphertext_record C ct data Hcodec Hm Hlen). reflexivity.
    + apply writeFile_same.
    + intros p Hp. rewrite !writeFile_other by exact Hp. reflexivity.
  - intros Hd. unfold Store.SaveCiphertext, Store.osCreate. rewrite Hd.
    eexists. reflexivity.
  - intros Hd e Hm. rewrite (SaveCiphertext_marshal_fails C path ct e fs Hd Hm).
    eexists. split; [reflexivity |]. split; [apply writeFile_same |].
    rewrite (LoadCiphertext_reads C path _ _ (writeFile_same _ _ _)). reflexivity.
  - intros Hf. unfold Store.LoadCiphertext, Store.osOpen. rewrite Hf.
    eexists. reflexivity.
Qed.

Lemma SaveBlock_LoadBlock_round_trip_witness :
  ((forall c d, Storage.MarshalBinary Ideal.blobCodec c = Ok d ->
                Storage.UnmarshalBinary Ideal.blobCodec d = Ok c) /\
   Store.denied emptyFS (Store.blockPath sampleJoin sampleSprintf sampleStore "income" 0)
   = false /\
   Storage.MarshalBinary Ideal.blobCodec sampleBlob = Ok sampleBlob /\
   Storage.len sampleBlob <= GoInt.max_int) /\
  exists fs',
    Store.SaveBlock Ideal.blobCodec sampleJoin sampleSprintf sampleStore "income" 0
                    sampleBlob emptyFS = (Ok tt, fs') /\
    Store.LoadBlock Ideal.blobCodec sampleJoin sampleSprintf sampleStore "income" 0 fs'
    = (Ok sampleBlob, fs') /\
    Store.file fs' (Store.blockPath sampleJoin sampleSprintf sampleStore "income" 0)
    = Some (Storage.PutUint64 (Storage.len sampleBlob) ++ sampleBlob)%list /\
    forall p, p <> Store.blockPath sampleJoin sampleSprintf sampleStore "income" 0 ->
              Store.file fs' p = Store.file emptyFS p.
Proof.
  assert (H1 : forall c d, Storage.MarshalBinary Ideal.blobCodec c = Ok d ->
                           Storage.UnmarshalBinary Ideal.blobCodec d = Ok c)
    by (intros c d E; cbn in *; injection E as <-; reflexivity).
  assert (H2 : Store.denied emptyFS
                 (Store.blockPath sampleJoin sampleSprintf sampleStore "income" 0)
               = false) by reflexivity.
  assert (H3 : Storage.MarshalBinary Ideal.blobCodec sampleBlob = Ok sampleBlob)
    by reflexivity.
  assert (H4 : Storage.len sampleBlob <= GoInt.max_int)
    by (unfold GoInt.max_int; cbn; lia).
  split; [split; [exact H1 | split; [exact H2 | split; [exact H3 | exact H4]]] |].
  apply (SaveBlock_LoadBlock_round_trip Ideal.blobCodec sampleJoin sampleSprintf
           sampleStore "income" 0 sampleBlob emptyFS H1); assumption.
Defined.

(** A run: a block saved under table/blocks/income_0 comes back, and
    block 1 of the column is not there. *)
Example SaveBlock_run :
  match Store.SaveBlock Ideal.blobCodec sampleJoin sampleSprintf sampleStore "income" 0
                        sampleBlob emptyFS with
  | (Ok _, fs') =>
      fst (Store.LoadBlock Ideal.blobCodec sampleJoin sampleSprintf sampleStore
                           "income" 0 fs') = Ok sampleBlob /\
      is_err (fst (Store.LoadBlock Ideal.blobCodec sampleJoin sampleSprintf sampleStore
                                   "income" 1 fs')) = true
  | (Err _, _) => False
  end.
Proof. cbn. split; reflexivity. Qed.

Lemma drain_from {Ct : Type} (C : Storage.Codec Ct)
      (Join : list string -> string) (Sprintf : string -> list fmt_arg -> string)
      (fs : Store.FileSystem) (ts : Store.TableStore) (col : string) (N : Z)
      (block : Z -> Ct) (n : nat) :
  forall k : Z,
    0 <= k -> k + Z.of_nat n <= N -> N <= GoInt.max_int ->
    (forall i, k <= i < k + Z.of_nat n ->
               fst (Store.LoadBlock C Join Sprintf ts col i fs) = Ok (block i)) ->
    Store.drain C Join Sprintf fs n
      {| Store.store := ts; Store.columnName := col; Store.blockCount := N;
         Store.current := k |}
    = (Ok (map (fun t => block (k + Z.of_nat t)) (seq 0 n)),
       {| Store.store := ts; Store.columnName := col; Store.blockCount := N;
          Store.current := k + Z.of_nat n |}).
Proof.
  induction n as [| n IH]; intros k Hk HN Hmax Hload.
  - cbn. unfold ret. rewrite Z.add_0_r. reflexivity.
  - cbn [Store.drain]. unfold bind at 1. unfold Store.Next at 1, Store.HasNext.
    cbn [Store.current Store.blockCount Store.store Store.columnName].
    destruct (Z.ltb_spec k N); [| lia]. cbn [negb].
    rewrite (Hload k ltac:(lia)).
    assert (Hadd : GoInt.add k 1 = k + 1).
    { unfold GoInt.add. apply wrap_small.
      unfold GoInt.in_range, GoInt.min_int, GoInt.max_int in *. lia. }
    rewrite Hadd. unfold bind.
    rewrite (IH (k + 1) ltac:(lia) ltac:(lia) Hmax
                ltac:(intros i Hi; apply Hload; lia)).
    unfold ret. cbn [seq map]. rewrite Z.add_0_r. f_equal.
    + f_equal. f_equal. rewrite <- seq_shift, map_map.
      apply map_ext. intros t. f_equal. lia.
    + f_equal. lia.
Qed.

(** The block iterator: over a column whose blocks 0 .. N - 1 all load,
    N calls of [Next] on a new iterator return the blocks in the order of
    their index; after them [HasNext] is false and [Next] returns the
    error "no more blocks" without moving; [Reset] brings the iterator
    back to where [NewBlockIterator] left it.  A block that does not load
    gives its error and leaves the iterator on that block. *)
Theorem BlockIterator_visits_blocks_in_order {Ct : Type} (C : Storage.Codec Ct)
        (Join : list string -> string) (Sprintf : string -> list fmt_arg -> string)
        (fs : Store.FileSystem) (ts : Store.TableStore) (col : string) (N : Z)
        (block : Z -> Ct) :
  0 <= N <= GoInt.max_int ->
  ((forall i, 0 <= i < N ->
              fst (Store.LoadBlock C Join Sprintf ts col i fs) = Ok (block i)) ->
   exists bi,
     Store.drain C Join Sprintf fs (Z.to_nat N) (Store.NewBlockIterator ts col N)
     = (Ok (map (fun t => block (Z.of_nat t)) (seq 0 (Z.to_nat N))), bi) /\
     Store.current bi = N /\ Store.HasNext bi = false /\
     Store.Next C Join Sprintf fs bi = (Err (Errorf "no more blocks" []), bi) /\
     Store.Reset bi = Store.NewBlockIterator ts col N) /\
  (forall (bi : Store.BlockIterator) (e : error),
      Store.HasNext bi = true ->
      fst (Store.LoadBlock C Join Sprintf (Store.store bi) (Store.columnName bi)
                           (Store.current bi) fs) = Err e ->
      Store.Next C Join Sprintf fs bi = (Err e, bi)).
Proof.
  intros HN. split.
  - intros Hload.
    pose proof (drain_from C Join Sprintf fs ts col N block (Z.to_nat N) 0
                  ltac:(lia) ltac:(lia) ltac:(lia)
                  ltac:(intros i Hi; apply Hload; lia)) as H.
    eexists. split; [unfold Store.NewBlockIterator; rewrite H; reflexivity |].
    cbn [Store.current]. split; [lia |]. split.
    + unfold Store.HasNext. cbn. apply Z.ltb_ge. lia.
    + split.
      * unfold Store.Next, Store.HasNext. cbn [Store.current Store.blockCount].
        destruct (Z.ltb_spec (0 + Z.of_nat (Z.to_nat N)) N); [lia | reflexivity].
      * reflexivity.
  - intros bi e Hnext Hload. unfold Store.Next. rewrite Hnext, Hload. reflexivity.
Qed.

Lemma BlockIterator_visits_blocks_in_order_witness :
  (0 <= 2 <= GoInt.max_int /\
   (forall i, 0 <= i < 2 ->
              fst (Store.LoadBlock Ideal.blobCodec sampleJoin sampleSprintf sampleStore
                                   "income" i sampleFS) = Ok sampleBlob)) /\
  exists bi,
    Store.drain Ideal.blobCodec sampleJoin sampleSprintf sampleFS (Z.to_nat 2)
                (Store.NewBlockIterator sampleStore "income" 2)
    = (Ok (map (fun _ => sampleBlob) (seq 0 (Z.to_nat 2))), bi) /\
    Store.current bi = 2 /\ Store.HasNext bi = false /\
    Store.Next Ideal.blobCodec sampleJoin sampleSprintf sampleFS bi
    = (Err (Errorf "no more blocks" []), bi) /\
    Store.Reset bi = Store.NewBlockIterator sampleStore "income" 2.
Proof.
  assert (H1 : 0 <= 2 <= GoInt.max_int) by (unfold GoInt.max_int; lia).
  assert (H2 : forall i, 0 <= i < 2 ->
                 fst (Store.LoadBlock Ideal.blobCodec sampleJoin sampleSprintf
                                      sampleStore "income" i sampleFS) = Ok sampleBlob).
  { intros i Hi. assert (Hcases : i = 0 \/ i = 1) by lia.
    destruct Hcases as [-> | ->]; reflexivity. }
  split; [split; [exact H1 | exact H2] |].
  apply (BlockIterator_visits_blocks_in_order Ideal.blobCodec sampleJoin sampleSprintf
           sampleFS sampleStore "income" 2 (fun _ => sampleBlob) H1).
  exact H2.
Defined.

(** A run: the two blocks of the sample store, then the end. *)
Example BlockIterator_run :
  fst (Store.drain Ideal.blobCodec sampleJoin sampleSprintf sampleFS 2
                   (Store.NewBlockIterator sampleStore "income" 2))
  = Ok [sampleBlob; sampleBlob] /\
  fst (Store.drain Ideal.blobCodec sampleJoin sampleSprintf sampleFS 3
                   (Store.NewBlockIterator sampleStore "income" 2))
  = Err (Errorf "no more blocks" []).
Proof. split; reflexivity. Qed.

(* ===================================================================== *)
(** * package jobs: planning *)
(* ===================================================================== *)

Lemma Validate_known_operation (job : Jobs.JobSpec) :
  Jobs.Validate job = Ok tt -> In (Jobs.Op job) knownOperations.
Proof.
  unfold Jobs.Validate, knownOperations.
  destruct (String.eqb (Jobs.ID job) ""); [discriminate |].
  destruct (String.eqb (Jobs.Table job) ""); [discriminate |].
  repeat match goal with
         | |- context [String.eqb (Jobs.Op job) ?op] =>
             destruct (String.eqb_spec (Jobs.Op job) op) as [-> | ?];
             [intros _; cbn; tauto |]
         end.
  cbn [orb]. discriminate.
Qed.

Lemma Validate_error (job : Jobs.JobSpec) (e : error) :
  Jobs.Validate job = Err e -> isErrorValue e.
Proof.
  unfold Jobs.Validate.
  repeat match goal with
         | |- context [if ?b then _ else _] => destruct b
         end; intros H; inversion H; exact I.
Qed.

Lemma validateJobs_ok (jobs : list Jobs.JobSpec) :
  forall i, Planner.validateJobs i jobs = Ok tt <->
            Forall (fun job => Jobs.Validate job = Ok tt) jobs.
Proof.
  induction jobs as [| job jobs IH]; intros i; cbn.
  - split; [constructor | reflexivity].
  - destruct (Jobs.Validate job) as [[] | e] eqn:E.
    + rewrite IH. split; [intros H; constructor; [exact E | exact H] |].
      intros H. inversion H; assumption.
    + split; [discriminate |]. intros H. inversion H; congruence.
Qed.

(** Planning: [PlanJob] returns the error of [Validate] as it is, with no
    plan; a job [Validate] accepts gets a plan that holds the job and
    between three and five steps, the first of which is a loading step.
    No accepted job gets an empty plan, although the switch of [PlanJob]
    has no default case.  The jobs of a batch [LoadBatchJob] has checked
    all have such a plan. *)
Theorem PlanJob_plans_every_valid_job (job : Jobs.JobSpec) :
  (forall e, Jobs.Validate job = Err e ->
             Planner.PlanJob job = Err e /\ isErrorValue e) /\
  (Jobs.Validate job = Ok tt ->
   exists plan first rest,
     Planner.PlanJob job = Ok plan /\ Planner.Job plan = job /\
     Planner.Steps plan = first :: rest /\
     (3 <= List.length (Planner.Steps plan) <= 5)%nat /\
     String.prefix "load_" (Planner.Name first) = true) /\
  (forall jobs,
      Planner.validateJobs 0 jobs = Ok tt -> In job jobs ->
      exists plan, Planner.PlanJob job = Ok plan /\ Planner.Steps plan <> []).
Proof.
  assert (Hplan : Jobs.Validate job = Ok tt ->
                  exists plan first rest,
                    Planner.PlanJob job = Ok plan /\ Planner.Job plan = job /\
                    Planner.Steps plan = first :: rest /\
                    (3 <= List.length (Planner.Steps plan) <= 5)%nat /\
                    String.prefix "load_" (Planner.Name first) = true).
  { intros Hv. pose proof (Validate_known_operation job Hv) as Hop.
    unfold Planner.PlanJob. rewrite Hv. unfold knownOperations in Hop.
    repeat (destruct Hop as [Hop | Hop];
            [rewrite <- Hop; cbn;
             eexists; eexists; eexists;
             (split; [reflexivity |]); (split; [reflexivity |]);
             (split; [reflexivity |]); (split; [cbn; lia | reflexivity]) |]).
    destruct Hop. }
  split; [| split].
  - intros e Hv. split; [| exact (Validate_error job e Hv)].
    unfold Planner.PlanJob. rewrite Hv. reflexivity.
  - exact Hplan.
  - intros jobs Hjobs Hin. apply validateJobs_ok in Hjobs.
    rewrite Forall_forall in Hjobs. specialize (Hjobs job Hin).
    destruct (Hplan Hjobs) as (plan & first & rest & Hp & _ & Hs & _).
    exists plan. split; [exact Hp |]. rewrite Hs. discriminate.
Qed.

Lemma PlanJob_plans_every_valid_job_witness :
  Jobs.Validate (percentileJob (of_int 50)) = Ok tt /\
  exists plan first rest,
    Planner.PlanJob (percentileJob (of_int 50)) = Ok plan /\
    Planner.Job plan = percentileJob (of_int 50) /\
    Planner.Steps plan = first :: rest /\
    (3 <= List.length (Planner.Steps plan) <= 5)%nat /\
    String.prefix "load_" (Planner.Name first) = true.
Proof.
  assert (H : Jobs.Validate (percentileJob (of_int 50)) = Ok tt) by reflexivity.
  split; [exact H |].
  apply (PlanJob_plans_every_valid_job (percentileJob (of_int 50))). exact H.
Defined.

(** A run: the plan of a percentile job has five steps. *)
Example PlanJob_run :
  match Planner.PlanJob (percentileJob (of_int 50)) with
  | Ok plan => map Planner.Name (Planner.Steps plan)
               = ["load_bmvs"; "frequencies"; "cumulative"; "compare"; "find"]
  | Err _ => False
  end.
Proof. reflexivity. Qed.

(* ===================================================================== *)
(** * package params *)
(* ===================================================================== *)

Lemma doublings_snoc (n : nat) :
  forall j, doublings j (S n) = (doublings j n ++ [2 ^ (j + Z.of_nat n)])%list.
Proof.
  induction n as [| n IH]; intros j.
  - cbn. rewrite Z.add_0_r. reflexivity.
  - change (doublings j (S (S n))) with (2 ^ j :: doublings (j + 1) (S n)).
    rewrite IH. cbn [doublings app].
    replace (j + Z.of_nat (S n)) with (j + 1 + Z.of_nat n) by lia. reflexivity.
Qed.

(** The loop of [RotationSteps] on a power of two: the powers of two
    below it. *)
Lemma rotationStepsLoop_doubling (k : Z) (n : nat) :
  forall (j : nat) (fuel : nat),
    Z.of_nat j + Z.of_nat n = k -> k <= 62 -> (n <= fuel)%nat ->
    Params.rotationStepsLoop fuel (2 ^ k) (2 ^ Z.of_nat j) (doublings 0 j)
    = Ok (doublings 0 (Z.to_nat k)).
Proof.
  induction n as [| n IH]; intros j fuel Hk Hk62 Hfuel.
  - replace (Z.of_nat j) with k by lia. replace (Z.to_nat k) with j by lia.
    destruct fuel; cbn [Params.rotationStepsLoop]; rewrite Z.ltb_irrefl; reflexivity.
  - destruct fuel as [| fuel]; [lia |]. cbn [Params.rotationStepsLoop].
    assert (Hlt : 2 ^ Z.of_nat j < 2 ^ k) by (apply Z.pow_lt_mono_r; lia).
    apply Z.ltb_lt in Hlt. rewrite Hlt.
    assert (Hnext : GoInt.mul (2 ^ Z.of_nat j) 2 = 2 ^ Z.of_nat (S j)).
    { unfold GoInt.mul. rewrite Nat2Z.inj_succ, Z.pow_succ_r by lia.
      rewrite Z.mul_comm. apply wrap_small.
      unfold GoInt.in_range, GoInt.min_int, GoInt.max_int.
      assert (2 ^ Z.of_nat j <= 2 ^ 61) by (apply Z.pow_le_mono_r; lia).
      assert (0 < 2 ^ Z.of_nat j) by (apply Z.pow_pos_nonneg; lia). lia. }
    rewrite Hnext.
    replace (doublings 0 j ++ [2 ^ Z.of_nat j])%list with (doublings 0 (S j))
      by (rewrite doublings_snoc; reflexivity).
    apply IH; lia.
Qed.

Lemma Validate_profile (p : Params.Profile) :
  Params.Validate p = Ok tt <->
  10 <= Params.LogN p <= 17 /\ Params.Slots p = 2 ^ (Params.LogN p - 1) /\
  2 <= Params.len (Params.LogQP p).
Proof.
  unfold Params.Validate.
  destruct (Z.ltb_spec (Params.LogN p) 10) as [H10 | H10];
    [cbn [orb]; split; [discriminate | lia] |].
  destruct (Z.ltb_spec 17 (Params.LogN p)) as [H17 | H17];
    [cbn [orb]; split; [discriminate | lia] |].
  cbn [orb].
  assert (Hshl : GoInt.shl 1 (GoInt.sub (Params.LogN p) 1)
                 = Some (2 ^ (Params.LogN p - 1))).
  { assert (Hcases : Params.LogN p = 10 \/ Params.LogN p = 11 \/ Params.LogN p = 12 \/
                     Params.LogN p = 13 \/ Params.LogN p = 14 \/ Params.LogN p = 15 \/
                     Params.LogN p = 16 \/ Params.LogN p = 17) by lia.
    repeat (destruct Hcases as [-> | Hcases]; [reflexivity |]).
    rewrite Hcases. reflexivity. }
  rewrite Hshl.
  destruct (Z.eqb_spec (Params.Slots p) (2 ^ (Params.LogN p - 1))) as [E | E];
    cbn [negb]; [| split; [discriminate | intros (_ & H & _); contradiction]].
  destruct (Z.ltb_spec (Params.len (Params.LogQP p)) 2);
    (split; [first [discriminate | intros _; repeat split; lia]
            | first [reflexivity | lia]]).
Qed.

(** Rotation steps: a profile [Profile.Validate] accepts has LogN between
    10 and 17, 2^(LogN-1) slots and at least two moduli; [RotationSteps]
    then returns the LogN - 1 steps 1, 2, 4, ..., Slots/2, and these are,
    in this order, the rotations [Evaluator.SumSlots] performs on a
    backend with that many slots. *)
Theorem RotationSteps_are_the_SumSlots_rotations (p : Params.Profile) :
  Params.Validate p = Ok tt ->
  (10 <= Params.LogN p <= 17 /\ Params.Slots p = 2 ^ (Params.LogN p - 1) /\
   2 <= Params.len (Params.LogQP p)) /\
  Params.RotationSteps p = Ok (doublings 0 (Z.to_nat (Params.LogN p - 1))) /\
  (forall steps, Params.RotationSteps p = Ok steps ->
                 Z.of_nat (List.length steps) = Params.LogN p - 1 /\
                 forall t, (t < List.length steps)%nat ->
                           nth t steps 0 = 2 ^ Z.of_nat t) /\
  (forall (Ct : Type) (B : Backend Ct) (e : Evaluator Ct) (ct : Ct) (st : Stats) steps,
      MaxSlots B = Params.Slots p ->
      Params.RotationSteps p = Ok steps ->
      SumSlots B e ct st = doublingReduction B e steps ct st).
Proof.
  intros Hv. apply Validate_profile in Hv. destruct Hv as (HN & HS & HQ).
  assert (Hsteps : Params.RotationSteps p
                   = Ok (doublings 0 (Z.to_nat (Params.LogN p - 1)))).
  { unfold Params.RotationSteps. rewrite HS.
    apply (rotationStepsLoop_doubling (Params.LogN p - 1)
                                      (Z.to_nat (Params.LogN p - 1)) 0 64); lia. }
  split; [split; [exact HN | split; [exact HS | exact HQ]] |].
  split; [exact Hsteps |]. split.
  - intros steps E. rewrite Hsteps in E. injection E as <-.
    assert (Hgen : forall n j,
               List.length (doublings j n) = n /\
               forall t, (t < n)%nat -> nth t (doublings j n) 0 = 2 ^ (j + Z.of_nat t)).
    { induction n as [| n IH]; intros j; cbn [doublings List.length].
      - split; [reflexivity | intros t Ht; lia].
      - destruct (IH (j + 1)) as [IH1 IH2]. split; [rewrite IH1; reflexivity |].
        intros [| t] Ht; cbn [nth].
        + rewrite Z.add_0_r. reflexivity.
        + rewrite IH2 by lia. f_equal. lia. }
    destruct (Hgen (Z.to_nat (Params.LogN p - 1)) 0) as [H1 H2].
    split; [rewrite H1; lia |]. intros t Ht. rewrite H1 in Ht.
    rewrite H2 by exact Ht. reflexivity.
  - intros Ct B e ct st steps HB E. rewrite Hsteps in E. injection E as <-.
    apply SumSlots_is_doubling; [lia | rewrite HB; exact HS].
Qed.

Lemma RotationSteps_are_the_SumSlots_rotations_witness :
  Params.Validate sampleProfile = Ok tt /\
  Params.RotationSteps sampleProfile
  = Ok (doublings 0 (Z.to_nat (Params.LogN sampleProfile - 1))).
Proof.
  assert (H : Params.Validate sampleProfile = Ok tt) by reflexivity.
  split; [exact H |].
  apply (RotationSteps_are_the_SumSlots_rotations sampleProfile H).
Defined.

(** A run: the nine steps of a profile with 512 slots. *)
Example RotationSteps_run :
  Params.RotationSteps sampleProfile = Ok [1; 2; 4; 8; 16; 32; 64; 128; 256].
Proof. reflexivity. Qed.

(* ===================================================================== *)
(** * package privacy *)
(* ===================================================================== *)

Lemma cellLoop_set (i : Privacy.Inspector) (cells : Privacy.GoMap Z) :
  forall (S : StringSet) (V : list Privacy.Violation) (k : string),
    fst (Privacy.cellLoop i cells S V) k
    = S k || (Privacy.SuppressSmallGroups (Privacy.policy i) &&
              existsb (fun kc => String.eqb k (fst kc) &&
                                 (snd kc <? Privacy.MinCount (Privacy.policy i)))
                      cells).
Proof.
  induction cells as [| [key count] cells IH]; intros S V k;
    cbn [Privacy.cellLoop existsb fst snd].
  - rewrite andb_false_r, orb_false_r. reflexivity.
  - destruct (count <? Privacy.MinCount (Privacy.policy i)) eqn:Ec;
      [destruct (Privacy.SuppressSmallGroups (Privacy.policy i)) eqn:Es |];
      rewrite IH; unfold setAdd;
      destruct (String.eqb k key); destruct (S k);
      try destruct (Privacy.SuppressSmallGroups (Privacy.policy i));
      match goal with
      | |- context [existsb ?f ?l] => destruct (existsb f l)
      end; reflexivity.
Qed.

Lemma cellLoop_violations (i : Privacy.Inspector) (cells : Privacy.GoMap Z) :
  forall (S : StringSet) (V : list Privacy.Violation),
    List.length (snd (Privacy.cellLoop i cells S V))
    = (List.length V +
       (if Privacy.SuppressSmallGroups (Privacy.policy i) then 0
        else List.length
               (filter (fun kc => (snd kc <? Privacy.MinCount (Privacy.policy i))%Z)
                       cells)))%nat.
Proof.
  induction cells as [| [key count] cells IH]; intros S V;
    cbn [Privacy.cellLoop filter fst snd].
  - destruct (Privacy.SuppressSmallGroups (Privacy.policy i)); cbn; lia.
  - destruct (count <? Privacy.MinCount (Privacy.policy i)) eqn:Ec.
    + destruct (Privacy.SuppressSmallGroups (Privacy.policy i)) eqn:Es.
      * rewrite IH. reflexivity.
      * rewrite IH, length_app. cbn [List.length]. lia.
    + apply IH.
Qed.

Lemma cellLoop_no_violation (i : Privacy.Inspector) (cells : Privacy.GoMap Z) :
  forall (S : StringSet) (V : list Privacy.Violation),
    Privacy.SuppressSmallGroups (Privacy.policy i) = true ->
    snd (Privacy.cellLoop i cells S V) = V.
Proof.
  induction cells as [| [key count] cells IH]; intros S V Hs; cbn [Privacy.cellLoop].
  - reflexivity.
  - rewrite Hs. destruct (count <? Privacy.MinCount (Privacy.policy i)); apply IH, Hs.
Qed.

Lemma transformLoop_map (cells : Privacy.GoMap Z) (S : StringSet) :
  forall acc,
    Privacy.transformLoop cells S acc
    = (acc ++ map (fun kc => (fst kc, if negb (S (fst kc)) then snd kc else -1)) cells)%list.
Proof.
  induction cells as [| [key count] cells IH]; intros acc; cbn [Privacy.transformLoop map].
  - rewrite app_nil_r. reflexivity.
  - rewrite IH, <- app_assoc. reflexivity.
Qed.

Lemma lookup_map_values (g : string -> Z -> Z) (cells : Privacy.GoMap Z) (key : string) :
  Privacy.lookup (map (fun kc => (fst kc, g (fst kc) (snd kc))) cells) key
  = option_map (g key) (Privacy.lookup cells key).
Proof.
  induction cells as [| [k c] cells IH]; cbn; [reflexivity |].
  destruct (String.eqb_spec k key) as [-> | _]; [reflexivity | exact IH].
Qed.

Lemma lookup_In (cells : Privacy.GoMap Z) (key : string) (count : Z) :
  Privacy.lookup cells key = Some count -> In (key, count) cells.
Proof.
  induction cells as [| [k c] cells IH]; cbn; [discriminate |].
  destruct (String.eqb_spec k key) as [-> | _].
  - intros H. injection H as ->. left. reflexivity.
  - intros H. right. apply IH, H.
Qed.

Lemma existsb_unique_key (p : Z -> bool) (cells : Privacy.GoMap Z) (key : string)
      (count : Z) :
  NoDup (map fst cells) -> In (key, count) cells ->
  existsb (fun kc => String.eqb key (fst kc) && p (snd kc)) cells = p count.
Proof.
  induction cells as [| [k c] cells IH]; intros HN Hin; [destruct Hin |].
  cbn [map fst] in HN. inversion HN as [| x l Hnotin HN']; subst.
  cbn [existsb fst snd]. destruct Hin as [E | Hin].
  - injection E as -> ->. rewrite String.eqb_refl. cbn [andb].
    destruct (p count); [reflexivity |]. cbn [orb].
    apply not_true_is_false. intros Hex. apply existsb_exists in Hex.
    destruct Hex as ([k' c'] & Hin' & Hk). cbn [fst snd] in Hk.
    apply andb_prop in Hk. destruct Hk as [Hk _]. apply String.eqb_eq in Hk. subst k'.
    apply Hnotin. apply (in_map fst) in Hin'. exact Hin'.
  - destruct (String.eqb_spec key k) as [-> | _].
    + exfalso. apply Hnotin. apply (in_map fst) in Hin. exact Hin.
    + cbn [andb orb]. apply IH; assumption.
Qed.

(** Contingency tables: [InspectContingencyTable] approves every table and
    releases a table with the same dimensions, categories and cells.  With
    suppression on, a cell whose count is below [MinCount] is released as
    -1 and every other cell with its count, so that a released count is -1
    or at least [MinCount], and no violation is recorded.  With
    suppression off every cell is released with its own count, small or
    not, one violation being recorded per small cell while the result
    stays approved. *)
Theorem InspectContingencyTable_masks_small_cells (i : Privacy.Inspector)
        (table : Privacy.ContingencyTable) (jobID : string) :
  NoDup (map fst (Privacy.Counts table)) ->
  Privacy.Approved (Privacy.InspectContingencyTable i table jobID) = true /\
  exists t,
    Privacy.TransformedValue (Privacy.InspectContingencyTable i table jobID)
    = Some (Privacy.Table t) /\
    Privacy.Dimensions t = Privacy.Dimensions table /\
    Privacy.Categories t = Privacy.Categories table /\
    map fst (Privacy.Counts t) = map fst (Privacy.Counts table) /\
    (forall key count,
        Privacy.lookup (Privacy.Counts table) key = Some count ->
        Privacy.lookup (Privacy.Counts t) key
        = Some (if Privacy.SuppressSmallGroups (Privacy.policy i) &&
                   (count <? Privacy.MinCount (Privacy.policy i))
                then -1 else count)) /\
    (Privacy.SuppressSmallGroups (Privacy.policy i) = true ->
     Privacy.Violations (Privacy.InspectContingencyTable i table jobID) = [] /\
     forall key c, Privacy.lookup (Privacy.Counts t) key = Some c ->
                   c = -1 \/ Privacy.MinCount (Privacy.policy i) <= c) /\
    (Privacy.SuppressSmallGroups (Privacy.policy i) = false ->
     List.length (Privacy.Violations (Privacy.InspectContingencyTable i table jobID))
     = List.length (filter (fun kc => snd kc <? Privacy.MinCount (Privacy.policy i))
                           (Privacy.Counts table))).
Proof.
  intros HN. unfold Privacy.InspectContingencyTable.
  destruct (Privacy.cellLoop i (Privacy.Counts table) emptySet []) as [S V] eqn:Eloop.
  cbn [orb Privacy.Approved Privacy.TransformedValue Privacy.Violations].
  split; [reflexivity |]. eexists. split; [reflexivity |].
  cbn [Privacy.Dimensions Privacy.Categories Privacy.Counts].
  split; [reflexivity |]. split; [reflexivity |].
  rewrite transformLoop_map. cbn [app].
  assert (HS : forall key count,
             Privacy.lookup (Privacy.Counts table) key = Some count ->
             S key = Privacy.SuppressSmallGroups (Privacy.policy i) &&
                     (count <? Privacy.MinCount (Privacy.policy i))).
  { intros key count Hl.
    pose proof (cellLoop_set i (Privacy.Counts table) emptySet [] key) as H.
    rewrite Eloop in H. cbn [fst] in H. rewrite H. unfold emptySet. cbn [orb].
    f_equal.
    apply (existsb_unique_key (fun c => c <? Privacy.MinCount (Privacy.policy i))
                              _ key count HN (lookup_In _ _ _ Hl)). }
  assert (Hlookup : forall key count,
             Privacy.lookup (Privacy.Counts table) key = Some count ->
             Privacy.lookup
               (map (fun kc => (fst kc, if negb (S (fst kc)) then snd kc else -1))
                    (Privacy.Counts table)) key
             = Some (if Privacy.SuppressSmallGroups (Privacy.policy i) &&
                        (count <? Privacy.MinCount (Privacy.policy i))
                     then -1 else count)).
  { intros key count Hl.
    rewrite (lookup_map_values (fun k c => if negb (S k) then c else -1)), Hl.
    cbn [option_map]. rewrite (HS key count Hl).
    destruct (Privacy.SuppressSmallGroups (Privacy.policy i) &&
              (count <? Privacy.MinCount (Privacy.policy i))); reflexivity. }
  split; [rewrite map_map; reflexivity |].
  split; [exact Hlookup |]. split.
  - intros Hs. split.
    + pose proof (cellLoop_no_violation i (Privacy.Counts table) emptySet [] Hs) as H.
      rewrite Eloop in H. exact H.
    + intros key c Hc.
      rewrite (lookup_map_values (fun k c => if negb (S k) then c else -1)) in Hc.
      destruct (Privacy.lookup (Privacy.Counts table) key) as [count |] eqn:Hl;
        [| discriminate].
      cbn [option_map] in Hc. rewrite (HS key count Hl), Hs in Hc. cbn [andb] in Hc.
      destruct (Z.ltb_spec count (Privacy.MinCount (Privacy.policy i)));
        cbn [negb] in Hc; injection Hc as <-; [left; reflexivity | right; assumption].
  - intros Hs.
    pose proof (cellLoop_violations i (Privacy.Counts table) emptySet []) as H.
    rewrite Eloop, Hs in H. exact H.
Qed.

Lemma InspectContingencyTable_masks_small_cells_witness :
  NoDup (map fst (Privacy.Counts sampleTable)) /\
  Privacy.Approved
    (Privacy.InspectContingencyTable (Privacy.NewInspector None) sampleTable "job")
  = true.
Proof.
  assert (H : NoDup (map fst (Privacy.Counts sampleTable))).
  { cbn. repeat constructor; cbn; intros Hin;
      repeat (destruct Hin as [Hin | Hin]; [discriminate |]); exact Hin. }
  split; [exact H |].
  apply (InspectContingencyTable_masks_small_cells (Privacy.NewInspector None)
                                                   sampleTable "job" H).
Defined.

(** A run under the default policy, whose [MinCount] is 5: the cells with
    3 and 0 rows are released as -1. *)
Example InspectContingencyTable_run :
  match Privacy.TransformedValue
          (Privacy.InspectContingencyTable (Privacy.NewInspector None) sampleTable "job")
  with
  | Some (Privacy.Table t) =>
      Privacy.Counts t = [("1,1", 12); ("1,2", -1); ("2,1", -1); ("2,2", 40)]
  | _ => False
  end.
Proof. reflexivity. Qed.

(** Scalar results: [InspectNumeric], [InspectCount] and
    [InspectPercentile] agree on when a result is released: with
    suppression on and a count below [MinCount] the result is not
    approved, no value is released and one violation is recorded; in every
    other case it is approved with no violation, and the count, the bucket
    or the value (rounded to [MaxPrecision] decimals when rounding is on)
    is released.  The audit record, present exactly when auditing is on,
    carries the same verdict. *)
Theorem inspectors_release_unless_suppressed
        (Pow : float64 -> float64 -> float64) (Round : float64 -> float64)
        (i : Privacy.Inspector) (v : float64) (count bucket : Z) (k : float64)
        (jobID operation : string) (conditions : Privacy.GoMap Z) :
  releases i count (Privacy.Int count) (Privacy.InspectCount i count jobID conditions) /\
  releases i count (Privacy.Int bucket)
           (Privacy.InspectPercentile i bucket count k jobID) /\
  releases i count
           (Privacy.Float
              (if Privacy.RoundingEnabled (Privacy.policy i) then
                 let multiplier :=
                   Pow (of_int 10) (of_int (Privacy.MaxPrecision (Privacy.policy i))) in
                 SFdiv prec emax (Round (SFmul prec emax v multiplier)) multiplier
               else v))
           (Privacy.InspectNumeric Pow Round i v count jobID operation).
Proof.
  unfold releases, Privacy.InspectNumeric, Privacy.InspectCount,
    Privacy.InspectPercentile, Privacy.checkMinCount.
  destruct (Privacy.SuppressSmallGroups (Privacy.policy i)) eqn:Es;
    destruct (Z.ltb_spec count (Privacy.MinCount (Privacy.policy i))) as [Hc | Hc];
    destruct (Privacy.AuditEnabled (Privacy.policy i)) eqn:Ea;
    destruct (Privacy.RoundingEnabled (Privacy.policy i)) eqn:Er;
    cbn; repeat split; intros;
    try reflexivity; try discriminate;
    try match goal with
        | H : Some _ = Some _ |- _ => injection H as <-; reflexivity
        end;
    exfalso; intuition (lia || discriminate).
Qed.

(** A run under the default policy: a count of 3 is withheld, a count of
    7 is released. *)
Example InspectCount_run :
  Privacy.TransformedValue
    (Privacy.InspectCount (Privacy.NewInspector None) 3 "job" [("region", 2)]) = None /\
  Privacy.TransformedValue
    (Privacy.InspectCount (Privacy.NewInspector None) 7 "job" [("region", 2)])
  = Some (Privacy.Int 7).
Proof. split; reflexivity. Qed.

(* ===================================================================== *)
(** * cmd/dw_merge: join masks and the splitters *)
(* ===================================================================== *)

Lemma fold_setAdd (l : list string) :
  forall (S : StringSet) (t : string),
    fold_left (fun s t' => setAdd t' s) l S t = S t || existsb (String.eqb t) l.
Proof.
  induction l as [| x l IH]; intros S t; cbn [fold_left existsb].
  - rewrite orb_false_r. reflexivity.
  - rewrite IH. unfold setAdd.
    destruct (String.eqb t x), (S t), (existsb (String.eqb t) l); reflexivity.
Qed.

Lemma nextSetLoop_spec (inter : StringSet) (tokens : list string) :
  forall (next : StringSet) (t : string),
    Merge.nextSetLoop inter tokens next t
    = next t || (inter t && existsb (String.eqb t) tokens).
Proof.
  induction tokens as [| x tokens IH]; intros next t; cbn [Merge.nextSetLoop existsb].
  - rewrite andb_false_r, orb_false_r. reflexivity.
  - rewrite IH. destruct (String.eqb_spec t x) as [-> | Hne].
    + destruct (inter x) eqn:Ex; unfold setAdd; rewrite ?String.eqb_refl;
        destruct (next x), (existsb (String.eqb x) tokens); reflexivity.
    + destruct (inter x); unfold setAdd;
        try (destruct (String.eqb_spec t x); [contradiction |]);
        destruct (next t), (inter t), (existsb (String.eqb t) tokens); reflexivity.
Qed.

Lemma intersectLoop_spec (others : list (list string)) :
  forall (inter : StringSet) (t : string),
    Merge.intersectLoop others inter t
    = inter t && forallb (fun tokens => existsb (String.eqb t) tokens) others.
Proof.
  induction others as [| tokens others IH]; intros inter t;
    cbn [Merge.intersectLoop forallb].
  - rewrite andb_true_r. reflexivity.
  - rewrite IH, nextSetLoop_spec. unfold emptySet. cbn [orb].
    rewrite andb_assoc. reflexivity.
Qed.

Lemma set_nth_at_app {A : Type} (pre : list A) (x y : A) (rest : list A) :
  LBc.set_nth (List.length pre) x (pre ++ y :: rest)%list = (pre ++ x :: rest)%list.
Proof. induction pre as [| h pre IH]; cbn; [reflexivity | rewrite IH; reflexivity]. Qed.

Lemma maskLoop_map (inter : StringSet) (tokens : list string) :
  forall (pre : list float64),
    Merge.maskLoop inter (List.length pre) tokens
                   (pre ++ repeat zero (List.length tokens))%list
    = (pre ++ map (fun t => if inter t then one else zero) tokens)%list.
Proof.
  induction tokens as [| t tokens IH]; intros pre;
    cbn [Merge.maskLoop List.length repeat map].
  - reflexivity.
  - replace (if inter t then LBc.set_nth (List.length pre) one
                                         (pre ++ zero :: repeat zero (List.length tokens))
             else (pre ++ zero :: repeat zero (List.length tokens))%list)
      with ((pre ++ [if inter t then one else zero])
              ++ repeat zero (List.length tokens))%list.
    + replace (S (List.length pre))
        with (List.length (pre ++ [if inter t then one else zero])%list)
        by (rewrite length_app; cbn; lia).
      rewrite IH, <- app_assoc. reflexivity.
    + rewrite <- app_assoc. cbn [app].
      destruct (inter t); [rewrite set_nth_at_app |]; reflexivity.
Qed.

Lemma inEveryTable_spec (allTokens : list (list string)) (t : string) :
  inEveryTable allTokens t = true <->
  forall tokens, In tokens allTokens -> In t tokens.
Proof.
  unfold inEveryTable. rewrite forallb_forall. split.
  - intros H tokens Hin. specialize (H tokens Hin). apply existsb_exists in H.
    destruct H as (x & Hx & E). apply String.eqb_eq in E. subst x. exact Hx.
  - intros H tokens Hin. apply existsb_exists. exists t.
    split; [apply H, Hin | apply String.eqb_refl].
Qed.

Lemma ComputeJoinMasks_map (allTokens : list (list string)) :
  Merge.ComputeJoinMasks allTokens
  = map (fun tokens =>
           map (fun t => if inEveryTable allTokens t then one else zero) tokens)
        allTokens.
Proof.
  destruct allTokens as [| first others]; [reflexivity |].
  unfold Merge.ComputeJoinMasks. apply map_ext. intros tokens.
  rewrite (maskLoop_map _ tokens []). cbn [app]. apply map_ext. intros t.
  rewrite intersectLoop_spec, fold_setAdd. unfold emptySet, inEveryTable.
  cbn [orb forallb]. reflexivity.
Qed.

(** Join masks: [ComputeJoinMasks] returns one mask per token list, as
    long as the list, that holds 1.0 at the rows whose token occurs in
    every list and 0 at the others; with no list it returns nil. *)
Theorem ComputeJoinMasks_marks_the_intersection (allTokens : list (list string)) :
  Merge.ComputeJoinMasks [] = [] /\
  List.length (Merge.ComputeJoinMasks allTokens) = List.length allTokens /\
  (forall i tokens,
      nth_error allTokens i = Some tokens ->
      exists mask,
        nth_error (Merge.ComputeJoinMasks allTokens) i = Some mask /\
        List.length mask = List.length tokens /\
        forall j t,
          nth_error tokens j = Some t ->
          ((forall table, In table allTokens -> In t table) ->
           nth_error mask j = Some one) /\
          (~ (forall table, In table allTokens -> In t table) ->
           nth_error mask j = Some zero)).
Proof.
  split; [reflexivity |]. rewrite (ComputeJoinMasks_map allTokens).
  split; [apply length_map |].
  intros i tokens Hi. eexists. split.
  - rewrite nth_error_map, Hi. reflexivity.
  - split; [apply length_map |]. intros j t Hj.
    rewrite nth_error_map, Hj. cbn [option_map].
    pose proof (inEveryTable_spec allTokens t) as Hspec.
    destruct (inEveryTable allTokens t).
    + split; [reflexivity |]. intros Hn. exfalso. apply Hn, Hspec. reflexivity.
    + split; [| reflexivity]. intros Hall. apply Hspec in Hall. discriminate.
Qed.

(** A run: of the tokens of two tables only "b" is in both. *)
Example ComputeJoinMasks_run :
  Merge.ComputeJoinMasks [["a"; "b"; "c"]; ["b"; "d"]]
  = [[zero; one; zero]; [one; zero]].
Proof. reflexivity. Qed.

Lemma splitCommaLoop_app (a b : Merge.runes) :
  forall result current,
    Merge.splitCommaLoop (a ++ b)%list result current
    = Merge.splitCommaLoop b (fst (Merge.splitCommaLoop a result current))
                           (snd (Merge.splitCommaLoop a result current)).
Proof.
  induction a as [| c a IH]; intros result current; cbn [app Merge.splitCommaLoop].
  - reflexivity.
  - destruct (c =? Merge.comma); [destruct (negb (Merge.isEmpty current)) |]; apply IH.
Qed.

Lemma splitCommaLoop_field (f : Merge.runes) :
  ~ In Merge.comma f ->
  forall result current,
    Merge.splitCommaLoop f result current = (result, (current ++ f)%list).
Proof.
  induction f as [| c f IH]; intros Hf result current; cbn [Merge.splitCommaLoop].
  - rewrite app_nil_r. reflexivity.
  - destruct (Z.eqb_spec c Merge.comma) as [E | _].
    + exfalso. apply Hf. left. exact E.
    + rewrite IH by (intros H; apply Hf; right; exact H).
      rewrite <- app_assoc. reflexivity.
Qed.

Lemma splitCommaLoop_join (fields : list Merge.runes) :
  Forall isField fields ->
  forall f result,
    isField f ->
    Merge.splitCommaLoop (joinComma (f :: fields)) result []
    = ((result ++ removelast (f :: fields))%list, last (f :: fields) []).
Proof.
  induction fields as [| g fields IH]; intros HF f result [Hne Hf].
  - cbn [joinComma removelast last]. rewrite splitCommaLoop_field by exact Hf.
    rewrite app_nil_r. reflexivity.
  - inversion HF as [| x l Hg HF']; subst.
    change (joinComma (f :: g :: fields))
      with (f ++ Merge.comma :: joinComma (g :: fields))%list.
    rewrite splitCommaLoop_app, !(splitCommaLoop_field f Hf).
    cbn [fst snd app Merge.splitCommaLoop]. rewrite Z.eqb_refl.
    destruct f as [| c f]; [contradiction |]. cbn [Merge.isEmpty negb].
    rewrite (IH HF' g _ Hg).
    change (removelast ((c :: f) :: g :: fields))
      with ((c :: f) :: removelast (g :: fields)).
    change (last ((c :: f) :: g :: fields) []) with (last (g :: fields) []).
    rewrite <- app_assoc. reflexivity.
Qed.

Lemma splitCommaLoop_fields (s : Merge.runes) :
  forall result current,
    Forall isField result -> ~ In Merge.comma current ->
    Forall isField (fst (Merge.splitCommaLoop s result current)) /\
    ~ In Merge.comma (snd (Merge.splitCommaLoop s result current)) /\
    (List.concat (fst (Merge.splitCommaLoop s result current))
       ++ snd (Merge.splitCommaLoop s result current))%list
    = (List.concat result ++ current
         ++ filter (fun c => negb (c =? Merge.comma)) s)%list.
Proof.
  induction s as [| c s IH]; intros result current HR HC;
    cbn [Merge.splitCommaLoop filter].
  - cbn [fst snd]. rewrite app_nil_r. repeat split; assumption.
  - destruct (Z.eqb_spec c Merge.comma) as [E | E]; cbn [negb].
    + destruct current as [| d current]; cbn [Merge.isEmpty negb].
      * apply IH; assumption.
      * match goal with
        | |- context [Merge.splitCommaLoop s ?r ?c] =>
            destruct (IH r c) as (H1 & H2 & H3)
        end.
        -- apply Forall_app. split; [exact HR |]. constructor; [| constructor].
           split; [discriminate | exact HC].
        -- intros [].
        -- repeat split; try assumption. rewrite H3, concat_app. cbn [List.concat].
           rewrite !app_nil_r. cbn [app]. rewrite <- app_assoc. reflexivity.
    + match goal with
      | |- context [Merge.splitCommaLoop s ?r ?c'] =>
          destruct (IH r c' HR) as (H1 & H2 & H3)
      end.
      * intros Hin. apply in_app_or in Hin. destruct Hin as [Hin | [Hin | []]];
          [apply HC, Hin | apply E; exact Hin].
      * repeat split; try assumption. rewrite H3, <- !app_assoc. reflexivity.
Qed.

(** splitComma: the fields [splitComma] returns are not empty and hold no
    comma, and put end to end they are the input without its commas; a
    list of such fields joined by commas is split into the same fields
    again. *)
Theorem splitComma_inverts_joining (fields : list Merge.runes) (s : Merge.runes) :
  Forall isField fields ->
  Merge.splitComma (joinComma fields) = fields /\
  Forall isField (Merge.splitComma s) /\
  List.concat (Merge.splitComma s) = filter (fun c => negb (c =? Merge.comma)) s.
Proof.
  intros HF. split; [| split].
  - unfold Merge.splitComma. destruct fields as [| f fields]; [reflexivity |].
    inversion HF as [| x l Hf HF']; subst.
    rewrite (splitCommaLoop_join fields HF' f [] Hf). cbn [app].
    assert (Hlast : isField (last (f :: fields) [])).
    { assert (Hin : In (last (f :: fields) []) (f :: fields)).
      { clear. revert f. induction fields as [| g fields IH]; intros f.
        - left. reflexivity.
        - right. apply IH. }
      rewrite Forall_forall in HF. apply HF, Hin. }
    destruct (last (f :: fields) []) as [| c l] eqn:El;
      [destruct Hlast as [Hne _]; contradiction |].
    cbn [Merge.isEmpty negb]. rewrite <- El.
    symmetry. apply app_removelast_last. discriminate.
  - unfold Merge.splitComma.
    destruct (splitCommaLoop_fields s [] [] ltac:(constructor) ltac:(intros []))
      as (H1 & H2 & _).
    destruct (Merge.splitCommaLoop s [] []) as [result current]. cbn [fst snd] in *.
    destruct current as [| c current]; cbn [Merge.isEmpty negb]; [exact H1 |].
    apply Forall_app. split; [exact H1 |]. constructor; [| constructor].
    split; [discriminate | exact H2].
  - unfold Merge.splitComma.
    destruct (splitCommaLoop_fields s [] [] ltac:(constructor) ltac:(intros []))
      as (_ & _ & H3).
    destruct (Merge.splitCommaLoop s [] []) as [result current]. cbn [fst snd] in *.
    cbn [List.concat app] in H3.
    destruct current as [| c current]; cbn [Merge.isEmpty negb].
    + rewrite app_nil_r in H3. exact H3.
    + rewrite concat_app. cbn [List.concat]. rewrite app_nil_r. exact H3.
Qed.

Lemma splitComma_inverts_joining_witness :
  Forall isField [[105; 100]; [97; 103; 101]] /\
  Merge.splitComma (joinComma [[105; 100]; [97; 103; 101]])
  = [[105; 100]; [97; 103; 101]].
Proof.
  assert (H : Forall isField [[105; 100]; [97; 103; 101]]).
  { repeat constructor; try discriminate;
      cbn; intros Hin; repeat (destruct Hin as [Hin | Hin]; [discriminate |]);
      exact Hin. }
  split; [exact H |].
  apply (splitComma_inverts_joining [[105; 100]; [97; 103; 101]] [] H).
Defined.

(** A run: "id,,age," has the two fields "id" and "age". *)
Example splitComma_run :
  Merge.splitComma [105; 100; 44; 44; 97; 103; 101; 44] = [[105; 100]; [97; 103; 101]].
Proof. reflexivity. Qed.

Lemma splitLinesLoop_app (a b : Merge.runes) :
  forall result current,
    Merge.splitLinesLoop (a ++ b)%list result current
    = Merge.splitLinesLoop b (fst (Merge.splitLinesLoop a result current))
                           (snd (Merge.splitLinesLoop a result current)).
Proof.
  induction a as [| c a IH]; intros result current; cbn [app Merge.splitLinesLoop].
  - reflexivity.
  - destruct (c =? Merge.newline);
      [| destruct (negb (c =? Merge.carriageReturn))]; apply IH.
Qed.

Lemma splitLinesLoop_line (l : Merge.runes) :
  isLine l ->
  forall result current,
    Merge.splitLinesLoop l result current = (result, (current ++ l)%list).
Proof.
  induction l as [| c l IH]; intros [Hn Hr] result current; cbn [Merge.splitLinesLoop].
  - rewrite app_nil_r. reflexivity.
  - destruct (Z.eqb_spec c Merge.newline) as [E | _];
      [exfalso; apply Hn; left; exact E |].
    destruct (Z.eqb_spec c Merge.carriageReturn) as [E | _];
      [exfalso; apply Hr; left; exact E |].
    cbn [negb]. rewrite IH.
    + rewrite <- app_assoc. reflexivity.
    + split; intros H; [apply Hn | apply Hr]; right; exact H.
Qed.

Lemma splitLinesLoop_join (lines : list Merge.runes) :
  Forall isLine lines ->
  forall result,
    Merge.splitLinesLoop (joinLines lines) result [] = ((result ++ lines)%list, []).
Proof.
  induction lines as [| l lines IH]; intros HF result.
  - cbn. rewrite app_nil_r. reflexivity.
  - inversion HF as [| x ls Hl HF']; subst.
    unfold joinLines. cbn [map List.concat]. fold (joinLines lines).
    rewrite <- app_assoc. rewrite splitLinesLoop_app, !(splitLinesLoop_line l Hl).
    cbn [fst snd app Merge.splitLinesLoop]. rewrite Z.eqb_refl.
    rewrite (IH HF'), <- app_assoc. reflexivity.
Qed.

Lemma tokensLoop_filter (lines : list Merge.runes) :
  forall tokens,
    Merge.tokensLoop lines tokens
    = (tokens ++ filter (fun l => negb (Merge.isEmpty l)) lines)%list.
Proof.
  induction lines as [| l lines IH]; intros tokens; cbn [Merge.tokensLoop filter].
  - rewrite app_nil_r. reflexivity.
  - destruct (negb (Merge.isEmpty l)); rewrite IH; [rewrite <- app_assoc |];
      reflexivity.
Qed.

(** Token files: a file made of lines that each end with a newline is
    split by [splitLines] into these lines, empty ones included, and
    [LoadTokens] returns the lines that are not empty, in their order; a
    read error is returned as it is. *)
Theorem LoadTokens_keeps_nonempty_lines (lines : list Merge.runes) :
  Forall isLine lines ->
  Merge.splitLines (joinLines lines) = lines /\
  Merge.LoadTokens (Ok (joinLines lines))
  = Ok (filter (fun l => negb (Merge.isEmpty l)) lines) /\
  (forall e, Merge.LoadTokens (Err e) = Err e).
Proof.
  intros HF.
  assert (Hsplit : Merge.splitLines (joinLines lines) = lines).
  { unfold Merge.splitLines. rewrite (splitLinesLoop_join lines HF []). reflexivity. }
  split; [exact Hsplit |]. split; [| reflexivity].
  unfold Merge.LoadTokens. rewrite Hsplit, tokensLoop_filter. reflexivity.
Qed.

Lemma LoadTokens_keeps_nonempty_lines_witness :
  Forall isLine [[116; 49]; []; [116; 50]] /\
  Merge.LoadTokens (Ok (joinLines [[116; 49]; []; [116; 50]]))
  = Ok (filter (fun l => negb (Merge.isEmpty l)) [[116; 49]; []; [116; 50]]).
Proof.
  assert (H : Forall isLine [[116; 49]; []; [116; 50]]).
  { repeat constructor;
      cbn; intros Hin; repeat (destruct Hin as [Hin | Hin]; [discriminate |]);
      exact Hin. }
  split; [exact H |].
  apply (LoadTokens_keeps_nonempty_lines [[116; 49]; []; [116; 50]] H).
Defined.

(** A run: carriage returns are dropped and a last line without newline
    is kept. *)
Example splitLines_run :
  Merge.splitLines [116; 49; 13; 10; 10; 116; 50] = [[116; 49]; []; [116; 50]] /\
  Merge.LoadTokens (Ok [116; 49; 13; 10; 10; 116; 50]) = Ok [[116; 49]; [116; 50]].
Proof. split; reflexivity. Qed.

(* ===================================================================== *)
(** * package categorical: the BBMV encoders *)
(* ===================================================================== *)

Lemma bbmv_maskLoop_length (b : BBMV.BBMVEncoder) (scale : float64) (mask : list bool) :
  forall i result,
    List.length (BBMV.maskLoop b scale i mask result) = List.length result.
Proof.
  induction mask as [| m rest IH]; intros i result; cbn [BBMV.maskLoop]; auto.
  destruct (BBMV.slots b <=? i); auto.
  rewrite IH. destruct m; [apply set_nth_length | reflexivity].
Qed.

(** Slot [j] after the loop has run from row index [i] on [mask]. *)
Lemma bbmv_maskLoop_nth (b : BBMV.BBMVEncoder) (scale : float64) (mask : list bool) :
  forall i result j,
    0 <= i -> List.length result = Z.to_nat (BBMV.slots b) ->
    (j < List.length result)%nat ->
    nth j (BBMV.maskLoop b scale i mask result) zero =
    if Z.of_nat j <? i then nth j result zero
    else if nth (j - Z.to_nat i) mask false then scale else nth j result zero.
Proof.
  induction mask as [| m rest IH]; intros i result j Hi Hlen Hj;
    cbn [BBMV.maskLoop].
  - destruct (Z.of_nat j <? i); [reflexivity |].
    destruct (j - Z.to_nat i)%nat; reflexivity.
  - destruct (Z.leb_spec (BBMV.slots b) i) as [Hbreak | Hgo].
    + destruct (Z.ltb_spec (Z.of_nat j) i); [reflexivity | lia].
    + rewrite IH by (try destruct m; rewrite ?set_nth_length; auto; lia).
      destruct (Z.ltb_spec (Z.of_nat j) (i + 1)), (Z.ltb_spec (Z.of_nat j) i);
        try lia.
      * destruct m; [apply nth_set_nth_other; lia | reflexivity].
      * replace (j - Z.to_nat i)%nat with 0%nat by lia. cbn [nth].
        destruct m; [| reflexivity].
        replace j with (Z.to_nat i) by lia. apply nth_set_nth_same. lia.
      * replace (j - Z.to_nat i)%nat with (S (j - Z.to_nat (i + 1))) by lia.
        cbn [nth].
        destruct (nth (j - Z.to_nat (i + 1)) rest false); [reflexivity |].
        destruct m; [apply nth_set_nth_other; lia | reflexivity].
Qed.

Lemma valueLoop_maskLoop (b : BBMV.BBMVEncoder) (scale : float64) (want : Z)
      (values : list Z) :
  forall i result,
    BBMV.valueLoop b scale want i values result
    = BBMV.maskLoop b scale i (map (fun v => v =? want) values) result.
Proof.
  induction values as [| v rest IH]; intros i result;
    cbn [BBMV.valueLoop BBMV.maskLoop map]; [reflexivity |].
  destruct (BBMV.slots b <=? i); [reflexivity |]. apply IH.
Qed.

Lemma nth_repeat_zero (n j : nat) : nth j (repeat zero n) zero = zero.
Proof.
  revert j. induction n as [| n IH]; intros [| j]; cbn; auto.
Qed.

(** The BBMV encoder of the draft: with a slot count that is not negative,
    [EncodeBBMV] returns one slot per slot of the encoder, which holds
    [math.Ldexp(1.0, Λ)] where the mask has a true entry at that index and
    0 elsewhere, mask entries beyond the slot count being dropped; for Λ
    between -1074 and 1023 that scale is exactly 2^Λ.
    [EncodeBBMVForValue] is [EncodeBBMV] of the mask "value = want".  Both
    panic on a negative slot count. *)
Theorem EncodeBBMV_scales_the_mask (b : BBMV.BBMVEncoder) (mask : list bool)
        (values : list Z) (want : Z) :
  (BBMV.slots b < 0 ->
   BBMV.EncodeBBMV b mask = Err (Panic "makeslice: len out of range") /\
   BBMV.EncodeBBMVForValue b values want = Err (Panic "makeslice: len out of range")) /\
  (0 <= BBMV.slots b ->
   exists r,
     BBMV.EncodeBBMV b mask = Ok r /\
     Z.of_nat (List.length r) = BBMV.slots b /\
     (forall j, (j < List.length r)%nat ->
                nth j r zero
                = if nth j mask false then Ldexp one (LBc.LambdaBig (BBMV.config b))
                  else zero)) /\
  BBMV.EncodeBBMVForValue b values want
  = BBMV.EncodeBBMV b (map (fun v => v =? want) values) /\
  (-1074 <= LBc.LambdaBig (BBMV.config b) <= 1023 ->
   (to_Q (Ldexp one (LBc.LambdaBig (BBMV.config b)))
    == 2 ^ LBc.LambdaBig (BBMV.config b))%Q /\
   is_finite (Ldexp one (LBc.LambdaBig (BBMV.config b))) = true).
Proof.
  split; [| split; [| split]].
  - intros Hneg. unfold BBMV.EncodeBBMV, BBMV.EncodeBBMVForValue.
    destruct (Z.ltb_spec (BBMV.slots b) 0); [split; reflexivity | lia].
  - intros Hpos. unfold BBMV.EncodeBBMV.
    destruct (Z.ltb_spec (BBMV.slots b) 0); [lia |].
    eexists. split; [reflexivity |].
    assert (Hlen : List.length (repeat zero (Z.to_nat (BBMV.slots b)))
                   = Z.to_nat (BBMV.slots b)) by apply repeat_length.
    split; [rewrite bbmv_maskLoop_length, Hlen; lia |].
    intros j Hj. rewrite bbmv_maskLoop_length in Hj.
    rewrite bbmv_maskLoop_nth by (auto; lia).
    destruct (Z.ltb_spec (Z.of_nat j) 0); [lia |].
    replace (j - Z.to_nat 0)%nat with j by lia.
    rewrite nth_repeat_zero. reflexivity.
  - unfold BBMV.EncodeBBMV, BBMV.EncodeBBMVForValue.
    destruct (BBMV.slots b <? 0); [reflexivity |].
    rewrite valueLoop_maskLoop. reflexivity.
  - apply Ldexp_one_exact.
Qed.

Lemma EncodeBBMV_scales_the_mask_witness :
  (0 <= BBMV.slots sampleEncoder /\
   -1074 <= LBc.LambdaBig (BBMV.config sampleEncoder) <= 1023) /\
  (exists r,
      BBMV.EncodeBBMV sampleEncoder [true; false; true] = Ok r /\
      Z.of_nat (List.length r) = BBMV.slots sampleEncoder /\
      (forall j, (j < List.length r)%nat ->
                 nth j r zero
                 = if nth j [true; false; true] false
                   then Ldexp one (LBc.LambdaBig (BBMV.config sampleEncoder))
                   else zero)) /\
  (to_Q (Ldexp one (LBc.LambdaBig (BBMV.config sampleEncoder)))
   == 2 ^ LBc.LambdaBig (BBMV.config sampleEncoder))%Q.
Proof.
  assert (H1 : 0 <= BBMV.slots sampleEncoder) by (cbn; lia).
  assert (H2 : -1074 <= LBc.LambdaBig (BBMV.config sampleEncoder) <= 1023)
    by (cbn; lia).
  split; [split; assumption |].
  pose proof (EncodeBBMV_scales_the_mask sampleEncoder [true; false; true] [] 0) as H.
  split; [apply H; exact H1 | apply H; exact H2].
Defined.

(** A run: three rows on four slots with Λ = 30. *)
Example EncodeBBMV_run :
  BBMV.EncodeBBMV sampleEncoder [true; false; true]
  = Ok [Ldexp one 30; zero; Ldexp one 30; zero] /\
  BBMV.EncodeBBMVForValue sampleEncoder [2; 1; 2; 3; 2] 2
  = Ok [Ldexp one 30; zero; Ldexp one 30; zero].
Proof. split; reflexivity. Qed.

Lemma binop_maskLoop_length (b : BBMVBinop.BBMVEncoder) (scale : float64)
      (mask : list bool) :
  forall i result,
    List.length (BBMVBinop.maskLoop b scale i mask result) = List.length result.
Proof.
  induction mask as [| m rest IH]; intros i result; cbn [BBMVBinop.maskLoop]; auto.
  destruct (BBMVBinop.slots b <=? i); auto.
  rewrite IH. destruct m; [apply set_nth_length | reflexivity].
Qed.

Lemma binop_maskLoop_nth (b : BBMVBinop.BBMVEncoder) (scale : float64)
      (mask : list bool) :
  forall i result j,
    0 <= i -> List.length result = Z.to_nat (BBMVBinop.slots b) ->
    (j < List.length result)%nat ->
    nth j (BBMVBinop.maskLoop b scale i mask result) zero =
    if Z.of_nat j <? i then nth j result zero
    else if nth (j - Z.to_nat i) mask false then scale else nth j result zero.
Proof.
  induction mask as [| m rest IH]; intros i result j Hi Hlen Hj;
    cbn [BBMVBinop.maskLoop].
  - destruct (Z.of_nat j <? i); [reflexivity |].
    destruct (j - Z.to_nat i)%nat; reflexivity.
  - destruct (Z.leb_spec (BBMVBinop.slots b) i) as [Hbreak | Hgo].
    + destruct (Z.ltb_spec (Z.of_nat j) i); [reflexivity | lia].
    + rewrite IH by (try destruct m; rewrite ?set_nth_length; auto; lia).
      destruct (Z.ltb_spec (Z.of_nat j) (i + 1)), (Z.ltb_spec (Z.of_nat j) i);
        try lia.
      * destruct m; [apply nth_set_nth_other; lia | reflexivity].
      * replace (j - Z.to_nat i)%nat with 0%nat by lia. cbn [nth].
        destruct m; [| reflexivity].
        replace j with (Z.to_nat i) by lia. apply nth_set_nth_same. lia.
      * replace (j - Z.to_nat i)%nat with (S (j - Z.to_nat (i + 1))) by lia.
        cbn [nth].
        destruct (nth (j - Z.to_nat (i + 1)) rest false); [reflexivity |].
        destruct m; [apply nth_set_nth_other; lia | reflexivity].
Qed.

(** [float64(int(1) << e)] is exactly 2^e on each shift count from 0 to
    62. *)
Lemma shift_exact_all :
  forallb (fun n => shift_exact_at (Z.of_nat n)) (seq 0 63) = true.
Proof. vm_compute. reflexivity. Qed.

(** The BBMV encoder of binop.go, whose scale is [float64(int(1) << Λ)]:
    a negative Λ panics; for Λ from 0 to 62 the true entries of the mask
    are encoded as exactly 2^Λ; for Λ = 63 the shift wraps and they are
    encoded as -2^63; from Λ = 64 on the bit is shifted out and the
    encoding is 0 in every slot, whatever the mask. *)
Theorem EncodeBBMV_binop_scale (b : BBMVBinop.BBMVEncoder) (mask : list bool) :
  0 <= BBMVBinop.slots b ->
  (LBcBinop.LambdaBig (BBMVBinop.config b) < 0 ->
   BBMVBinop.EncodeBBMV b mask = Err (Panic "negative shift amount")) /\
  (0 <= LBcBinop.LambdaBig (BBMVBinop.config b) ->
   exists r scale,
     BBMVBinop.EncodeBBMV b mask = Ok r /\
     Z.of_nat (List.length r) = BBMVBinop.slots b /\
     (forall j, (j < List.length r)%nat ->
                nth j r zero = if nth j mask false then scale else zero) /\
     (LBcBinop.LambdaBig (BBMVBinop.config b) <= 62 ->
      (to_Q scale == 2 ^ LBcBinop.LambdaBig (BBMVBinop.config b))%Q) /\
     (LBcBinop.LambdaBig (BBMVBinop.config b) = 63 -> (to_Q scale == - 2 ^ 63)%Q) /\
     (64 <= LBcBinop.LambdaBig (BBMVBinop.config b) ->
      scale = zero /\ forall j, nth j r zero = zero)).
Proof.
  intros Hslots. unfold BBMVBinop.EncodeBBMV.
  destruct (Z.ltb_spec (BBMVBinop.slots b) 0); [lia |].
  set (L := LBcBinop.LambdaBig (BBMVBinop.config b)).
  split.
  - intros HL. unfold GoInt.shl. destruct (Z.ltb_spec L 0); [reflexivity | lia].
  - intros HL.
    assert (Hshl : exists shifted, GoInt.shl 1 L = Some shifted).
    { unfold GoInt.shl. destruct (Z.ltb_spec L 0); [lia |].
      destruct (64 <=? L); eexists; reflexivity. }
    destruct Hshl as (shifted & Hshl). rewrite Hshl.
    assert (Hlen : List.length (repeat zero (Z.to_nat (BBMVBinop.slots b)))
                   = Z.to_nat (BBMVBinop.slots b)) by apply repeat_length.
    assert (Hnth : forall j,
               (j < Z.to_nat (BBMVBinop.slots b))%nat ->
               nth j (BBMVBinop.maskLoop b (of_int shifted) 0 mask
                        (repeat zero (Z.to_nat (BBMVBinop.slots b)))) zero
               = if nth j mask false then of_int shifted else zero).
    { intros j Hj. rewrite binop_maskLoop_nth by (auto; lia).
      destruct (Z.ltb_spec (Z.of_nat j) 0); [lia |].
      replace (j - Z.to_nat 0)%nat with j by lia.
      rewrite nth_repeat_zero. reflexivity. }
    eexists. exists (of_int shifted). split; [reflexivity |].
    split; [rewrite binop_maskLoop_length, Hlen; lia |].
    split; [intros j Hj; rewrite binop_maskLoop_length, Hlen in Hj; apply Hnth, Hj |].
    split; [| split].
    + intros H62. pose proof shift_exact_all as Hall. rewrite forallb_forall in Hall.
      specialize (Hall (Z.to_nat L) ltac:(apply in_seq; lia)).
      rewrite Z2Nat.id in Hall by lia. unfold shift_exact_at in Hall.
      rewrite Hshl in Hall. apply Qeq_bool_iff. exact Hall.
    + intros H63. rewrite H63 in Hshl. vm_compute in Hshl. injection Hshl as <-.
      vm_compute. reflexivity.
    + intros H64. unfold GoInt.shl in Hshl.
      destruct (Z.ltb_spec L 0); [lia |]. destruct (Z.leb_spec 64 L); [| lia].
      injection Hshl as <-. change (of_int 0) with zero. split; [reflexivity |].
      intros j.
      destruct (Nat.lt_ge_cases j (Z.to_nat (BBMVBinop.slots b))) as [Hj | Hj].
      * change (of_int 0) with zero in Hnth. rewrite Hnth by exact Hj.
        destruct (nth j mask false); reflexivity.
      * apply nth_overflow. rewrite binop_maskLoop_length, Hlen. exact Hj.
Qed.

Lemma EncodeBBMV_binop_scale_witness :
  (0 <= BBMVBinop.slots sampleEncoderBinop /\
   0 <= LBcBinop.LambdaBig (BBMVBinop.config sampleEncoderBinop)) /\
  exists r scale,
    BBMVBinop.EncodeBBMV sampleEncoderBinop [true; false; true] = Ok r /\
    Z.of_nat (List.length r) = BBMVBinop.slots sampleEncoderBinop /\
    (forall j, (j < List.length r)%nat ->
               nth j r zero = if nth j [true; false; true] false then scale else zero) /\
    (LBcBinop.LambdaBig (BBMVBinop.config sampleEncoderBinop) <= 62 ->
     (to_Q scale == 2 ^ LBcBinop.LambdaBig (BBMVBinop.config sampleEncoderBinop))%Q) /\
    (LBcBinop.LambdaBig (BBMVBinop.config sampleEncoderBinop) = 63 ->
     (to_Q scale == - 2 ^ 63)%Q) /\
    (64 <= LBcBinop.LambdaBig (BBMVBinop.config sampleEncoderBinop) ->
     scale = zero /\ forall j, nth j r zero = zero).
Proof.
  assert (H1 : 0 <= BBMVBinop.slots sampleEncoderBinop) by (cbn; lia).
  assert (H2 : 0 <= LBcBinop.LambdaBig (BBMVBinop.config sampleEncoderBinop))
    by (cbn; lia).
  split; [split; assumption |].
  apply (EncodeBBMV_binop_scale sampleEncoderBinop [true; false; true] H1). exact H2.
Defined.

(** A run: Λ = 10 gives 1024, and Λ = 64 loses the mask. *)
Example EncodeBBMV_binop_run :
  BBMVBinop.EncodeBBMV sampleEncoderBinop [true; false; true]
  = Ok [of_int 1024; zero; of_int 1024; zero] /\
  BBMVBinop.EncodeBBMV
    (BBMVBinop.NewBBMVEncoder 4 {| LBcBinop.Delta := 8; LBcBinop.LambdaBig := 64 |})
    [true; false; true]
  = Ok [zero; zero; zero; zero].
Proof. split; reflexivity. Qed.

(* ===================================================================== *)
(** * package categorical: the plaintext references *)
(* ===================================================================== *)

Lemma at_index_ok {A : Type} (l : list A) (n : nat) (d : A) :
  (n < List.length l)%nat -> at_index l (Z.of_nat n) = Ok (nth n l d).
Proof.
  intros H. unfold at_index. destruct (Z.ltb_spec (Z.of_nat n) 0); [lia |].
  rewrite Nat2Z.id. destruct (nth_error l n) as [a |] eqn:E.
  - f_equal. symmetry. apply nth_error_nth. exact E.
  - apply nth_error_None in E. lia.
Qed.

Lemma countBelow_bounds (p : nat -> bool) (n : nat) :
  0 <= countBelow p n <= Z.of_nat n.
Proof.
  induction n as [| n IH]; cbn [countBelow]; [lia |].
  destruct (p n); lia.
Qed.

Lemma countBelow_ext (p q : nat -> bool) (n : nat) :
  (forall i, (i < n)%nat -> p i = q i) -> countBelow p n = countBelow q n.
Proof.
  induction n as [| n IH]; intros H; cbn [countBelow]; [reflexivity |].
  rewrite IH by (intros i Hi; apply H; lia). rewrite (H n) by lia. reflexivity.
Qed.

Lemma countBelow_le (p q : nat -> bool) (n : nat) :
  (forall i, (i < n)%nat -> p i = true -> q i = true) ->
  countBelow p n <= countBelow q n.
Proof.
  induction n as [| n IH]; intros H; cbn [countBelow]; [lia |].
  specialize (IH ltac:(intros i Hi; apply H; lia)).
  specialize (H n ltac:(lia)).
  destruct (p n), (q n); first [lia | specialize (H eq_refl); discriminate].
Qed.

Lemma countBelow_or (p q r : nat -> bool) (n : nat) :
  (forall i, (i < n)%nat -> r i = p i || q i) ->
  (forall i, (i < n)%nat -> p i && q i = false) ->
  countBelow r n = countBelow p n + countBelow q n.
Proof.
  induction n as [| n IH]; intros Hr Hd; cbn [countBelow]; [reflexivity |].
  rewrite IH; [| intros i Hi; apply Hr; lia | intros i Hi; apply Hd; lia].
  specialize (Hr n ltac:(lia)). specialize (Hd n ltac:(lia)). rewrite Hr.
  destruct (p n), (q n); cbn in *; first [lia | discriminate].
Qed.

(** The loop over the conditions, on a row all the columns asked for
    have. *)
Lemma matchLoop_forallb (values : list (list Z)) (i : nat) (conditions : list Z) :
  forall j : nat,
    (j + List.length conditions <= List.length values)%nat ->
    (forall t, (j <= t < j + List.length conditions)%nat ->
               (i < List.length (nth t values []))%nat) ->
    Plaintext.matchLoop values (Z.of_nat i) (Z.of_nat j) conditions
    = Ok (forallb (fun jc => nth i (nth (fst jc) values []) 0 =? snd jc)
                  (combine (seq j (List.length conditions)) conditions)).
Proof.
  induction conditions as [| cond rest IH]; intros j Hj Hrows.
  - reflexivity.
  - cbn [List.length] in Hj, Hrows.
    cbn [Plaintext.matchLoop List.length seq combine forallb fst snd].
    rewrite (at_index_ok values j []) by lia. cbn [andThen].
    rewrite (at_index_ok (nth j values []) i 0) by (apply Hrows; lia).
    cbn [andThen].
    destruct (nth i (nth j values []) 0 =? cond); cbn [negb andb]; [| reflexivity].
    replace (Z.of_nat j + 1) with (Z.of_nat (S j)) by lia.
    apply IH; [lia | intros t Ht; apply Hrows; lia].
Qed.

Lemma nth_middle_default {A : Type} (pre rest : list A) (x d : A) :
  nth (List.length pre) (pre ++ x :: rest)%list d = x.
Proof. induction pre as [| h pre IH]; cbn; [reflexivity | exact IH]. Qed.

Lemma bcLoop_counts (values : list (list Z)) (conditions : list Z) (all : list bool) :
  (List.length conditions <= List.length values)%nat ->
  (forall t, (t < List.length conditions)%nat ->
             (List.length all <= List.length (nth t values []))%nat) ->
  Z.of_nat (List.length all) <= GoInt.max_int ->
  forall rest pre,
    (pre ++ rest)%list = all ->
    Plaintext.bcLoop values conditions (Z.of_nat (List.length pre)) rest
                     (countBelow (rowMatches values conditions all) (List.length pre))
    = Ok (countBelow (rowMatches values conditions all) (List.length all)).
Proof.
  intros Hcols Hrows Hmax.
  induction rest as [| ok rest IH]; intros pre Hall.
  - rewrite app_nil_r in Hall. subst pre. reflexivity.
  - cbn [Plaintext.bcLoop].
    assert (Hall' : ((pre ++ [ok]) ++ rest)%list = all)
      by (rewrite <- app_assoc; exact Hall).
    assert (Hlen : (List.length pre < List.length all)%nat)
      by (rewrite <- Hall, length_app; cbn [List.length]; lia).
    assert (Hok : nth (List.length pre) all false = ok)
      by (rewrite <- Hall; apply nth_middle_default).
    specialize (IH (pre ++ [ok])%list Hall').
    rewrite length_app in IH. cbn [List.length] in IH.
    replace (List.length pre + 1)%nat with (S (List.length pre)) in IH by lia.
    cbn [countBelow] in IH.
    replace (Z.of_nat (List.length pre) + 1) with (Z.of_nat (S (List.length pre)))
      by lia.
    unfold rowMatches in IH at 2. rewrite Hok in IH.
    destruct ok; cbn [negb andb] in *.
    + pose proof (matchLoop_forallb values (List.length pre) conditions 0 Hcols
                    ltac:(intros t Ht; specialize (Hrows t); lia)) as Hm.
      change (Z.of_nat 0) with 0 in Hm. rewrite Hm. cbn [andThen].
      match goal with
      | |- context [if ?m then _ else _] => destruct m
      end.
      * pose proof (countBelow_bounds (rowMatches values conditions all)
                                      (List.length pre)) as Hb.
        unfold GoInt.add. rewrite wrap_small
          by (unfold GoInt.in_range, GoInt.min_int, GoInt.max_int in *; lia).
        exact IH.
      * rewrite Z.add_0_r in IH. exact IH.
    + rewrite Z.add_0_r in IH. exact IH.
Qed.

Lemma combine_seq_snoc (conditions : list Z) (c : Z) :
  forall j,
    combine (seq j (List.length (conditions ++ [c])%list)) (conditions ++ [c])%list
    = (combine (seq j (List.length conditions)) conditions
         ++ [((j + List.length conditions)%nat, c)])%list.
Proof.
  induction conditions as [| d conditions IH]; intros j; cbn [app List.length seq combine].
  - rewrite Nat.add_0_r. reflexivity.
  - rewrite IH.
    replace (S j + List.length conditions)%nat with (j + S (List.length conditions))%nat
      by lia.
    reflexivity.
Qed.

Lemma bc_panics_without_columns (conditions : list Z) (c : Z) (valid : list bool) :
  In true valid ->
  forall i count, 0 <= i ->
    Plaintext.bcLoop [] (c :: conditions) i valid count
    = Err (Panic "index out of range").
Proof.
  induction valid as [| ok rest IH]; intros Hin i count Hi; [destruct Hin |].
  cbn [Plaintext.bcLoop]. destruct ok; cbn [negb].
  - reflexivity.
  - destruct Hin as [H | Hin]; [discriminate |]. apply IH; [exact Hin | lia].
Qed.

(** Plaintext bin count: when every condition has its column and every
    such column has a value for each row of [valid], [PlaintextBc] returns
    the number of rows that are valid and hold, column by column, the
    value of each condition.  That number is at most the number of valid
    rows, which it equals when there is no condition, and one more
    condition never raises it.  Asked for a condition with no column at
    all, it panics at the first valid row. *)
Theorem PlaintextBc_counts_matching_rows (values : list (list Z)) (conditions : list Z)
        (valid : list bool) :
  (List.length conditions <= List.length values)%nat ->
  (forall t, (t < List.length conditions)%nat ->
             (List.length valid <= List.length (nth t values []))%nat) ->
  Z.of_nat (List.length valid) <= GoInt.max_int ->
  Plaintext.PlaintextBc values conditions valid
  = Ok (countBelow (rowMatches values conditions valid) (List.length valid)) /\
  0 <= countBelow (rowMatches values conditions valid) (List.length valid)
    <= countBelow (fun i => nth i valid false) (List.length valid) /\
  (conditions = [] ->
   countBelow (rowMatches values conditions valid) (List.length valid)
   = countBelow (fun i => nth i valid false) (List.length valid)) /\
  (forall c,
      countBelow (rowMatches values (conditions ++ [c]) valid) (List.length valid)
      <= countBelow (rowMatches values conditions valid) (List.length valid)) /\
  (forall c, In true valid ->
             Plaintext.PlaintextBc [] (c :: conditions) valid
             = Err (Panic "index out of range")).
Proof.
  intros Hcols Hrows Hmax. split; [| split; [| split; [| split]]].
  - unfold Plaintext.PlaintextBc.
    exact (bcLoop_counts values conditions valid Hcols Hrows Hmax valid [] eq_refl).
  - split; [apply countBelow_bounds |].
    apply countBelow_le. intros i _ H. unfold rowMatches in H.
    apply andb_prop in H. apply H.
  - intros ->. apply countBelow_ext. intros i _. unfold rowMatches.
    cbn. apply andb_true_r.
  - intros c. apply countBelow_le. intros i _. unfold rowMatches.
    rewrite combine_seq_snoc, forallb_app.
    intros H. apply andb_prop in H. destruct H as [H1 H2].
    apply andb_prop in H2. destruct H2 as [H2 _]. rewrite H1, H2. reflexivity.
  - intros c Hin. unfold Plaintext.PlaintextBc.
    apply bc_panics_without_columns; [exact Hin | lia].
Qed.

Lemma PlaintextBc_counts_matching_rows_witness :
  ((List.length sampleValuesAsked <= List.length sampleColumns)%nat /\
   (forall t, (t < List.length sampleValuesAsked)%nat ->
              (List.length sampleRowsValid
               <= List.length (nth t sampleColumns []))%nat) /\
   Z.of_nat (List.length sampleRowsValid) <= GoInt.max_int) /\
  Plaintext.PlaintextBc sampleColumns sampleValuesAsked sampleRowsValid
  = Ok (countBelow (rowMatches sampleColumns sampleValuesAsked
                               sampleRowsValid)
                   (List.length sampleRowsValid)).
Proof.
  assert (H1 : (List.length sampleValuesAsked <= List.length sampleColumns)%nat)
    by (cbn; lia).
  assert (H2 : forall t, (t < List.length sampleValuesAsked)%nat ->
                 (List.length sampleRowsValid
                  <= List.length (nth t sampleColumns []))%nat).
  { intros t Ht. cbn in Ht. destruct t as [| [| t]]; cbn; lia. }
  assert (H3 : Z.of_nat (List.length sampleRowsValid) <= GoInt.max_int)
    by (unfold GoInt.max_int; cbn; lia).
  split; [split; [exact H1 | split; [exact H2 | exact H3]] |].
  apply (PlaintextBc_counts_matching_rows sampleColumns sampleValuesAsked
           sampleRowsValid H1 H2 H3).
Defined.

(** A run: of four rows, one is valid with the values 2 and 1. *)
Example PlaintextBc_run :
  Plaintext.PlaintextBc sampleColumns sampleValuesAsked sampleRowsValid
  = Ok 1 /\
  Plaintext.PlaintextBc sampleColumns [] sampleRowsValid
  = Ok 3.
Proof. split; reflexivity. Qed.

(** ** The cumulative histogram *)

Lemma nth_set_nth {A : Type} (n j : nat) (x d : A) (l : list A) :
  (n < List.length l)%nat ->
  nth j (LBc.set_nth n x l) d = if Nat.eqb j n then x else nth j l d.
Proof.
  intros Hn. destruct (Nat.eqb_spec j n) as [-> | Hne].
  - apply nth_set_nth_same. exact Hn.
  - apply nth_set_nth_other. exact Hne.
Qed.

Lemma freqLoop_counts (all : list Z) (valid : list bool) (categories : Z) :
  0 <= categories <= GoInt.max_int ->
  (List.length all <= List.length valid)%nat ->
  Z.of_nat (List.length all) <= GoInt.max_int ->
  forall rest pre freq,
    (pre ++ rest)%list = all ->
    freqOf all valid categories (List.length pre) freq ->
    exists freq',
      Plaintext.freqLoop valid categories (Z.of_nat (List.length pre)) rest freq
      = Ok freq' /\
      freqOf all valid categories (List.length all) freq'.
Proof.
  intros Hcat Hvalid Hmax.
  induction rest as [| v rest IH]; intros pre freq Hall Hfreq.
  - rewrite app_nil_r in Hall. subst pre. exists freq. split; [reflexivity | exact Hfreq].
  - cbn [Plaintext.freqLoop].
    assert (Hall' : ((pre ++ [v]) ++ rest)%list = all)
      by (rewrite <- app_assoc; exact Hall).
    assert (Hlen : (List.length pre < List.length all)%nat)
      by (rewrite <- Hall, length_app; cbn [List.length]; lia).
    assert (Hv : nth (List.length pre) all 0 = v)
      by (rewrite <- Hall; apply nth_middle_default).
    rewrite (at_index_ok valid (List.length pre) false) by lia. cbn [andThen].
    replace (Z.of_nat (List.length pre) + 1)
      with (Z.of_nat (List.length (pre ++ [v])%list))
      by (rewrite length_app; cbn [List.length]; lia).
    destruct Hfreq as [Hflen Hfnth].
    assert (Hstep : forall k,
               countBelow (rowIs all valid (Z.of_nat k + 1))
                          (List.length (pre ++ [v])%list)
               = countBelow (rowIs all valid (Z.of_nat k + 1)) (List.length pre)
                 + (if nth (List.length pre) valid false && (v =? Z.of_nat k + 1)
                    then 1 else 0)).
    { intros k. rewrite length_app. cbn [List.length].
      replace (List.length pre + 1)%nat with (S (List.length pre)) by lia.
      cbn [countBelow]. unfold rowIs at 2. rewrite Hv. reflexivity. }
    destruct (nth (List.length pre) valid false && (1 <=? v) && (v <=? categories))
      eqn:Ecase.
    + apply andb_prop in Ecase. destruct Ecase as [Ecase Hle].
      apply andb_prop in Ecase. destruct Ecase as [Hok Hge].
      apply Z.leb_le in Hle, Hge.
      assert (Hsub : GoInt.sub v 1 = v - 1).
      { unfold GoInt.sub. apply wrap_small.
        unfold GoInt.in_range, GoInt.min_int, GoInt.max_int in *. lia. }
      rewrite Hsub. apply IH; [exact Hall' |]. split.
      * rewrite set_nth_length. exact Hflen.
      * intros k Hk. rewrite nth_set_nth by lia. rewrite Hstep, Hok. cbn [andb].
        destruct (Nat.eqb_spec k (Z.to_nat (v - 1))) as [-> | Hne].
        -- rewrite Hfnth by lia.
           pose proof (countBelow_bounds
                         (rowIs all valid (Z.of_nat (Z.to_nat (v - 1)) + 1))
                         (List.length pre)) as Hb.
           destruct (Z.eqb_spec v (Z.of_nat (Z.to_nat (v - 1)) + 1)); [| lia].
           unfold GoInt.add. apply wrap_small.
           unfold GoInt.in_range, GoInt.min_int, GoInt.max_int in *. lia.
        -- rewrite Hfnth by lia.
           destruct (Z.eqb_spec v (Z.of_nat k + 1)); [lia | lia].
    + apply IH; [exact Hall' |]. split; [exact Hflen |].
      intros k Hk. rewrite Hstep, Hfnth by lia.
      destruct (nth (List.length pre) valid false); cbn [andb] in *; [| lia].
      destruct (Z.eqb_spec v (Z.of_nat k + 1)); [| lia].
      exfalso. apply andb_false_iff in Ecase.
      destruct Ecase as [E | E]; [apply Z.leb_gt in E | apply Z.leb_gt in E]; lia.
Qed.

Lemma rowUpTo_step (all : list Z) (valid : list bool) (c : Z) (n : nat) :
  1 <= c ->
  countBelow (rowUpTo all valid (c + 1)) n
  = countBelow (rowUpTo all valid c) n + countBelow (rowIs all valid (c + 1)) n.
Proof.
  intros Hc. apply countBelow_or; intros i _; unfold rowUpTo, rowIs;
    destruct (nth i valid false); cbn [andb orb]; try reflexivity;
    destruct (Z.leb_spec 1 (nth i all 0)), (Z.leb_spec (nth i all 0) (c + 1)),
      (Z.leb_spec (nth i all 0) c), (Z.eqb_spec (nth i all 0) (c + 1));
    cbn; try reflexivity; lia.
Qed.

Lemma rowUpTo_one (all : list Z) (valid : list bool) (n : nat) :
  countBelow (rowUpTo all valid 1) n = countBelow (rowIs all valid 1) n.
Proof.
  apply countBelow_ext. intros i _. unfold rowUpTo, rowIs.
  destruct (nth i valid false); cbn [andb]; [| reflexivity].
  destruct (Z.leb_spec 1 (nth i all 0)), (Z.leb_spec (nth i all 0) 1),
    (Z.eqb_spec (nth i all 0) 1); cbn; try reflexivity; lia.
Qed.

Lemma cumulLoop_sums (all : list Z) (valid : list bool) (categories : Z)
      (freq : list Z) :
  Z.of_nat (List.length all) <= GoInt.max_int ->
  freqOf all valid categories (List.length all) freq ->
  forall todo i cumul,
    (1 <= i)%nat -> (i + todo = Z.to_nat categories)%nat ->
    cumulOf all valid categories i cumul ->
    cumulOf all valid categories (Z.to_nat categories)
            (Plaintext.cumulLoop todo (Z.of_nat i) freq cumul).
Proof.
  intros Hmax [Hflen Hfnth].
  induction todo as [| todo IH]; intros i cumul Hi Htodo Hc.
  - cbn [Plaintext.cumulLoop]. replace (Z.to_nat categories) with i by lia. exact Hc.
  - cbn [Plaintext.cumulLoop].
    replace (Z.of_nat i + 1) with (Z.of_nat (S i)) by lia.
    apply IH; [lia | lia |].
    destruct Hc as [Hclen Hcnth]. split; [rewrite set_nth_length; exact Hclen |].
    intros k Hk. rewrite Nat2Z.id. rewrite nth_set_nth by lia.
    destruct (Nat.eqb_spec k i) as [-> | Hne].
    + replace (Z.to_nat (Z.of_nat i - 1)) with (i - 1)%nat by lia.
      rewrite Hcnth by lia. rewrite Hfnth by lia.
      replace (Z.of_nat (i - 1) + 1) with (Z.of_nat i) by lia.
      rewrite (rowUpTo_step all valid (Z.of_nat i)) by lia.
      pose proof (countBelow_bounds (rowUpTo all valid (Z.of_nat i + 1))
                                    (List.length all)) as Hb.
      rewrite (rowUpTo_step all valid (Z.of_nat i)) in Hb by lia.
      unfold GoInt.add. apply wrap_small.
      unfold GoInt.in_range, GoInt.min_int, GoInt.max_int in *. lia.
    + apply Hcnth. lia.
Qed.

(** Plaintext cumulative histogram: with a validity entry for every row
    and at least one category, [PlaintextCumulativeHistogram] returns one
    entry per category, entry c - 1 being the number of valid rows whose
    value lies between 1 and c; the entries never decrease, and when
    [values] and [valid] have one length the step from one entry to the
    next is what [PlaintextBc] counts for that category alone.  With zero
    categories it panics on [cumul[0]], with a negative number on
    [make]. *)
Theorem PlaintextCumulativeHistogram_accumulates (values : list Z) (valid : list bool)
        (categories : Z) :
  (List.length values <= List.length valid)%nat ->
  Z.of_nat (List.length valid) <= GoInt.max_int ->
  categories <= GoInt.max_int ->
  (categories < 0 ->
   Plaintext.PlaintextCumulativeHistogram values valid categories
   = Err (Panic "makeslice: len out of range")) /\
  (categories = 0 ->
   Plaintext.PlaintextCumulativeHistogram values valid categories
   = Err (Panic "index out of range")) /\
  (1 <= categories ->
   exists cumul,
     Plaintext.PlaintextCumulativeHistogram values valid categories = Ok cumul /\
     Z.of_nat (List.length cumul) = categories /\
     (forall c, 1 <= c <= categories ->
                nth (Z.to_nat (c - 1)) cumul 0
                = countBelow (rowUpTo values valid c) (List.length values)) /\
     (forall c c', 1 <= c <= c' -> c' <= categories ->
                   nth (Z.to_nat (c - 1)) cumul 0 <= nth (Z.to_nat (c' - 1)) cumul 0) /\
     (List.length values = List.length valid ->
      forall c, 1 <= c <= categories ->
                Plaintext.PlaintextBc [values] [c] valid
                = Ok (nth (Z.to_nat (c - 1)) cumul 0
                      - (if c =? 1 then 0 else nth (Z.to_nat (c - 2)) cumul 0)))).
Proof.
  intros Hvalid Hmax Hcmax.
  assert (Hmax' : Z.of_nat (List.length values) <= GoInt.max_int) by lia.
  unfold Plaintext.PlaintextCumulativeHistogram.
  split; [| split].
  - intros Hc. destruct (Z.ltb_spec categories 0); [reflexivity | lia].
  - intros ->. cbn [Z.ltb Z.compare Z.to_nat repeat].
    destruct (freqLoop_counts values valid 0 ltac:(unfold GoInt.max_int; lia) Hvalid
                              Hmax' values [] []
                              eq_refl) as (freq' & E & Hlen & _).
    { split; [reflexivity | intros k Hk; cbn in Hk; lia]. }
    cbn [List.length Z.of_nat] in E. rewrite E. cbn [andThen].
    destruct freq'; [reflexivity | discriminate].
  - intros Hc. destruct (Z.ltb_spec categories 0); [lia |].
    destruct (freqLoop_counts values valid categories ltac:(lia) Hvalid Hmax' values []
                              (repeat 0 (Z.to_nat categories)) eq_refl)
      as (freq' & E & Hfreq).
    { split; [apply repeat_length |]. intros k Hk. cbn [List.length countBelow].
      clear. revert k. induction (Z.to_nat categories) as [| n IH]; intros [| k];
        cbn; auto. }
    cbn [List.length Z.of_nat] in E. rewrite E. cbn [andThen].
    destruct Hfreq as [Hflen Hfnth].
    destruct freq' as [| f0 freq']; [cbn [List.length] in Hflen; lia |].
    assert (Hinit : cumulOf values valid categories 1
                            (LBc.set_nth 0 f0 (repeat 0 (Z.to_nat categories)))).
    { split; [rewrite set_nth_length; apply repeat_length |].
      intros k Hk. replace k with 0%nat by lia.
      rewrite nth_set_nth_same by (rewrite repeat_length; lia).
      specialize (Hfnth 0%nat ltac:(lia)). cbn [nth Z.of_nat Z.add] in Hfnth.
      rewrite rowUpTo_one. exact Hfnth. }
    pose proof (cumulLoop_sums values valid categories (f0 :: freq') Hmax'
                  (conj Hflen Hfnth) (Z.to_nat (categories - 1)) 1 _
                  ltac:(lia) ltac:(lia) Hinit) as [Hclen Hcnth].
    change (Z.of_nat 1) with 1 in Hclen, Hcnth.
    eexists. split; [reflexivity |].
    assert (Hentry : forall c, 1 <= c <= categories ->
                nth (Z.to_nat (c - 1))
                    (Plaintext.cumulLoop (Z.to_nat (categories - 1)) 1 (f0 :: freq')
                       (LBc.set_nth 0 f0 (repeat 0 (Z.to_nat categories)))) 0
                = countBelow (rowUpTo values valid c) (List.length values)).
    { intros c Hcc. rewrite Hcnth by lia. do 2 f_equal. lia. }
    split; [rewrite Hclen; lia |]. split; [exact Hentry |]. split.
    + intros c c' Hcc Hc'. rewrite !Hentry by lia.
      apply countBelow_le. intros i _. unfold rowUpTo.
      destruct (nth i valid false); cbn [andb]; [| discriminate].
      destruct (Z.leb_spec 1 (nth i values 0)); cbn [andb]; [| discriminate].
      intros Hle. apply Z.leb_le in Hle. apply Z.leb_le. lia.
    + intros Hsame c Hcc.
      assert (Hbc : Plaintext.PlaintextBc [values] [c] valid
                    = Ok (countBelow (rowIs values valid c) (List.length values))).
      { unfold Plaintext.PlaintextBc.
        rewrite <- (countBelow_ext (rowMatches [values] [c] valid)
                                   (rowIs values valid c) (List.length values)).
        - rewrite Hsame.
          apply (bcLoop_counts [values] [c] valid ltac:(cbn; lia)
                   ltac:(intros t Ht; cbn in Ht; replace t with 0%nat by lia;
                         cbn [nth]; lia)
                   Hmax valid [] eq_refl).
        - intros i _. unfold rowMatches, rowIs. cbn. rewrite andb_true_r.
          reflexivity. }
      rewrite Hbc. f_equal. rewrite Hentry by lia.
      destruct (Z.eqb_spec c 1) as [-> | Hne].
      * rewrite rowUpTo_one. lia.
      * replace (Z.to_nat (c - 2)) with (Z.to_nat ((c - 1) - 1)) by (f_equal; lia).
        rewrite Hentry by lia.
        replace c with ((c - 1) + 1) at 1 2 by lia.
        rewrite (rowUpTo_step values valid (c - 1)) by lia.
        replace (c - 1 + 1) with c by lia. lia.
Qed.

Lemma PlaintextCumulativeHistogram_accumulates_witness :
  ((List.length sampleOrdinal <= List.length sampleOrdinalValid)%nat /\
   Z.of_nat (List.length sampleOrdinalValid) <= GoInt.max_int /\
   3 <= GoInt.max_int /\ 1 <= 3) /\
  exists cumul,
    Plaintext.PlaintextCumulativeHistogram sampleOrdinal
                                           sampleOrdinalValid 3
    = Ok cumul /\
    Z.of_nat (List.length cumul) = 3.
Proof.
  assert (H1 : (List.length sampleOrdinal
                <= List.length sampleOrdinalValid)%nat) by (cbn; lia).
  assert (H2 : Z.of_nat (List.length sampleOrdinalValid)
               <= GoInt.max_int) by (unfold GoInt.max_int; cbn; lia).
  assert (H3 : 1 <= 3) by lia.
  assert (H4 : 3 <= GoInt.max_int) by (unfold GoInt.max_int; lia).
  split; [split; [exact H1 | split; [exact H2 | split; [exact H4 | exact H3]]] |].
  destruct (PlaintextCumulativeHistogram_accumulates
              sampleOrdinal sampleOrdinalValid 3 H1 H2 H4)
    as (_ & _ & H).
  destruct (H H3) as (cumul & E & Hlen & _).
  exists cumul. split; [exact E | exact Hlen].
Defined.

(** A run: one valid row holds 1 and two hold 2; the row holding 3 is not
    valid and the value 5 is out of range. *)
Example PlaintextCumulativeHistogram_run :
  Plaintext.PlaintextCumulativeHistogram sampleOrdinal
                                         sampleOrdinalValid 3
  = Ok [1; 3; 3] /\
  Plaintext.PlaintextCumulativeHistogram sampleValuesAsked [true; true] 0
  = Err (Panic "index out of range").
Proof. split; reflexivity. Qed.

(* ===================================================================== *)
(** * Operators built from the sums: Stdev, Correlation, Ba, Bv *)
(* ===================================================================== *)

Lemma newtonInverse_compat (c c' : Q) :
  (c == c')%Q -> (newtonInverse c == newtonInverse c')%Q.
Proof. intros H. unfold newtonInverse. apply newtonMap_iter_compat, H. Qed.

Lemma newtonInvSqrt_compat (v v' : Q) :
  (v == v')%Q -> (newtonInvSqrt v == newtonInvSqrt v')%Q.
Proof. intros H. unfold newtonInvSqrt. apply newtonMap_iter_compat, H. Qed.

Section CompositionLogic.

Context {Ct : Type}.
Variable B : Backend Ct.
Variable M : PlainModel B.
Variable e : Evaluator Ct.

Variable F : Prop.
Hypothesis backend_or_excuse : BackendTotal B \/ F.
Hypothesis bootstrap_or_excuse : BootstrapTotal e \/ F.
Hypothesis bootstrap_slots : BootstrapKeepsSlots B M e.

Local Open Scope Q_scope.

Local Abbreviation wpSub := (wp_Sub B M e F backend_or_excuse).
Local Abbreviation wpMul := (wp_Mul B M e F backend_or_excuse).
Local Abbreviation wpRescale := (wp_Rescale B M e F backend_or_excuse).
Local Abbreviation wpCount := (wp_Count B M e F backend_or_excuse).
Local Abbreviation wpMaskedCrossSum := (wp_MaskedCrossSum B M e F backend_or_excuse).
Local Abbreviation wpBuildMask := (wp_BuildMask B M e F backend_or_excuse).
Local Abbreviation wpINVNTHSQRT :=
  (wp_INVNTHSQRT B M e F backend_or_excuse bootstrap_or_excuse bootstrap_slots).
Local Abbreviation wpMean :=
  (wp_Mean B M e F backend_or_excuse bootstrap_or_excuse bootstrap_slots).
Local Abbreviation wpVariance :=
  (wp_Variance B M e F backend_or_excuse bootstrap_or_excuse bootstrap_slots).

Lemma wp_Stdev (xs vs : list Ct) (k : Z) (st : Stats) (P : Ct -> Stats -> Prop) :
  (0 <= k <= 62)%Z -> MaxSlots B = (2 ^ k)%Z ->
  List.length xs = List.length vs -> xs <> [] ->
  (forall r st',
      slot M r 0 ==
      varianceOf (blocksTotal (map (slotSquareMasked M) (combine xs vs)) (MaxSlots B))
                 (blocksTotal (map (slotProduct M) (combine xs vs)) (MaxSlots B))
                 (blocksTotal (map (slot M) vs) (MaxSlots B))
      * newtonInvSqrt
          (varianceOf (blocksTotal (map (slotSquareMasked M) (combine xs vs)) (MaxSlots B))
                      (blocksTotal (map (slotProduct M) (combine xs vs)) (MaxSlots B))
                      (blocksTotal (map (slot M) vs) (MaxSlots B))) ->
      P r st') ->
  wp F (Stdev B (NewNumericOp e) xs vs) st P.
Proof.
  intros Hk HS Hlen Hne HP. unfold Stdev.
  apply wp_bind, wp_onErr, (wpVariance xs vs k); try assumption.
  intros variance st1 Hvar.
  apply wp_bind, wp_onErr, wpINVNTHSQRT.
  { cbn. unfold GoInt.max_int. lia. }
  { vm_compute. reflexivity. }
  intros inv st2 Hinv. cbn [eval NewNumericOp].
  apply wp_bind, wp_onErr, wpMul. intros stdev st3 Hstdev.
  apply wpRescale. intros r st4 Hr. apply HP.
  rewrite Hr, Hstdev, (Hinv 0%Z). fold (varianceOf
    (blocksTotal (map (slotSquareMasked M) (combine xs vs)) (MaxSlots B))
    (blocksTotal (map (slotProduct M) (combine xs vs)) (MaxSlots B))
    (blocksTotal (map (slot M) vs) (MaxSlots B))) in Hvar.
  apply Qmult_comp; [exact Hvar |].
  unfold newtonInvSqrt. apply newtonMap_iter_compat, Hvar.
Qed.

Lemma wp_Correlation (xs ys vs : list Ct) (k : Z) (st : Stats)
      (P : Ct -> Stats -> Prop) :
  (0 <= k <= 62)%Z -> MaxSlots B = (2 ^ k)%Z ->
  List.length xs = List.length ys -> List.length xs = List.length vs -> xs <> [] ->
  (forall r st',
      slot M r 0 ==
      (blocksTotal (map (slotProduct3 M) (combine (combine xs ys) vs)) (MaxSlots B)
       * newtonInverse (blocksTotal (map (slot M) vs) (MaxSlots B))
       - (blocksTotal (map (slotProduct M) (combine xs vs)) (MaxSlots B)
          * newtonInverse (blocksTotal (map (slot M) vs) (MaxSlots B)))
         * (blocksTotal (map (slotProduct M) (combine ys vs)) (MaxSlots B)
            * newtonInverse (blocksTotal (map (slot M) vs) (MaxSlots B))))
      * newtonInvSqrt
          (varianceOf (blocksTotal (map (slotSquareMasked M) (combine xs vs)) (MaxSlots B))
                      (blocksTotal (map (slotProduct M) (combine xs vs)) (MaxSlots B))
                      (blocksTotal (map (slot M) vs) (MaxSlots B)))
      * newtonInvSqrt
          (varianceOf (blocksTotal (map (slotSquareMasked M) (combine ys vs)) (MaxSlots B))
                      (blocksTotal (map (slotProduct M) (combine ys vs)) (MaxSlots B))
                      (blocksTotal (map (slot M) vs) (MaxSlots B))) ->
      P r st') ->
  wp F (Correlation B (NewNumericOp e) xs ys vs) st P.
Proof.
  intros Hk HS Hxy Hxv Hne HP. unfold Correlation.
  assert (Hyv : List.length ys = List.length vs) by congruence.
  assert (Hys : ys <> []).
  { intros E. apply Hne. destruct xs; [reflexivity | rewrite E in Hxy; discriminate]. }
  assert (Hvs : vs <> []).
  { intros E. apply Hne. destruct xs; [reflexivity | rewrite E in Hxv; discriminate]. }
  apply wp_bind, wp_onErr, (wpMean xs vs k); try assumption.
  intros meanX st1 HmeanX.
  apply wp_bind, wp_onErr, (wpMean ys vs k); try assumption.
  intros meanY st2 HmeanY.
  apply wp_bind, wp_onErr, (wpMaskedCrossSum xs ys vs k); try assumption.
  intros sumXY st3 HsumXY.
  apply wp_bind, wp_onErr, (wpCount vs k); try assumption.
  intros count st4 Hcount.
  apply wp_bind, wp_onErr, wpINVNTHSQRT.
  { cbn. unfold GoInt.max_int. lia. }
  { vm_compute. reflexivity. }
  intros invCount st5 Hinv. cbn [eval NewNumericOp].
  apply wp_bind, wp_onErr, wpMul. intros eXY st6 HeXY.
  apply wp_bind, wp_onErr, wpRescale. intros eXY' st7 HeXY'.
  apply wp_bind, wp_onErr, wpMul. intros eXeY st8 HeXeY.
  apply wp_bind, wp_onErr, wpRescale. intros eXeY' st9 HeXeY'.
  apply wp_bind, wp_onErr, wpSub. intros cov st10 Hcov.
  apply wp_bind, wp_onErr, (wpVariance xs vs k); try assumption.
  intros varX st11 HvarX.
  apply wp_bind, wp_onErr, (wpVariance ys vs k); try assumption.
  intros varY st12 HvarY.
  apply wp_bind, wp_onErr, wpINVNTHSQRT.
  { cbn. unfold GoInt.max_int. lia. }
  { vm_compute. reflexivity. }
  intros invX st13 HinvX.
  apply wp_bind, wp_onErr, wpINVNTHSQRT.
  { cbn. unfold GoInt.max_int. lia. }
  { vm_compute. reflexivity. }
  intros invY st14 HinvY.
  apply wp_bind, wp_onErr, wpMul. intros corr st15 Hcorr.
  apply wp_bind, wp_onErr, wpRescale. intros corr1 st16 Hcorr1.
  apply wp_bind, wp_onErr, wpMul. intros corr2 st17 Hcorr2.
  apply wp_onErr, wpRescale. intros r st18 Hr. apply HP.
  rewrite Hr, Hcorr2, Hcorr1, Hcorr, Hcov, HeXY', HeXY, HeXeY', HeXeY, HsumXY,
    HmeanX, HmeanY, (Hinv 0%Z), (HinvX 0%Z), (HinvY 0%Z).
  fold (varianceOf
    (blocksTotal (map (slotSquareMasked M) (combine xs vs)) (MaxSlots B))
    (blocksTotal (map (slotProduct M) (combine xs vs)) (MaxSlots B))
    (blocksTotal (map (slot M) vs) (MaxSlots B))) in HvarX.
  fold (varianceOf
    (blocksTotal (map (slotSquareMasked M) (combine ys vs)) (MaxSlots B))
    (blocksTotal (map (slotProduct M) (combine ys vs)) (MaxSlots B))
    (blocksTotal (map (slot M) vs) (MaxSlots B))) in HvarY.
  apply Qmult_comp; [apply Qmult_comp |].
  - apply Qplus_comp; [| reflexivity].
    apply Qmult_comp; [reflexivity |].
    apply (newtonMap_iter_compat 1 _ _ _ _ Hcount).
  - apply (newtonMap_iter_compat 2 _ _ _ _ HvarX).
  - apply (newtonMap_iter_compat 2 _ _ _ _ HvarY).
Qed.

Lemma blocksTotal_times_slotsAre (masks : list Ct) (gs : list (Z -> Q)) (n : Z) :
  slotsAre M masks gs ->
  forall xs,
    blocksTotal (map (slotProduct M) (combine xs masks)) n
    == blocksTotal (map (slotTimes M) (combine xs gs)) n.
Proof.
  intros H. unfold blocksTotal.
  induction H as [| c g masks gs Hc _ IH]; intros [| x xs]; cbn [combine map sumList];
    try reflexivity.
  rewrite IH. apply Qplus_comp; [| reflexivity].
  apply sumSlotsOf_ext. intros i. unfold slotProduct, slotTimes. cbn [fst snd].
  rewrite (Hc i). reflexivity.
Qed.

Lemma blocksTotal_square_slotsAre (masks : list Ct) (gs : list (Z -> Q)) (n : Z) :
  slotsAre M masks gs ->
  forall xs,
    blocksTotal (map (slotSquareMasked M) (combine xs masks)) n
    == blocksTotal (map (slotSquareTimes M) (combine xs gs)) n.
Proof.
  intros H. unfold blocksTotal.
  induction H as [| c g masks gs Hc _ IH]; intros [| x xs]; cbn [combine map sumList];
    try reflexivity.
  rewrite IH. apply Qplus_comp; [| reflexivity].
  apply sumSlotsOf_ext. intros i. unfold slotSquareMasked, slotSquareTimes.
  cbn [fst snd]. rewrite (Hc i). reflexivity.
Qed.

Lemma maskVectors_length (content : Categorical.Condition -> Z -> Z -> Q)
      (conditions : list Categorical.Condition) (validityBlocks : list Ct) :
  List.length (maskVectors M content conditions validityBlocks)
  = List.length validityBlocks.
Proof. unfold maskVectors. rewrite length_map, length_combine, length_seq. lia. Qed.

Lemma wp_Ba (targetBlocks validityBlocks : list Ct)
      (conditions : list Categorical.Condition) (bmvStore : Categorical.BMVStore Ct)
      (content : Categorical.Condition -> Z -> Z -> Q) (k : Z)
      (st : Stats) (P : Ct -> Stats -> Prop) :
  (0 <= k <= 62)%Z -> MaxSlots B = (2 ^ k)%Z ->
  List.length targetBlocks = List.length validityBlocks -> targetBlocks <> [] ->
  bmvContent M bmvStore content conditions ->
  (bmvServed bmvStore conditions (len validityBlocks) \/ F) ->
  (forall r st',
      slot M r 0 ==
      blocksTotal (map (slotTimes M)
                       (combine targetBlocks
                                (maskVectors M content conditions validityBlocks)))
                  (MaxSlots B)
      * newtonInverse
          (blocksTotal (maskVectors M content conditions validityBlocks) (MaxSlots B)) ->
      P r st') ->
  wp F (Categorical.Ba B (Categorical.NewCategoricalOp e) targetBlocks validityBlocks
                       conditions bmvStore) st P.
Proof.
  intros Hk HS Hlen Hne Hcontent Hserved HP. unfold Categorical.Ba.
  apply wp_bind, wp_onErr, (wpBuildMask _ _ _ content); try assumption.
  intros masks st1 Hmasks. cbn [Categorical.numericOp Categorical.NewCategoricalOp].
  assert (Hml : List.length targetBlocks = List.length masks).
  { pose proof Hmasks as Hl. unfold slotsAre in Hl. apply Forall2_length in Hl.
    rewrite maskVectors_length in Hl. congruence. }
  apply (wpMean targetBlocks masks k); try assumption.
  intros r st' Hr. apply HP. rewrite Hr.
  apply Qmult_comp.
  - apply blocksTotal_times_slotsAre, Hmasks.
  - apply newtonInverse_compat, blocksTotal_slotsAre, Hmasks.
Qed.

Lemma wp_Bv (targetBlocks validityBlocks : list Ct)
      (conditions : list Categorical.Condition) (bmvStore : Categorical.BMVStore Ct)
      (content : Categorical.Condition -> Z -> Z -> Q) (k : Z)
      (st : Stats) (P : Ct -> Stats -> Prop) :
  (0 <= k <= 62)%Z -> MaxSlots B = (2 ^ k)%Z ->
  List.length targetBlocks = List.length validityBlocks -> targetBlocks <> [] ->
  bmvContent M bmvStore content conditions ->
  (bmvServed bmvStore conditions (len validityBlocks) \/ F) ->
  (forall r st',
      slot M r 0 ==
      varianceOf
        (blocksTotal (map (slotSquareTimes M)
                          (combine targetBlocks
                                   (maskVectors M content conditions validityBlocks)))
                     (MaxSlots B))
        (blocksTotal (map (slotTimes M)
                          (combine targetBlocks
                                   (maskVectors M content conditions validityBlocks)))
                     (MaxSlots B))
        (blocksTotal (maskVectors M content conditions validityBlocks) (MaxSlots B)) ->
      P r st') ->
  wp F (Categorical.Bv B (Categorical.NewCategoricalOp e) targetBlocks validityBlocks
                       conditions bmvStore) st P.
Proof.
  intros Hk HS Hlen Hne Hcontent Hserved HP. unfold Categorical.Bv.
  apply wp_bind, wp_onErr, (wpBuildMask _ _ _ content); try assumption.
  intros masks st1 Hmasks. cbn [Categorical.numericOp Categorical.NewCategoricalOp].
  assert (Hml : List.length targetBlocks = List.length masks).
  { pose proof Hmasks as Hl. unfold slotsAre in Hl. apply Forall2_length in Hl.
    rewrite maskVectors_length in Hl. congruence. }
  apply (wpVariance targetBlocks masks k); try assumption.
  intros r st' Hr. apply HP. rewrite Hr. unfold varianceOf.
  pose proof (blocksTotal_times_slotsAre masks _ (MaxSlots B) Hmasks targetBlocks) as H1.
  pose proof (blocksTotal_square_slotsAre masks _ (MaxSlots B) Hmasks targetBlocks) as H2.
  pose proof (newtonInverse_compat _ _
                (blocksTotal_slotsAre B M masks _ (MaxSlots B) Hmasks)) as H3.
  rewrite H1, H2, H3. reflexivity.
Qed.

End CompositionLogic.

Lemma invSqrtError_unit (err : Q) :
  (- (3) <= err)%Q -> (err <= 1)%Q -> (0 <= invSqrtError err /\ invSqrtError err <= 1)%Q.
Proof.
  intros Hlo Hhi. split; [apply invSqrtError_bounds; assumption |].
  unfold invSqrtError.
  assert (E : (err * err * (3 + err) / 4 == err * err * (3 + err) * (1 # 4))%Q) by field.
  rewrite E.
  assert (H : (0 <= (1 - err) * ((err + 2) * (err + 2)))%Q).
  { apply Qmult_le_0_compat; [lra | apply Qsquare_nonneg]. }
  assert (E1 : ((1 - err) * ((err + 2) * (err + 2)) == 4 - err * err * (3 + err))%Q)
    by ring.
  rewrite E1 in H. lra.
Qed.

Lemma invSqrtError_iter_unit (err : Q) (k : nat) :
  (- (3) <= err)%Q -> (err <= 1)%Q ->
  (0 <= Nat.iter (S k) invSqrtError err /\ Nat.iter (S k) invSqrtError err <= 1)%Q.
Proof.
  intros Hlo Hhi. induction k as [| k IH].
  - cbn [Nat.iter]. apply invSqrtError_unit; assumption.
  - rewrite Nat.iter_succ. destruct IH as [IH0 IH1].
    apply invSqrtError_unit; lra.
Qed.

Lemma invSqrtError_iter_zero (err : Q) (k : nat) :
  (err == 0)%Q -> (Nat.iter k invSqrtError err == 0)%Q.
Proof.
  intros H. induction k as [| k IH]; [exact H |].
  rewrite Nat.iter_succ, (invSqrtError_compat _ _ IH). reflexivity.
Qed.

Lemma newtonInvSqrt_error (v : Q) :
  (v * newtonInvSqrt v ^ 2 == 1 - invSqrtErrorAfter v)%Q.
Proof.
  unfold newtonInvSqrt, invSqrtErrorAfter.
  pose proof (newton2_error_iter v (InitialGuess DefaultINVSQRTConfig)
                (Z.to_nat (Iterations DefaultINVSQRTConfig))) as H.
  lra.
Qed.

Lemma newtonInvSqrt_four (v : Q) : (v == 4)%Q -> (newtonInvSqrt v == 1 # 2)%Q.
Proof.
  intros Hv. unfold newtonInvSqrt.
  induction (Z.to_nat (Iterations DefaultINVSQRTConfig)) as [| k IH]; [reflexivity |].
  rewrite Nat.iter_succ, (newtonMap_compat 2 _ _ _ _ Hv IH). reflexivity.
Qed.

(** Stdev: under the conditions of [Variance], a result [Stdev] returns
    holds in slot 0 the variance V times the Newton inverse square root r
    of V (21 steps from 1/2).  Its square is V (1 - err), err being the
    error 1 - V r^2 the iteration ends with; for 0 <= V <= 16 that error
    lies between 0 and 1, so the square lies between 0 and V, and for
    V = 4 the result is exactly 2.  [Stdev] returns whenever backend and
    bootstrapper do not fail. *)
Theorem Stdev_squares_to_variance {Ct : Type} (B : Backend Ct) (M : PlainModel B)
        (n : NumericOp Ct) (xs vs : list Ct) (k : Z) :
  0 <= k <= 62 -> MaxSlots B = 2 ^ k ->
  BootstrapKeepsSlots B M (eval n) ->
  List.length xs = List.length vs -> xs <> [] ->
  let V := varianceOf
             (blocksTotal (map (slotSquareMasked M) (combine xs vs)) (MaxSlots B))
             (blocksTotal (map (slotProduct M) (combine xs vs)) (MaxSlots B))
             (blocksTotal (map (slot M) vs) (MaxSlots B)) in
  (forall st r st',
      Stdev B n xs vs st = (Ok r, st') ->
      (slot M r 0 == V * newtonInvSqrt V)%Q /\
      (slot M r 0 ^ 2 == V * (1 - invSqrtErrorAfter V))%Q /\
      ((0 <= V)%Q -> (V <= 16)%Q ->
       (0 <= invSqrtErrorAfter V)%Q /\ (invSqrtErrorAfter V <= 1)%Q /\
       (0 <= slot M r 0 ^ 2)%Q /\ (slot M r 0 ^ 2 <= V)%Q) /\
      ((V == 4)%Q -> (slot M r 0 == 2)%Q)) /\
  (BackendTotal B -> BootstrapTotal (eval n) ->
   forall st, exists r st', Stdev B n xs vs st = (Ok r, st')).
Proof.
  intros Hk HS Hboot Hlen Hne V.
  change (Stdev B n xs vs) with (Stdev B (NewNumericOp (eval n)) xs vs).
  destruct (wp_settles (Stdev B (NewNumericOp (eval n)) xs vs)
              (BackendTotal B /\ BootstrapTotal (eval n))
              (fun _ r _ => (slot M r 0 == V * newtonInvSqrt V)%Q)) as [Hret Htot].
  { intros F HF st. destruct (both_or HF) as [HF1 HF2].
    apply (wp_Stdev B M (eval n) F HF1 HF2 Hboot xs vs k); try assumption.
    intros r _ Hr. exact Hr. }
  split.
  - intros st r st' E. pose proof (Hret st r st' E) as Hr.
    assert (Hsq : (slot M r 0 ^ 2 == V * (1 - invSqrtErrorAfter V))%Q).
    { rewrite Hr, <- newtonInvSqrt_error. ring. }
    split; [exact Hr |]. split; [exact Hsq |]. split.
    + intros H0 H16.
      assert (Herr : (0 <= invSqrtErrorAfter V /\ invSqrtErrorAfter V <= 1)%Q).
      { unfold invSqrtErrorAfter.
        change (Z.to_nat (Iterations DefaultINVSQRTConfig)) with 21%nat.
        apply (invSqrtError_iter_unit _ 20).
        - change (InitialGuess DefaultINVSQRTConfig ^ 2)%Q with (1 # 4)%Q. lra.
        - change (InitialGuess DefaultINVSQRTConfig ^ 2)%Q with (1 # 4)%Q. lra. }
      destruct Herr as [He0 He1].
      split; [exact He0 |]. split; [exact He1 |].
      assert (Hp : (0 <= V * (1 - invSqrtErrorAfter V))%Q)
        by (apply Qmult_le_0_compat; lra).
      assert (Hq : (0 <= V * invSqrtErrorAfter V)%Q)
        by (apply Qmult_le_0_compat; lra).
      rewrite Hsq. split; [exact Hp |]. lra.
    + intros H4. rewrite Hr, (newtonInvSqrt_four V H4), H4. reflexivity.
  - intros T Tb st. apply Htot. split; assumption.
Qed.

Lemma Stdev_squares_to_variance_witness :
  ((0 <= 2 <= 62 /\ MaxSlots (Ideal.backend 4) = 2 ^ 2) /\
   BootstrapKeepsSlots (Ideal.backend 4) (idealModel 4) (eval (NewNumericOp idealEvalBtp)) /\
   (List.length sampleData = List.length sampleValidityTwo /\ sampleData <> [])) /\
  (forall st r st',
      Stdev (Ideal.backend 4) (NewNumericOp idealEvalBtp) sampleData sampleValidityTwo st
      = (Ok r, st') ->
      (slot (idealModel 4) r 0
       == varianceOf
            (blocksTotal (map (slotSquareMasked (idealModel 4))
                              (combine sampleData sampleValidityTwo))
                         (MaxSlots (Ideal.backend 4)))
            (blocksTotal (map (slotProduct (idealModel 4))
                              (combine sampleData sampleValidityTwo))
                         (MaxSlots (Ideal.backend 4)))
            (blocksTotal (map (slot (idealModel 4)) sampleValidityTwo)
                         (MaxSlots (Ideal.backend 4)))
          * newtonInvSqrt
              (varianceOf
                 (blocksTotal (map (slotSquareMasked (idealModel 4))
                                   (combine sampleData sampleValidityTwo))
                              (MaxSlots (Ideal.backend 4)))
                 (blocksTotal (map (slotProduct (idealModel 4))
                                   (combine sampleData sampleValidityTwo))
                              (MaxSlots (Ideal.backend 4)))
                 (blocksTotal (map (slot (idealModel 4)) sampleValidityTwo)
                              (MaxSlots (Ideal.backend 4)))))%Q).
Proof.
  assert (H1 : 0 <= 2 <= 62) by lia.
  assert (H2 : MaxSlots (Ideal.backend 4) = 2 ^ 2) by reflexivity.
  assert (H3 : BootstrapKeepsSlots (Ideal.backend 4) (idealModel 4)
                                   (eval (NewNumericOp idealEvalBtp)))
    by (apply (ideal_bootstrap_keeps 4 _ 10); reflexivity).
  assert (H4 : List.length sampleData = List.length sampleValidityTwo) by reflexivity.
  assert (H5 : sampleData <> []) by discriminate.
  split; [split; [split | split; [| split]]; assumption |].
  intros st r st' E.
  exact (proj1 (proj1 (Stdev_squares_to_variance (Ideal.backend 4) (idealModel 4)
                         (NewNumericOp idealEvalBtp) sampleData sampleValidityTwo 2
                         H1 H2 H3 H4 H5) st r st' E)).
Defined.

(** Correlation: for data blocks x and y and as many mask blocks, a result
    [Correlation] returns holds in slot 0 the covariance
    E[XY] - E[X] E[Y], every mean taken with the Newton reciprocal of the
    count, times the Newton inverse square roots rx and ry of the two
    variances; so its square times the two variances is the squared
    covariance times (1 - errx) (1 - erry), the errors the two iterations
    end with.  [Correlation] returns whenever backend and bootstrapper do
    not fail. *)
Theorem Correlation_normalises_the_covariance {Ct : Type} (B : Backend Ct)
        (M : PlainModel B) (n : NumericOp Ct) (xs ys vs : list Ct) (k : Z) :
  0 <= k <= 62 -> MaxSlots B = 2 ^ k ->
  BootstrapKeepsSlots B M (eval n) ->
  List.length xs = List.length ys -> List.length xs = List.length vs -> xs <> [] ->
  let c := blocksTotal (map (slot M) vs) (MaxSlots B) in
  let sx := blocksTotal (map (slotProduct M) (combine xs vs)) (MaxSlots B) in
  let sy := blocksTotal (map (slotProduct M) (combine ys vs)) (MaxSlots B) in
  let sxy := blocksTotal (map (slotProduct3 M) (combine (combine xs ys) vs))
                         (MaxSlots B) in
  let VX := varianceOf
              (blocksTotal (map (slotSquareMasked M) (combine xs vs)) (MaxSlots B))
              sx c in
  let VY := varianceOf
              (blocksTotal (map (slotSquareMasked M) (combine ys vs)) (MaxSlots B))
              sy c in
  let cov := (sxy * newtonInverse c
              - (sx * newtonInverse c) * (sy * newtonInverse c))%Q in
  (forall st r st',
      Correlation B n xs ys vs st = (Ok r, st') ->
      (slot M r 0 == cov * newtonInvSqrt VX * newtonInvSqrt VY)%Q /\
      (slot M r 0 ^ 2 * VX * VY
       == cov ^ 2 * (1 - invSqrtErrorAfter VX) * (1 - invSqrtErrorAfter VY))%Q) /\
  (BackendTotal B -> BootstrapTotal (eval n) ->
   forall st, exists r st', Correlation B n xs ys vs st = (Ok r, st')).
Proof.
  intros Hk HS Hboot Hxy Hxv Hne c sx sy sxy VX VY cov.
  change (Correlation B n xs ys vs)
    with (Correlation B (NewNumericOp (eval n)) xs ys vs).
  destruct (wp_settles (Correlation B (NewNumericOp (eval n)) xs ys vs)
              (BackendTotal B /\ BootstrapTotal (eval n))
              (fun _ r _ =>
                 (slot M r 0 == cov * newtonInvSqrt VX * newtonInvSqrt VY)%Q))
    as [Hret Htot].
  { intros F HF st. destruct (both_or HF) as [HF1 HF2].
    apply (wp_Correlation B M (eval n) F HF1 HF2 Hboot xs ys vs k); try assumption.
    intros r _ Hr. exact Hr. }
  split.
  - intros st r st' E. pose proof (Hret st r st' E) as Hr.
    split; [exact Hr |].
    rewrite Hr, <- (newtonInvSqrt_error VX), <- (newtonInvSqrt_error VY). ring.
  - intros T Tb st. apply Htot. split; assumption.
Qed.

Lemma Correlation_normalises_the_covariance_witness :
  ((0 <= 2 <= 62 /\ MaxSlots (Ideal.backend 4) = 2 ^ 2) /\
   BootstrapKeepsSlots (Ideal.backend 4) (idealModel 4) (eval (NewNumericOp idealEvalBtp)) /\
   (List.length sampleData = List.length sampleData /\
    List.length sampleData = List.length sampleValidityTwo /\ sampleData <> []) /\
   BackendTotal (Ideal.backend 4) /\ BootstrapTotal (eval (NewNumericOp idealEvalBtp))) /\
  (forall st, exists r st',
      Correlation (Ideal.backend 4) (NewNumericOp idealEvalBtp) sampleData sampleData
                  sampleValidityTwo st = (Ok r, st')).
Proof.
  assert (H1 : 0 <= 2 <= 62) by lia.
  assert (H2 : MaxSlots (Ideal.backend 4) = 2 ^ 2) by reflexivity.
  assert (H3 : BootstrapKeepsSlots (Ideal.backend 4) (idealModel 4)
                                   (eval (NewNumericOp idealEvalBtp)))
    by (apply (ideal_bootstrap_keeps 4 _ 10); reflexivity).
  assert (H4 : List.length sampleData = List.length sampleData) by reflexivity.
  assert (H5 : List.length sampleData = List.length sampleValidityTwo) by reflexivity.
  assert (H6 : sampleData <> []) by discriminate.
  assert (H7 : BackendTotal (Ideal.backend 4)) by apply ideal_total.
  assert (H8 : BootstrapTotal (eval (NewNumericOp idealEvalBtp))).
  { exists (Ideal.btp 10). split; [reflexivity |]. intros a. eexists. reflexivity. }
  split; [split; [split | split; [| split; [split; [| split] | split]]]; assumption |].
  exact (proj2 (Correlation_normalises_the_covariance (Ideal.backend 4) (idealModel 4)
                  (NewNumericOp idealEvalBtp) sampleData sampleData sampleValidityTwo 2
                  H1 H2 H3 H4 H5 H6) H7 H8).
Defined.

(** Ba and Bv: on S = 2^k slots, for as many target blocks as validity
    blocks (at least one), when the BMV blocks of the store hold the slot
    vectors [content], a result of [Ba] holds in slot 0 the sum of target
    times mask over all rows, times the Newton reciprocal of the sum of
    the masks, the mask of a row being validity times the BMV of every
    condition: the mean [Mean] computes over the rows that meet all
    conditions.  A result of [Bv] holds the variance [Variance] computes
    over these rows.  Both return whenever backend and bootstrapper do not
    fail and the store serves the BMV blocks. *)
Theorem Ba_Bv_average_the_matching_rows {Ct : Type} (B : Backend Ct) (M : PlainModel B)
        (e : Evaluator Ct) (targetBlocks validityBlocks : list Ct)
        (conditions : list Categorical.Condition) (bmvStore : Categorical.BMVStore Ct)
        (content : Categorical.Condition -> Z -> Z -> Q) (k : Z) :
  0 <= k <= 62 -> MaxSlots B = 2 ^ k ->
  BootstrapKeepsSlots B M e ->
  List.length targetBlocks = List.length validityBlocks -> targetBlocks <> [] ->
  bmvContent M bmvStore content conditions ->
  let masks := maskVectors M content conditions validityBlocks in
  let c := blocksTotal masks (MaxSlots B) in
  let s := blocksTotal (map (slotTimes M) (combine targetBlocks masks)) (MaxSlots B) in
  let s2 := blocksTotal (map (slotSquareTimes M) (combine targetBlocks masks))
                        (MaxSlots B) in
  (forall st r st',
      Categorical.Ba B (Categorical.NewCategoricalOp e) targetBlocks validityBlocks
                     conditions bmvStore st = (Ok r, st') ->
      (slot M r 0 == s * newtonInverse c)%Q) /\
  (forall st r st',
      Categorical.Bv B (Categorical.NewCategoricalOp e) targetBlocks validityBlocks
                     conditions bmvStore st = (Ok r, st') ->
      (slot M r 0 == varianceOf s2 s c)%Q) /\
  (BackendTotal B -> BootstrapTotal e ->
   bmvServed bmvStore conditions (len validityBlocks) ->
   forall st,
     (exists r st',
         Categorical.Ba B (Categorical.NewCategoricalOp e) targetBlocks validityBlocks
                        conditions bmvStore st = (Ok r, st')) /\
     (exists r st',
         Categorical.Bv B (Categorical.NewCategoricalOp e) targetBlocks validityBlocks
                        conditions bmvStore st = (Ok r, st'))).
Proof.
  intros Hk HS Hboot Hlen Hne Hcontent masks c s s2.
  destruct (wp_settles
              (Categorical.Ba B (Categorical.NewCategoricalOp e) targetBlocks
                              validityBlocks conditions bmvStore)
              ((BackendTotal B /\ BootstrapTotal e) /\
               bmvServed bmvStore conditions (len validityBlocks))
              (fun _ r _ => (slot M r 0 == s * newtonInverse c)%Q)) as [HretA HtotA].
  { intros F HF st. destruct (both_or HF) as [HF12 HF3].
    destruct (both_or HF12) as [HF1 HF2].
    apply (wp_Ba B M e F HF1 HF2 Hboot targetBlocks validityBlocks conditions bmvStore
                 content k); try assumption.
    intros r _ Hr. exact Hr. }
  destruct (wp_settles
              (Categorical.Bv B (Categorical.NewCategoricalOp e) targetBlocks
                              validityBlocks conditions bmvStore)
              ((BackendTotal B /\ BootstrapTotal e) /\
               bmvServed bmvStore conditions (len validityBlocks))
              (fun _ r _ => (slot M r 0 == varianceOf s2 s c)%Q)) as [HretV HtotV].
  { intros F HF st. destruct (both_or HF) as [HF12 HF3].
    destruct (both_or HF12) as [HF1 HF2].
    apply (wp_Bv B M e F HF1 HF2 Hboot targetBlocks validityBlocks conditions bmvStore
                 content k); try assumption.
    intros r _ Hr. exact Hr. }
  split; [exact HretA |]. split; [exact HretV |].
  intros T Tb Ts st.
  split; [apply HtotA | apply HtotV]; (split; [split |]; assumption).
Qed.

Lemma Ba_Bv_average_the_matching_rows_witness :
  ((0 <= 2 <= 62 /\ MaxSlots (Ideal.backend 4) = 2 ^ 2) /\
   BootstrapKeepsSlots (Ideal.backend 4) (idealModel 4) idealEvalBtp /\
   (List.length sampleData = List.length sampleValidity /\ sampleData <> []) /\
   bmvContent (idealModel 4) sampleBMVStore
              (fun _ _ => Ideal.val (Ideal.of_list 5 [1; 1; 0; 0]%Q)) sampleConditions) /\
  (forall st r st',
      Categorical.Ba (Ideal.backend 4) (Categorical.NewCategoricalOp idealEvalBtp)
                     sampleData sampleValidity sampleConditions sampleBMVStore st
      = (Ok r, st') ->
      (slot (idealModel 4) r 0
       == blocksTotal
            (map (slotTimes (idealModel 4))
                 (combine sampleData
                    (maskVectors (idealModel 4)
                       (fun _ _ => Ideal.val (Ideal.of_list 5 [1; 1; 0; 0]%Q))
                       sampleConditions sampleValidity)))
            (MaxSlots (Ideal.backend 4))
          * newtonInverse
              (blocksTotal
                 (maskVectors (idealModel 4)
                    (fun _ _ => Ideal.val (Ideal.of_list 5 [1; 1; 0; 0]%Q))
                    sampleConditions sampleValidity)
                 (MaxSlots (Ideal.backend 4))))%Q).
Proof.
  assert (H1 : 0 <= 2 <= 62) by lia.
  assert (H2 : MaxSlots (Ideal.backend 4) = 2 ^ 2) by reflexivity.
  assert (H3 : BootstrapKeepsSlots (Ideal.backend 4) (idealModel 4) idealEvalBtp)
    by (apply (ideal_bootstrap_keeps 4 _ 10); reflexivity).
  assert (H4 : List.length sampleData = List.length sampleValidity) by reflexivity.
  assert (H5 : sampleData <> []) by discriminate.
  split; [split; [split | split; [| split; [split |]]]; try assumption;
          exact sample_bmv_content |].
  exact (proj1 (Ba_Bv_average_the_matching_rows (Ideal.backend 4) (idealModel 4)
                 idealEvalBtp sampleData sampleValidity sampleConditions sampleBMVStore
                 (fun _ _ => Ideal.val (Ideal.of_list 5 [1; 1; 0; 0]%Q)) 2
                 H1 H2 H3 H4 H5 sample_bmv_content)).
Defined.
